(* ===== verification/_CoqProject ===== *)
-Q . S2P
Prelude.v
Types.v
Coding.v
Crc32.v
Hash.v
Bloom.v
SkipList.v
Cache.v
Posix.v
Wal.v
TableFormat.v
TableWriter.v
TableReader.v
Damage.v
Iterator.v
TableIter.v
Merge.v
Version.v
Db.v
DbInvariant.v
DbScan.v
Compaction.v
Leveling.v
Manifest.v
Merging.v
Recovery.v
Background.v
Refinement.v
Stats.v
Faultless.v
Durability.v
Foreign.v
DriverKeys.v
DriverBloom.v
DriverLoad.v
DriverCache.v
DoubleRank.v
DriverPercentiles.v
DriverReports.v
