(* ===== verification/Prelude.v ===== *)
(** * lsmdb: a verified model of an LSM-tree storage engine

    This library models the engine under src/ and include/lsmdb/ (C++17): a
    write-ahead log and a skip-list memtable take the writes; a full memtable is
    flushed to an immutable sorted table (SSTable) at level 0; a background thread
    merges tables into deeper levels; reads consult the memtable, then level 0
    newest first, then one table of each deeper level, through a bloom filter and
    an LRU block cache; a manifest names the tables of the current version, and
    opening a directory loads it and replays the log.

    ** How the code is translated

    - Every definition is executable. Integers are [Z] with the wrap-around of
      their C++ width written out ([u32], [u64], and [int32], whose overflow is
      undefined); strings and buffers are lists of bytes ([bytes]).
    - A function that reads memory returns [result] (Types.v): [Ok], an early
      return [Err] with a [Status], or [UB] for undefined behaviour such as a read
      outside a buffer. Theorems prove [Ok], so they exclude [UB].
    - System calls (Posix.v) act on a [World]: a map from paths to files, which know
      how many of their bytes are durable and what they held before a truncation
      that is not, and an oracle with the outcome of each call (success, a short
      count, an errno). A theorem over all worlds covers all patterns of faults.
      [strerror] is a parameter (class [Os]); the coin flips and the node size of
      the skip list are parameters (class [MemEnv]).
    - A crash of the machine ([crash_world], Recovery.v) leaves of each file its
      synced bytes and any part of the others, or undoes a truncation that no
      [fsync] covered; what is left counts as durable. A crash in the middle of a
      call is one after a call whose system calls fail from some point on.
    - A loop is a [Fixpoint] on fuel whose exhaustion is [UB], so that a theorem
      that ends in [Ok] also proves termination. The fuel is a bound computed from
      the data: the length of the buffer or vector for parsers and searches, the
      number of nodes of the heap for the skip list, and [records_bound] (every
      record takes at least a byte of its file) for scans and merges.
    - A [shared_ptr] to an immutable object is the object; mutable shared state
      (skip-list nodes, cache list nodes) lives in a heap with locations.

    ** Files

    - Prelude: bytes and their order, machine integers, slices, tactics, hints.
    - Types: [Status], [LookupResult], [ValueType], records ([entry]), [result],
      the binary search of the index and of the levels.
    - Coding (coding.h), Crc32 (crc32.cpp), Hash (hash.cpp), Bloom (bloom.cpp):
      the codecs and hashes. CRC equals the bitwise shift register and detects
      bursts of four bytes; MurmurHash3 equals a reference by arithmetic on chunks,
      up to the length at which its [int] index overflows; a serialized filter has no false negatives and is probed inside its blob.
    - SkipList (skiplist.cpp): nodes in a heap with forward pointers; for every
      tower shape it implements a sorted map and iterates it in order, and its
      destructor frees every node once.
    - Cache (cache.cpp): map and recency list; refines an abstract LRU list that
      follows cache.h, but for a refresh that exceeds the budget.
    - Posix, Wal (wal.cpp): appending and replaying under faults and crashes.
    - TableFormat, TableWriter, TableReader, TableIter (sstable.cpp): the file
      format, the writer under faults, opening, CRC-checked and cached block reads,
      lookups and iteration. A session that reports success leaves a durable file
      that serves exactly its records. Damage: a file with a burst of damaged bytes
      does not open, or tells the truth or reports the damage at every lookup.
    - Iterator (internal_iterator.h): class [InternalIterator] for the virtual
      functions and class [IteratorLaws] for the contract, discharged by tables,
      by the memtable and by their sum.
    - Merge (merging_iterator.cpp): the k-way merge, proved against the contract
      and equal to an abstract merge of runs, newest first.
    - Version (db.cpp): file names, file metadata, versions, point lookups through
      the levels, [NeedsCompaction], [PickCompaction], [InstallCompaction].
    - Db (db.cpp): class [DB] and its operations as functions of the database and
      the world: [DB_Put], [DB_Delete], [FlushMemTable], [DB_Get], [DB_Scan],
      [WriteManifest], [LoadManifest], [RemoveOrphanFiles], [Recover], [DB_Open].
    - DbInvariant: the in-memory invariant [db_ok] and the refinement of an
      abstract history of mutations by sessions of calls. DbScan: range scans.
    - Compaction, Leveling: [DoCompaction] as a run, one turn of its loop at a time,
      and an installation; a picked compaction is a plan over the levels, and
      installing it keeps the levels sorted and the values readable.
    - Manifest: the bytes of the manifest, writing and loading it, and what the
      publication of a flushed table does to the disk.
    - Merging: a compaction in flight, between two turns or before its
      installation, and that steps of the client leave it intact.
    - Background: [BackgroundLoop] and the caller's thread as a transition system.
      Its steps are a turn of [BackgroundLoop], a turn of the loop of
      [DoCompaction], the installation, a call up to the publication of a flushed
      table, the publication, a wake-up and the start of the destructor: the lock
      is taken at most once in each, and what is done without it is private to the
      thread. The invariant holds for every interleaving of the steps, from every
      state in which [DB_Open] leaves the system ([starts]). Refinement: what the
      runs show to the caller, and the destructor. Stats: [GetStats] and the test
      hooks.
    - Recovery: what a crash leaves of a disk and that [DB_Open] rebuilds the
      database from it. Durability: what the disk holds while the threads
      interleave, with synchronous writes and without them, and what a crash in the
      middle of any step recovers.
    - Faultless: the system when no system call fails: calls succeed, and
      [TEST_WaitForCompactions] returns.
    - Foreign: opening and reading a directory that the program did not write, with
      any bytes for its manifest and log; what the reader of tables takes on trust
      ([sound_table]), which written tables keep under a burst of damage.
    - The measurement programs under bench/. DriverKeys: their keys and values.
      DriverBloom (bench_bloom.cpp): the program up to its counts. DriverLoad
      (bench_compaction.cpp, bench_vs_rocksdb.cpp) and DriverCache (bench_cache.cpp):
      their calls as runs of the system. DoubleRank, DriverPercentiles: the latency
      summaries (bench_vs_rocksdb.cpp, bench_cache.cpp, bench_gbench.cpp), whose
      ranks are computed in double arithmetic. DriverReports: the timed workloads
      over a clock (class [Clock]), the two halves of the comparison with RocksDB, the
      benchmarks of bench_gbench.cpp and the reports of the other two programs.

    ** What the theorems show

    - Functional correctness up to the public interface: lookups, scans, flushes,
      compactions and the block cache together implement a map from keys to values
      (db_refines_history, background_refines_history, scan_returns_live_range,
      reads_see_acknowledged_writes), from any directory that opens. The lemma
      split_call_is_call says that the two arrangements of a call, in one step and in
      two, agree.
    - Durability: crash_keeps_acknowledged_writes, for crashes in the middle of any
      step of either thread, failed flushes and the end of a process with asynchronous
      writes included; async_crash_shows_recent_past, for a crash of the machine with
      asynchronous writes that does not undo the truncation of the log, which takes at
      most the mutations since the last published flush; with
      wal_crash_keeps_acknowledged and manifest_roundtrip as parts. Both session
      theorems start from a disk whose log ends without a torn record ([clean_disk]);
      they cover the next session only if the crash left none ([untorn]), and
      torn_tail_loses_next_session shows what happens otherwise.
    - Progress: faultless_calls_succeed, compactions_settle and
      destructor_stops_thread.
    - Structure: levels_stay_sorted, compaction_merges_inputs, metadata_fits_width,
      stats_describe_levels, and the invariants of each component.
    - Hostile input: damage_never_misleads (a table under a burst of damage),
      foreign_disk_never_faults (a directory with arbitrary manifest and log),
      wal_replay_exact (an arbitrary log).
    - The measurement programs measure what they say: bloom_driver_counts,
      compaction_load_answers, comparison_measures, gbench_reads_hit,
      cache_driver_reads_hit, percentiles_in_range. comparison_measures also shows
      where the halves of the comparison differ: a wait for compactions, the time at
      which the first database is deleted, and the denominators of the two write
      amplifications.
    - Errors: what faults of the system calls and damaged files lead to, and the
      places where the code falls short of its comments (torn_tail_loses_next_session,
      async_crash_revives_old_value, corrupt_block_reveals_older,
      failed_compaction_installs_version, failed_put_poisons_log,
      unsynced_rename_loses_flush, empty_level0_pick_faults,
      footer_bound_check_wraps, and the examples bloom_reset_check_wraps and
      cache_refresh_exceeds_budget).

    ** Bounds

    A record (key, value and nine bytes of header) is at most 2^31 bytes
    ([rec_fits]), which keeps a block below the 4 GiB of its 32-bit length; a table
    has at most 2^25 records and the filter at most 100 bits per key, which keeps
    the filter's 32-bit bit count from wrapping; file numbers stay below 2^30. The
    hash of a key of 2^31 + 16 bytes or more is undefined (GetBlock64); the bloom
    filter and what uses it are modelled on the value of the hash, so lookups of such
    keys are out of the model. The theorems on sessions derive these from the number of calls; those on the
    background thread take them as [capacity], a test on the state before each
    step. The steps that [TEST_WaitForCompactions] waits for are bounded by
    [wait_fuel]: the records of the version, weighted by the levels below them,
    times the turns of one compaction.

    ** Not modelled

    - Data races: the plain counter [blocks_read_], and calls of several client
      threads at once, which the interface does not allow.
    - Durability of directory entries: creation, rename and unlink take effect at
      once and survive a crash, except in unsynced_rename_loses_flush. A crash does
      not reorder the bytes of a file, and what it leaves of a file is durable from
      then on.
    - Files that change while they are mapped, and memory exhaustion.
    - In the measurement programs: the random number generator (its draws are
      arguments), the formatting of what is printed, the ratios that need [exp] and
      [pow], the clocks of bench_bloom.cpp and bench_cache.cpp, RocksDB (known by the
      calls that it gets and by two counters) and the Google Benchmark harness.
    - Damage that a 32-bit checksum need not detect: more than four bytes apart, and
      any damage of a table's footer, which has no checksum.
    - Tests and build files.

    ** What is left

    Directory entries that a crash may lose, as a general crash model; the bytes that
    flushes and compactions count against the tables they write; how far the hit rate
    of a warmed cache is determined by its size. *)
From Stdlib Require Export ZArith Lia Sorted.
From Stdlib.Strings Require Import Byte.
From Stdlib Require Import Orders OrdersTac.
From Stdlib Require String.
Export String.StringSyntax.
Delimit Scope string_scope with string.
From stdpp Require Export prelude gmap countable list sorting.

#[global] Set Default Goal Selector "!".
Open Scope Z_scope.

(** ** Hint databases *)

Abbreviation byte := Corelib.Init.Byte.byte.

Create HintDb lsm discriminated.
Create Rewrite HintDb lsmlen.

(** ** Bytes and strings *)

(** A [std::string] is a sequence of 8-bit characters. *)
Abbreviation bytes := (list byte).

(** [static_cast<unsigned char>(c)]. *)
Definition byte_val (b : byte) : Z := Z.of_N (Byte.to_N b).

(** [static_cast<char>(v & 0xff)]: the low eight bits of an integer. *)
Definition byte_of (z : Z) : byte := default Byte.x00 (Byte.of_N (Z.to_N (z mod 256))).

(** The bytes of a string literal. *)
Definition lit (s : String.string) : bytes := String.list_byte_of_string s.
Arguments lit _%_string.

(** [s.size()]. *)
Definition blen {A} (l : list A) : Z := Z.of_nat (length l).

(** [std::string::compare]: [memcmp] on the common prefix, then the lengths;
    characters compare as unsigned bytes. *)
Fixpoint str_compare (a b : bytes) : comparison :=
  match a, b with
  | [], [] => Eq
  | [], _ :: _ => Lt
  | _ :: _, [] => Gt
  | x :: a', y :: b' =>
      match byte_val x ?= byte_val y with
      | Eq => str_compare a' b'
      | c => c
      end
  end.

Definition str_ltb (a b : bytes) : bool :=
  match str_compare a b with Lt => true | _ => false end.
Definition str_leb (a b : bytes) : bool :=
  match str_compare a b with Gt => false | _ => true end.
Definition str_eqb (a b : bytes) : bool :=
  match str_compare a b with Eq => true | _ => false end.

Definition str_lt (a b : bytes) : Prop := str_compare a b = Lt.
Definition str_le (a b : bytes) : Prop := str_compare a b <> Gt.

(** ** Machine integers *)

(** Conversions to the unsigned types of the code: reduction modulo [2^w]. *)
Definition u8 (z : Z) : Z := z mod 2 ^ 8.
Definition u32 (z : Z) : Z := z mod 2 ^ 32.
Definition u64 (z : Z) : Z := z mod 2 ^ 64.

Declare Scope uint_scope.
Delimit Scope uint_scope with uint.
Notation "a +u64 b" := (u64 (a + b)) (at level 50, left associativity) : uint_scope.
Notation "a -u64 b" := (u64 (a - b)) (at level 50, left associativity) : uint_scope.
Notation "a *u64 b" := (u64 (a * b)) (at level 40, left associativity) : uint_scope.
Notation "a <<u64 b" := (u64 (Z.shiftl a b)) (at level 40, left associativity) : uint_scope.
Notation "a +u32 b" := (u32 (a + b)) (at level 50, left associativity) : uint_scope.
Open Scope uint_scope.

Definition is_u32 (z : Z) : Prop := 0 <= z < 2 ^ 32.
Definition is_u64 (z : Z) : Prop := 0 <= z < 2 ^ 64.

(** ** Lists of bytes as memory *)

(** [slice m off n] is the [n] bytes at offset [off] of the memory region [m];
    [None] when the range is not inside the region. *)
Definition slice {A} (m : list A) (off n : Z) : option (list A) :=
  if (0 <=? off) && (0 <=? n) && (off + n <=? blen m)
  then Some (take (Z.to_nat n) (drop (Z.to_nat off) m)) else None.

(** ** Lemmas: bytes *)

Lemma byte_val_range b : 0 <= byte_val b < 256.
Proof.
  unfold byte_val. pose proof (Byte.to_N_bounded b). lia.
Qed.

Lemma byte_val_inj a b : byte_val a = byte_val b -> a = b.
Proof.
  unfold byte_val. intros H%N2Z.inj.
  pose proof (Byte.of_to_N a). pose proof (Byte.of_to_N b). congruence.
Qed.

Lemma byte_val_of z : byte_val (byte_of z) = z mod 256.
Proof.
  unfold byte_val, byte_of.
  pose proof (Z.mod_pos_bound z 256 eq_refl) as Hb.
  destruct (Byte.of_N (Z.to_N (z mod 256))) as [b|] eqn:E.
  - apply Byte.to_of_N in E. simpl. rewrite E. lia.
  - apply Byte.of_N_None_iff in E. lia.
Qed.

Lemma byte_of_val b : byte_of (byte_val b) = b.
Proof.
  apply byte_val_inj. rewrite byte_val_of.
  apply Z.mod_small, byte_val_range.
Qed.

#[global] Instance byte_eq_dec : EqDecision byte := Byte.byte_eq_dec.
#[global] Program Instance byte_countable : Countable byte :=
  inj_countable Byte.to_N Byte.of_N _.
Next Obligation. apply Byte.of_to_N. Qed.

(** ** Lemmas: the order on strings *)

Lemma str_compare_refl a : str_compare a a = Eq.
Proof. induction a as [|x a IH]; simpl; [done|]. by rewrite Z.compare_refl. Qed.

Lemma str_compare_eq a b : str_compare a b = Eq -> a = b.
Proof.
  revert b. induction a as [|x a IH]; intros [|y b]; simpl; try done.
  destruct (Z.compare_spec (byte_val x) (byte_val y)) as [E| |]; try done.
  intros ->%IH. by rewrite (byte_val_inj _ _ E).
Qed.

Lemma str_compare_antisym a b : str_compare b a = CompOpp (str_compare a b).
Proof.
  revert b. induction a as [|x a IH]; intros [|y b]; simpl; try done.
  rewrite (Z.compare_antisym (byte_val x)), (IH b).
  by destruct (byte_val x ?= byte_val y).
Qed.

Lemma str_lt_trans a b c : str_lt a b -> str_lt b c -> str_lt a c.
Proof.
  unfold str_lt. revert b c.
  induction a as [|x a IH]; intros [|y b] [|z c]; simpl; try done.
  destruct (Z.compare_spec (byte_val x) (byte_val y));
    destruct (Z.compare_spec (byte_val y) (byte_val z));
    destruct (Z.compare_spec (byte_val x) (byte_val z)); try done; try lia.
  apply IH.
Qed.

(** The strings with [str_lt] as a total order, for the [order] tactic. *)
Module StrOrder <: TotalOrder.
Definition t := bytes.
Definition eq := @eq bytes.
Definition lt := str_lt.
Definition le := str_le.
#[global] Instance eq_equiv : Equivalence eq := _.
#[global] Instance lt_strorder : StrictOrder lt.
Proof.
  split.
  - intros a. unfold complement, lt, str_lt. by rewrite str_compare_refl.
  - exact str_lt_trans.
Qed.
#[global] Instance lt_compat : Proper (eq ==> eq ==> iff) lt.
Proof. by intros ? ? -> ? ? ->. Qed.
Lemma lt_total x y : lt x y \/ eq x y \/ lt y x.
Proof.
  unfold lt, eq, str_lt. rewrite (str_compare_antisym x y).
  destruct (str_compare x y) eqn:E; simpl; auto.
  right; left. by apply str_compare_eq.
Qed.
Lemma le_lteq x y : le x y <-> lt x y \/ eq x y.
Proof.
  unfold le, lt, eq, str_le, str_lt. split.
  - destruct (str_compare x y) eqn:E; [right; by apply str_compare_eq|by left|done].
  - intros [->| ->]; [done|]. by rewrite str_compare_refl.
Qed.
End StrOrder.
Module StrTac := MakeOrderTac StrOrder StrOrder.

(** Decides goals about [str_lt], [str_le] and [=] on strings. *)
Ltac str_order :=
  cbv beta in *;
  change str_lt with StrOrder.lt in *; change str_le with StrOrder.le in *;
  change bytes with StrOrder.t in *;
  StrTac.order.


Lemma str_ltb_spec a b : reflect (str_lt a b) (str_ltb a b).
Proof. unfold str_ltb, str_lt. destruct (str_compare a b); by constructor. Qed.

Lemma str_leb_spec a b : reflect (str_le a b) (str_leb a b).
Proof. unfold str_leb, str_le. destruct (str_compare a b); constructor; naive_solver. Qed.

Lemma str_eqb_spec a b : reflect (a = b) (str_eqb a b).
Proof.
  unfold str_eqb. destruct (str_compare a b) eqn:E; constructor.
  - by apply str_compare_eq.
  - intros ->. by rewrite str_compare_refl in E.
  - intros ->. by rewrite str_compare_refl in E.
Qed.

Lemma str_eqb_refl a : str_eqb a a = true.
Proof. by destruct (str_eqb_spec a a). Qed.

Lemma str_compare_spec a b : CompareSpec (a = b) (str_lt a b) (str_lt b a) (str_compare a b).
Proof.
  destruct (str_compare a b) eqn:E; constructor.
  - by apply str_compare_eq.
  - done.
  - unfold str_lt. by rewrite str_compare_antisym, E.
Qed.

#[global] Instance str_lt_dec a b : Decision (str_lt a b).
Proof. unfold str_lt. solve_decision. Defined.
#[global] Instance str_le_dec a b : Decision (str_le a b).
Proof. unfold str_le. solve_decision. Defined.

(** Case analysis on the string comparisons of the goal or of a hypothesis. *)
Ltac str_case :=
  match goal with
  | |- context [str_ltb ?a ?b] => destruct (str_ltb_spec a b)
  | |- context [str_leb ?a ?b] => destruct (str_leb_spec a b)
  | |- context [str_eqb ?a ?b] => destruct (str_eqb_spec a b)
  | H : context [str_ltb ?a ?b] |- _ => destruct (str_ltb_spec a b)
  | H : context [str_leb ?a ?b] |- _ => destruct (str_leb_spec a b)
  | H : context [str_eqb ?a ?b] |- _ => destruct (str_eqb_spec a b)
  end.

(** ** Lemmas: machine integers *)

Lemma u32_range z : is_u32 (u32 z).
Proof. apply Z.mod_pos_bound. lia. Qed.
Lemma u64_range z : is_u64 (u64 z).
Proof. apply Z.mod_pos_bound. lia. Qed.
Lemma u8_small z : 0 <= z < 2 ^ 8 -> u8 z = z.
Proof. apply Z.mod_small. Qed.
Lemma u32_small z : 0 <= z < 2 ^ 32 -> u32 z = z.
Proof. apply Z.mod_small. Qed.
Lemma u64_small z : 0 <= z < 2 ^ 64 -> u64 z = z.
Proof. apply Z.mod_small. Qed.
#[export] Hint Resolve u32_range u64_range : lsm.

Lemma lor_lt_pow2 a b n : 0 <= n -> 0 <= a < 2 ^ n -> 0 <= b < 2 ^ n -> 0 <= Z.lor a b < 2 ^ n.
Proof.
  intros Hn [Ha Ha'] [Hb Hb'].
  assert (0 <= Z.lor a b) by (by apply Z.lor_nonneg).
  split; [done|].
  destruct (Z.eq_dec (Z.lor a b) 0) as [->|]; [apply Z.pow_pos_nonneg; lia|].
  apply Z.log2_lt_pow2; [lia|]. rewrite Z.log2_lor by done.
  destruct (Z.eq_dec a 0) as [->|]; destruct (Z.eq_dec b 0) as [->|].
  - by rewrite Z.lor_0_l in *.
  - apply Z.max_lub_lt; [|apply Z.log2_lt_pow2; lia].
    simpl. destruct (Z.eq_dec n 0); [subst; simpl in *; lia|lia].
  - apply Z.max_lub_lt; [apply Z.log2_lt_pow2; lia|].
    simpl. destruct (Z.eq_dec n 0); [subst; simpl in *; lia|lia].
  - apply Z.max_lub_lt; apply Z.log2_lt_pow2; lia.
Qed.

Lemma testbit_high a n i : 0 <= a < 2 ^ n -> 0 <= n <= i -> Z.testbit a i = false.
Proof.
  intros Ha Hi. rewrite <- (Z.mod_small a (2 ^ n)) by done.
  apply Z.mod_pow2_bits_high. lia.
Qed.

Lemma lt_pow2_testbit a n :
  0 <= n -> 0 <= a -> (forall i, n <= i -> Z.testbit a i = false) -> a < 2 ^ n.
Proof.
  intros Hn Ha Hb. destruct (Z.eq_dec a 0) as [->|]; [apply Z.pow_pos_nonneg; lia|].
  apply Z.log2_lt_pow2; [lia|].
  destruct (Z_lt_le_dec (Z.log2 a) n) as [|Hge]; [done|].
  specialize (Hb _ Hge). rewrite Z.bit_log2 in Hb; [done|lia].
Qed.

Lemma lxor_lt_pow2 a b n : 0 <= n -> 0 <= a < 2 ^ n -> 0 <= b < 2 ^ n -> 0 <= Z.lxor a b < 2 ^ n.
Proof.
  intros Hn Ha Hb. assert (0 <= Z.lxor a b) by (apply Z.lxor_nonneg; lia).
  split; [done|]. apply lt_pow2_testbit; [done..|]. intros i Hi.
  by rewrite Z.lxor_spec, !(testbit_high _ n) by lia.
Qed.

(** ** Lemmas: lengths and slices *)

Lemma blen_nil {A} : blen (@nil A) = 0.
Proof. done. Qed.
Lemma blen_cons {A} (x : A) l : blen (x :: l) = 1 + blen l.
Proof. unfold blen. simpl. lia. Qed.
Lemma blen_app {A} (l k : list A) : blen (l ++ k) = blen l + blen k.
Proof. unfold blen. rewrite length_app. lia. Qed.
Lemma blen_nonneg {A} (l : list A) : 0 <= blen l.
Proof. unfold blen. lia. Qed.
Lemma blen_map {A B} (f : A -> B) l : blen (map f l) = blen l.
Proof. unfold blen. by rewrite length_map. Qed.
Lemma blen_0 {A} (l : list A) : blen l = 0 -> l = [].
Proof. unfold blen. destruct l; simpl; [done|lia]. Qed.
#[export] Hint Rewrite @blen_nil @blen_cons @blen_app @blen_map : lsmlen.
#[export] Hint Resolve blen_nonneg : lsm.

(** Arithmetic on lengths: computes the lengths of concatenations, learns that
    the remaining ones are nonnegative, then [lia]. *)
Ltac learn_len :=
  repeat match goal with
  | |- context [blen ?l] =>
      lazymatch goal with H : 0 <= blen l |- _ => fail | _ => pose proof (blen_nonneg l) end
  | _ : context [blen ?l] |- _ =>
      lazymatch goal with H : 0 <= blen l |- _ => fail | _ => pose proof (blen_nonneg l) end
  end.
Ltac len := autorewrite with lsmlen in *; learn_len; lia.

(** Decides the integer tests of the goal that [lia] can decide. *)
Ltac zbool :=
  repeat match goal with
  | |- context [?a <? ?b] =>
      (rewrite (proj2 (Z.ltb_lt a b)) by lia) || (rewrite (proj2 (Z.ltb_ge a b)) by lia)
  | |- context [?a <=? ?b] =>
      (rewrite (proj2 (Z.leb_le a b)) by lia) || (rewrite (proj2 (Z.leb_gt a b)) by lia)
  | |- context [?a =? ?b] =>
      (rewrite (proj2 (Z.eqb_eq a b)) by lia) || (rewrite (proj2 (Z.eqb_neq a b)) by lia)
  end.

Lemma slice_Some {A} (m : list A) off n l :
  slice m off n = Some l ->
  0 <= off /\ 0 <= n /\ off + n <= blen m /\ blen l = n /\
  exists a b, m = a ++ l ++ b /\ blen a = off.
Proof.
  unfold slice. destruct (0 <=? off) eqn:E1, (0 <=? n) eqn:E2,
    (off + n <=? blen m) eqn:E3; simpl; try done.
  intros [= <-]. unfold blen in *. split_and!; try lia.
  - rewrite length_take, length_drop. lia.
  - exists (take (Z.to_nat off) m), (drop (Z.to_nat n) (drop (Z.to_nat off) m)).
    rewrite take_drop, take_drop. split; [done|]. rewrite length_take. lia.
Qed.

Lemma slice_mid {A} (a l b : list A) : slice (a ++ l ++ b) (blen a) (blen l) = Some l.
Proof.
  unfold slice. replace ((_ && _) && _) with true
    by (symmetry; rewrite !andb_true_iff, !Z.leb_le; len).
  unfold blen. rewrite !Nat2Z.id, drop_app_length, take_app_length. done.
Qed.

Lemma slice_eq {A} (m a l b : list A) off n :
  m = a ++ l ++ b -> off = blen a -> n = blen l -> slice m off n = Some l.
Proof. intros -> -> ->. apply slice_mid. Qed.

Lemma slice_app_r {A} (a b : list A) off n :
  0 <= off -> slice (a ++ b) (blen a + off) n = slice b off n.
Proof.
  intros Hoff. unfold slice.
  replace (blen a + off + n <=? blen (a ++ b)) with (off + n <=? blen b)
    by (apply eq_true_iff_eq; rewrite !Z.leb_le; len).
  replace (0 <=? blen a + off) with (0 <=? off)
    by (apply eq_true_iff_eq; rewrite !Z.leb_le; len).
  destruct ((_ && _) && _); [|done]. f_equal. f_equal.
  replace (Z.to_nat (blen a + off)) with (length a + Z.to_nat off)%nat by (unfold blen; lia).
  by rewrite drop_app_add.
Qed.

Lemma slice_app_l {A} (a b : list A) off n :
  off + n <= blen a -> slice (a ++ b) off n = slice a off n.
Proof.
  intros Hle. unfold slice.
  replace (off + n <=? blen (a ++ b)) with (off + n <=? blen a)
    by (apply eq_true_iff_eq; rewrite !Z.leb_le; len).
  destruct ((0 <=? off) && (0 <=? n) && (off + n <=? blen a)) eqn:E; [|done].
  apply andb_true_iff in E as [[E1 E2]%andb_true_iff E3].
  f_equal. unfold blen in *. rewrite drop_app_le by lia.
  rewrite take_app_le by (rewrite length_drop; lia). done.
Qed.

Lemma slice_None {A} (m : list A) off n :
  slice m off n = None <-> off < 0 \/ n < 0 \/ blen m < off + n.
Proof.
  unfold slice. destruct ((0 <=? off) && (0 <=? n) && (off + n <=? blen m)) eqn:E.
  - apply andb_true_iff in E as [[E1 E2]%andb_true_iff E3].
    split; [done|]. lia.
  - apply andb_false_iff in E as [[E|E]%andb_false_iff|E]; split; intros; try done; lia.
Qed.

Lemma app_len_inj {A} (a b x y : list A) : blen a = blen b -> a ++ x = b ++ y -> a = b /\ x = y.
Proof. unfold blen. intros H. apply app_inj_1. lia. Qed.

(** ** Lemmas: lists *)

Lemma last_snoc_inv {A} (l : list A) x : last l = Some x -> exists l', l = l' ++ [x].
Proof.
  induction l as [|l y _] using rev_ind; [done|].
  rewrite last_snoc. intros [= ->]. eauto.
Qed.

Lemma find_app {A} (f : A -> bool) l k :
  List.find f (l ++ k) = match List.find f l with Some x => Some x | None => List.find f k end.
Proof. induction l as [|x l IH]; simpl; [done|]. by destruct (f x). Qed.

Lemma find_Some_split {A} (f : A -> bool) l x :
  List.find f l = Some x ->
  f x = true /\ exists p q, l = p ++ x :: q /\ Forall (fun y => f y = false) p.
Proof.
  induction l as [|y l IH]; simpl; [done|]. destruct (f y) eqn:E.
  - intros [= ->]. split; [done|]. by exists [], l.
  - intros (Hx & p & q & -> & Hp)%IH. split; [done|]. exists (y :: p), q. auto.
Qed.

Lemma find_None {A} (f : A -> bool) l :
  List.find f l = None <-> Forall (fun y => f y = false) l.
Proof.
  induction l as [|y l IH]; simpl; [done|]. rewrite Forall_cons, <- IH.
  destruct (f y); naive_solver.
Qed.

(** Updating one position of a tabulated list. *)
Lemma insert_map_seq {A} (f : nat -> A) n j v :
  (j < n)%nat ->
  <[j := v]> (map f (seq 0 n)) = map (fun i => if (i =? j)%nat then v else f i) (seq 0 n).
Proof.
  intros Hj. apply list_eq. intros i.
  destruct (decide (i = j)) as [->|Hne].
  - rewrite list_lookup_insert_eq by (by rewrite length_map, length_seq).
    rewrite list_lookup_fmap, lookup_seq_lt by done. simpl. by rewrite Nat.eqb_refl.
  - rewrite list_lookup_insert_ne by done. rewrite !list_lookup_fmap.
    destruct (decide (i < n)%nat) as [Hi|Hi].
    + rewrite lookup_seq_lt by done. simpl. by rewrite (proj2 (Nat.eqb_neq i j)).
    + by rewrite lookup_seq_ge by lia.
Qed.

Lemma map_seq_ext {A} (f g : nat -> A) n :
  (forall i, (i < n)%nat -> f i = g i) -> map f (seq 0 n) = map g (seq 0 n).
Proof. intros H. apply map_ext_in. intros i [_ Hi]%in_seq. by apply H. Qed.

Lemma replicate_map_seq {A} (x : A) a n : replicate n x = map (fun _ => x) (seq a n).
Proof. revert a. induction n as [|n IH]; intros a; simpl; [done|]. by rewrite (IH (S a)). Qed.

(** Searching for, and filtering out, the element with a given unique tag. *)
Lemma unique_tag {A B} (f : A -> B) (g : A -> bool) p x q :
  NoDup (map f (p ++ x :: q)) -> (forall y, g y = true <-> f y = f x) ->
  List.find g (p ++ x :: q) = Some x /\
  List.filter (fun y => negb (g y)) (p ++ x :: q) = p ++ q.
Proof.
  intros Hnd Hg. rewrite map_app in Hnd. simpl in Hnd.
  apply NoDup_app in Hnd as (_ & Hp & [Hq _]%NoDup_cons).
  assert (g x = true) as Hx by (by apply Hg).
  assert (forall y, y ∈ p ++ q -> g y = false) as Hne.
  { intros y Hy. destruct (g y) eqn:E; [|done]. apply Hg in E. exfalso.
    apply elem_of_app in Hy as [Hy|Hy]; apply list_elem_of_In, (in_map f), list_elem_of_In in Hy.
    - apply (Hp _ Hy). rewrite E. set_solver.
    - apply Hq. by rewrite <- E. }
  assert (forall r, (forall y, y ∈ r -> g y = false) ->
            List.find g r = None /\ List.filter (fun y => negb (g y)) r = r) as Hr.
  { induction r as [|y r IH]; intros H; simpl; [done|].
    rewrite (H y) by set_solver. simpl. destruct IH as [-> ->]; [set_solver|done]. }
  destruct (Hr p) as [Hp1 Hp2]; [set_solver|]. destruct (Hr q) as [_ Hq2]; [set_solver|].
  split.
  - rewrite find_app, Hp1. simpl. by rewrite Hx.
  - rewrite List.filter_app, Hp2. simpl. rewrite Hx. simpl. by rewrite Hq2.
Qed.

Lemma foldr_add_perm l k : l ≡ₚ k -> foldr Z.add 0 l = foldr Z.add 0 k.
Proof. induction 1; simpl; lia. Qed.

Lemma map_id_on {A} (f : A -> A) l : (forall x, x ∈ l -> f x = x) -> map f l = l.
Proof.
  induction l as [|x l IH]; intros H; simpl; [done|]. rewrite H by set_solver.
  by rewrite IH by set_solver.
Qed.

Lemma Forall2_rev {A B} (R : A -> B -> Prop) l k : Forall2 R l k -> Forall2 R (rev l) (rev k).
Proof. induction 1; simpl; [done|]. by apply Forall2_app; [|constructor]. Qed.
