(* ===== verification/Types.v ===== *)
(** Types shared by every component of the engine: [lsmdb::Status]
    (include/lsmdb/status.h), [LookupResult] (include/lsmdb/skiplist.h),
    [ValueType] (include/lsmdb/sstable.h), the versioned record the layers pass
    to each other, and the outcome type of the functions that dereference
    memory. *)
From S2P Require Import Prelude.

(** ** Status *)

Module Code.
(** [enum class Code]. *)
Inductive t := kOk | kNotFound | kCorruption | kIOError | kInvalidArgument.
End Code.

(** [class Status]: a code and a message. *)
Record Status := mkStatus { code_ : Code.t; message_ : bytes }.

Definition Status_OK : Status := mkStatus Code.kOk [].
Definition Status_NotFound (msg : bytes) : Status := mkStatus Code.kNotFound msg.
Definition Status_Corruption (msg : bytes) : Status := mkStatus Code.kCorruption msg.
Definition Status_IOError (msg : bytes) : Status := mkStatus Code.kIOError msg.
Definition Status_InvalidArgument (msg : bytes) : Status := mkStatus Code.kInvalidArgument msg.

Definition ok (s : Status) : bool := match code_ s with Code.kOk => true | _ => false end.
Definition IsNotFound (s : Status) : bool :=
  match code_ s with Code.kNotFound => true | _ => false end.
Definition IsCorruption (s : Status) : bool :=
  match code_ s with Code.kCorruption => true | _ => false end.

(** [Status::ToString]. *)
Definition ToString (s : Status) : bytes :=
  match code_ s with
  | Code.kOk => lit "OK"
  | Code.kNotFound => lit "NotFound: " ++ message_ s
  | Code.kCorruption => lit "Corruption: " ++ message_ s
  | Code.kIOError => lit "IOError: " ++ message_ s
  | Code.kInvalidArgument => lit "InvalidArgument: " ++ message_ s
  end.

(** ** Lookup results and record types *)

Module LookupResult.
(** [enum class LookupResult]. *)
Inductive t := kFound | kDeleted | kNotFound.
End LookupResult.

(** [enum class ValueType : uint8_t]. The underlying type is fixed, so every
    8-bit pattern is a value of the type; two of them are named. *)
Abbreviation ValueType := byte (only parsing).
Definition kValue : ValueType := Byte.x00.
Definition kTombstone : ValueType := Byte.x01.

Definition is_tombstone_type (t : ValueType) : bool := bool_decide (t = kTombstone).

(** One versioned record: what a memtable node, a log record and a data-block
    record carry. *)
Record entry := Entry { e_key : bytes; e_value : bytes; e_type : ValueType }.

#[global] Instance entry_eq_dec : EqDecision entry.
Proof. solve_decision. Defined.
#[global] Instance code_eq_dec : EqDecision Code.t.
Proof. solve_decision. Defined.
#[global] Instance status_eq_dec : EqDecision Status.
Proof. solve_decision. Defined.
#[global] Instance lookup_result_eq_dec : EqDecision LookupResult.t.
Proof. solve_decision. Defined.

(** ** Outcomes *)

(** Outcome of a function that reads memory: a value, an early return with a
    failed status, or undefined behaviour (a read outside the region or the
    container it addresses). *)
Inductive result (A : Type) :=
| Ok (a : A)
| Err (s : Status)
| UB.
Arguments Ok {_} _.
Arguments Err {_} _.
Arguments UB {_}.

Definition rbind {A B} (m : result A) (f : A -> result B) : result B :=
  match m with Ok a => f a | Err s => Err s | UB => UB end.

Definition of_option {A} (o : option A) : result A :=
  match o with Some a => Ok a | None => UB end.

Declare Scope result_scope.
Delimit Scope result_scope with result.
Notation "'let*' x := m 'in' k" := (rbind m (fun x => k))
  (at level 10, x pattern, m at level 200, k at level 200) : result_scope.
Notation "'check' b 'else' s 'in' k" := (if b then k else Err s)
  (at level 10, b at level 200, s at level 200, k at level 200) : result_scope.
Open Scope result_scope.

(** ** [int] arithmetic and the binary search over keys *)

(** The value of an [int] expression; signed overflow is undefined. *)
Definition int32 (z : Z) : result Z :=
  if (- 2 ^ 31 <=? z) && (z <? 2 ^ 31) then Ok z else UB.

(** [static_cast<int>] of a size. *)
Definition to_int (z : Z) : Z := (z + 2 ^ 31) mod 2 ^ 32 - 2 ^ 31.

(** Element [i] of a vector; an index outside it is undefined. *)
Definition at_index {A} (l : list A) (i : Z) : result A :=
  if 0 <=? i then of_option (l !! Z.to_nat i) else UB.

(** The loop [while (lo < hi) { int mid = (lo + hi) / 2; if (ks[mid] <= target)
    lo = mid + 1; else hi = mid; }] of the index and level searches. The distance
    [hi - lo] shrinks, so the length of the vector is enough fuel. *)
Fixpoint bin_search (fuel : nat) (ks : list bytes) (target : bytes) (lo hi : Z) : result Z :=
  match fuel with
  | O => UB
  | S fuel' =>
      if lo <? hi then
        let* sum := int32 (lo + hi) in
        let mid := Z.quot sum 2 in
        let* k := at_index ks mid in
        if str_leb k target then bin_search fuel' ks target (mid + 1) hi
        else bin_search fuel' ks target lo mid
      else Ok lo
  end.

(** ** Lemmas *)

Lemma rbind_Ok {A B} (m : result A) (f : A -> result B) b :
  rbind m f = Ok b <-> exists a, m = Ok a /\ f a = Ok b.
Proof. destruct m; simpl; naive_solver. Qed.

Lemma ok_OK : ok Status_OK = true.
Proof. done. Qed.
#[export] Hint Resolve ok_OK : lsm.

(** A lookup in a sequence of records, newest version first. *)
Definition assoc (es : list entry) (k : bytes) : option entry :=
  List.find (fun e => str_eqb (e_key e) k) es.

(** How a lookup reports the newest version of a key: the result and the value
    stored through the out-parameter. *)
Definition lookup_of (o : option entry) : LookupResult.t * option bytes :=
  match o with
  | None => (LookupResult.kNotFound, None)
  | Some e => if is_tombstone_type (e_type e) then (LookupResult.kDeleted, None)
              else (LookupResult.kFound, Some (e_value e))
  end.

(** Insert or overwrite in a sequence with ascending keys. *)
Fixpoint upsert (e : entry) (es : list entry) : list entry :=
  match es with
  | [] => [e]
  | f :: es' =>
      match str_compare (e_key f) (e_key e) with
      | Lt => f :: upsert e es'
      | Eq => e :: es'
      | Gt => e :: es
      end
  end.

(** Strictly ascending keys: what the memtable iterator yields and what an
    SSTable holds. *)
Fixpoint sorted_keys (es : list entry) : Prop :=
  match es with
  | [] => True
  | e :: es' => Forall (fun e' => str_lt (e_key e) (e_key e')) es' /\ sorted_keys es'
  end.

(** The records from the first key not below [t] on: where [Seek t] lands. *)
Fixpoint from_key (t : bytes) (es : list entry) : list entry :=
  match es with
  | [] => []
  | e :: es' => if str_ltb (e_key e) t then from_key t es' else es
  end.

Lemma assoc_nil k : assoc [] k = None.
Proof. done. Qed.

Lemma assoc_cons e es k :
  assoc (e :: es) k = if str_eqb (e_key e) k then Some e else assoc es k.
Proof. done. Qed.

Lemma assoc_app es fs k :
  assoc (es ++ fs) k = match assoc es k with Some e => Some e | None => assoc fs k end.
Proof. apply find_app. Qed.

Lemma assoc_Some es k e : assoc es k = Some e -> e ∈ es /\ e_key e = k.
Proof.
  intros H. apply List.find_some in H as [H1 H2].
  split; [by apply list_elem_of_In|]. by destruct (str_eqb_spec (e_key e) k).
Qed.

Lemma assoc_None es k : assoc es k = None <-> Forall (fun e => e_key e <> k) es.
Proof.
  induction es as [|e es IH]; [done|]. rewrite assoc_cons, Forall_cons, <- IH.
  destruct (str_eqb_spec (e_key e) k); naive_solver.
Qed.

Lemma sorted_keys_app es fs :
  sorted_keys (es ++ fs) <->
  sorted_keys es /\ sorted_keys fs /\
  Forall (fun e => Forall (fun f => str_lt (e_key e) (e_key f)) fs) es.
Proof.
  induction es as [|e es IH]; simpl.
  - split; [intros H; split_and!; auto|naive_solver].
  - rewrite IH, Forall_app, Forall_cons. naive_solver.
Qed.

Lemma assoc_sorted es e : sorted_keys es -> e ∈ es -> assoc es (e_key e) = Some e.
Proof.
  induction es as [|f es IH]; [by intros _ ?%elem_of_nil|].
  intros [Hf Hs] [->|Hin]%elem_of_cons; rewrite assoc_cons.
  - by rewrite str_eqb_refl.
  - rewrite Forall_forall in Hf. specialize (Hf _ Hin).
    destruct (str_eqb_spec (e_key f) (e_key e)) as [E|]; [|auto].
    rewrite E in Hf. exfalso. str_order.
Qed.

Lemma from_key_sorted t es : sorted_keys es -> sorted_keys (from_key t es).
Proof.
  induction es as [|e es IH]; simpl; [done|]. intros [H1 H2].
  destruct (str_ltb _ _); simpl; auto.
Qed.

Lemma from_key_ge t es : sorted_keys es -> Forall (fun e => str_le t (e_key e)) (from_key t es).
Proof.
  induction es as [|e es IH]; simpl; [done|]. intros [H1 H2].
  destruct (str_ltb_spec (e_key e) t); [auto|].
  constructor; [str_order|]. eapply Forall_impl; [exact H1|]. intros f Hf. str_order.
Qed.

Lemma from_key_app t es fs :
  Forall (fun e => str_lt (e_key e) t) es -> from_key t (es ++ fs) = from_key t fs.
Proof.
  induction 1 as [|e es He _ IH]; simpl; [done|].
  by destruct (str_ltb_spec (e_key e) t).
Qed.

Lemma upsert_lt e es fs :
  Forall (fun f => str_lt (e_key f) (e_key e)) es -> upsert e (es ++ fs) = es ++ upsert e fs.
Proof.
  induction 1 as [|f es Hf _ IH]; simpl; [done|].
  unfold str_lt in Hf. by rewrite Hf, IH.
Qed.

Lemma upsert_elem e f es : f ∈ upsert e es -> f = e \/ f ∈ es.
Proof.
  induction es as [|g es IH]; simpl; [set_solver|].
  destruct (str_compare (e_key g) (e_key e)); set_solver.
Qed.

Lemma upsert_sorted e es : sorted_keys es -> sorted_keys (upsert e es).
Proof.
  induction es as [|f es IH]; simpl; [done|]. intros [Hf Hs].
  destruct (str_compare_spec (e_key f) (e_key e)) as [E|E|E]; simpl.
  - rewrite <- E. by split.
  - split; [|auto]. apply Forall_forall. intros g [->|Hg]%upsert_elem; [done|].
    rewrite Forall_forall in Hf. by apply Hf.
  - split_and!; [|done..]. constructor; [done|].
    eapply Forall_impl; [exact Hf|]. intros g Hg. str_order.
Qed.

Lemma assoc_upsert e es k :
  sorted_keys es ->
  assoc (upsert e es) k = if str_eqb (e_key e) k then Some e else assoc es k.
Proof.
  induction es as [|f es IH]; [done|]. intros [Hf Hs]. cbn [upsert].
  destruct (str_compare_spec (e_key f) (e_key e)) as [E|E|E]; rewrite ?assoc_cons, ?IH by done.
  - by rewrite E; destruct (str_eqb (e_key e) k).
  - destruct (str_eqb_spec (e_key f) k), (str_eqb_spec (e_key e) k); try done.
    subst. rewrite e1 in E. exfalso. str_order.
  - done.
Qed.

(** A mutation as the log records it, in the form the memtable stores it: a
    delete carries no value, any type but [kTombstone] is a live value. *)
Definition op_entry (e : entry) : entry :=
  if is_tombstone_type (e_type e) then Entry (e_key e) [] kTombstone
  else Entry (e_key e) (e_value e) kValue.

(** The sorted contents after a sequence of mutations. *)
Definition apply_ops (ops : list entry) (es : list entry) : list entry :=
  fold_left (fun es e => upsert (op_entry e) es) ops es.

Lemma op_entry_key e : e_key (op_entry e) = e_key e.
Proof. unfold op_entry. by destruct (is_tombstone_type _). Qed.

Lemma apply_ops_app a b es : apply_ops (a ++ b) es = apply_ops b (apply_ops a es).
Proof. apply fold_left_app. Qed.

Lemma apply_ops_sorted ops es : sorted_keys es -> sorted_keys (apply_ops ops es).
Proof.
  revert es. induction ops as [|e ops IH]; intros es Hs; simpl; [done|].
  by apply IH, upsert_sorted.
Qed.

(** The last mutation of a key decides. *)
Lemma assoc_apply_ops ops es k :
  sorted_keys es ->
  assoc (apply_ops ops es) k =
  match assoc (rev ops) k with Some e => Some (op_entry e) | None => assoc es k end.
Proof.
  intros Hs. induction ops as [|e ops IH] using rev_ind; [done|].
  rewrite apply_ops_app, rev_app_distr. cbn [apply_ops fold_left rev app].
  rewrite assoc_upsert by (by apply apply_ops_sorted). rewrite assoc_cons, op_entry_key.
  by destruct (str_eqb (e_key e) k).
Qed.

Lemma upsert_length e es : (length (upsert e es) <= S (length es))%nat.
Proof.
  induction es as [|f es IH]; simpl; [lia|].
  destruct (str_compare (e_key f) (e_key e)); simpl; lia.
Qed.

Lemma apply_ops_length ops : (length (apply_ops ops []) <= length ops)%nat.
Proof.
  induction ops as [|e ops IH] using rev_ind; [done|].
  rewrite apply_ops_app, length_app. simpl. pose proof (upsert_length (op_entry e) (apply_ops ops [])). lia.
Qed.

Lemma from_key_length t es : (length (from_key t es) <= length es)%nat.
Proof. induction es as [|e es IH]; simpl; [lia|]. destruct (str_ltb _ _); simpl; lia. Qed.

(** ** Lemmas: binary search *)

Lemma to_int_small z : 0 <= z < 2 ^ 31 -> to_int z = z.
Proof. intros. unfold to_int. rewrite Z.mod_small by lia. lia. Qed.

Lemma int32_small z : 0 <= z < 2 ^ 31 -> int32 z = Ok z.
Proof.
  intros. unfold int32. by rewrite (proj2 (Z.leb_le _ _)), (proj2 (Z.ltb_lt _ _)) by lia.
Qed.

Lemma at_index_lt {A} (l : list A) i :
  0 <= i < blen l -> exists x, at_index l i = Ok x /\ l !! Z.to_nat i = Some x.
Proof.
  intros Hi. unfold at_index. rewrite (proj2 (Z.leb_le _ _)) by lia.
  destruct (lookup_lt_is_Some_2 l (Z.to_nat i)) as [x Hx]; [unfold blen in Hi; lia|].
  exists x. by rewrite Hx.
Qed.

(** A list of keys cut where they pass the target. *)
Definition cut_at (t : bytes) (a b : list bytes) : Prop :=
  Forall (fun k => str_le k t) a /\ Forall (fun k => str_lt t k) b.

(** The element at a position of a cut list tells the side. *)
Lemma cut_at_lookup t a b i k :
  cut_at t a b -> (a ++ b) !! i = Some k -> str_leb k t = (i <? length a)%nat.
Proof.
  intros [Ha Hb] Hk. rewrite Forall_lookup in Ha, Hb. destruct (Nat.ltb_spec i (length a)) as [Hi|Hi].
  - rewrite lookup_app_l in Hk by done. specialize (Ha _ _ Hk). by destruct (str_leb_spec k t).
  - rewrite lookup_app_r in Hk by done. specialize (Hb _ _ Hk).
    destruct (str_leb_spec k t); [str_order|done].
Qed.

(** The search returns the cut. *)
Lemma bin_search_cut fuel t a b lo hi :
  cut_at t a b -> 0 <= lo <= blen a -> blen a <= hi <= blen (a ++ b) -> blen (a ++ b) <= 2 ^ 30 ->
  (Z.to_nat (hi - lo) < fuel)%nat ->
  bin_search fuel (a ++ b) t lo hi = Ok (blen a).
Proof.
  intros Hc. revert lo hi. induction fuel as [|fuel IH]; intros lo hi Hlo Hhi Hn Hf; [lia|].
  cbn [bin_search]. destruct (Z.ltb_spec lo hi) as [Hlt|]; [|f_equal; lia].
  rewrite int32_small by lia. cbn [rbind]. rewrite Z.quot_div_nonneg by lia.
  assert (lo <= (lo + hi) / 2 < hi) as Hmid
    by (split; [apply Z.div_le_lower_bound|apply Z.div_lt_upper_bound]; lia).
  destruct (at_index_lt (a ++ b) ((lo + hi) / 2)) as (k & -> & Hk); [lia|]. cbn [rbind].
  rewrite (cut_at_lookup _ _ _ _ _ Hc Hk). destruct (Nat.ltb_spec (Z.to_nat ((lo + hi) / 2)) (length a)).
  - apply IH; unfold blen in *; lia.
  - apply IH; unfold blen in *; lia.
Qed.

Lemma cut_exists t ks : StronglySorted str_lt ks -> exists a b, ks = a ++ b /\ cut_at t a b.
Proof.
  induction 1 as [|k ks Hs (a & b & -> & Ha & Hb) Hk]; [by exists [], []|].
  destruct (str_leb_spec k t) as [Hle|Hgt].
  - exists (k :: a), b. by repeat constructor.
  - exists [], (k :: a ++ b). split; [done|]. split; [done|]. constructor; [str_order|].
    eapply Forall_impl; [exact Hk|]. intros x Hx. str_order.
Qed.
