(* ===== verification/Coding.v ===== *)
(** Fixed-width little-endian encoding (include/lsmdb/coding.h).

    The [Put*] functions append to a string; the [Decode*] functions load an
    integer from an address, modelled as a region and an offset: a load that is
    not inside the region is undefined behaviour. *)
From S2P Require Import Prelude Types.

(** [memcpy] into an unsigned integer on a little-endian machine. *)
Fixpoint le_load (l : bytes) : Z :=
  match l with
  | [] => 0
  | b :: l' => byte_val b + 256 * le_load l'
  end.

Definition PutFixed32 (dst : bytes) (v : Z) : bytes :=
  dst ++ [ byte_of (Z.land v 0xff);
           byte_of (Z.land (Z.shiftr v 8) 0xff);
           byte_of (Z.land (Z.shiftr v 16) 0xff);
           byte_of (Z.land (Z.shiftr v 24) 0xff) ].

Definition PutFixed64 (dst : bytes) (v : Z) : bytes :=
  dst ++ map (fun i => byte_of (Z.land (Z.shiftr v (8 * Z.of_nat i)) 0xff)) (seq 0 8).

Definition DecodeFixed32 (m : bytes) (p : Z) : result Z :=
  let* s := of_option (slice m p 4) in Ok (le_load s).

Definition DecodeFixed64 (m : bytes) (p : Z) : result Z :=
  let* s := of_option (slice m p 8) in Ok (le_load s).

Definition PutLengthPrefixed (dst s : bytes) : bytes :=
  PutFixed32 dst (u32 (blen s)) ++ s.

(** ** Reference encoding *)

(** The [n] low-order bytes of [v], least significant first. *)
Fixpoint le_split (n : nat) (v : Z) : bytes :=
  match n with
  | O => []
  | S n' => byte_of v :: le_split n' (v / 256)
  end.

Abbreviation fixed32 := (le_split 4).
Abbreviation fixed64 := (le_split 8).

(** A length-prefixed string. *)
Definition prefixed (s : bytes) : bytes := fixed32 (u32 (blen s)) ++ s.

Lemma byte_of_land v : byte_of (Z.land v 0xff) = byte_of v.
Proof.
  apply byte_val_inj. rewrite !byte_val_of.
  change 0xff with (Z.ones 8). rewrite Z.land_ones by lia.
  change (2 ^ 8) with 256. by rewrite Z.mod_mod by lia.
Qed.

Lemma byte_of_mod v : byte_of (v mod 256) = byte_of v.
Proof. apply byte_val_inj. rewrite !byte_val_of. by rewrite Z.mod_mod by lia. Qed.

Lemma le_split_length n v : length (le_split n v) = n.
Proof. revert v. induction n as [|n IH]; intros v; simpl; [done|]. by rewrite IH. Qed.

Lemma blen_le_split n v : blen (le_split n v) = Z.of_nat n.
Proof. unfold blen. by rewrite le_split_length. Qed.
#[export] Hint Rewrite blen_le_split : lsmlen.

Lemma le_load_split n v : le_load (le_split n v) = v mod 256 ^ Z.of_nat n.
Proof.
  revert v. induction n as [|n IH]; intros v; cbn [le_split le_load].
  - by rewrite Z.mod_1_r.
  - rewrite IH, byte_val_of, Nat2Z.inj_succ, Z.pow_succ_r by lia.
    rewrite Z.rem_mul_r by lia. done.
Qed.

Lemma le_load_range l : 0 <= le_load l < 256 ^ blen l.
Proof.
  induction l as [|b l IH]; [done|]. rewrite blen_cons. cbn [le_load].
  rewrite Z.add_comm, Z.pow_add_r by len. pose proof (byte_val_range b). nia.
Qed.

Lemma le_split_load l : le_split (length l) (le_load l) = l.
Proof.
  induction l as [|b l IH]; cbn [le_load length le_split]; [done|].
  pose proof (byte_val_range b). f_equal.
  - apply byte_val_inj. rewrite byte_val_of.
    by rewrite (Z.mul_comm 256), Z.mod_add, Z.mod_small by lia.
  - rewrite (Z.mul_comm 256), Z.div_add, Z.div_small by lia. by rewrite Z.add_0_l.
Qed.

Lemma le_load_inj l k : length l = length k -> le_load l = le_load k -> l = k.
Proof. intros Hl He. by rewrite <- (le_split_load l), <- (le_split_load k), Hl, He. Qed.

Lemma PutFixed32_spec dst v : PutFixed32 dst v = dst ++ fixed32 v.
Proof.
  unfold PutFixed32. rewrite !byte_of_land. cbn [le_split].
  rewrite !Z.div_div by lia. rewrite !Z.shiftr_div_pow2 by lia. done.
Qed.

Lemma PutFixed64_spec dst v : PutFixed64 dst v = dst ++ fixed64 v.
Proof.
  unfold PutFixed64. cbn [seq map le_split].
  rewrite !byte_of_land, !Z.shiftr_div_pow2 by lia. rewrite !Z.div_div by lia.
  by rewrite Z.div_1_r.
Qed.

Lemma PutLengthPrefixed_spec dst s : PutLengthPrefixed dst s = dst ++ prefixed s.
Proof. unfold PutLengthPrefixed, prefixed. by rewrite PutFixed32_spec, app_assoc. Qed.

Lemma DecodeFixed32_mid a v b p :
  is_u32 v -> p = blen a -> DecodeFixed32 (a ++ fixed32 v ++ b) p = Ok v.
Proof.
  intros Hv ->. unfold DecodeFixed32.
  rewrite (slice_eq _ a (le_split _ v) b) by (rewrite ?blen_le_split; done).
  cbn [of_option rbind]. rewrite le_load_split. by rewrite Z.mod_small.
Qed.

Lemma DecodeFixed64_mid a v b p :
  is_u64 v -> p = blen a -> DecodeFixed64 (a ++ fixed64 v ++ b) p = Ok v.
Proof.
  intros Hv ->. unfold DecodeFixed64.
  rewrite (slice_eq _ a (le_split _ v) b) by (rewrite ?blen_le_split; done).
  cbn [of_option rbind]. rewrite le_load_split. by rewrite Z.mod_small.
Qed.

Lemma DecodeFixed32_head v b : is_u32 v -> DecodeFixed32 (fixed32 v ++ b) 0 = Ok v.
Proof. intros. by apply (DecodeFixed32_mid []). Qed.

Lemma DecodeFixed64_head v b : is_u64 v -> DecodeFixed64 (fixed64 v ++ b) 0 = Ok v.
Proof. intros. by apply (DecodeFixed64_mid []). Qed.

Lemma DecodeFixed32_range m p v : DecodeFixed32 m p = Ok v -> is_u32 v.
Proof.
  unfold DecodeFixed32. destruct (slice m p 4) as [s|] eqn:E; simpl; [|done].
  intros [= <-]. apply slice_Some in E as (_&_&_&Hl&_).
  pose proof (le_load_range s) as Hr. rewrite Hl in Hr. exact Hr.
Qed.

(** What a load says about the bytes it read. *)
Lemma DecodeFixed32_exact m p v :
  DecodeFixed32 m p = Ok v -> exists a b, m = a ++ fixed32 v ++ b /\ blen a = p.
Proof.
  unfold DecodeFixed32. destruct (slice m p 4) as [s|] eqn:E; cbn [of_option rbind]; [|done].
  intros [= <-]. apply slice_Some in E as (_ & _ & _ & Hl & a & b & -> & Ha).
  exists a, b. split; [|done]. pose proof (le_split_load s) as E.
  replace (length s) with 4%nat in E by (unfold blen in Hl; lia). by rewrite E.
Qed.

Lemma DecodeFixed32_UB m p : DecodeFixed32 m p = UB <-> p < 0 \/ blen m < p + 4.
Proof.
  unfold DecodeFixed32. destruct (slice m p 4) as [s|] eqn:E; simpl.
  - apply slice_Some in E. split; [done|lia].
  - apply slice_None in E. split; [lia|done].
Qed.

Lemma DecodeFixed32_total m p : 0 <= p -> p + 4 <= blen m -> exists v, DecodeFixed32 m p = Ok v.
Proof.
  intros H1 H2. unfold DecodeFixed32.
  destruct (slice m p 4) as [s|] eqn:E; simpl; [eauto|].
  apply slice_None in E. lia.
Qed.

Lemma DecodeFixed32_app_r a b p :
  0 <= p -> DecodeFixed32 (a ++ b) (blen a + p) = DecodeFixed32 b p.
Proof. intros. unfold DecodeFixed32. by rewrite slice_app_r. Qed.

Lemma DecodeFixed32_app_l a b p :
  p + 4 <= blen a -> DecodeFixed32 (a ++ b) p = DecodeFixed32 a p.
Proof. intros. unfold DecodeFixed32. by rewrite slice_app_l. Qed.

Arguments DecodeFixed32 : simpl never.
Arguments DecodeFixed64 : simpl never.
Arguments le_split : simpl never.
Arguments le_load : simpl never.

(** ** Properties *)

(** A 32-bit and a 64-bit value appended by [PutFixed32] and
    [PutFixed64] are loaded back by [DecodeFixed32] and [DecodeFixed64] at the
    offset where they were appended, whatever follows them. *)
Theorem fixed_roundtrip dst rest v w :
  is_u32 v -> is_u64 w ->
  DecodeFixed32 (PutFixed32 dst v ++ rest) (blen dst) = Ok v /\
  DecodeFixed64 (PutFixed64 dst w ++ rest) (blen dst) = Ok w.
Proof.
  intros Hv Hw. rewrite PutFixed32_spec, PutFixed64_spec, <- !app_assoc.
  by split; [apply DecodeFixed32_mid|apply DecodeFixed64_mid].
Qed.

Lemma fixed_roundtrip_witness :
  DecodeFixed32 (PutFixed32 (lit "ab") 0x4C534D42 ++ lit "z") (blen (lit "ab")) = Ok 0x4C534D42 /\
  DecodeFixed64 (PutFixed64 (lit "ab") (2 ^ 63 + 5) ++ lit "z") (blen (lit "ab")) = Ok (2 ^ 63 + 5).
Proof. apply (fixed_roundtrip (lit "ab") (lit "z")); vm_compute; intuition congruence. Defined.
