(* ===== verification/Crc32.v ===== *)
(** CRC-32 (src/crc32.cpp, include/lsmdb/crc32.h): the table-driven routine,
    its bit-at-a-time reference, and its error detection. *)
From S2P Require Import Prelude Types Coding.

Definition kPoly : Z := 0xEDB88320.

(** The body of the inner loop of [BuildTable]. *)
Definition crc_bit (c : Z) : Z :=
  if Z.testbit c 0 then Z.lxor kPoly (Z.shiftr c 1) else Z.shiftr c 1.

(** [BuildTable]: entry [i] is [i] after eight rounds. *)
Definition BuildTable : list Z :=
  map (fun i => Nat.iter 8 crc_bit (Z.of_nat i)) (seq 0 256).

(** [Table()]: the function-local [static const] table, built once. *)
Definition Table : list Z := Eval vm_compute in BuildTable.

Definition crc_byte (crc : Z) (p : byte) : Z :=
  Z.lxor (nth (Z.to_nat (Z.land (Z.lxor crc (byte_val p)) 0xff)) Table 0) (Z.shiftr crc 8).

(** [Crc32(data, n)]. *)
Definition Crc32 (data : bytes) : Z :=
  Z.lxor (fold_left crc_byte data 0xFFFFFFFF) 0xFFFFFFFF.

(** ** Reference: the shift register, one bit at a time *)

Definition crc_bits (n : nat) (c : Z) : Z := Nat.iter n crc_bit c.

Definition crc_ref (data : bytes) : Z :=
  Z.lxor (fold_left (fun c p => crc_bits 8 (Z.lxor c (byte_val p))) data 0xFFFFFFFF) 0xFFFFFFFF.

(** ** Lemmas *)

Lemma Table_eq : Table = BuildTable.
Proof. vm_compute. reflexivity. Qed.

Lemma crc_bit_lxor a b : crc_bit (Z.lxor a b) = Z.lxor (crc_bit a) (crc_bit b).
Proof.
  unfold crc_bit. rewrite Z.lxor_spec, Z.shiftr_lxor.
  destruct (Z.testbit a 0), (Z.testbit b 0); simpl; apply Z.bits_inj'; intros i Hi;
    rewrite !Z.lxor_spec; by destruct (Z.testbit kPoly i), (Z.testbit (Z.shiftr a 1) i),
      (Z.testbit (Z.shiftr b 1) i).
Qed.

Lemma crc_bits_lxor n a b : crc_bits n (Z.lxor a b) = Z.lxor (crc_bits n a) (crc_bits n b).
Proof. induction n as [|n IH]; simpl; [done|]. unfold crc_bits in *. by rewrite IH, crc_bit_lxor. Qed.

Lemma crc_bits_add n m a : crc_bits (n + m) a = crc_bits n (crc_bits m a).
Proof. apply Nat.iter_add. Qed.

Lemma crc_bits_shiftl n a : crc_bits n (Z.shiftl a (Z.of_nat n)) = a.
Proof.
  revert a. induction n as [|n IH]; intros a; [by rewrite Z.shiftl_0_r|].
  replace (S n) with (n + 1)%nat at 1 by lia. rewrite crc_bits_add.
  replace (crc_bits 1 _) with (Z.shiftl a (Z.of_nat n)); [apply IH|].
  simpl. unfold crc_bit. rewrite Z.shiftl_spec_low by lia.
  rewrite Z.shiftr_shiftl_l by lia. f_equal. lia.
Qed.

Lemma kPoly_range : is_u32 kPoly.
Proof. by vm_compute. Qed.

Lemma shiftr_range c n k : 0 <= k -> 0 <= c < 2 ^ n -> 0 <= Z.shiftr c k < 2 ^ n.
Proof.
  intros Hk [H1 H2]. rewrite Z.shiftr_div_pow2 by done.
  split; [apply Z.div_pos; [done|apply Z.pow_pos_nonneg; lia]|].
  apply Z.le_lt_trans with c; [|done]. apply Z.div_le_upper_bound.
  - apply Z.pow_pos_nonneg; lia.
  - pose proof (Z.pow_pos_nonneg 2 k). nia.
Qed.

Lemma crc_bit_range c : is_u32 c -> is_u32 (crc_bit c).
Proof.
  intros H. unfold crc_bit.
  destruct (Z.testbit c 0); [apply lxor_lt_pow2; [lia|apply kPoly_range|]|];
    by apply shiftr_range.
Qed.

Lemma crc_bits_range n c : is_u32 c -> is_u32 (crc_bits n c).
Proof. intros H. induction n as [|n IH]; simpl; [done|]. by apply crc_bit_range. Qed.

Lemma crc_bit_top c : is_u32 c -> Z.testbit (crc_bit c) 31 = Z.testbit c 0.
Proof.
  intros H. unfold crc_bit. assert (Z.testbit (Z.shiftr c 1) 31 = false) as E.
  { rewrite Z.shiftr_spec by lia. by apply (testbit_high c 32). }
  destruct (Z.testbit c 0); [by rewrite Z.lxor_spec, E|done].
Qed.

Lemma split_low_bit c : c = 2 * Z.shiftr c 1 + Z.b2z (Z.testbit c 0).
Proof.
  rewrite Z.bit0_mod, Z.shiftr_div_pow2 by lia. change (2 ^ 1) with 2.
  apply Z.div_mod. lia.
Qed.

Lemma crc_bit_inj a b : is_u32 a -> is_u32 b -> crc_bit a = crc_bit b -> a = b.
Proof.
  intros Ha Hb E. assert (Z.testbit a 0 = Z.testbit b 0) as E0.
  { by rewrite <- (crc_bit_top a), <- (crc_bit_top b), E. }
  rewrite (split_low_bit a), (split_low_bit b), E0. unfold crc_bit in E. rewrite E0 in E.
  destruct (Z.testbit b 0); [|by rewrite E].
  apply (f_equal (Z.lxor kPoly)) in E.
  rewrite <- !Z.lxor_assoc, !Z.lxor_nilpotent, !Z.lxor_0_l in E. by rewrite E.
Qed.

Lemma crc_bits_inj n a b : is_u32 a -> is_u32 b -> crc_bits n a = crc_bits n b -> a = b.
Proof.
  intros Ha Hb. induction n as [|n IH]; simpl; [done|].
  intros E. apply IH. apply crc_bit_inj; [by apply crc_bits_range..|done].
Qed.

Lemma land_shift_split x : 0 <= x -> x = Z.lxor (Z.land x 0xff) (Z.shiftl (Z.shiftr x 8) 8).
Proof.
  intros Hx. change 0xff with (Z.ones 8). apply Z.bits_inj'. intros i Hi.
  rewrite Z.lxor_spec, Z.land_spec, Z.shiftl_spec by done.
  destruct (Z_lt_le_dec i 8).
  - rewrite Z.ones_spec_low, (Z.testbit_neg_r _ (i - 8)) by lia.
    by rewrite andb_true_r, xorb_false_r.
  - rewrite Z.ones_spec_high, Z.shiftr_spec by lia.
    rewrite andb_false_r, xorb_false_l. f_equal. lia.
Qed.

Lemma byte_shiftr8 b : Z.shiftr (byte_val b) 8 = 0.
Proof.
  rewrite Z.shiftr_div_pow2 by lia. pose proof (byte_val_range b).
  by apply Z.div_small.
Qed.

(** One round of the table-driven loop is eight rounds of the register. *)
Lemma crc_byte_ref c p : 0 <= c -> crc_byte c p = crc_bits 8 (Z.lxor c (byte_val p)).
Proof.
  intros Hc. unfold crc_byte. set (x := Z.lxor c (byte_val p)).
  assert (0 <= x) as Hx.
  { apply Z.lxor_nonneg. pose proof (byte_val_range p). lia. }
  rewrite (land_shift_split x) at 2 by done.
  rewrite crc_bits_lxor, (crc_bits_shiftl 8). f_equal.
  - assert (0 <= Z.land x 255 < 256) as Hr.
    { change 255 with (Z.ones 8). rewrite Z.land_ones by lia. by apply Z.mod_pos_bound. }
    rewrite Table_eq. unfold BuildTable.
    rewrite (nth_indep _ 0 (Nat.iter 8 crc_bit (Z.of_nat 0))) by (rewrite length_map, length_seq; lia).
    rewrite (map_nth (fun i => Nat.iter 8 crc_bit (Z.of_nat i))).
    rewrite seq_nth by lia. unfold crc_bits. f_equal. lia.
  - unfold x. rewrite Z.shiftr_lxor, byte_shiftr8, Z.lxor_0_r. done.
Qed.

Lemma crc_bits_byte_range c p : is_u32 c -> is_u32 (crc_bits 8 (Z.lxor c (byte_val p))).
Proof.
  intros H. apply crc_bits_range, lxor_lt_pow2; [lia|done|].
  pose proof (byte_val_range p). lia.
Qed.

Definition crc_run (c : Z) (data : bytes) : Z :=
  fold_left (fun c p => crc_bits 8 (Z.lxor c (byte_val p))) data c.

Lemma crc_run_range data c : is_u32 c -> is_u32 (crc_run c data).
Proof.
  revert c. induction data as [|p data IH]; intros c H; simpl; [done|].
  by apply IH, crc_bits_byte_range.
Qed.

Lemma crc_fold_run data c : is_u32 c -> fold_left crc_byte data c = crc_run c data.
Proof.
  revert c. induction data as [|p data IH]; intros c H; simpl; [done|].
  rewrite crc_byte_ref by (destruct H; done). by apply IH, crc_bits_byte_range.
Qed.

Lemma crc_run_app a b c : crc_run c (a ++ b) = crc_run (crc_run c a) b.
Proof. apply fold_left_app. Qed.

(** Feeding [data] is loading it into the register and shifting it through. *)
Lemma crc_run_load data c : crc_run c data = crc_bits (8 * length data) (Z.lxor c (le_load data)).
Proof.
  revert c. induction data as [|p data IH]; intros c.
  { change (le_load []) with 0. by rewrite Z.lxor_0_r. }
  change (crc_run c (p :: data)) with (crc_run (crc_bits 8 (Z.lxor c (byte_val p))) data).
  rewrite IH. replace (8 * length (p :: data))%nat with (8 * length data + 8)%nat by (simpl; lia).
  rewrite crc_bits_add. f_equal.
  change (le_load (p :: data)) with (byte_val p + 256 * le_load data).
  replace (byte_val p + 256 * le_load data)
    with (Z.lxor (byte_val p) (Z.shiftl (le_load data) 8)).
  - by rewrite <- Z.lxor_assoc, (crc_bits_lxor 8 (Z.lxor c _)), (crc_bits_shiftl 8).
  - rewrite <- Z.add_nocarry_lxor.
    + rewrite Z.shiftl_mul_pow2 by lia. change (2 ^ 8) with 256. lia.
    + apply Z.bits_inj'. intros i Hi. rewrite Z.land_spec, Z.bits_0, Z.shiftl_spec by done.
      destruct (Z_lt_le_dec i 8); [rewrite (Z.testbit_neg_r _ (i - 8)) by lia; apply andb_false_r|].
      rewrite (testbit_high (byte_val p) 8); [done| |lia]. apply byte_val_range.
Qed.

Lemma crc_run_inj_reg data a b :
  is_u32 a -> is_u32 b -> crc_run a data = crc_run b data -> a = b.
Proof.
  intros Ha Hb E. revert a b Ha Hb E. induction data as [|p data IH]; intros a b Ha Hb E; [done|].
  apply IH in E; [|by apply crc_bits_byte_range..].
  assert (is_u32 (byte_val p)) by (pose proof (byte_val_range p); unfold is_u32; lia).
  apply crc_bits_inj in E; [|by apply lxor_lt_pow2..].
  apply (f_equal (fun x => Z.lxor x (byte_val p))) in E.
  by rewrite !Z.lxor_assoc, Z.lxor_nilpotent, !Z.lxor_0_r in E.
Qed.

Lemma crc_run_inj_data l k c :
  is_u32 c -> length l = length k -> (length l <= 4)%nat -> crc_run c l = crc_run c k -> l = k.
Proof.
  intros Hc Hl Hle E. rewrite !crc_run_load, <- Hl in E.
  assert (forall x : bytes, (length x <= 4)%nat -> is_u32 (le_load x)) as Hx.
  { intros x Hx. pose proof (le_load_range x). unfold is_u32. split; [lia|].
    apply Z.lt_le_trans with (256 ^ blen x); [lia|].
    change (2 ^ 32) with (256 ^ 4). apply Z.pow_le_mono_r; unfold blen; lia. }
  apply crc_bits_inj in E; [|apply lxor_lt_pow2; [lia|done|apply Hx; lia]..].
  apply (f_equal (Z.lxor c)) in E.
  rewrite <- !Z.lxor_assoc, Z.lxor_nilpotent, !Z.lxor_0_l in E. by apply le_load_inj.
Qed.

Lemma Crc32_run data : Crc32 data = Z.lxor (crc_run 0xFFFFFFFF data) 0xFFFFFFFF.
Proof. unfold Crc32. by rewrite crc_fold_run. Qed.

Lemma Crc32_range data : is_u32 (Crc32 data).
Proof.
  rewrite Crc32_run. apply lxor_lt_pow2; [lia| |lia]. by apply crc_run_range.
Qed.
#[export] Hint Resolve Crc32_range : lsm.

Lemma Crc32_run_inj a b : Crc32 a = Crc32 b -> crc_run 0xFFFFFFFF a = crc_run 0xFFFFFFFF b.
Proof.
  rewrite !Crc32_run. intros E. apply (f_equal (fun x => Z.lxor x 0xFFFFFFFF)) in E.
  by rewrite !Z.lxor_assoc, Z.lxor_nilpotent, !Z.lxor_0_r in E.
Qed.

(** Buffers that differ only inside a window of at most four bytes have
    different checksums. *)
Lemma Crc32_window pre l k post :
  length l = length k -> (length l <= 4)%nat ->
  Crc32 (pre ++ l ++ post) = Crc32 (pre ++ k ++ post) -> l = k.
Proof.
  intros Hl Hle E%Crc32_run_inj. rewrite !crc_run_app in E.
  assert (is_u32 (crc_run 0xFFFFFFFF pre)) as Hc by (by apply crc_run_range).
  apply crc_run_inj_reg in E; [|by apply crc_run_range..].
  by apply crc_run_inj_data in E.
Qed.

Arguments Crc32 : simpl never.

(** ** Properties *)

(** C26 (equivalence). The table-driven loop of [Crc32] computes, on every
    buffer, the reflected CRC defined by the one-bit-at-a-time shift register
    over polynomial 0xEDB88320, and yields the standard check value on
    "123456789". *)
Theorem Crc32_equals_bitwise data :
  Crc32 data = crc_ref data /\ Crc32 (lit "123456789") = 0xCBF43926.
Proof. split; [apply Crc32_run|by vm_compute]. Qed.

(** Every error burst of at most four consecutive bytes is
    detected: a buffer in which such a window is replaced by different bytes
    has a different checksum. *)
Theorem Crc32_detects_bursts pre good bad post :
  length good = length bad -> (length good <= 4)%nat -> good <> bad ->
  Crc32 (pre ++ good ++ post) <> Crc32 (pre ++ bad ++ post).
Proof. intros Hl Hle Hne E. apply Hne. by eapply Crc32_window. Qed.

Lemma Crc32_detects_bursts_witness :
  Crc32 (lit "the q" ++ lit "uick" ++ lit " brown fox")
  <> Crc32 (lit "the q" ++ lit "uiCK" ++ lit " brown fox").
Proof. apply Crc32_detects_bursts; [reflexivity|simpl; lia|discriminate]. Defined.
