(* ===== verification/Hash.v ===== *)
(** MurmurHash3 x64/128 (src/hash.cpp, include/lsmdb/hash.h), on 64-bit words
    with the wrap-around of [uint64_t] written out.

    The index of [GetBlock64] is an [int], so that the hash is undefined on keys of
    [2^31 + 16] bytes or more; [MurmurHash3_x64_128] has this as a result. The bloom
    filter is modelled on the value of the hash. *)
From S2P Require Import Prelude Types Coding.

Definition Rotl64 (x r : Z) : Z := Z.lor (x <<u64 r) (Z.shiftr x (64 - r)).

(** [memcpy] of the 8 bytes at [p + i * 8]; the product is an [int]. *)
Definition GetBlock64 (p : bytes) (i : Z) : result Z :=
  let* off := int32 (i * 8) in
  let* v := of_option (slice p off 8) in
  Ok (le_load v).

Definition Fmix64 (k : Z) : Z :=
  let k := Z.lxor k (Z.shiftr k 33) in
  let k := k *u64 0xff51afd7ed558ccd in
  let k := Z.lxor k (Z.shiftr k 33) in
  let k := k *u64 0xc4ceb9fe1a85ec53 in
  Z.lxor k (Z.shiftr k 33).

Definition c1 : Z := 0x87c37b91114253d5.
Definition c2 : Z := 0x4cf5ad432745937f.

(** [k1 *= c1; k1 = Rotl64(k1, 31); k1 *= c2] and its counterpart for [k2]. *)
Definition mix_k1 (k1 : Z) : Z := Rotl64 (k1 *u64 c1) 31 *u64 c2.
Definition mix_k2 (k2 : Z) : Z := Rotl64 (k2 *u64 c2) 33 *u64 c1.

(** One iteration of the body loop. *)
Definition body_step (h : Z * Z) (k : Z * Z) : Z * Z :=
  let '(h1, h2) := h in
  let '(k1, k2) := k in
  let h1 := Z.lxor h1 (mix_k1 k1) in
  let h1 := Rotl64 h1 27 +u64 h2 in
  let h1 := (h1 * 5 + 0x52dce729) mod 2 ^ 64 in
  let h2 := Z.lxor h2 (mix_k2 k2) in
  let h2 := Rotl64 h2 31 +u64 h1 in
  let h2 := (h2 * 5 + 0x38495ab5) mod 2 ^ 64 in
  (h1, h2).

(** The [switch] on [len & 15]: [case n] falls through to every smaller one. *)
Definition tail_switch (tail : bytes) (r : nat) (h : Z * Z) : Z * Z :=
  let '(h1, h2) := h in
  let t i := byte_val (nth i tail Byte.x00) in
  let case n k v := if (n <=? r)%nat then Z.lxor k v else k in
  let k2 := case 15%nat 0 (t 14%nat <<u64 48) in
  let k2 := case 14%nat k2 (t 13%nat <<u64 40) in
  let k2 := case 13%nat k2 (t 12%nat <<u64 32) in
  let k2 := case 12%nat k2 (t 11%nat <<u64 24) in
  let k2 := case 11%nat k2 (t 10%nat <<u64 16) in
  let k2 := case 10%nat k2 (t 9%nat <<u64 8) in
  let k2 := case 9%nat k2 (t 8%nat <<u64 0) in
  let h2 := case 9%nat h2 (mix_k2 k2) in
  let k1 := case 8%nat 0 (t 7%nat <<u64 56) in
  let k1 := case 7%nat k1 (t 6%nat <<u64 48) in
  let k1 := case 6%nat k1 (t 5%nat <<u64 40) in
  let k1 := case 5%nat k1 (t 4%nat <<u64 32) in
  let k1 := case 4%nat k1 (t 3%nat <<u64 24) in
  let k1 := case 3%nat k1 (t 2%nat <<u64 16) in
  let k1 := case 2%nat k1 (t 1%nat <<u64 8) in
  let k1 := case 1%nat k1 (t 0%nat <<u64 0) in
  let h1 := case 1%nat h1 (mix_k1 k1) in
  (h1, h2).

(** The finalization. *)
Definition finalize (len : Z) (h : Z * Z) : Z * Z :=
  let '(h1, h2) := h in
  let h1 := Z.lxor h1 len in
  let h2 := Z.lxor h2 len in
  let h1 := h1 +u64 h2 in
  let h2 := h2 +u64 h1 in
  let h1 := Fmix64 h1 in
  let h2 := Fmix64 h2 in
  let h1 := h1 +u64 h2 in
  let h2 := h2 +u64 h1 in
  (h1, h2).

(** The body loop from block [i] on, [n] blocks before its end. *)
Fixpoint body_loop (data : bytes) (n : nat) (i : Z) (h : Z * Z) : result (Z * Z) :=
  match n with
  | O => Ok h
  | S n =>
      let* k1 := GetBlock64 data (to_int (i * 2 + 0)) in
      let* k2 := GetBlock64 data (to_int (i * 2 + 1)) in
      body_loop data n (i + 1) (body_step h (k1, k2))
  end.

Definition MurmurHash3_x64_128 (data : bytes) (seed : Z) : result (Z * Z) :=
  let len := length data in
  let nblocks := (len / 16)%nat in
  let* h := body_loop data nblocks 0 (seed, seed) in
  let tail := drop (nblocks * 16) data in
  let h := tail_switch tail (len mod 16) h in
  Ok (finalize (Z.of_nat len) h).

(** The value of the hash; keys on which it is undefined are out of the model. *)
Definition MurmurHash128 (s : bytes) : Z * Z :=
  match MurmurHash3_x64_128 s 0 with Ok h => h | _ => (0, 0) end.

(** ** Reference: the function by arithmetic on 16-byte chunks *)

Module Murmur.

Definition rotl (x r : Z) : Z := (x * 2 ^ r) mod 2 ^ 64 + x / 2 ^ (64 - r).
Definition mul (x y : Z) : Z := (x * y) mod 2 ^ 64.

(** The scrambling of the two words of a chunk. *)
Definition scramble1 (k : Z) : Z := mul (rotl (mul k 9782798678568883157) 31) 5545529020109919103.
Definition scramble2 (k : Z) : Z := mul (rotl (mul k 5545529020109919103) 33) 9782798678568883157.

(** One half of the state takes a scrambled word [k] and the other half. *)
Definition lane (r n h other k : Z) : Z := ((rotl (Z.lxor h k) r + other) * 5 + n) mod 2 ^ 64.

Definition round (h k : Z * Z) : Z * Z :=
  let h1 := lane 27 1390208809 h.1 h.2 (scramble1 k.1) in
  (h1, lane 31 944331445 h.2 h1 (scramble2 k.2)).

Definition xorshift (x : Z) : Z := Z.lxor x (x / 2 ^ 33).
Definition fmix (k : Z) : Z := xorshift (mul (xorshift (mul (xorshift k) 18397679294719823053)) 14181476777654086739).

(** The little-endian words of a chunk, zero-extended. *)
Definition words (chunk : bytes) : Z * Z := (le_load (take 8 chunk), le_load (drop 8 chunk)).

(** Whole chunks go through [round]; the rest is scrambled and mixed in. *)
Fixpoint run (fuel : nat) (data : bytes) (h : Z * Z) : Z * Z :=
  match fuel with
  | O => h
  | S fuel =>
      if (length data <? 16)%nat then (Z.lxor h.1 (scramble1 (words data).1), Z.lxor h.2 (scramble2 (words data).2))
      else run fuel (drop 16 data) (round h (words (take 16 data)))
  end.

Definition hash (data : bytes) (seed : Z) : Z * Z :=
  let h := run (S (length data)) data (seed, seed) in
  let a := Z.lxor h.1 (blen data) in
  let b := Z.lxor h.2 (blen data) in
  let x := fmix ((a + b) mod 2 ^ 64) in
  let y := fmix ((a + 2 * b) mod 2 ^ 64) in
  ((x + y) mod 2 ^ 64, (x + 2 * y) mod 2 ^ 64).

End Murmur.

(** ** Lemmas *)

Lemma le_load_cons_lxor b l :
  le_load (b :: l) = Z.lxor (Z.shiftl (le_load l) 8) (byte_val b).
Proof.
  change (le_load (b :: l)) with (byte_val b + 256 * le_load l).
  rewrite <- Z.add_nocarry_lxor.
  - rewrite Z.shiftl_mul_pow2 by lia. change (2 ^ 8) with 256. lia.
  - apply Z.bits_inj'. intros i Hi. rewrite Z.land_spec, Z.bits_0, Z.shiftl_spec by done.
    destruct (Z_lt_le_dec i 8); [by rewrite (Z.testbit_neg_r _ (i - 8)) by lia|].
    rewrite (testbit_high (byte_val b) 8); [apply andb_false_r|apply byte_val_range|lia].
Qed.

Lemma byte_shl_u64 b k : 0 <= k <= 56 -> byte_val b <<u64 k = Z.shiftl (byte_val b) k.
Proof.
  intros Hk. apply u64_small. rewrite Z.shiftl_mul_pow2 by lia.
  pose proof (byte_val_range b). pose proof (Z.pow_pos_nonneg 2 k ltac:(lia) ltac:(lia)).
  split; [nia|]. apply Z.lt_le_trans with (256 * 2 ^ k); [nia|].
  replace (256 * 2 ^ k) with (2 ^ (8 + k)) by (rewrite Z.pow_add_r by lia; done).
  apply Z.pow_le_mono_r; lia.
Qed.

Lemma u64_lor a b : is_u64 a -> is_u64 b -> is_u64 (Z.lor a b).
Proof. apply lor_lt_pow2. lia. Qed.
Lemma u64_lxor a b : is_u64 a -> is_u64 b -> is_u64 (Z.lxor a b).
Proof. apply lxor_lt_pow2. lia. Qed.
#[export] Hint Resolve u64_lxor : lsm.

(** The shifted parts of a rotation do not overlap, so that their [|] is a sum. *)
Lemma rotl_ref x r : is_u64 x -> 0 < r < 64 -> Rotl64 x r = Murmur.rotl x r.
Proof.
  intros Hx Hr. unfold Rotl64, Murmur.rotl, u64. rewrite Z.shiftl_mul_pow2, Z.shiftr_div_pow2 by lia.
  rewrite <- Z.add_lor_land. replace (Z.land _ _) with 0; [lia|]. symmetry. apply Z.bits_inj'. intros i Hi.
  rewrite Z.land_spec, Z.bits_0. destruct (Z_lt_le_dec i r) as [Hlt|Hge].
  - rewrite Z.mod_pow2_bits_low, Z.mul_pow2_bits_low by lia. done.
  - rewrite (testbit_high (x / 2 ^ (64 - r)) r); [apply andb_false_r| |lia]. split; [apply Z.div_pos; [apply Hx|lia]|].
    apply Z.div_lt_upper_bound; [lia|]. rewrite <- Z.pow_add_r by lia. replace (64 - r + r) with 64 by lia. apply Hx.
Qed.

Lemma mix_k1_ref k : mix_k1 k = Murmur.scramble1 k.
Proof. unfold mix_k1. rewrite rotl_ref by (apply u64_range || lia). done. Qed.
Lemma mix_k2_ref k : mix_k2 k = Murmur.scramble2 k.
Proof. unfold mix_k2. rewrite rotl_ref by (apply u64_range || lia). done. Qed.
Lemma scrambled k : is_u64 (Murmur.scramble1 k) /\ is_u64 (Murmur.scramble2 k).
Proof. split; apply u64_range. Qed.

Lemma lane_ref r n h other k :
  is_u64 h -> is_u64 k -> 0 < r < 64 ->
  ((Rotl64 (Z.lxor h k) r +u64 other) * 5 + n) mod 2 ^ 64 = Murmur.lane r n h other k.
Proof.
  intros Hh Hk Hr. unfold Murmur.lane, u64. rewrite rotl_ref by auto using u64_lxor.
  rewrite <- (Z.add_mod_idemp_l ((_ mod _) * 5)), Z.mul_mod_idemp_l, Z.add_mod_idemp_l by lia. done.
Qed.

(** Both halves of the state are 64-bit words. *)
Definition state64 (h : Z * Z) : Prop := is_u64 h.1 /\ is_u64 h.2.

Lemma round_ref h k : state64 h -> body_step h k = Murmur.round h k /\ state64 (Murmur.round h k).
Proof.
  intros [H1 H2]. destruct h as [h1 h2], k as [k1 k2], (scrambled k1) as [S1 _], (scrambled k2) as [_ S2]. cbn [fst snd] in *.
  split; [|split; apply u64_range]. unfold body_step, Murmur.round. cbn [fst snd].
  rewrite mix_k1_ref, mix_k2_ref, !lane_ref by (done || lia). done.
Qed.

Lemma fmix_ref k : Fmix64 k = Murmur.fmix k.
Proof. unfold Fmix64, Murmur.fmix, Murmur.xorshift. rewrite !Z.shiftr_div_pow2 by lia. done. Qed.

Lemma finalize_ref len a b :
  finalize len (a, b) =
  let x := Murmur.fmix ((Z.lxor a len + Z.lxor b len) mod 2 ^ 64) in
  let y := Murmur.fmix ((Z.lxor a len + 2 * Z.lxor b len) mod 2 ^ 64) in
  ((x + y) mod 2 ^ 64, (x + 2 * y) mod 2 ^ 64).
Proof.
  unfold finalize, u64. rewrite !fmix_ref. set (p := Z.lxor a len). set (q := Z.lxor b len).
  assert (forall u v, (u + (v + u) mod 2 ^ 64) mod 2 ^ 64 = (v + 2 * u) mod 2 ^ 64) as Hm.
  { intros u v. rewrite Z.add_mod_idemp_r by lia. f_equal. lia. }
  by rewrite !Hm.
Qed.

Lemma finalize_range len h : state64 (finalize len h).
Proof. unfold finalize. destruct h. split; apply u64_range. Qed.

(** The [switch] mixes in the words of the tail; a word that it leaves out is zero. *)
Lemma tail_switch_ref tail h :
  (length tail < 16)%nat ->
  tail_switch tail (length tail) h =
  (Z.lxor h.1 (Murmur.scramble1 (Murmur.words tail).1), Z.lxor h.2 (Murmur.scramble2 (Murmur.words tail).2)).
Proof.
  intros Hlen. rewrite <- mix_k1_ref, <- mix_k2_ref. destruct h as [h1 h2].
  do 16 (destruct tail as [|? tail];
    [ cbn; rewrite ?byte_shl_u64 by lia;
      rewrite ?le_load_cons_lxor, ?Z.shiftl_lxor, ?Z.shiftl_shiftl by lia;
      change (le_load []) with 0; rewrite ?Z.shiftl_0_l, ?Z.shiftl_0_r;
      rewrite ?(eq_refl : mix_k1 0 = 0), ?(eq_refl : mix_k2 0 = 0), ?Z.lxor_0_r; reflexivity
    | ]).
  simpl in Hlen. lia.
Qed.

(** ** The body loop *)

Lemma block_ok data i :
  0 <= i -> 8 * i + 8 <= blen data -> 8 * i < 2 ^ 31 ->
  GetBlock64 data (to_int i) = Ok (le_load (take 8 (drop (Z.to_nat (8 * i)) data))).
Proof.
  intros Hi Hlen Hs. unfold GetBlock64. rewrite to_int_small by lia. replace (i * 8) with (8 * i) by lia.
  rewrite int32_small by lia. cbn [rbind]. unfold slice. zbool. done.
Qed.

(** The words of the next chunk. *)
Lemma chunk_ok data i n h :
  0 <= i -> 16 * (i + 1) <= blen data -> 16 * (i + 1) <= 2 ^ 31 ->
  body_loop data (S n) i h = body_loop data n (i + 1) (body_step h (Murmur.words (take 16 (drop (Z.to_nat (16 * i)) data)))).
Proof.
  intros Hi Hlen Hs. cbn [body_loop]. rewrite !block_ok by lia. cbn [rbind]. unfold Murmur.words.
  rewrite take_take. change (8 `min` 16)%nat with 8%nat. rewrite <- (take_drop_commute _ 8 8), drop_drop.
  do 3 f_equal; do 3 f_equal; lia.
Qed.

(** The loop is undefined from block [2^27] on. *)
Lemma body_overflows data n i h :
  0 <= i <= 2 ^ 27 -> 16 * (i + Z.of_nat n) <= blen data -> 2 ^ 27 < i + Z.of_nat n -> body_loop data n i h = UB.
Proof.
  revert i h. induction n as [|n IH]; intros i h Hi Hlen Hover; [lia|]. destruct (decide (i = 2 ^ 27)) as [->|Hne].
  - done.
  - rewrite chunk_ok by lia. apply IH; lia.
Qed.

Lemma nblocks_Z (data : bytes) : Z.of_nat (length data / 16) = blen data / 16.
Proof. by rewrite Nat2Z.inj_div. Qed.

Lemma body_runs data fuel n i h :
  state64 h -> 0 <= i -> blen data / 16 = i + Z.of_nat n -> blen data < 2 ^ 31 + 16 -> (n < fuel)%nat ->
  exists h', body_loop data n i h = Ok h' /\
    Murmur.run fuel (drop (Z.to_nat (16 * i)) data) h = tail_switch (drop (length data / 16 * 16) data) (length data mod 16) h'.
Proof.
  revert fuel i h. induction n as [|n IH]; intros fuel i h Hh Hi Hn Hb Hf; (destruct fuel as [|fuel]; [lia|]); cbn [Murmur.run].
  - exists h. split; [done|]. assert (Z.to_nat (16 * i) = (length data / 16 * 16)%nat) as -> by (pose proof (nblocks_Z data); lia).
    assert (length (drop (length data / 16 * 16) data) = (length data mod 16)%nat) as El
      by (rewrite length_drop; pose proof (Nat.div_mod_eq (length data) 16); lia).
    pose proof (Nat.mod_upper_bound (length data) 16 ltac:(done)).
    rewrite (proj2 (Nat.ltb_lt _ _)) by lia. rewrite <- El, tail_switch_ref by lia. done.
  - pose proof (Z.mul_div_le (blen data) 16 ltac:(lia)) as Hle. rewrite Hn in Hle.
    rewrite chunk_ok by lia. rewrite (proj2 (Nat.ltb_ge _ _)) by (rewrite length_drop; unfold blen in *; lia).
    destruct (round_ref h (Murmur.words (take 16 (drop (Z.to_nat (16 * i)) data))) Hh) as [-> Hr].
    destruct (IH fuel (i + 1) _ Hr ltac:(lia) ltac:(lia) Hb ltac:(lia)) as (h' & E & R). exists h'. split; [done|].
    rewrite <- R, drop_drop. do 2 f_equal. lia.
Qed.

(** ** Properties *)

(** C27 (equivalence). On a key shorter than [2^31 + 16] bytes, [MurmurHash3_x64_128]
    computes MurmurHash3 as its reference states it by arithmetic on 16-byte chunks
    of little-endian words, the last of them zero-extended: the block loop reads in
    bounds, rotations are sums of disjoint parts, and the fall-through [switch]
    leaves nothing out. Both halves of the result are 64-bit words. On a longer key
    the [int] offset of a block overflows, which is undefined. *)
Theorem MurmurHash3_equals_reference data seed :
  is_u32 seed ->
  if blen data <? 2 ^ 31 + 16
  then MurmurHash3_x64_128 data seed = Ok (Murmur.hash data seed) /\ state64 (Murmur.hash data seed)
  else MurmurHash3_x64_128 data seed = UB.
Proof.
  intros Hs. pose proof (nblocks_Z data) as Hn. pose proof (Z.div_mod (blen data) 16 ltac:(lia)).
  pose proof (Z.mod_pos_bound (blen data) 16 ltac:(lia)). assert (state64 (seed, seed)) as Hh by (unfold is_u32 in Hs; split; unfold is_u64; cbn; lia). unfold MurmurHash3_x64_128.
  destruct (Z.ltb_spec (blen data) (2 ^ 31 + 16)) as [Hlt|Hge].
  - destruct (body_runs data (S (length data)) (length data / 16) 0 (seed, seed)) as (h & -> & R); try done; try lia.
    { pose proof (Nat.Div0.div_le_mono (length data) (length data) 16). pose proof (Nat.div_le_upper_bound (length data) 16 (length data)). lia. }
    cbn [rbind]. change (drop (Z.to_nat (16 * 0)) data) with data in R. rewrite <- R. change (Z.of_nat (length data)) with (blen data).
    assert (forall h, finalize (blen data) h = finalize (blen data) (h.1, h.2)) as Ep by (by intros []).
    rewrite Ep, finalize_ref. split; [done|]. pose proof (finalize_range (blen data) (Murmur.run (S (length data)) data (seed, seed))) as Hr.
    by rewrite Ep, finalize_ref in Hr.
  - rewrite body_overflows; [done|lia..].
Qed.

Lemma MurmurHash3_equals_reference_witness :
  is_u32 42 /\ MurmurHash3_x64_128 (lit "a key of 21 bytes, ok") 42 = Ok (Murmur.hash (lit "a key of 21 bytes, ok") 42).
Proof.
  split; [split; [discriminate|reflexivity]|].
  apply (MurmurHash3_equals_reference (lit "a key of 21 bytes, ok") 42). split; [discriminate|reflexivity].
Defined.

Lemma MurmurHash128_range key : is_u64 (MurmurHash128 key).1 /\ is_u64 (MurmurHash128 key).2.
Proof.
  unfold MurmurHash128, MurmurHash3_x64_128. destruct (body_loop _ _ _ _); cbn [rbind]; [apply finalize_range|done..].
Qed.

Arguments MurmurHash128 : simpl never.

(** The published vector for "hello" with seed 0. *)
Example murmur_hello :
  MurmurHash128 (lit "hello") = (0xcbd8a7b341bd9b02, 0x5b1e906a48ae1d19).
Proof. vm_compute. reflexivity. Qed.
