(* ===== verification/Bloom.v ===== *)
(** Bloom filter (src/bloom.cpp, include/lsmdb/bloom.h): the builder that
    hashes keys and serializes the bit array, the filter that parses and probes
    it, and the absence of false negatives. *)
From Stdlib Require Import SpecFloat.
From S2P Require Import Prelude Types Coding Hash.

(** ** Probe count *)

(** The IEEE double nearest to the literal [0.6931471805599453]. *)
Definition kLn2 : spec_float := S754_finite false 6243314768165359 (-53).

(** [static_cast<double>(z)] for an [int]. *)
Definition int_to_double (z : Z) : spec_float := binary_normalize 53 1024 z 0 false.

(** [std::lround]: to the nearest integer, halfway cases away from zero. The
    magnitude is the exact value of the finite operand. *)
Definition lround (x : spec_float) : Z :=
  match x with
  | S754_finite s m e =>
      let a := if 0 <=? e then Z.shiftl (Zpos m) e
               else Z.shiftr (Zpos m + Z.shiftl 1 (- e - 1)) (- e) in
      if s then - a else a
  | _ => 0
  end.

Definition ProbesForBitsPerKey (bits_per_key : Z) : Z :=
  let k := lround (SFmul 53 1024 (int_to_double bits_per_key) kLn2) in
  let k := if k <? 1 then 1 else k in
  if 30 <? k then 30 else k.

(** ** Builder *)

(** [class BloomBuilder]. *)
Record BloomBuilder := mkBloomBuilder { bits_per_key_ : Z; h1_ : list Z; h2_ : list Z }.

Definition BloomBuilder_new (bits_per_key : Z) : BloomBuilder := mkBloomBuilder bits_per_key [] [].

Definition BloomBuilder_Add (b : BloomBuilder) (key : bytes) : BloomBuilder :=
  let h := MurmurHash128 key in
  mkBloomBuilder (bits_per_key_ b) (h1_ b ++ [h.1]) (h2_ b ++ [h.2]).

(** [array[bit >> 3] |= (1u << (bit & 7))]. *)
Definition set_bit (array : bytes) (bit : Z) : bytes :=
  alter (fun c => byte_of (Z.lor (byte_val c) (Z.shiftl 1 (Z.land bit 7))))
    (Z.to_nat (Z.shiftr bit 3)) array.

(** The inner loop: [k] probes by double hashing, [a += b] in [uint64_t]. *)
Fixpoint set_probes (k : nat) (bits a b : Z) (array : bytes) : bytes :=
  match k with
  | O => array
  | S k' => set_probes k' bits (a +u64 b) b (set_bit array (a mod bits))
  end.

(** The size of the bit array in bytes: at least 64 bits, a whole number of bytes. *)
Definition bloom_bytes (bits_per_key : Z) (n : nat) : Z :=
  let bits := Z.of_nat n *u64 bits_per_key in
  let bits := if bits <? 64 then 64 else bits in
  (bits +u64 7) / 8.

(** [BloomBuilder::Finish]: the serialized filter and the reset builder. *)
Definition BloomBuilder_Finish (b : BloomBuilder) : bytes * BloomBuilder :=
  let n := length (h1_ b) in
  let k := ProbesForBitsPerKey (bits_per_key_ b) in
  let bytes := bloom_bytes (bits_per_key_ b) n in
  let bits := bytes *u64 8 in
  let header := PutFixed32 [] (u32 bits) ++ [byte_of k] in
  let array := replicate (Z.to_nat bytes) Byte.x00 in
  let array := fold_left (fun arr h => set_probes (Z.to_nat k) bits h.1 h.2 arr)
                 (zip (h1_ b) (h2_ b)) array in
  (header ++ array, mkBloomBuilder (bits_per_key_ b) [] []).

(** ** Filter *)

(** [class BloomFilter]. [bits_] points at offset 5 of [data_] when the filter
    is valid. *)
Record BloomFilter := mkBloomFilter { data_ : bytes; num_bits_ : Z; num_probes_ : Z }.

Definition BloomFilter_empty : BloomFilter := mkBloomFilter [] 0 0.

(** [BloomFilter::Reset]. [bits + 7] is [uint32_t] arithmetic. *)
Definition BloomFilter_Reset (data : bytes) : result BloomFilter :=
  if blen data <? 5 then Ok (mkBloomFilter data 0 0)
  else
    let* bits := DecodeFixed32 data 0 in
    let* kb := of_option (data !! 4%nat) in
    let k := byte_val kb in
    if (bits =? 0) || (blen data <? 5 + (bits +u32 7) / 8) then Ok (mkBloomFilter data 0 0)
    else Ok (mkBloomFilter data bits k).

Definition valid (f : BloomFilter) : bool := 0 <? num_bits_ f.

(** The probe loop; [bits_[bit >> 3]] outside [data_] is undefined behaviour. *)
Fixpoint probe (j : nat) (data : bytes) (num_bits a b : Z) : result bool :=
  match j with
  | O => Ok true
  | S j' =>
      let bit := a mod num_bits in
      let* c := of_option (slice data (5 + Z.shiftr bit 3) 1) in
      if Z.land (le_load c) (Z.shiftl 1 (Z.land bit 7)) =? 0 then Ok false
      else probe j' data num_bits (a +u64 b) b
  end.

Definition MayContain (f : BloomFilter) (key : bytes) : result bool :=
  if num_bits_ f =? 0 then Ok true
  else
    let h := MurmurHash128 key in
    probe (Z.to_nat (num_probes_ f)) (data_ f) (num_bits_ f) h.1 h.2.

(** A builder after [Add] of every key of a list. *)
Definition build_over (bits_per_key : Z) (keys : list bytes) : BloomBuilder :=
  fold_left BloomBuilder_Add keys (BloomBuilder_new bits_per_key).

(** ** Lemmas: bits of the array *)

Definition get_bit (array : bytes) (bit : Z) : bool :=
  match array !! Z.to_nat (Z.shiftr bit 3) with
  | Some c => Z.testbit (byte_val c) (Z.land bit 7)
  | None => false
  end.

Lemma land7_range bit : 0 <= Z.land bit 7 < 8.
Proof. change 7 with (Z.ones 3). rewrite Z.land_ones by lia. by apply Z.mod_pos_bound. Qed.

Lemma land_bit_zero v i : 0 <= i -> (Z.land v (Z.shiftl 1 i) =? 0) = negb (Z.testbit v i).
Proof.
  intros Hi. rewrite Z.shiftl_1_l. destruct (Z.testbit v i) eqn:E; simpl.
  - apply Z.eqb_neq. intros H. apply (f_equal (fun x => Z.testbit x i)) in H.
    by rewrite Z.land_spec, Z.pow2_bits_true, E, Z.bits_0 in H by done.
  - apply Z.eqb_eq, Z.bits_inj'. intros j Hj. rewrite Z.land_spec, Z.bits_0, Z.pow2_bits_eqb by done.
    destruct (Z.eqb_spec i j) as [->|]; [by rewrite E|apply andb_false_r].
Qed.

Lemma set_bit_length array bit : length (set_bit array bit) = length array.
Proof. apply length_alter. Qed.

Lemma get_set_bit array bit bit' :
  0 <= bit -> 0 <= bit' ->
  get_bit (set_bit array bit) bit' =
  if (bit' =? bit) && (Z.to_nat (Z.shiftr bit 3) <? length array)%nat then true
  else get_bit array bit'.
Proof.
  intros Hb Hb'. unfold get_bit, set_bit.
  destruct (decide (Z.to_nat (Z.shiftr bit 3) = Z.to_nat (Z.shiftr bit' 3))) as [E|NE].
  - rewrite <- E, list_lookup_alter_eq.
    assert (Z.shiftr bit 3 = Z.shiftr bit' 3) as E'.
    { apply Z2Nat.inj; [by apply Z.shiftr_nonneg..|done]. }
    destruct (array !! Z.to_nat (Z.shiftr bit 3)) as [c|] eqn:Hc; simpl.
    + rewrite (proj2 (Nat.ltb_lt _ _)), andb_true_r by (by eapply lookup_lt_Some).
      assert (Z.lor (byte_val c) (Z.shiftl 1 (Z.land bit 7)) mod 256
              = Z.lor (byte_val c) (Z.shiftl 1 (Z.land bit 7))) as Hm.
      { apply Z.mod_small. apply (lor_lt_pow2 _ _ 8); [lia|apply byte_val_range|].
        rewrite Z.shiftl_1_l. pose proof (land7_range bit).
        split; [lia|apply Z.pow_lt_mono_r; lia]. }
      pose proof (land7_range bit). pose proof (land7_range bit').
      rewrite byte_val_of, Hm, Z.lor_spec, Z.shiftl_1_l, Z.pow2_bits_eqb by lia.
      destruct (Z.eqb_spec bit' bit) as [->|Hne].
      * rewrite Z.eqb_refl. apply orb_true_r.
      * destruct (Z.eqb_spec (Z.land bit 7) (Z.land bit' 7)) as [E7|]; [|apply orb_false_r].
        exfalso. apply Hne. change 7 with (Z.ones 3) in E7. rewrite !Z.land_ones in E7 by lia.
        rewrite !Z.shiftr_div_pow2 in E' by lia.
        rewrite (Z.div_mod bit' (2 ^ 3)), (Z.div_mod bit (2 ^ 3)) by lia. congruence.
    + rewrite (proj2 (Nat.ltb_ge _ _)), andb_false_r; [done|]. by apply lookup_ge_None.
  - rewrite list_lookup_alter_ne by done.
    destruct (Z.eqb_spec bit' bit) as [->|]; [done|by simpl].
Qed.

Lemma get_set_bit_mono array bit bit' :
  0 <= bit -> 0 <= bit' -> get_bit array bit' = true -> get_bit (set_bit array bit) bit' = true.
Proof. intros ?? H. rewrite get_set_bit, H by done. by destruct (_ && _). Qed.

(** The bits probed for a hash pair. *)
Fixpoint probes_set (k : nat) (bits a b : Z) (array : bytes) : Prop :=
  match k with
  | O => True
  | S k' => get_bit array (a mod bits) = true /\ probes_set k' bits (a +u64 b) b array
  end.

Definition bits_mono (x y : bytes) : Prop :=
  length x = length y /\ forall bit, 0 <= bit -> get_bit x bit = true -> get_bit y bit = true.

#[global] Instance bits_mono_preorder : PreOrder bits_mono.
Proof.
  split.
  - intros x. by split.
  - intros x y z [H1 H2] [H3 H4]. split; [congruence|]. auto.
Qed.

Lemma probes_set_mono k bits a b x y :
  0 < bits -> bits_mono x y -> probes_set k bits a b x -> probes_set k bits a b y.
Proof.
  intros Hb Hm. revert a. induction k as [|k IH]; intros a; simpl; [done|].
  intros [H1 H2]. split; [|auto]. apply Hm; [by apply Z.mod_pos_bound|done].
Qed.

Lemma set_bit_mono array bit : 0 <= bit -> bits_mono array (set_bit array bit).
Proof. intros H. split; [by rewrite set_bit_length|]. intros. by apply get_set_bit_mono. Qed.

Lemma set_probes_mono k bits a b array : 0 < bits -> bits_mono array (set_probes k bits a b array).
Proof.
  intros Hb. revert a array. induction k as [|k IH]; intros a array; simpl; [done|].
  etransitivity; [apply set_bit_mono, (Z.mod_pos_bound a bits Hb)|apply IH].
Qed.

Lemma set_probes_spec k bits a b array :
  0 < bits -> bits <= 8 * blen array -> probes_set k bits a b (set_probes k bits a b array).
Proof.
  intros Hb. revert a array. induction k as [|k IH]; intros a array Hlen; simpl; [done|].
  pose proof (Z.mod_pos_bound a bits Hb) as Hm. split.
  - apply (set_probes_mono k bits (a +u64 b) b _ Hb); [lia|].
    rewrite get_set_bit, Z.eqb_refl by lia.
    rewrite (proj2 (Nat.ltb_lt _ _)); [done|].
    unfold blen in Hlen. rewrite Z.shiftr_div_pow2 by lia. change (2 ^ 3) with 8.
    apply Nat2Z.inj_lt. rewrite Z2Nat.id by (apply Z.div_pos; lia).
    apply Z.div_lt_upper_bound; lia.
  - apply IH. unfold blen. by rewrite set_bit_length.
Qed.

Definition bloom_fill (k : nat) (bits : Z) (hs : list (Z * Z)) (array : bytes) : bytes :=
  fold_left (fun arr h => set_probes k bits h.1 h.2 arr) hs array.

Lemma bloom_fill_mono k bits hs array : 0 < bits -> bits_mono array (bloom_fill k bits hs array).
Proof.
  intros Hb. revert array. induction hs as [|h hs IH]; intros array; simpl; [done|].
  etransitivity; [by apply set_probes_mono|apply IH].
Qed.

Lemma bloom_fill_spec k bits hs array h :
  0 < bits -> bits <= 8 * blen array -> h ∈ hs ->
  probes_set k bits h.1 h.2 (bloom_fill k bits hs array).
Proof.
  intros Hb. revert array. induction hs as [|g hs IH]; intros array Hlen; [by intros ?%elem_of_nil|].
  intros [->|Hin]%elem_of_cons; simpl.
  - eapply probes_set_mono; [done|by apply bloom_fill_mono|by apply set_probes_spec].
  - apply IH; [|done]. unfold blen. by rewrite <- (proj1 (set_probes_mono k bits g.1 g.2 array Hb)).
Qed.

(** ** Lemmas: builder and filter *)

Lemma build_over_hashes bpk keys :
  build_over bpk keys =
  mkBloomBuilder bpk (map (fun k => (MurmurHash128 k).1) keys) (map (fun k => (MurmurHash128 k).2) keys).
Proof.
  unfold build_over. induction keys as [|k keys IH] using rev_ind; [done|].
  rewrite fold_left_app, IH. unfold BloomBuilder_Add. simpl. by rewrite !map_app.
Qed.

Lemma zip_hashes keys :
  zip (map (fun k => (MurmurHash128 k).1) keys) (map (fun k => (MurmurHash128 k).2) keys)
  = map MurmurHash128 keys.
Proof. induction keys as [|k keys IH]; simpl; [done|]. rewrite IH. by destruct (MurmurHash128 k). Qed.

Lemma ProbesForBitsPerKey_range bpk : 1 <= ProbesForBitsPerKey bpk <= 30.
Proof.
  unfold ProbesForBitsPerKey.
  destruct (Z.ltb_spec (lround (SFmul 53 1024 (int_to_double bpk) kLn2)) 1);
    destruct (Z.ltb_spec 30 (lround (SFmul 53 1024 (int_to_double bpk) kLn2)));
    repeat match goal with |- context [?a <? ?b] => destruct (Z.ltb_spec a b) end; lia.
Qed.

Lemma bloom_bytes_range bpk n :
  0 <= Z.of_nat n * bpk <= 2 ^ 32 - 8 ->
  8 <= bloom_bytes bpk n <= 2 ^ 29 - 1 /\ Z.of_nat n * bpk <= 8 * bloom_bytes bpk n.
Proof.
  intros H. unfold bloom_bytes. rewrite (u64_small (_ * _)) by lia.
  destruct (Z.ltb_spec (Z.of_nat n * bpk) 64); rewrite u64_small by lia;
    [change ((64 + 7) / 8) with 8; lia|].
  split; [split|]; [apply Z.div_le_lower_bound; lia|apply Z.lt_succ_r, Z.div_lt_upper_bound; lia|].
  pose proof (Z.div_mod (Z.of_nat n * bpk + 7) 8 ltac:(lia)).
  pose proof (Z.mod_pos_bound (Z.of_nat n * bpk + 7) 8 ltac:(lia)). lia.
Qed.

(** What [Finish] serializes: the header, then the filled array. *)
Lemma Finish_shape bpk keys :
  0 <= blen keys * bpk <= 2 ^ 32 - 8 ->
  let bytes := bloom_bytes bpk (length keys) in
  let k := ProbesForBitsPerKey bpk in
  (BloomBuilder_Finish (build_over bpk keys)).1
  = fixed32 (8 * bytes) ++ [byte_of k]
    ++ bloom_fill (Z.to_nat k) (8 * bytes) (map MurmurHash128 keys)
         (replicate (Z.to_nat bytes) Byte.x00).
Proof.
  intros H. cbv zeta. pose proof (bloom_bytes_range bpk (length keys) H) as [Hr _].
  rewrite build_over_hashes. unfold BloomBuilder_Finish. cbn [h1_ h2_ bits_per_key_ fst].
  rewrite zip_hashes, length_map, PutFixed32_spec, (Z.mul_comm _ 8).
  rewrite (u64_small (8 * _)), (u32_small (8 * _)) by lia. by rewrite <- app_assoc.
Qed.

Lemma fill_length bpk keys :
  0 <= blen keys * bpk <= 2 ^ 32 - 8 ->
  blen (bloom_fill (Z.to_nat (ProbesForBitsPerKey bpk)) (8 * bloom_bytes bpk (length keys))
          (map MurmurHash128 keys) (replicate (Z.to_nat (bloom_bytes bpk (length keys))) Byte.x00))
  = bloom_bytes bpk (length keys).
Proof.
  intros H. pose proof (bloom_bytes_range bpk (length keys) H) as [Hr _].
  unfold blen. rewrite <- (proj1 (bloom_fill_mono (Z.to_nat (ProbesForBitsPerKey bpk))
    (8 * bloom_bytes bpk (length keys)) (map MurmurHash128 keys) _ ltac:(lia))).
  rewrite length_replicate. lia.
Qed.

Lemma Reset_Finish bpk keys :
  0 <= blen keys * bpk <= 2 ^ 32 - 8 ->
  let data := (BloomBuilder_Finish (build_over bpk keys)).1 in
  BloomFilter_Reset data
  = Ok (mkBloomFilter data (8 * bloom_bytes bpk (length keys)) (ProbesForBitsPerKey bpk)).
Proof.
  intros H. cbv zeta. pose proof (bloom_bytes_range bpk (length keys) H) as [Hr _].
  pose proof (ProbesForBitsPerKey_range bpk) as Hk. pose proof (fill_length bpk keys H) as Hl.
  rewrite Finish_shape by done. unfold BloomFilter_Reset.
  set (arr := bloom_fill _ _ _ _) in *.
  destruct (Z.ltb_spec (blen (fixed32 (8 * bloom_bytes bpk (length keys)) ++
     [byte_of (ProbesForBitsPerKey bpk)] ++ arr)) 5); [len|].
  rewrite DecodeFixed32_head by (unfold is_u32; lia). cbn [rbind].
  rewrite lookup_app_r by (rewrite le_split_length; lia). rewrite le_split_length.
  cbn [lookup list_lookup Nat.sub app of_option rbind].
  rewrite byte_val_of, (Z.mod_small _ 256) by lia.
  rewrite u32_small by lia.
  replace ((8 * bloom_bytes bpk (length keys) + 7) / 8) with (bloom_bytes bpk (length keys))
    by (apply Z.div_unique with 7; lia).
  destruct (Z.eqb_spec (8 * bloom_bytes bpk (length keys)) 0); [lia|].
  match goal with |- context [?a <? ?b] => destruct (Z.ltb_spec a b) end; [len|done].
Qed.

Lemma probe_spec k hdr array bits a b :
  0 < bits -> bits <= 8 * blen array -> blen hdr = 5 -> probes_set k bits a b array ->
  probe k (hdr ++ array) bits a b = Ok true.
Proof.
  intros Hb Hlen Hh. revert a. induction k as [|k IH]; intros a; simpl; [done|]. intros [H1 H2].
  rewrite <- Hh, slice_app_r by (apply Z.shiftr_nonneg, Z.mod_pos_bound; lia).
  unfold get_bit in H1. set (i := Z.shiftr (a mod bits) 3) in *.
  destruct (array !! Z.to_nat i) as [c|] eqn:Hc; [|done].
  assert (0 <= i) by (apply Z.shiftr_nonneg, Z.mod_pos_bound; lia).
  rewrite (slice_eq array (take (Z.to_nat i) array) [c] (drop (S (Z.to_nat i)) array)).
  - cbn [of_option rbind]. change (le_load [c]) with (byte_val c + 256 * 0).
    rewrite Z.mul_0_r, Z.add_0_r, land_bit_zero by apply land7_range. rewrite H1. simpl. by apply IH.
  - symmetry. by apply take_drop_middle.
  - unfold blen. rewrite length_take. apply lookup_lt_Some in Hc. lia.
  - done.
Qed.

Lemma probe_safe k data bits a b :
  0 < bits -> 5 + (bits + 7) / 8 <= blen data -> exists r, probe k data bits a b = Ok r.
Proof.
  intros Hb Hlen. revert a. induction k as [|k IH]; intros a; simpl; [eauto|].
  destruct (slice data (5 + Z.shiftr (a mod bits) 3) 1) as [c|] eqn:E.
  - simpl. destruct (_ =? 0); eauto.
  - exfalso. apply slice_None in E. rewrite Z.shiftr_div_pow2 in E by lia. change (2 ^ 3) with 8 in E.
    pose proof (Z.mod_pos_bound a bits Hb).
    assert (a mod bits / 8 + 1 <= (bits + 7) / 8).
    { replace (a mod bits / 8 + 1) with ((a mod bits + 1 * 8) / 8) by (by rewrite Z.div_add by lia).
      apply Z.div_le_mono; lia. }
    pose proof (Z.div_pos (a mod bits) 8). lia.
Qed.

(** The serialized filter parses back and answers every probe: "maybe" for each
    key that was added, without fault for any other. *)
Lemma filter_answers bpk keys key :
  0 <= blen keys * bpk <= 2 ^ 32 - 8 ->
  exists f, BloomFilter_Reset (BloomBuilder_Finish (build_over bpk keys)).1 = Ok f /\
    valid f = true /\ 1 <= num_probes_ f <= 30 /\
    (exists b, MayContain f key = Ok b) /\ (key ∈ keys -> MayContain f key = Ok true).
Proof.
  intros H. eexists. split; [by apply Reset_Finish|].
  pose proof (bloom_bytes_range bpk (length keys) H) as [Hr _].
  pose proof (fill_length bpk keys H) as Hl.
  split; [apply Z.ltb_lt; simpl; lia|]. split; [apply ProbesForBitsPerKey_range|].
  unfold MayContain. cbn [num_bits_ num_probes_ data_].
  destruct (Z.eqb_spec (8 * bloom_bytes bpk (length keys)) 0); [lia|].
  rewrite Finish_shape by done. rewrite app_assoc. split.
  - apply probe_safe; [lia|].
    replace ((8 * bloom_bytes bpk (length keys) + 7) / 8) with (bloom_bytes bpk (length keys))
      by (apply Z.div_unique with 7; lia).
    rewrite blen_app, Hl. len.
  - intros Hin. apply probe_spec; [lia|lia|done|]. apply bloom_fill_spec; [lia| |].
    + unfold blen. rewrite length_replicate. lia.
    + apply list_elem_of_In, in_map, list_elem_of_In, Hin.
Qed.

Arguments MayContain : simpl never.

(** The default of ten bits per key takes seven probes. *)
Example probes_default : ProbesForBitsPerKey 10 = 7.
Proof. vm_compute. reflexivity. Qed.

(** ** Properties *)

(** C19 (functional). No false negatives: a filter serialized by
    [BloomBuilder::Finish] over any keys, whose bit count fits the 32-bit
    header, parses as a valid filter with between 1 and 30 probes and answers
    "maybe" for every key that was added. *)
Theorem bloom_no_false_negatives bpk keys key :
  0 <= blen keys * bpk <= 2 ^ 32 - 8 -> key ∈ keys ->
  exists f, BloomFilter_Reset (BloomBuilder_Finish (build_over bpk keys)).1 = Ok f /\
            valid f = true /\ 1 <= num_probes_ f <= 30 /\ MayContain f key = Ok true.
Proof.
  intros H Hin. destruct (filter_answers bpk keys key H) as (f & ? & ? & ? & _ & Hm).
  exists f. split_and!; try done; [naive_solver..|]. by apply Hm.
Qed.

Lemma bloom_no_false_negatives_witness :
  exists f, BloomFilter_Reset (BloomBuilder_Finish (build_over 10 [lit "a"; lit "b"])).1 = Ok f /\
            valid f = true /\ 1 <= num_probes_ f <= 30 /\ MayContain f (lit "b") = Ok true.
Proof.
  apply (bloom_no_false_negatives 10 [lit "a"; lit "b"] (lit "b")).
  - vm_compute. intuition congruence.
  - apply list_elem_of_In. simpl. auto.
Defined.

(** Probing a filter parsed from arbitrary bytes never reads
    outside the serialized blob, provided the header does not announce one of
    the seven bit counts above [2^32 - 8] on which [bits + 7] wraps. *)
Theorem bloom_probe_memory_safe data f key :
  BloomFilter_Reset data = Ok f -> num_bits_ f <= 2 ^ 32 - 8 ->
  exists r, MayContain f key = Ok r.
Proof.
  intros H Hle.
  unfold MayContain. destruct (Z.eqb_spec (num_bits_ f) 0) as [|Hne]; [eauto|].
  unfold BloomFilter_Reset in H. destruct (blen data <? 5); [by simplify_eq|].
  destruct (DecodeFixed32 data 0) as [bits| |] eqn:E; simpl in H; try done.
  apply DecodeFixed32_range in E.
  destruct (data !! 4%nat) as [kb|]; simpl in H; [|done].
  destruct (Z.eqb_spec bits 0) as [|Hn0]; simpl in H; [by simplify_eq|].
  destruct (Z.ltb_spec (blen data) (5 + (bits +u32 7) / 8)) as [|Hsz]; simplify_eq.
  unfold is_u32 in E. simpl in Hle |- *. rewrite u32_small in Hsz by lia.
  apply probe_safe; lia.
Qed.

Lemma bloom_probe_memory_safe_witness :
  exists r, MayContain (mkBloomFilter (fixed32 8 ++ [byte_of 3; byte_of 255]) 8 3) (lit "k") = Ok r.
Proof.
  apply (bloom_probe_memory_safe (fixed32 8 ++ [byte_of 3; byte_of 255])
           (mkBloomFilter (fixed32 8 ++ [byte_of 3; byte_of 255]) 8 3) (lit "k")).
  - vm_compute. reflexivity.
  - vm_compute. congruence.
Defined.

(** The size check of [BloomFilter::Reset] wraps: a five-byte blob
    announcing [2^32 - 1] bits is accepted as valid, and probing it reads past
    the end of the blob. *)
Example bloom_reset_check_wraps :
  exists f, BloomFilter_Reset (fixed32 (2 ^ 32 - 1) ++ [byte_of 1]) = Ok f /\
            valid f = true /\ MayContain f (lit "a") = UB.
Proof.
  exists (mkBloomFilter (fixed32 (2 ^ 32 - 1) ++ [byte_of 1]) (2 ^ 32 - 1) 1).
  split_and!; vm_compute; reflexivity.
Qed.
