(* ===== verification/SkipList.v ===== *)
(** The skip-list memtable (src/skiplist.cpp, include/lsmdb/skiplist.h).

    The list lives in a heap of nodes addressed by locations; [forward] holds
    nullable pointers. A dereference of a location that is not in the heap, a
    [forward] index out of range, and a search loop that does not end are
    undefined behaviour. The coin flips of [RandomLevel] come from an arbitrary
    stream, so the theorems hold for every tower shape. *)
From S2P Require Import Prelude Types.

(** What the code takes from its platform: the outcome of the [n]-th
    [dist_(rng_) < 0.5] of a freshly seeded generator, and [sizeof(Node)]. *)
Class MemEnv := { coin : nat -> bool; sizeof_Node : Z }.

Abbreviation loc := positive (only parsing).

Definition kMaxLevel : nat := 16.
(** The size of a pointer on the 64-bit target. *)
Definition sizeof_ptr : Z := 8.

(** [struct Node]. *)
Record Node := mkNode {
  nkey : bytes; nvalue : bytes; is_tombstone : bool; forward : list (option loc) }.

(** [class SkipList], with the heap it allocates its nodes from. *)
Record SkipList := mkSkipList {
  heap : gmap loc Node; next_loc : loc; head_ : loc;
  level_ : nat; count_ : Z; mem_usage_ : Z; rng_ : nat }.

(** [SkipList::SkipList]: a head node of full height. *)
Definition SkipList_new : SkipList :=
  mkSkipList {[ 1%positive := mkNode [] [] false (replicate kMaxLevel None) ]}
    2%positive 1%positive 1 0 0 0.

Definition deref (h : gmap loc Node) (x : loc) : result Node := of_option (h !! x).
Definition fwd (h : gmap loc Node) (x : loc) (i : nat) : result (option loc) :=
  let* n := deref h x in of_option (forward n !! i).
(** [x->forward[i] = y]. *)
Definition set_fwd (h : gmap loc Node) (x : loc) (i : nat) (y : option loc) : result (gmap loc Node) :=
  let* n := deref h x in
  let* _ := of_option (forward n !! i) in
  Ok (<[x := mkNode (nkey n) (nvalue n) (is_tombstone n) (<[i := y]> (forward n))]> h).

(** [while (x->forward[i] != nullptr && x->forward[i]->key < key) x = x->forward[i];]
    The number of nodes bounds the iterations. *)
Fixpoint walk (fuel : nat) (h : gmap loc Node) (x : loc) (i : nat) (key : bytes) : result loc :=
  match fuel with
  | O => UB
  | S fuel' =>
      let* f := fwd h x i in
      match f with
      | None => Ok x
      | Some y =>
          let* n := deref h y in
          if str_ltb (nkey n) key then walk fuel' h y i key else Ok x
      end
  end.

(** [for (int i = level_ - 1; i >= 0; --i) { while ...; update[i] = x; }] *)
Fixpoint descend (h : gmap loc Node) (i : nat) (x : loc) (update : list loc) (key : bytes)
  : result (loc * list loc) :=
  match i with
  | O => Ok (x, update)
  | S i' =>
      let* x' := walk (size h) h x i' key in
      descend h i' x' (<[i' := x']> update) key
  end.

(** The splice loop: [node->forward[i] = update[i]->forward[i];
    update[i]->forward[i] = node;] for [n] levels from [i]. *)
Fixpoint splice (n i : nat) (h : gmap loc Node) (node : loc) (update : list loc)
  : result (gmap loc Node) :=
  match n with
  | O => Ok h
  | S n' =>
      let* u := of_option (update !! i) in
      let* f := fwd h u i in
      let* h := set_fwd h node i f in
      let* h := set_fwd h u i (Some node) in
      splice n' (S i) h node update
  end.

(** [next != nullptr && next->key == key]: the node that holds [key]. *)
Definition node_with_key (h : gmap loc Node) (next : option loc) (key : bytes)
  : result (option (loc * Node)) :=
  match next with
  | None => Ok None
  | Some y => let* n := deref h y in Ok (if str_eqb (nkey n) key then Some (y, n) else None)
  end.

Section Ops.
Context `{MemEnv}.

(** [RandomLevel]: at most [kMaxLevel - 1] flips. *)
Fixpoint random_level_loop (fuel lvl rng : nat) : nat * nat :=
  match fuel with
  | O => (lvl, rng)
  | S fuel' =>
      if (lvl <? kMaxLevel)%nat then
        if coin rng then random_level_loop fuel' (S lvl) (S rng) else (lvl, S rng)
      else (lvl, rng)
  end.
Definition RandomLevel (rng : nat) : nat * nat := random_level_loop kMaxLevel 1 rng.

(** [SkipList::Insert]. *)
Definition SkipList_Insert (s : SkipList) (key value : bytes) (tombstone : bool) : result SkipList :=
  let* (x, update) := descend (heap s) (level_ s) (head_ s) (replicate kMaxLevel (head_ s)) key in
  let* next := fwd (heap s) x 0 in
  let* hit := node_with_key (heap s) next key in
  match hit with
  | Some (y, n) =>
      let mem := mem_usage_ s -u64 blen (nvalue n) in
      let mem := mem +u64 blen value in
      Ok (mkSkipList (<[y := mkNode (nkey n) value tombstone (forward n)]> (heap s))
            (next_loc s) (head_ s) (level_ s) (count_ s) mem (rng_ s))
  | None =>
      let (height, rng) := RandomLevel (rng_ s) in
      let update :=
        if (level_ s <? height)%nat
        then fold_left (fun u i => <[i := head_ s]> u) (seq (level_ s) (height - level_ s)) update
        else update in
      let level := if (level_ s <? height)%nat then height else level_ s in
      let node := next_loc s in
      let h := <[node := mkNode key value tombstone (replicate height None)]> (heap s) in
      let* h := splice height 0 h node update in
      Ok (mkSkipList h (Pos.succ node) (head_ s) level (count_ s +u64 1)
            (mem_usage_ s +u64 (blen key + blen value + sizeof_Node + Z.of_nat height * sizeof_ptr))
            rng)
  end.

Definition SkipList_Put (s : SkipList) (key value : bytes) : result SkipList :=
  SkipList_Insert s key value false.
Definition SkipList_Delete (s : SkipList) (key : bytes) : result SkipList :=
  SkipList_Insert s key [] true.

End Ops.

(** [SkipList::Get]; the second component is what is stored through [value]. *)
Definition SkipList_Get (s : SkipList) (key : bytes) : result (LookupResult.t * option bytes) :=
  let* (x, _) := descend (heap s) (level_ s) (head_ s) (replicate kMaxLevel (head_ s)) key in
  let* next := fwd (heap s) x 0 in
  let* hit := node_with_key (heap s) next key in
  match hit with
  | Some (_, n) =>
      if is_tombstone n then Ok (LookupResult.kDeleted, None)
      else Ok (LookupResult.kFound, Some (nvalue n))
  | None => Ok (LookupResult.kNotFound, None)
  end.

Definition SkipList_Size (s : SkipList) : Z := count_ s.
Definition ApproximateMemoryUsage (s : SkipList) : Z := mem_usage_ s.

(** [delete n] of a node that lives. *)
Definition delete_node (h : gmap loc Node) (x : loc) : result (gmap loc Node) :=
  let* _ := deref h x in Ok (delete x h).

(** [while (n != nullptr) { Node* next = n->forward[0]; delete n; n = next; }] *)
Fixpoint destroy_loop (fuel : nat) (h : gmap loc Node) (n : option loc) : result (gmap loc Node) :=
  match fuel with
  | O => UB
  | S fuel' =>
      match n with
      | None => Ok h
      | Some x =>
          let* next := fwd h x 0 in
          let* h := delete_node h x in
          destroy_loop fuel' h next
      end
  end.

(** [SkipList::~SkipList]: what is left of the heap. *)
Definition SkipList_destroy (s : SkipList) : result (gmap loc Node) :=
  let* n := fwd (heap s) (head_ s) 0 in
  let* h := destroy_loop (size (heap s)) (heap s) n in
  delete_node h (head_ s).

(** A sequence of mutations, as the replay handler applies them: a tombstone
    deletes, any other type puts. *)
Definition apply_op `{MemEnv} (s : SkipList) (e : entry) : result SkipList :=
  if is_tombstone_type (e_type e) then SkipList_Delete s (e_key e)
  else SkipList_Put s (e_key e) (e_value e).
Fixpoint run_ops `{MemEnv} (s : SkipList) (ops : list entry) : result SkipList :=
  match ops with
  | [] => Ok s
  | e :: ops' => let* s' := apply_op s e in run_ops s' ops'
  end.

(** ** Iterator: [node_] is a nullable pointer into the list *)

Definition SLIter := option loc.

Definition SL_Valid (it : SLIter) : bool := match it with Some _ => true | None => false end.
Definition SL_SeekToFirst (s : SkipList) : result SLIter := fwd (heap s) (head_ s) 0.
Definition SL_Seek (s : SkipList) (target : bytes) : result SLIter :=
  let* (x, _) := descend (heap s) (level_ s) (head_ s) (replicate kMaxLevel (head_ s)) target in
  fwd (heap s) x 0.
Definition SL_Next (s : SkipList) (it : SLIter) : result SLIter :=
  match it with Some x => fwd (heap s) x 0 | None => UB end.
(** [key()], [value()] and [IsTombstone()] of the current node. *)
Definition SL_node (s : SkipList) (it : SLIter) : result Node :=
  match it with Some x => deref (heap s) x | None => UB end.

(** The entry under the iterator: key, value and type as the flush loops read them. *)
Definition node_entry (n : Node) : entry :=
  Entry (nkey n) (nvalue n) (if is_tombstone n then kTombstone else kValue).

(** [for (; it.Valid(); it.Next())]: the entries visited from [it] on. *)
Fixpoint SL_drain (fuel : nat) (s : SkipList) (it : SLIter) : result (list entry) :=
  match fuel with
  | O => UB
  | S fuel' =>
      if SL_Valid it then
        let* n := SL_node s it in
        let* it' := SL_Next s it in
        let* es := SL_drain fuel' s it' in
        Ok (node_entry n :: es)
      else Ok []
  end.

(** ** Representation *)

(** A cell of the list as seen from the bottom level. *)
Record cell := mkCell { c_loc : loc; c_key : bytes; c_val : bytes; c_tomb : bool; c_height : nat }.

Definition cell_entry (c : cell) : entry :=
  Entry (c_key c) (c_val c) (if c_tomb c then kTombstone else kValue).

(** The next cell of level [i] among the cells that follow. *)
Definition next_at (i : nat) (post : list cell) : option cell :=
  List.find (fun d => (i <? c_height d)%nat) post.
Definition ptr_at (i : nat) (post : list cell) : option loc := c_loc <$> next_at i post.

(** The last cell of level [i] among [q], or [x] when there is none. *)
Fixpoint last_at (i : nat) (x : cell) (q : list cell) : cell :=
  match q with
  | [] => x
  | d :: q' => last_at i (if (i <? c_height d)%nat then d else x) q'
  end.

(** The heap holds the cells, with forward pointers given by [F]. *)
Fixpoint rep (F : cell -> list cell -> nat -> option loc) (h : gmap loc Node) (cs : list cell) : Prop :=
  match cs with
  | [] => True
  | c :: post =>
      h !! c_loc c = Some (mkNode (c_key c) (c_val c) (c_tomb c) (map (F c post) (seq 0 (c_height c))))
      /\ rep F h post
  end.

Definition links : cell -> list cell -> nat -> option loc := fun _ post i => ptr_at i post.

Definition head_cell (l : loc) : cell := mkCell l [] [] false kMaxLevel.

Definition cell_usage `{MemEnv} (c : cell) : Z :=
  blen (c_key c) + blen (c_val c) + sizeof_Node + Z.of_nat (c_height c) * sizeof_ptr.
Definition usage `{MemEnv} (cs : list cell) : Z := foldr Z.add 0 (map cell_usage cs).

(** The representation invariant: [cs] are the cells behind the head, in
    ascending key order, each level's pointers skipping to the next cell that is
    tall enough. *)
Record wf `{MemEnv} (s : SkipList) (cs : list cell) : Prop := {
  wf_rep : rep links (heap s) (head_cell (head_ s) :: cs);
  wf_nodup : NoDup (head_ s :: map c_loc cs);
  wf_alloc : forall l, is_Some (heap s !! l) -> (l < next_loc s)%positive;
  wf_size : size (heap s) = S (length cs);
  wf_sorted : sorted_keys (map cell_entry cs);
  wf_heights : Forall (fun c => 1 <= c_height c <= level_ s)%nat cs;
  wf_level : (1 <= level_ s <= kMaxLevel)%nat;
  wf_count : count_ s = u64 (Z.of_nat (length cs));
  wf_usage : mem_usage_ s = u64 (usage cs) }.

(** The list holds exactly the records [es]. *)
Definition sl_contents `{MemEnv} (s : SkipList) (es : list entry) : Prop :=
  exists cs, wf s cs /\ map cell_entry cs = es.

(** ** Lemmas: levels *)

Lemma next_at_app i p q :
  next_at i (p ++ q) = match next_at i p with Some c => Some c | None => next_at i q end.
Proof. apply find_app. Qed.

Lemma next_at_None i q : next_at i q = None <-> Forall (fun c => c_height c <= i)%nat q.
Proof.
  unfold next_at. rewrite find_None. split; intros H; eapply Forall_impl; try exact H;
    intros c; cbv beta; rewrite Nat.ltb_ge; lia.
Qed.

Lemma last_at_none i x q : Forall (fun c => c_height c <= i)%nat q -> last_at i x q = x.
Proof.
  induction 1 as [|c q Hc _ IH]; simpl; [done|].
  by rewrite (proj2 (Nat.ltb_ge _ _)) by done.
Qed.

Lemma last_at_app i x p d q : (i < c_height d)%nat -> last_at i x (p ++ d :: q) = last_at i d q.
Proof.
  intros Hd. revert x. induction p as [|c p IH]; intros x; simpl; [|apply IH].
  by rewrite (proj2 (Nat.ltb_lt _ _)).
Qed.

(** Where the last cell of a level sits. *)
Lemma last_at_split i x q :
  exists p r, x :: q = p ++ last_at i x q :: r /\
    Forall (fun c => c_height c <= i)%nat r /\
    (i < c_height (last_at i x q) \/ p = [])%nat.
Proof.
  induction q as [|d q IH] using rev_ind; [exists [], []; simpl; auto|].
  destruct (decide (i < c_height d)%nat) as [Hd|Hd].
  - exists (x :: q), []. rewrite last_at_app by done. simpl. auto.
  - destruct IH as (p & r & E & Hr & Hc). exists p, (r ++ [d]).
    assert (last_at i x (q ++ [d]) = last_at i x q) as ->.
    { clear -Hd. revert x. induction q as [|c q IH]; intros x; simpl; [|apply IH].
      by rewrite (proj2 (Nat.ltb_ge _ _)) by lia. }
    split_and!; [by rewrite app_comm_cons, E, <- app_assoc| |done].
    apply Forall_app. split; [done|]. constructor; [lia|done].
Qed.

(** Searching a lower level from the last cell of a higher one. *)
Lemma last_at_lower i j x q p r :
  x :: q = p ++ last_at i x q :: r -> (i < c_height (last_at i x q) \/ p = [])%nat ->
  (j < i)%nat -> last_at j (last_at i x q) r = last_at j x q.
Proof.
  intros E Hc Hj. destruct p as [|x' p].
  - injection E as E1 E2. by rewrite <- E1, E2.
  - destruct Hc as [Hc|]; [|done]. injection E as _ E. rewrite E at 2.
    by rewrite last_at_app by lia.
Qed.

(** ** Lemmas: the heap representation *)

Lemma rep_app F h p r :
  rep F h (p ++ r) <-> rep (fun c q => F c (q ++ r)) h p /\ rep F h r.
Proof. induction p as [|c p IH]; simpl; [naive_solver|]. rewrite IH. naive_solver. Qed.

Lemma rep_ext F G h cs :
  (forall p c q, cs = p ++ c :: q -> forall i, (i < c_height c)%nat -> F c q i = G c q i) ->
  rep F h cs -> rep G h cs.
Proof.
  induction cs as [|c cs IH]; simpl; [done|]. intros HFG [H1 H2]. split.
  - rewrite H1. do 2 f_equal. apply map_seq_ext. by apply (HFG [] c cs).
  - apply IH; [|done]. intros p d q E. apply (HFG (c :: p)). by rewrite E.
Qed.

Lemma rep_insert_ne F h cs l n :
  l ∉ map c_loc cs -> rep F h cs -> rep F (<[l := n]> h) cs.
Proof.
  induction cs as [|c cs IH]; cbn [map rep]; [done|].
  rewrite not_elem_of_cons. intros [Hne Hni] [H1 H2]. split; [|auto].
  by rewrite lookup_insert_ne.
Qed.

Lemma rep_elem F h cs c :
  rep F h cs -> c ∈ cs -> exists post,
  h !! c_loc c = Some (mkNode (c_key c) (c_val c) (c_tomb c) (map (F c post) (seq 0 (c_height c)))).
Proof.
  induction cs as [|d cs IH]; simpl; [by intros _ ?%elem_of_nil|].
  intros [H1 H2] [->|Hin]%elem_of_cons; eauto.
Qed.

Lemma fwd_rep F h c post i :
  rep F h (c :: post) -> (i < c_height c)%nat -> fwd h (c_loc c) i = Ok (F c post i).
Proof.
  intros [H1 _] Hi. unfold fwd, deref. rewrite H1. cbn [of_option rbind forward].
  by rewrite list_lookup_fmap, lookup_seq_lt by done.
Qed.

Lemma deref_elem F h cs c :
  rep F h cs -> c ∈ cs -> exists n, deref h (c_loc c) = Ok n /\ nkey n = c_key c /\
    nvalue n = c_val c /\ is_tombstone n = c_tomb c.
Proof.
  intros Hr Hc. destruct (rep_elem _ _ _ _ Hr Hc) as [post E].
  unfold deref. rewrite E. simpl. eauto.
Qed.

Lemma not_elem_of_app_map l p q :
  l ∉ map c_loc (p ++ q) -> l ∉ map c_loc p /\ l ∉ map c_loc q.
Proof. rewrite map_app. by rewrite not_elem_of_app. Qed.

(** ** Lemmas: searching *)

Section Search.
Variables (h : gmap loc Node) (key : bytes) (hi : list cell).
Hypothesis Hhi : Forall (fun c => ~ str_lt (c_key c) key) hi.

Lemma walk_spec fuel x q i :
  rep links h (x :: q ++ hi) -> (i < c_height x)%nat ->
  Forall (fun c => str_lt (c_key c) key) q -> (length q < fuel)%nat ->
  walk fuel h (c_loc x) i key = Ok (c_loc (last_at i x q)).
Proof.
  revert x q. induction fuel as [|fuel IH]; intros x q Hr Hi Hq Hf; [lia|]. cbn [walk].
  rewrite (fwd_rep _ _ _ _ _ Hr Hi). cbn [rbind]. unfold links, ptr_at.
  rewrite next_at_app. destruct (next_at i q) as [d|] eqn:E.
  - apply find_Some_split in E as (Hd & q1 & q2 & -> & _). apply Nat.ltb_lt in Hd.
    rewrite <- app_assoc, app_comm_cons in Hr. apply rep_app in Hr as [_ Hr].
    apply Forall_app in Hq as [_ [Hdk Hq2]%Forall_cons]. cbn [fmap option_fmap option_map].
    destruct (deref_elem _ _ _ d Hr ltac:(set_solver)) as (n & -> & Hk & _). cbn [rbind]. rewrite Hk.
    destruct (str_ltb_spec (c_key d) key); [|done].
    rewrite last_at_app by done. apply IH; [done..|]. rewrite length_app in Hf. simpl in Hf. lia.
  - rewrite last_at_none by (by apply next_at_None).
    destruct (next_at i hi) as [d|] eqn:Ed; cbn [fmap option_fmap option_map]; [|done].
    apply List.find_some in Ed as [Ed _]. apply list_elem_of_In in Ed.
    destruct (deref_elem _ _ _ d Hr ltac:(set_solver)) as (n & -> & Hk & _). cbn [rbind]. rewrite Hk.
    rewrite Forall_forall in Hhi. by destruct (str_ltb_spec (c_key d) key) as [Hlt|]; [destruct (Hhi d Ed)|].
Qed.

Lemma descend_spec hd lo i update :
  rep links h (hd :: lo ++ hi) -> Forall (fun c => str_lt (c_key c) key) lo ->
  (i <= c_height hd)%nat -> (length lo < size h)%nat ->
  exists update', descend h i (c_loc (last_at i hd lo)) update key
                  = Ok (c_loc (last_at 0 hd lo), update') /\
    length update' = length update /\
    forall j, (j < length update)%nat ->
      update' !! j = if (j <? i)%nat then Some (c_loc (last_at j hd lo)) else update !! j.
Proof.
  intros Hr Hlo. revert update. induction i as [|i IH]; intros update Hi Hsz; cbn [descend].
  { exists update. auto. }
  destruct (last_at_split (S i) hd lo) as (p & r & E & Hfr & Hc).
  assert (rep links h (last_at (S i) hd lo :: r ++ hi)) as Hr'.
  { rewrite app_comm_cons, E, <- app_assoc in Hr. by apply rep_app in Hr as [_ Hr]. }
  assert (length r <= length lo)%nat as Hlen.
  { apply (f_equal length) in E. rewrite length_app in E. simpl in E. lia. }
  rewrite (walk_spec _ _ r).
  - cbn [rbind]. rewrite (last_at_lower _ _ _ _ _ _ E Hc) by lia.
    destruct (IH (<[i := c_loc (last_at i hd lo)]> update)) as (u' & -> & Hl & Hu); [lia|done|].
    exists u'. rewrite length_insert in Hl, Hu. split_and!; [done..|]. intros j Hj.
    rewrite Hu by done. destruct (Nat.ltb_spec j i), (Nat.ltb_spec j (S i)); try done; try lia.
    + replace j with i by lia. rewrite list_lookup_insert_eq by lia. done.
    + by rewrite list_lookup_insert_ne by lia.
  - done.
  - destruct Hc as [Hc| ->]; [lia|]. injection E as E _. rewrite <- E. lia.
  - destruct p as [|? p]; injection E as E1 E2; [by rewrite <- E2|].
    rewrite E2 in Hlo. by apply Forall_app in Hlo as [_ [_ ?]%Forall_cons].
  - lia.
Qed.
End Search.

(** The cells below a key and the others. *)
Lemma split_at_key cs key :
  sorted_keys (map cell_entry cs) ->
  exists lo hi, cs = lo ++ hi /\ Forall (fun c => str_lt (c_key c) key) lo /\
                Forall (fun c => ~ str_lt (c_key c) key) hi.
Proof.
  induction cs as [|c cs IH]; simpl; [by exists [], []|]. intros [Hc Hs].
  destruct (str_ltb_spec (c_key c) key) as [Hlt|Hge].
  - destruct (IH Hs) as (lo & hi & -> & Hlo & Hhi). exists (c :: lo), hi. auto.
  - exists [], (c :: cs). split_and!; [done..|]. constructor; [done|].
    rewrite Forall_map in Hc. eapply Forall_impl; [exact Hc|]. simpl. intros d Hd. str_order.
Qed.

Section WithEnv.
Context `{MemEnv}.

(** A search in a well-formed list: the predecessors of the key on every level,
    and the first cell not below it. *)
Lemma search_spec s lo hi key :
  wf s (lo ++ hi) -> Forall (fun c => str_lt (c_key c) key) lo ->
  Forall (fun c => ~ str_lt (c_key c) key) hi ->
  exists x update,
    descend (heap s) (level_ s) (head_ s) (replicate kMaxLevel (head_ s)) key = Ok (x, update) /\
    length update = kMaxLevel /\
    (forall j, (j < kMaxLevel)%nat -> update !! j = Some (c_loc (last_at j (head_cell (head_ s)) lo))) /\
    fwd (heap s) x 0 = Ok (c_loc <$> head hi).
Proof.
  intros Hwf Hlo Hhi. pose proof (wf_rep _ _ Hwf) as Hr.
  set (hd := head_cell (head_ s)) in *. pose proof (wf_heights _ _ Hwf) as Hh.
  apply Forall_app in Hh as [Hhlo Hhhi]. pose proof (wf_level _ _ Hwf) as Hl.
  assert (forall j, (level_ s <= j)%nat -> last_at j hd lo = hd) as Htop.
  { intros j Hj. apply last_at_none. eapply Forall_impl; [exact Hhlo|]. simpl. lia. }
  destruct (descend_spec (heap s) key hi Hhi hd lo (level_ s) (replicate kMaxLevel (head_ s)))
    as (update & E & Hlen & Hu); [done|done|simpl; lia| |].
  { rewrite (wf_size _ _ Hwf), length_app. lia. }
  rewrite Htop in E by done. exists (c_loc (last_at 0 hd lo)), update.
  rewrite length_replicate in Hlen, Hu. split_and!; [done|done| |].
  - intros j Hj. rewrite Hu by done. destruct (Nat.ltb_spec j (level_ s)); [done|].
    rewrite Htop, lookup_replicate_2 by lia. done.
  - destruct (last_at_split 0 hd lo) as (p & r & Es & Hfr & Hc).
    assert (r = []) as ->.
    { destruct r as [|c r]; [done|]. apply Forall_cons in Hfr as [Hc0 _].
      assert (c ∈ lo) as Hin.
      { destruct p as [|? p]; injection Es as _ ->; set_solver. }
      rewrite Forall_forall in Hhlo. specialize (Hhlo c Hin). simpl in Hhlo. lia. }
    rewrite app_comm_cons, Es, <- app_assoc in Hr. apply rep_app in Hr as [_ Hr].
    erewrite fwd_rep; [|exact Hr|]. 
    + unfold links, ptr_at. f_equal. destruct hi as [|d hi]; [done|]. simpl.
      apply Forall_cons in Hhhi as [Hd _]. by rewrite (proj2 (Nat.ltb_lt _ _)) by lia.
    + destruct Hc as [Hc| ->]; [lia|]. injection Es as Es _. rewrite <- Es. simpl. unfold kMaxLevel. lia.
Qed.

(** The node found by a search: the first cell not below the key, if it holds it. *)
Lemma node_with_key_spec s lo hi key :
  wf s (lo ++ hi) ->
  match hi with
  | d :: _ => exists n, deref (heap s) (c_loc d) = Ok n /\ nkey n = c_key d /\ nvalue n = c_val d /\
      is_tombstone n = c_tomb d /\
      node_with_key (heap s) (c_loc <$> head hi) key
      = Ok (if str_eqb (c_key d) key then Some (c_loc d, n) else None)
  | [] => node_with_key (heap s) (c_loc <$> head hi) key = Ok None
  end.
Proof.
  intros Hwf. destruct hi as [|d hi]; [done|].
  pose proof (wf_rep _ _ Hwf) as Hr.
  destruct (deref_elem _ _ _ d Hr ltac:(set_solver)) as (n & E & Hk & Hv & Ht).
  exists n. split_and!; [done..|]. simpl. rewrite E. simpl. by rewrite Hk.
Qed.

Lemma assoc_split lo hi key :
  Forall (fun c => str_lt (c_key c) key) lo -> Forall (fun c => ~ str_lt (c_key c) key) hi ->
  sorted_keys (map cell_entry hi) ->
  assoc (map cell_entry (lo ++ hi)) key =
  match hi with
  | d :: _ => if str_eqb (c_key d) key then Some (cell_entry d) else None
  | [] => None
  end.
Proof.
  intros Hlo Hhi Hs. rewrite map_app, assoc_app.
  assert (assoc (map cell_entry lo) key = None) as ->.
  { apply assoc_None, Forall_map. eapply Forall_impl; [exact Hlo|]. simpl. intros c Hc E. rewrite E in Hc. str_order. }
  destruct hi as [|d hi]; [done|]. cbn [map]. rewrite assoc_cons. simpl.
  destruct (str_eqb_spec (c_key d) key) as [|Hne]; [done|].
  apply assoc_None. destruct Hs as [Hd _]. apply Forall_cons in Hhi as [Hdk _].
  eapply Forall_impl; [exact Hd|]. simpl. intros e He E. rewrite E in He. str_order.
Qed.

Lemma sl_get_contents s es key :
  sl_contents s es -> SkipList_Get s key = Ok (lookup_of (assoc es key)).
Proof.
  intros (cs & Hwf & <-).
  destruct (split_at_key cs key (wf_sorted _ _ Hwf)) as (lo & hi & -> & Hlo & Hhi).
  destruct (search_spec s lo hi key Hwf Hlo Hhi) as (x & upd & E & _ & _ & Ef).
  pose proof (node_with_key_spec s lo hi key Hwf) as Hn.
  pose proof (wf_sorted _ _ Hwf) as Hs. rewrite map_app in Hs. apply sorted_keys_app in Hs as (_ & Hs & _).
  unfold SkipList_Get. rewrite E. cbn [rbind]. rewrite Ef. cbn [rbind].
  rewrite (assoc_split lo hi key) by done.
  destruct hi as [|d hi]; [by rewrite Hn|].
  destruct Hn as (n & _ & _ & Hv & Ht & ->). cbn [rbind].
  destruct (str_eqb _ _); [|done]. rewrite Hv, Ht. unfold lookup_of, cell_entry, is_tombstone_type. simpl.
  by destruct (c_tomb d).
Qed.

Lemma sl_seek_contents s cs key :
  wf s cs -> exists lo hi, cs = lo ++ hi /\ SL_Seek s key = Ok (c_loc <$> head hi) /\
             map cell_entry hi = from_key key (map cell_entry cs).
Proof.
  intros Hwf. destruct (split_at_key cs key (wf_sorted _ _ Hwf)) as (lo & hi & -> & Hlo & Hhi).
  destruct (search_spec s lo hi key Hwf Hlo Hhi) as (x & upd & E & _ & _ & Ef).
  exists lo, hi. split; [done|]. unfold SL_Seek. rewrite E. cbn [rbind]. split; [done|].
  rewrite map_app, from_key_app by (by apply Forall_map).
  destruct hi as [|d hi]; [done|]. simpl. apply Forall_cons in Hhi as [Hd _].
  by destruct (str_ltb_spec (c_key d) key).
Qed.

(** ** Lemmas: overwriting in place *)

Lemma ptr_at_replace i q d d' hi :
  c_loc d' = c_loc d -> c_height d' = c_height d -> ptr_at i (q ++ d' :: hi) = ptr_at i (q ++ d :: hi).
Proof.
  intros Hl Hh. unfold ptr_at. rewrite !next_at_app. destruct (next_at i q); [done|].
  unfold next_at. simpl. rewrite Hh. destruct (_ <? _)%nat; simpl; [by rewrite Hl|done].
Qed.

Lemma rep_overwrite h pre d d' hi n :
  c_loc d' = c_loc d -> c_height d' = c_height d -> NoDup (map c_loc (pre ++ d :: hi)) ->
  deref h (c_loc d) = Ok n -> rep links h (pre ++ d :: hi) ->
  rep links (<[c_loc d := mkNode (c_key d') (c_val d') (c_tomb d') (forward n)]> h) (pre ++ d' :: hi).
Proof.
  intros Hl Hh Hnd Hn Hr. rewrite map_app in Hnd. simpl in Hnd.
  apply NoDup_app in Hnd as (_ & Hpre & [Hd _]%NoDup_cons).
  apply rep_app in Hr as [Hr1 [Hr2 Hr3]]. apply rep_app. split; [|split].
  - apply rep_insert_ne; [intros Hin; apply (Hpre _ Hin); set_solver|].
    eapply rep_ext; [|exact Hr1]. intros. unfold links. simpl. by rewrite (ptr_at_replace _ _ d d').
  - rewrite Hl, lookup_insert_eq. unfold deref in Hn. rewrite Hr2 in Hn. injection Hn as <-.
    simpl. by rewrite Hh.
  - by apply rep_insert_ne.
Qed.

(** ** Lemmas: splicing a new node in *)

(** Forward pointers of the cells before the new cell [n], after [j] levels. *)
Definition mid_links (j : nat) (n : cell) (hi : list cell) : cell -> list cell -> nat -> option loc :=
  fun _ q i => if (i <? j)%nat then ptr_at i (q ++ n :: hi) else ptr_at i (q ++ hi).

Record spliced (j : nat) (h : gmap loc Node) (pre : list cell) (n : cell) (hi : list cell) : Prop := {
  sp_pre : rep (mid_links j n hi) h pre;
  sp_new : h !! c_loc n = Some (mkNode (c_key n) (c_val n) (c_tomb n)
             (map (fun i => if (i <? j)%nat then ptr_at i hi else None) (seq 0 (c_height n))));
  sp_hi : rep links h hi }.

Lemma mid_links_S j n hi c q i :
  (i = j -> next_at j q <> None \/ (c_height n <= j)%nat) ->
  mid_links j n hi c q i = mid_links (S j) n hi c q i.
Proof.
  intros Hj. unfold mid_links. destruct (Nat.ltb_spec i j), (Nat.ltb_spec i (S j)); try done; try lia.
  assert (i = j) as -> by lia. unfold ptr_at. rewrite !next_at_app.
  destruct (next_at j q) eqn:E; [done|]. destruct (Hj eq_refl) as [|Hle]; [done|].
  unfold next_at at 2. simpl. by rewrite (proj2 (Nat.ltb_ge _ _)).
Qed.

Lemma rep_splice_step j h p u r n hi :
  NoDup (map c_loc (p ++ u :: r)) -> (j < c_height u)%nat -> (j < c_height n)%nat ->
  Forall (fun c => c_height c <= j)%nat r ->
  rep (mid_links j n hi) h (p ++ u :: r) ->
  rep (mid_links (S j) n hi)
    (<[c_loc u := mkNode (c_key u) (c_val u) (c_tomb u)
         (<[j := Some (c_loc n)]> (map (mid_links j n hi u r) (seq 0 (c_height u))))]> h)
    (p ++ u :: r).
Proof.
  intros Hnd Hu Hn Hr Hrep. rewrite map_app in Hnd. simpl in Hnd.
  apply NoDup_app in Hnd as (_ & Hp & [Hur _]%NoDup_cons).
  apply rep_app in Hrep as [H1 [_ H3]]. apply rep_app. split; [|split].
  - apply rep_insert_ne; [intros Hin; apply (Hp _ Hin); set_solver|].
    eapply rep_ext; [|exact H1]. intros p' c q _ i _. apply mid_links_S. intros _. left.
    rewrite next_at_app. destruct (next_at j q); [done|]. simpl. by rewrite (proj2 (Nat.ltb_lt _ _)).
  - rewrite lookup_insert_eq. do 2 f_equal. rewrite insert_map_seq by done.
    apply map_seq_ext. intros i Hi. destruct (Nat.eqb_spec i j) as [->|Hne].
    + unfold mid_links. rewrite (proj2 (Nat.ltb_lt _ _)) by lia. unfold ptr_at.
      rewrite next_at_app, (proj2 (next_at_None j r) Hr). unfold next_at. simpl.
      by rewrite (proj2 (Nat.ltb_lt _ _)) by lia.
    + apply mid_links_S. done.
  - apply rep_insert_ne; [done|]. eapply rep_ext; [|exact H3]. intros p' c q -> i Hi.
    apply mid_links_S. intros ->. apply Forall_app in Hr as [_ [Hc _]%Forall_cons]. lia.
Qed.

Lemma set_fwd_Ok h x i y n f :
  h !! x = Some n -> forward n !! i = Some f ->
  set_fwd h x i y = Ok (<[x := mkNode (nkey n) (nvalue n) (is_tombstone n) (<[i := y]> (forward n))]> h).
Proof. intros E Ef. unfold set_fwd, deref. rewrite E. simpl. by rewrite Ef. Qed.

Lemma splice_spec k j h hd lo n hi update :
  NoDup (map c_loc ((hd :: lo) ++ n :: hi)) ->
  (c_height n <= c_height hd)%nat -> (j + k = c_height n)%nat ->
  (forall i, (i < c_height n)%nat -> update !! i = Some (c_loc (last_at i hd lo))) ->
  spliced j h (hd :: lo) n hi ->
  exists h', splice k j h (c_loc n) update = Ok h' /\ spliced (j + k) h' (hd :: lo) n hi /\ dom h' = dom h.
Proof.
  intros Hnd Hht. revert j h. induction k as [|k IH]; intros j h Hjk Hu Hsp; cbn [splice].
  { exists h. by rewrite Nat.add_0_r. }
  rewrite Hu by lia. cbn [of_option rbind].
  destruct (last_at_split j hd lo) as (p & r & Es & Hr & Hc).
  set (u := last_at j hd lo) in *. destruct Hsp as [Hpre Hnew Hhi].
  assert (j < c_height u)%nat as Hju.
  { destruct Hc as [|Hp]; [done|]. rewrite Hp in Es. injection Es as Es _. rewrite <- Es. lia. }
  rewrite Es in Hnd, Hpre |- *. rewrite map_app in Hnd.
  pose proof Hnd as (Hnd1 & Hnd2 & Hnd3)%NoDup_app. simpl in Hnd3. apply NoDup_cons in Hnd3 as [Hn_hi _].
  assert (c_loc u ∈ map c_loc (p ++ u :: r)) as Hu_in by (rewrite map_app; set_solver).
  assert (c_loc n ∉ map c_loc (p ++ u :: r)) as Hn_pre.
  { intros Hin. apply (Hnd2 _ Hin). set_solver. }
  assert (c_loc u ∉ map c_loc hi) as Hu_hi.
  { intros Hin. apply (Hnd2 _ Hu_in). set_solver. }
  assert (c_loc n <> c_loc u) as Hnu by congruence.
  pose proof Hpre as [_ Hpre_u]%rep_app. rewrite (fwd_rep _ _ _ _ _ Hpre_u Hju). cbn [rbind].
  erewrite set_fwd_Ok; [|exact Hnew|cbn [forward]; rewrite list_lookup_fmap, lookup_seq_lt by lia; done].
  cbn [rbind nkey nvalue is_tombstone forward].
  pose proof (proj1 Hpre_u) as Hnode_u.
  erewrite set_fwd_Ok; [|rewrite lookup_insert_ne by done; exact Hnode_u
    |cbn [forward]; rewrite list_lookup_fmap, lookup_seq_lt by lia; done].
  cbn [rbind nkey nvalue is_tombstone forward].
  replace (j + S k)%nat with (S j + k)%nat by lia.
  match goal with |- context [splice k (S j) ?h2 _ _] => destruct (IH (S j) h2) as (h' & E' & Hsp' & Hdom) end.
  - lia.
  - done.
  - rewrite Es. split.
    + apply rep_splice_step; [done|done|lia|done|]. by apply rep_insert_ne.
    + rewrite lookup_insert_ne, lookup_insert_eq by done. do 2 f_equal.
      rewrite insert_map_seq by lia. apply map_seq_ext. intros i Hi.
      destruct (Nat.eqb_spec i j) as [->|].
      * rewrite (proj2 (Nat.ltb_lt _ _)) by lia. unfold mid_links. rewrite Nat.ltb_irrefl.
        unfold ptr_at. by rewrite next_at_app, (proj2 (next_at_None j r) Hr).
      * destruct (Nat.ltb_spec i j), (Nat.ltb_spec i (S j)); try done; lia.
    + apply rep_insert_ne; [done|]. by apply rep_insert_ne.
  - exists h'. rewrite Es in Hsp'. split_and!; [done..|]. rewrite Hdom, !dom_insert_L.
    apply elem_of_dom_2 in Hnew. apply elem_of_dom_2 in Hnode_u. set_solver.
Qed.

Lemma spliced_done h pre n hi : spliced (c_height n) h pre n hi -> rep links h (pre ++ n :: hi).
Proof.
  intros [Hpre Hnew Hhi]. apply rep_app. split; [|split; [|done]].
  - eapply rep_ext; [|exact Hpre]. intros p c q _ i _. unfold mid_links, links.
    destruct (Nat.ltb_spec i (c_height n)); [done|]. unfold ptr_at. rewrite !next_at_app.
    destruct (next_at i q); [done|]. unfold next_at at 2. simpl. by rewrite (proj2 (Nat.ltb_ge _ _)).
  - rewrite Hnew. do 2 f_equal. apply map_seq_ext. intros i Hi. unfold links.
    by rewrite (proj2 (Nat.ltb_lt _ _)).
Qed.

Lemma spliced_start h pre n hi :
  c_loc n ∉ map c_loc pre -> c_loc n ∉ map c_loc hi -> rep links h (pre ++ hi) ->
  spliced 0 (<[c_loc n := mkNode (c_key n) (c_val n) (c_tomb n) (replicate (c_height n) None)]> h) pre n hi.
Proof.
  intros Hp Hh [H1 H2]%rep_app. split.
  - apply rep_insert_ne; [done|]. eapply rep_ext; [|exact H1]. done.
  - rewrite lookup_insert_eq. do 2 f_equal. by rewrite (replicate_map_seq _ 0).
  - by apply rep_insert_ne.
Qed.

(** ** Lemmas: insertion *)

Lemma random_level_range fuel lvl rng :
  (lvl <= kMaxLevel)%nat -> (lvl <= (random_level_loop fuel lvl rng).1 <= kMaxLevel)%nat.
Proof.
  revert lvl rng. induction fuel as [|fuel IH]; intros lvl rng Hl; simpl; [lia|].
  destruct (Nat.ltb_spec lvl kMaxLevel); [|simpl; lia].
  destruct (coin rng); simpl; [|lia]. specialize (IH (S lvl) (S rng)). lia.
Qed.

Lemma fold_insert_id {A} (js : list nat) (u : list A) v :
  Forall (fun i => u !! i = Some v) js -> fold_left (fun u i => <[i := v]> u) js u = u.
Proof.
  induction 1 as [|i js Hi _ IH]; simpl; [done|]. by rewrite list_insert_id.
Qed.

Lemma usage_app cs ds : usage (cs ++ ds) = usage cs + usage ds.
Proof. unfold usage. induction cs as [|c cs IH]; simpl in *; lia. Qed.

Lemma wf_locs_heap s cs : wf s cs -> Forall (fun l => l < next_loc s)%positive (head_ s :: map c_loc cs).
Proof.
  intros Hwf. apply Forall_forall. intros l Hl. apply (wf_alloc _ _ Hwf).
  change (head_ s :: map c_loc cs) with (map c_loc (head_cell (head_ s) :: cs)) in Hl.
  apply list_elem_of_In, in_map_iff in Hl as (c & <- & Hc%list_elem_of_In).
  destruct (rep_elem _ _ _ _ (wf_rep _ _ Hwf) Hc) as [post ->]. done.
Qed.

Lemma wf_overwrite s lo d hi value tomb n :
  wf s (lo ++ d :: hi) -> deref (heap s) (c_loc d) = Ok n -> nkey n = c_key d -> nvalue n = c_val d ->
  wf (mkSkipList (<[c_loc d := mkNode (nkey n) value tomb (forward n)]> (heap s))
        (next_loc s) (head_ s) (level_ s) (count_ s)
        ((mem_usage_ s -u64 blen (nvalue n)) +u64 blen value) (rng_ s))
     (lo ++ mkCell (c_loc d) (c_key d) value tomb (c_height d) :: hi).
Proof.
  intros Hwf Hn Hk Hv. set (d' := mkCell _ _ _ _ _).
  assert (is_Some (heap s !! c_loc d)) as Hd.
  { unfold deref in Hn. destruct (heap s !! c_loc d); [done|discriminate Hn]. }
  assert (map c_loc (lo ++ d' :: hi) = map c_loc (lo ++ d :: hi)) as El by (by rewrite !map_app).
  split; cbn [heap next_loc head_ level_ count_ mem_usage_]; rewrite ?El; try apply Hwf.
  - rewrite Hk. apply (rep_overwrite _ (head_cell (head_ s) :: lo) d d'); try done; apply Hwf.
  - intros l Hl. apply (wf_alloc _ _ Hwf). destruct (decide (l = c_loc d)) as [->|]; [done|].
    by rewrite lookup_insert_ne in Hl.
  - rewrite map_size_insert_Some by done. rewrite (wf_size _ _ Hwf), !length_app. done.
  - pose proof (wf_sorted _ _ Hwf) as Hs. rewrite map_app in Hs |- *.
    apply sorted_keys_app in Hs as (H1 & [H2 H3] & H4). apply sorted_keys_app.
    split_and!; [done|by split|]. eapply Forall_impl; [exact H4|]. simpl.
    intros c [Hc1 Hc2]%Forall_cons. by constructor.
  - pose proof (wf_heights _ _ Hwf) as Hh. apply Forall_app in Hh as [? [? ?]%Forall_cons].
    apply Forall_app. split; [done|]. by constructor.
  - rewrite (wf_count _ _ Hwf), !length_app. done.
  - rewrite (wf_usage _ _ Hwf), Hv, !usage_app. unfold u64. rewrite Zminus_mod_idemp_l, Zplus_mod_idemp_l.
    f_equal. unfold usage. simpl. unfold cell_usage. simpl. lia.
Qed.

Lemma wf_insert s lo hi n rng h' :
  wf s (lo ++ hi) -> c_loc n = next_loc s -> (1 <= c_height n <= kMaxLevel)%nat ->
  sorted_keys (map cell_entry (lo ++ n :: hi)) ->
  rep links h' (head_cell (head_ s) :: lo ++ n :: hi) ->
  dom h' = dom (<[c_loc n := mkNode [] [] false []]> (heap s)) ->
  wf (mkSkipList h' (Pos.succ (next_loc s)) (head_ s)
        (if (level_ s <? c_height n)%nat then c_height n else level_ s)
        (count_ s +u64 1) (mem_usage_ s +u64 cell_usage n) rng)
     (lo ++ n :: hi).
Proof.
  intros Hwf Hl Hh Hs Hrep Hdom. rewrite dom_insert_L in Hdom.
  pose proof (wf_locs_heap _ _ Hwf) as Hlt. rewrite Forall_forall in Hlt.
  assert (c_loc n ∉ dom (heap s)) as Hfresh.
  { intros Hin%elem_of_dom%(wf_alloc _ _ Hwf). lia. }
  split; cbn [heap next_loc head_ level_ count_ mem_usage_].
  - done.
  - pose proof (wf_nodup _ _ Hwf) as Hnd. rewrite map_app in Hnd |- *. cbn [map].
    rewrite <- (Permutation_middle (map c_loc lo)), Permutation_swap. apply NoDup_cons. split; [|done].
    intros Hin. rewrite map_app in Hlt. specialize (Hlt _ Hin). lia.
  - intros l Hin%elem_of_dom. rewrite Hdom in Hin. apply elem_of_union in Hin as [Hin|Hin].
    + apply elem_of_singleton in Hin. subst. lia.
    + apply elem_of_dom, (wf_alloc _ _ Hwf) in Hin. lia.
  - rewrite <- size_dom, Hdom, size_union, size_singleton, size_dom, (wf_size _ _ Hwf) by set_solver.
    rewrite !length_app. simpl. lia.
  - done.
  - pose proof (wf_heights _ _ Hwf) as Hhs. apply Forall_app in Hhs as [H1 H2].
    destruct (Nat.ltb_spec (level_ s) (c_height n)); apply Forall_app;
      (split; [|constructor; [lia|]]); (eapply Forall_impl; [eassumption|]; simpl; lia).
  - pose proof (wf_level _ _ Hwf). destruct (level_ s <? c_height n)%nat; lia.
  - rewrite (wf_count _ _ Hwf), !length_app. unfold u64. rewrite Zplus_mod_idemp_l. f_equal. simpl. lia.
  - rewrite (wf_usage _ _ Hwf), !usage_app. unfold u64. rewrite Zplus_mod_idemp_l. f_equal.
    unfold usage. simpl. lia.
Qed.

Definition mk_entry (key value : bytes) (tomb : bool) : entry :=
  Entry key value (if tomb then kTombstone else kValue).

(** The records after inserting next to the split point. *)
Lemma upsert_split lo hi e :
  Forall (fun c => str_lt (c_key c) (e_key e)) lo -> Forall (fun c => ~ str_lt (c_key c) (e_key e)) hi ->
  upsert e (map cell_entry (lo ++ hi)) =
  map cell_entry lo ++
  match hi with
  | d :: hi' => if str_eqb (c_key d) (e_key e) then e :: map cell_entry hi' else e :: map cell_entry hi
  | [] => [e]
  end.
Proof.
  intros Hlo Hhi. rewrite map_app, upsert_lt by (by apply Forall_map). f_equal.
  destruct hi as [|d hi]; [done|]. apply Forall_cons in Hhi as [Hd _]. simpl. unfold str_eqb, str_lt in *.
  by destruct (str_compare (c_key d) (e_key e)).
Qed.

(** The part of [Insert] that links a new node in. *)
Lemma insert_new_node s lo hi key value tomb height rng upd :
  wf s (lo ++ hi) -> (1 <= height <= kMaxLevel)%nat ->
  (forall j, (j < kMaxLevel)%nat -> upd !! j = Some (c_loc (last_at j (head_cell (head_ s)) lo))) ->
  sorted_keys (map cell_entry lo ++ mk_entry key value tomb :: map cell_entry hi) ->
  exists h',
    splice height 0
      (<[next_loc s := mkNode key value tomb (replicate height None)]> (heap s)) (next_loc s)
      (if (level_ s <? height)%nat
       then fold_left (fun u i => <[i := head_ s]> u) (seq (level_ s) (height - level_ s)) upd
       else upd) = Ok h' /\
    wf (mkSkipList h' (Pos.succ (next_loc s)) (head_ s)
          (if (level_ s <? height)%nat then height else level_ s) (count_ s +u64 1)
          (mem_usage_ s +u64 (blen key + blen value + sizeof_Node + Z.of_nat height * sizeof_ptr)) rng)
       (lo ++ mkCell (next_loc s) key value tomb height :: hi).
Proof.
  intros Hwf Hht Hupd Hs. set (n := mkCell (next_loc s) key value tomb height).
  pose proof (wf_locs_heap _ _ Hwf) as Hlt. rewrite Forall_forall in Hlt.
  assert (c_loc n ∉ map c_loc ((head_cell (head_ s) :: lo) ++ hi)) as Hnew.
  { intros Hin. specialize (Hlt _ Hin). simpl in Hlt. lia. }
  set (upd' := if (level_ s <? height)%nat then _ else _).
  assert (upd' = upd) as ->.
  { unfold upd'. destruct (Nat.ltb_spec (level_ s) height); [|done]. apply fold_insert_id.
    apply Forall_forall. intros i Hi. apply elem_of_seq in Hi. rewrite Hupd by lia.
    do 2 f_equal. rewrite last_at_none; [done|].
    pose proof (wf_heights _ _ Hwf) as Hhs. apply Forall_app in Hhs as [Hhs _].
    eapply Forall_impl; [exact Hhs|]. simpl. lia. }
  pose proof Hnew as [Hn1 Hn2]%not_elem_of_app_map.
  destruct (splice_spec height 0
    (<[c_loc n := mkNode (c_key n) (c_val n) (c_tomb n) (replicate (c_height n) None)]> (heap s))
    (head_cell (head_ s)) lo n hi upd) as (h' & Eh & Hsp & Hdom).
  - pose proof (wf_nodup _ _ Hwf) as Hnd. rewrite map_app in Hnd |- *. cbn [map] in Hnd |- *.
    rewrite <- (Permutation_middle (_ :: map c_loc lo)). apply NoDup_cons. split; [|done].
    by rewrite map_app in Hnew.
  - simpl. lia.
  - done.
  - intros i Hi. apply Hupd. simpl in Hi. lia.
  - apply spliced_start; [done..|]. apply Hwf.
  - exists h'. split; [done|]. apply (wf_insert s lo hi n); try done.
    + by rewrite map_app.
    + exact (spliced_done h' (head_cell (head_ s) :: lo) n hi Hsp).
    + by rewrite Hdom, !dom_insert_L.
Qed.

Lemma sl_insert_contents s es key value tomb :
  sl_contents s es ->
  exists s', SkipList_Insert s key value tomb = Ok s' /\
             sl_contents s' (upsert (mk_entry key value tomb) es).
Proof.
  intros (cs & Hwf & <-).
  destruct (split_at_key cs key (wf_sorted _ _ Hwf)) as (lo & hi & -> & Hlo & Hhi).
  destruct (search_spec s lo hi key Hwf Hlo Hhi) as (x & upd & E & Hlen & Hupd & Ef).
  pose proof (node_with_key_spec s lo hi key Hwf) as Hn.
  pose proof (upsert_split lo hi (mk_entry key value tomb) Hlo Hhi) as Hup. cbn [e_key mk_entry] in Hup.
  pose proof (upsert_sorted (mk_entry key value tomb) _ (wf_sorted _ _ Hwf)) as Hs'.
  unfold SkipList_Insert. rewrite E. cbn [rbind]. rewrite Ef. cbn [rbind].
  destruct (decide (c_key <$> head hi = Some key)) as [Hhit|Hmiss].
  - destruct hi as [|d hi]; [done|]. injection Hhit as <-.
    destruct Hn as (n & Hd & Hk & Hv & _ & ->). rewrite str_eqb_refl in Hup |- *. cbn [rbind].
    eexists. split; [done|]. eexists. split; [by apply wf_overwrite|].
    by rewrite Hup, map_app.
  - assert (upsert (mk_entry key value tomb) (map cell_entry (lo ++ hi))
            = map cell_entry lo ++ mk_entry key value tomb :: map cell_entry hi /\
            node_with_key (heap s) (c_loc <$> head hi) key = Ok None) as [Hup' ->].
    { rewrite Hup. destruct hi as [|d hi]; [done|]. destruct Hn as (n & _ & _ & _ & _ & ->).
      destruct (str_eqb_spec (c_key d) key) as [<-|]; [by destruct Hmiss|done]. }
    cbn [rbind]. destruct (RandomLevel (rng_ s)) as [height rng] eqn:Er.
    assert (1 <= height <= kMaxLevel)%nat as Hht.
    { replace height with (RandomLevel (rng_ s)).1 by (by rewrite Er).
      apply random_level_range. unfold kMaxLevel. lia. }
    rewrite Hup' in Hs'.
    destruct (insert_new_node s lo hi key value tomb height rng upd) as (h' & -> & Hwf'); [done..|].
    cbn [rbind]. eexists. split; [done|]. eexists. split; [exact Hwf'|].
    by rewrite Hup', map_app.
Qed.

(** ** Lemmas: iteration *)

(** The iterator stands before the cells [hi]. *)
Definition iter_at (s : SkipList) (hi : list cell) (it : SLIter) : Prop :=
  it = c_loc <$> head hi /\ exists lo, wf s (lo ++ hi).

Lemma iter_step s d hi it :
  iter_at s (d :: hi) it ->
  SL_Valid it = true /\
  (exists n, SL_node s it = Ok n /\ node_entry n = cell_entry d) /\
  exists it', SL_Next s it = Ok it' /\ iter_at s hi it'.
Proof.
  intros [-> [lo Hwf]]. pose proof (wf_rep _ _ Hwf) as Hr. split; [done|]. split.
  - destruct (deref_elem _ _ _ d Hr ltac:(set_solver)) as (n & E & Hk & Hv & Ht).
    exists n. split; [done|]. unfold node_entry. by rewrite Hk, Hv, Ht.
  - rewrite app_comm_cons in Hr. apply rep_app in Hr as [_ Hr].
    pose proof (wf_heights _ _ Hwf) as Hh. apply Forall_app in Hh as [_ [Hd Hhi]%Forall_cons].
    exists (c_loc <$> head hi). split.
    + simpl. rewrite (fwd_rep _ _ _ _ _ Hr) by lia. unfold links, ptr_at.
      destruct hi as [|c hi]; [done|]. apply Forall_cons in Hhi as [Hc _]. simpl.
      by rewrite (proj2 (Nat.ltb_lt _ _)) by lia.
    + split; [done|]. exists (lo ++ [d]). by rewrite <- app_assoc.
Qed.

Lemma drain_iter fuel s hi it :
  iter_at s hi it -> (length hi < fuel)%nat -> SL_drain fuel s it = Ok (map cell_entry hi).
Proof.
  revert hi it. induction fuel as [|fuel IH]; intros hi it Hit Hf; [lia|].
  destruct hi as [|d hi]; [by destruct Hit as [-> _]|].
  destruct (iter_step _ _ _ _ Hit) as (Hv & (n & En & Hn) & it' & Enx & Hit').
  cbn [SL_drain]. rewrite Hv, En. cbn [rbind]. rewrite Enx. cbn [rbind].
  rewrite (IH hi) by (done || simpl in Hf; lia). cbn [rbind map]. by rewrite Hn.
Qed.

Lemma seek_first_at s cs : wf s cs -> exists it, SL_SeekToFirst s = Ok it /\ iter_at s cs it.
Proof.
  intros Hwf. exists (c_loc <$> head cs). split; [|split; [done|by exists []]].
  unfold SL_SeekToFirst. pose proof (wf_rep _ _ Hwf) as Hr.
  change (head_ s) with (c_loc (head_cell (head_ s))) at 1.
  rewrite (fwd_rep _ _ _ _ _ Hr) by (simpl; unfold kMaxLevel; lia). unfold links, ptr_at.
  pose proof (wf_heights _ _ Hwf) as Hh. destruct cs as [|c cs]; [done|].
  apply Forall_cons in Hh as [Hc _]. simpl. by rewrite (proj2 (Nat.ltb_lt _ _)) by lia.
Qed.

Lemma seek_at s cs key :
  wf s cs -> exists it hi, SL_Seek s key = Ok it /\ iter_at s hi it /\
             map cell_entry hi = from_key key (map cell_entry cs).
Proof.
  intros Hwf. destruct (sl_seek_contents s cs key Hwf) as (lo & hi & -> & E & Hf).
  exists (c_loc <$> head hi), hi. split_and!; [done| |done]. split; eauto.
Qed.

Lemma new_contents : sl_contents SkipList_new [].
Proof.
  exists []. split; [|done]. split; simpl; try done.
  - apply NoDup_singleton.
  - intros l [n Hn]. apply lookup_singleton_Some in Hn as [<- _]. done.
  - unfold kMaxLevel. lia.
Qed.

Lemma sl_contents_sorted s es : sl_contents s es -> sorted_keys es.
Proof. intros (cs & Hwf & <-). apply Hwf. Qed.

Lemma run_ops_contents ops s es :
  sl_contents s es -> exists s', run_ops s ops = Ok s' /\ sl_contents s' (apply_ops ops es).
Proof.
  revert s es. induction ops as [|e ops IH]; intros s es Hs; simpl; [eauto|].
  assert (exists s', apply_op s e = Ok s' /\ sl_contents s' (upsert (op_entry e) es)) as (s' & -> & Hs').
  { unfold apply_op, op_entry, SkipList_Delete, SkipList_Put.
    destruct (is_tombstone_type (e_type e)); by apply sl_insert_contents. }
  cbn [rbind]. by apply IH.
Qed.

Lemma sl_size s es : sl_contents s es -> SkipList_Size s = u64 (blen es).
Proof. intros (cs & Hwf & <-). unfold SkipList_Size, blen. by rewrite (wf_count _ _ Hwf), length_map. Qed.

(** The flush loops drain the whole list. *)
Lemma drain_contents s es :
  sl_contents s es ->
  exists it, SL_SeekToFirst s = Ok it /\ SL_drain (S (size (heap s))) s it = Ok es.
Proof.
  intros (cs & Hwf & <-). destruct (seek_first_at s cs Hwf) as (it & E & Hit). exists it. split; [done|].
  apply drain_iter; [done|]. rewrite (wf_size _ _ Hwf). lia.
Qed.

(** ** Lemmas: destruction *)

Lemma rep_delete_ne F h cs l : l ∉ map c_loc cs -> rep F h cs -> rep F (delete l h) cs.
Proof.
  induction cs as [|c cs IH]; cbn [map rep]; [done|]. rewrite not_elem_of_cons. intros [Hne Hni] [H1 H2].
  split; [by rewrite lookup_delete_ne|auto].
Qed.

(** A cell that follows directly is the target of the lowest pointer. *)
Lemma ptr_at_low cs : Forall (fun c => 1 <= c_height c)%nat cs -> ptr_at 0 cs = c_loc <$> head cs.
Proof. destruct 1 as [|c cs Hc _]; [done|]. unfold ptr_at. simpl. by rewrite (proj2 (Nat.ltb_lt _ _)) by lia. Qed.

Lemma destroy_loop_spec fuel h hd cs :
  rep links h cs -> is_Some (h !! hd) -> NoDup (hd :: map c_loc cs) -> Forall (fun c => 1 <= c_height c)%nat cs -> (length cs < fuel)%nat ->
  exists h', destroy_loop fuel h (c_loc <$> head cs) = Ok h' /\ is_Some (h' !! hd) /\ (size h' + length cs = size h)%nat.
Proof.
  revert h cs. induction fuel as [|fuel IH]; intros h cs Hr Hhd Hnd Hh Hf; [lia|].
  destruct cs as [|c cs]; [exists h; split_and!; [done..|simpl; lia]|]. cbn [head fmap option_fmap option_map destroy_loop].
  apply Forall_cons in Hh as [Hc Hh]. rewrite (fwd_rep _ _ _ _ _ Hr) by lia. cbn [rbind].
  replace (links c cs 0) with (c_loc <$> head cs) by (symmetry; by apply ptr_at_low).
  destruct Hr as [Hl Hr]. unfold delete_node, deref. rewrite Hl. cbn [of_option rbind].
  cbn [map] in Hnd. apply NoDup_cons in Hnd as [Hhd' [Hcs Hnd]%NoDup_cons]. apply not_elem_of_cons in Hhd' as [Hne Hhd'].
  destruct (IH (delete (c_loc c) h) cs) as (h' & -> & Hs & Hsz).
  - by apply rep_delete_ne.
  - by rewrite lookup_delete_ne.
  - by apply NoDup_cons.
  - done.
  - simpl in Hf. lia.
  - exists h'. split; [done|]. split; [done|]. rewrite map_size_delete_Some in Hsz by done. cbn [length].
    assert (size h <> 0%nat) by (intros E%map_size_empty_inv; by rewrite E, lookup_empty in Hl). lia.
Qed.

Lemma destroy_frees_all s cs : wf s cs -> SkipList_destroy s = Ok ∅.
Proof.
  intros Hwf. unfold SkipList_destroy. pose proof (wf_rep _ _ Hwf) as Hr.
  assert (Forall (fun c => 1 <= c_height c)%nat cs) as Hh by (eapply Forall_impl; [apply (wf_heights _ _ Hwf)|]; simpl; lia).
  change (head_ s) with (c_loc (head_cell (head_ s))) at 1.
  rewrite (fwd_rep _ _ _ _ _ Hr) by (simpl; unfold kMaxLevel; lia). cbn [rbind]. unfold links at 1. rewrite ptr_at_low by done.
  destruct Hr as [Hhd Hr]. cbn [c_loc head_cell] in Hhd. pose proof (wf_size _ _ Hwf) as Hsz.
  destruct (destroy_loop_spec (size (heap s)) (heap s) (head_ s) cs) as (h & -> & [n Hn] & Hs);
    [done|by eexists|apply Hwf|done|lia|]. cbn [rbind]. unfold delete_node, deref. rewrite Hn. cbn [of_option rbind]. f_equal.
  apply map_size_empty_inv. rewrite map_size_delete_Some by done. lia.
Qed.

(** ** Properties *)

(** C13 (refinement). The pointer-based skip list implements a sorted map: after
    any sequence of puts and deletes, for every outcome of the coin flips, no
    operation dereferences a bad pointer or loops, and a lookup returns the last
    value written to the key, "deleted" after a delete and "not found" for a key
    never touched. The destructor then frees every node exactly once and reads none
    that it has freed. *)
Theorem skiplist_last_write_wins ops key :
  exists s, run_ops SkipList_new ops = Ok s /\
            SkipList_Get s key = Ok (lookup_of (op_entry <$> assoc (rev ops) key)) /\
            SkipList_destroy s = Ok ∅.
Proof.
  destruct (run_ops_contents ops _ _ new_contents) as (s & E & Hs).
  exists s. split; [done|]. rewrite (sl_get_contents _ _ _ Hs).
  rewrite assoc_apply_ops by done. split; [by destruct (assoc (rev ops) key)|].
  destruct Hs as (cs & Hwf & _). by eapply destroy_frees_all.
Qed.

(** C25 (invariant). Iterating a skip list built by any sequence of mutations
    visits every live key and tombstone exactly once in strictly ascending key
    order, [Size] counts them, and [Seek] starts at the first key not below its
    target. *)
Theorem skiplist_iterates_sorted ops target fuel :
  (length ops < fuel)%nat ->
  exists s it it',
    run_ops SkipList_new ops = Ok s /\ SL_SeekToFirst s = Ok it /\ SL_Seek s target = Ok it' /\
    SL_drain fuel s it = Ok (apply_ops ops []) /\
    SL_drain fuel s it' = Ok (from_key target (apply_ops ops [])) /\
    sorted_keys (apply_ops ops []) /\ SkipList_Size s = u64 (blen (apply_ops ops [])).
Proof.
  intros Hf. destruct (run_ops_contents ops _ _ new_contents) as (s & E & Hs).
  pose proof (sl_contents_sorted _ _ Hs) as Hsort. pose proof (sl_size _ _ Hs) as Hsize.
  destruct Hs as (cs & Hwf & Hes).
  assert (length cs <= length ops)%nat as Hlen.
  { rewrite <- (length_map cell_entry cs), Hes. apply apply_ops_length. }
  destruct (seek_first_at s cs Hwf) as (it & Ei & Hit).
  destruct (seek_at s cs target Hwf) as (it' & hi & Ei' & Hit' & Hhi).
  assert (length hi <= length cs)%nat as Hlen'.
  { rewrite <- (length_map cell_entry hi), Hhi, <- (length_map cell_entry cs). apply from_key_length. }
  exists s, it, it'. rewrite (drain_iter _ _ _ _ Hit), (drain_iter _ _ _ _ Hit') by lia.
  rewrite Hhi, Hes. split_and!; done.
Qed.

(** The memory estimate that triggers a flush counts every
    distinct key once: it is the sum, in [size_t], of the key and value bytes
    held and a node overhead of between 1 and 16 pointers. *)
Theorem skiplist_memory_estimate ops :
  exists s heights,
    run_ops SkipList_new ops = Ok s /\
    length heights = length (apply_ops ops []) /\ Forall (fun n => 1 <= n <= 16)%nat heights /\
    ApproximateMemoryUsage s =
    u64 (foldr Z.add 0 (zip_with (fun e n => blen (e_key e) + blen (e_value e) + sizeof_Node + 8 * Z.of_nat n)
                          (apply_ops ops []) heights)).
Proof.
  destruct (run_ops_contents ops _ _ new_contents) as (s & E & cs & Hwf & Hes).
  exists s, (map c_height cs). split_and!; [done|by rewrite <- Hes, !length_map| |].
  - apply Forall_map. eapply Forall_impl; [apply (wf_heights _ _ Hwf)|].
    pose proof (wf_level _ _ Hwf) as Hl. unfold kMaxLevel in Hl. simpl. lia.
  - unfold ApproximateMemoryUsage. rewrite (wf_usage _ _ Hwf), <- Hes. f_equal.
    clear. induction cs as [|c cs IH]; [done|]. unfold usage in *. simpl. rewrite IH.
    unfold cell_usage, sizeof_ptr. lia.
Qed.

End WithEnv.

(** A source of coin flips and a node size for concrete runs. *)
Definition alternating_env : MemEnv := {| coin := fun n => Nat.even n; sizeof_Node := 96 |}.

Definition sample_ops : list entry :=
  [ Entry (lit "delta") (lit "4") kValue; Entry (lit "alpha") (lit "1") kValue;
    Entry (lit "charlie") [] kTombstone; Entry (lit "bravo") (lit "2") kValue;
    Entry (lit "alpha") (lit "9") kValue ].

Lemma skiplist_iterates_sorted_witness :
  exists s it it',
    @run_ops alternating_env SkipList_new sample_ops = Ok s /\ SL_SeekToFirst s = Ok it /\
    SL_Seek s (lit "b") = Ok it' /\
    SL_drain 10 s it = Ok (apply_ops sample_ops []) /\
    SL_drain 10 s it' = Ok (from_key (lit "b") (apply_ops sample_ops [])) /\
    sorted_keys (apply_ops sample_ops []) /\ SkipList_Size s = u64 (blen (apply_ops sample_ops [])).
Proof. apply (@skiplist_iterates_sorted alternating_env sample_ops (lit "b") 10). simpl. lia. Defined.
