(* ===== verification/Cache.v ===== *)
(** The LRU block cache (src/cache.cpp, include/lsmdb/cache.h).

    The [std::list] is a sequence of nodes with identities, the hash map sends a
    key to the identity of its node (the list iterator the code stores), and
    using an iterator whose node is gone is undefined behaviour. The mutex makes
    every operation atomic, so each is one function on the state. *)
From Stdlib Require Import SpecFloat.
From S2P Require Import Prelude Types Bloom.

(** [struct Key]: file number and block offset. *)
Abbreviation CacheKey := (Z * Z)%type.

(** [struct Entry]. *)
Record CacheEntry := mkCacheEntry { ce_key : CacheKey; ce_block : bytes; ce_bytes : Z }.

(** A list node: its identity and its entry. *)
Abbreviation lnode := (nat * CacheEntry)%type.

(** [class BlockCache]. *)
Record BlockCache := mkBlockCache {
  capacity_bytes_ : Z; used_bytes_ : Z; lru_ : list lnode; map_ : gmap CacheKey nat;
  next_node : nat; hits_ : Z; misses_ : Z }.

Definition BlockCache_new (capacity_bytes : Z) : BlockCache :=
  mkBlockCache capacity_bytes 0 [] ∅ 0 0 0.

Definition node_is (it : nat) (n : lnode) : bool := (n.1 =? it)%nat.

(** [*it]. *)
Definition list_deref (l : list lnode) (it : nat) : result lnode := of_option (List.find (node_is it) l).

(** [lru_.splice(lru_.begin(), lru_, it)]. *)
Definition splice_front (l : list lnode) (it : nat) : result (list lnode) :=
  let* n := list_deref l it in Ok (n :: List.filter (fun m => negb (node_is it m)) l).

(** [BlockCache::Lookup]. *)
Definition BlockCache_Lookup (c : BlockCache) (file_number offset : Z) : result (option bytes * BlockCache) :=
  match map_ c !! (file_number, offset) with
  | None =>
      Ok (None, mkBlockCache (capacity_bytes_ c) (used_bytes_ c) (lru_ c) (map_ c) (next_node c)
                  (hits_ c) (misses_ c +u64 1))
  | Some it =>
      let* l := splice_front (lru_ c) it in
      let* n := list_deref l it in
      Ok (Some (ce_block n.2),
          mkBlockCache (capacity_bytes_ c) (used_bytes_ c) l (map_ c) (next_node c)
            (hits_ c +u64 1) (misses_ c))
  end.

(** [while (used_bytes_ > capacity_bytes_ && lru_.size() > 1)]: drop the victim
    at the back. Each iteration shortens the list, whose length is the fuel. *)
Fixpoint evict (fuel : nat) (cap used : Z) (l : list lnode) (m : gmap CacheKey nat)
  : Z * list lnode * gmap CacheKey nat :=
  match fuel with
  | O => (used, l, m)
  | S fuel' =>
      if (cap <? used) && (1 <? blen l) then
        match last l with
        | Some victim =>
            evict fuel' cap (used -u64 ce_bytes victim.2) (removelast l) (delete (ce_key victim.2) m)
        | None => (used, l, m)
        end
      else (used, l, m)
  end.

(** [BlockCache::Insert]; [block] is a nullable pointer. *)
Definition BlockCache_Insert (c : BlockCache) (file_number offset : Z) (block : option bytes)
  : result BlockCache :=
  match block with
  | None => Ok c
  | Some block =>
      if capacity_bytes_ c =? 0 then Ok c
      else
        let key := (file_number, offset) in
        let nbytes := blen block in
        match map_ c !! key with
        | Some it =>
            let* n := list_deref (lru_ c) it in
            let used := (used_bytes_ c -u64 ce_bytes n.2) +u64 nbytes in
            let refreshed := (it, mkCacheEntry (ce_key n.2) block nbytes) in
            let l := map (fun m => if node_is it m then refreshed else m) (lru_ c) in
            let* l := splice_front l it in
            Ok (mkBlockCache (capacity_bytes_ c) used l (map_ c) (next_node c) (hits_ c) (misses_ c))
        | None =>
            let l := (next_node c, mkCacheEntry key block nbytes) :: lru_ c in
            let m := <[key := next_node c]> (map_ c) in
            let used := used_bytes_ c +u64 nbytes in
            let '(used, l, m) := evict (length l) (capacity_bytes_ c) used l m in
            Ok (mkBlockCache (capacity_bytes_ c) used l m (S (next_node c)) (hits_ c) (misses_ c))
        end
  end.

Definition BlockCache_hits (c : BlockCache) : Z := hits_ c.
Definition BlockCache_misses (c : BlockCache) : Z := misses_ c.
Definition size_bytes (c : BlockCache) : Z := used_bytes_ c.
Definition ResetStats (c : BlockCache) : BlockCache :=
  mkBlockCache (capacity_bytes_ c) (used_bytes_ c) (lru_ c) (map_ c) (next_node c) 0 0.

(** [HitRate]: a quotient of doubles, 0 before the first lookup. *)
Definition HitRate (c : BlockCache) : spec_float :=
  let total := hits_ c +u64 misses_ c in
  if total =? 0 then S754_zero false
  else SFdiv 53 1024 (int_to_double (hits_ c)) (int_to_double total).

(** ** Abstract specification: a recency list of blocks *)

Module Lru.
Definition t := list (CacheKey * bytes).

Definition has (k : CacheKey) (e : CacheKey * bytes) : bool := bool_decide (e.1 = k).
Definition find (k : CacheKey) (l : t) : option bytes := snd <$> List.find (has k) l.
Definition remove (k : CacheKey) (l : t) : t := List.filter (fun e => negb (has k e)) l.

Definition lookup (k : CacheKey) (l : t) : option bytes * t :=
  match find k l with
  | Some b => (Some b, (k, b) :: remove k l)
  | None => (None, l)
  end.

Definition total (l : t) : Z := foldr Z.add 0 (map (fun e => blen e.2) l).

(** Drop least recently used blocks until the budget holds or one is left. *)
Fixpoint trim (fuel : nat) (cap : Z) (l : t) : t :=
  match fuel with
  | O => l
  | S fuel' => if (cap <? total l) && (1 <? blen l) then trim fuel' cap (removelast l) else l
  end.

(** The block [b] under [k], new or refreshed, as the most recently used one. *)
Definition front (k : CacheKey) (b : bytes) (l : t) : t := (k, b) :: remove k l.

(** "Insert (or refresh) a block, evicting LRU entries to stay within budget." *)
Definition insert (cap : Z) (k : CacheKey) (b : bytes) (l : t) : t :=
  trim (length (front k b l)) cap (front k b l).
End Lru.

(** ** Refinement *)

Definition abs_node (n : lnode) : CacheKey * bytes := (ce_key n.2, ce_block n.2).
Definition cache_abs (c : BlockCache) : Lru.t := map abs_node (lru_ c).

(** List, map and byte count agree. *)
Record cache_nodes (l : list lnode) (m : gmap CacheKey nat) : Prop := {
  cn_ids : NoDup (map fst l);
  cn_keys : NoDup (map (fun n => ce_key n.2) l);
  cn_map : forall k it, m !! k = Some it <-> exists e, (it, e) ∈ l /\ ce_key e = k;
  cn_bytes : Forall (fun n => ce_bytes n.2 = blen (ce_block n.2)) l }.

Record cache_wf (c : BlockCache) : Prop := {
  cw_nodes : cache_nodes (lru_ c) (map_ c);
  cw_fresh : Forall (fun n => n.1 < next_node c)%nat (lru_ c);
  cw_used : used_bytes_ c = Lru.total (cache_abs c);
  cw_range : used_bytes_ c < 2 ^ 64 }.

(** ** Lemmas *)

Lemma total_app l k : Lru.total (l ++ k) = Lru.total l + Lru.total k.
Proof. unfold Lru.total. induction l as [|e l IH]; simpl in *; lia. Qed.
Lemma total_cons e l : Lru.total (e :: l) = blen e.2 + Lru.total l.
Proof. done. Qed.
Lemma total_nonneg l : 0 <= Lru.total l.
Proof. unfold Lru.total. induction l as [|e l IH]; simpl; [lia|]. pose proof (blen_nonneg e.2). lia. Qed.

Lemma cache_nodes_perm l l' m : l ≡ₚ l' -> cache_nodes l m -> cache_nodes l' m.
Proof.
  intros Hp [H1 H2 H3 H4]. split.
  - by rewrite <- Hp.
  - by rewrite <- Hp.
  - intros k it. rewrite H3. by setoid_rewrite Hp.
  - by rewrite <- Hp.
Qed.

(** The node a map entry points to, with its place in the list. *)
Lemma cache_nodes_hit l m k it :
  cache_nodes l m -> m !! k = Some it -> exists p e q, l = p ++ (it, e) :: q /\ ce_key e = k.
Proof.
  intros Hn Hm. apply (cn_map _ _ Hn) in Hm as (e & Hin & Hk).
  apply list_elem_of_split in Hin as (p & q & ->). eauto.
Qed.

Lemma node_find p it e q :
  NoDup (map fst (p ++ (it, e) :: q)) ->
  list_deref (p ++ (it, e) :: q) it = Ok (it, e) /\
  splice_front (p ++ (it, e) :: q) it = Ok ((it, e) :: p ++ q).
Proof.
  intros Hnd. destruct (unique_tag fst (node_is it) p (it, e) q Hnd) as [E1 E2].
  { intros y. unfold node_is. rewrite Nat.eqb_eq. done. }
  unfold splice_front, list_deref. by rewrite E1, E2.
Qed.

Lemma abs_find l m k :
  cache_nodes l m ->
  match m !! k with
  | Some it => exists p e q, l = p ++ (it, e) :: q /\ ce_key e = k /\
      Lru.find k (map abs_node l) = Some (ce_block e) /\
      Lru.remove k (map abs_node l) = map abs_node (p ++ q)
  | None => Lru.find k (map abs_node l) = None
  end.
Proof.
  intros Hn. destruct (m !! k) as [it|] eqn:E.
  - destruct (cache_nodes_hit _ _ _ _ Hn E) as (p & e & q & -> & Hk). exists p, e, q.
    split_and!; [done..| |]; unfold Lru.find, Lru.remove; rewrite ?map_app; simpl map.
    all: destruct (unique_tag fst (Lru.has k) (map abs_node p) (abs_node (it, e)) (map abs_node q)) as [E1 E2].
    1,4: pose proof (cn_keys _ _ Hn) as Hnd; rewrite map_app in Hnd; rewrite map_app; simpl;
         rewrite !map_map; exact Hnd.
    1,3: intros y; unfold Lru.has; rewrite bool_decide_eq_true; simpl; by rewrite Hk.
    + by rewrite E1.
    + by rewrite E2.
  - unfold Lru.find. rewrite (proj2 (find_None _ _)); [done|].
    apply Forall_forall. intros y Hy. apply list_elem_of_In, in_map_iff in Hy as (n & <- & Hn'%list_elem_of_In).
    unfold Lru.has. apply bool_decide_eq_false. intros Hk. destruct n as [it e].
    assert (m !! k = Some it) as C by (apply (cn_map _ _ Hn); eauto). congruence.
Qed.

Lemma cache_nodes_drop l n m :
  cache_nodes (l ++ [n]) m -> cache_nodes l (delete (ce_key n.2) m).
Proof.
  intros [H1 H2 H3 H4]. rewrite map_app in H1, H2. simpl in H1, H2.
  apply NoDup_app in H1 as (H1 & H1' & _). apply NoDup_app in H2 as (H2 & H2' & _).
  apply Forall_app in H4 as [H4 _]. split; [done..| |done].
  intros k it. rewrite lookup_delete_Some, H3. split.
  - intros [Hne (e & Hin & Hk)]. exists e. split; [|done].
    apply elem_of_app in Hin as [|Hin]; [done|]. apply list_elem_of_singleton in Hin. subst. done.
  - intros (e & Hin & Hk). split; [|exists e; set_solver]. intros Hk'.
    apply (H2' (ce_key e)).
    + apply list_elem_of_In, in_map_iff. exists (it, e). split; [done|]. by apply list_elem_of_In.
    + set_solver.
Qed.

Lemma cache_nodes_add l m k b it :
  cache_nodes l m -> m !! k = None -> it ∉ map fst l ->
  cache_nodes ((it, mkCacheEntry k b (blen b)) :: l) (<[k := it]> m).
Proof.
  intros Hn Hk Hit. split; simpl.
  - apply NoDup_cons. split; [done|apply Hn].
  - apply NoDup_cons. split; [|apply Hn]. intros Hin.
    apply list_elem_of_In, in_map_iff in Hin as ([it' e] & Hke & Hin%list_elem_of_In).
    assert (m !! k = Some it') by (apply (cn_map _ _ Hn); eauto). congruence.
  - intros k' it'. rewrite lookup_insert_Some, (cn_map _ _ Hn). split.
    + intros [[<- <-]|[Hne (e & Hin & Hke)]]; [eexists; split; [by left|done]|].
      exists e. split; [by right|done].
    + intros (e & [Heq|Hin]%elem_of_cons & Hke); [simplify_eq; by left|]. right.
      split; [|by eauto]. intros ->. assert (m !! k' = Some it') by (apply (cn_map _ _ Hn); eauto). congruence.
  - constructor; [done|apply Hn].
Qed.

Lemma evict_spec fuel cap used l m :
  cache_nodes l m -> used = Lru.total (map abs_node l) -> used < 2 ^ 64 ->
  exists l' m', evict fuel cap used l m = (Lru.total (map abs_node l'), l', m') /\
    cache_nodes l' m' /\ l' `prefix_of` l /\ map abs_node l' = Lru.trim fuel cap (map abs_node l).
Proof.
  revert used l m. induction fuel as [|fuel IH]; intros used l m Hn -> Hr; cbn [evict Lru.trim].
  { exists l, m. split_and!; try done. }
  rewrite blen_map. destruct ((cap <? _) && (1 <? blen l)) eqn:E; [|by exists l, m].
  destruct (last l) as [n|] eqn:El.
  - apply last_snoc_inv in El as [l0 ->]. rewrite !map_app, total_app in *. simpl in *.
    rewrite !removelast_last. rewrite total_cons in *. simpl in *.
    assert (ce_bytes n.2 = blen (ce_block n.2)) as Hb.
    { pose proof (cn_bytes _ _ Hn) as Hb. by apply Forall_app in Hb as [_ [Hb _]%Forall_cons]. }
    pose proof (total_nonneg (map abs_node l0)). change (Lru.total []) with 0 in *.
    destruct (IH (Lru.total (map abs_node l0)) l0 (delete (ce_key n.2) m)) as (l' & m' & E' & Hn' & Hp & Ha).
    + by apply cache_nodes_drop.
    + done.
    + pose proof (blen_nonneg (ce_block n.2)). lia.
    + exists l', m'. split_and!; [|done|by etransitivity; [exact Hp|apply prefix_app_r]|done].
      rewrite Hb, u64_small; [|pose proof (blen_nonneg (ce_block n.2)); lia].
      rewrite <- E'. f_equal. lia.
  - apply last_None in El as ->. by rewrite andb_false_r in E.
Qed.

Lemma cache_nodes_refresh p it e q m b :
  cache_nodes (p ++ (it, e) :: q) m ->
  cache_nodes (p ++ (it, mkCacheEntry (ce_key e) b (blen b)) :: q) m.
Proof.
  intros [H1 H2 H3 H4]. rewrite map_app in H1, H2. split; rewrite ?map_app; [done..| |].
  - intros k i. rewrite H3. setoid_rewrite elem_of_app. setoid_rewrite elem_of_cons. clear.
    split; intros (e' & [Hin|[Heq|Hin]] & Hke); simplify_eq/=; eauto 6.
  - apply Forall_app in H4 as [? [? ?]%Forall_cons]. apply Forall_app. split; [done|]. by constructor.
Qed.

Lemma map_refresh p it e q x :
  NoDup (map fst (p ++ (it, e) :: q)) ->
  map (fun m => if node_is it m then x else m) (p ++ (it, e) :: q) = p ++ x :: q.
Proof.
  intros Hnd. rewrite map_app in Hnd |- *. simpl in Hnd. cbn [map]. unfold node_is at 2. cbn [fst].
  rewrite Nat.eqb_refl. apply NoDup_app in Hnd as (_ & Hp & [Hq _]%NoDup_cons).
  f_equal; [|f_equal]; apply map_id_on; intros y Hy; unfold node_is;
    (destruct (Nat.eqb_spec y.1 it) as [E|]; [exfalso|done]);
    apply list_elem_of_In, (in_map fst), list_elem_of_In in Hy.
  - apply (Hp _ Hy). rewrite E. set_solver.
  - apply Hq. by rewrite <- E.
Qed.

(** Every cached block satisfies [P]. *)
Definition cache_all (P : CacheKey -> bytes -> Prop) (c : BlockCache) : Prop :=
  Forall (fun e => P e.1 e.2) (cache_abs c).

Lemma cache_new_wf cap : cache_wf (BlockCache_new cap).
Proof.
  split; try done. split; try apply NoDup_nil_2; try done.
  intros k it. simpl. rewrite lookup_empty. split; [done|]. by intros (e & ?%elem_of_nil & _).
Qed.

Lemma lookup_spec c f o :
  cache_wf c ->
  exists c', BlockCache_Lookup c f o = Ok ((Lru.lookup (f, o) (cache_abs c)).1, c') /\
    cache_wf c' /\ cache_abs c' = (Lru.lookup (f, o) (cache_abs c)).2 /\
    capacity_bytes_ c' = capacity_bytes_ c.
Proof.
  intros [Hn Hf Hu Hr]. pose proof (abs_find _ _ (f, o) Hn) as Ha. unfold BlockCache_Lookup, Lru.lookup.
  destruct (map_ c !! (f, o)) as [it|].
  - destruct Ha as (p & e & q & El & Hk & Hfi & Hre). rewrite El in *.
    destruct (node_find p it e q (cn_ids _ _ Hn)) as [_ ->]. cbn [rbind].
    assert (cache_nodes ((it, e) :: p ++ q) (map_ c)) as Hn'.
    { eapply cache_nodes_perm; [|exact Hn]. by rewrite Permutation_middle. }
    destruct (node_find [] it e (p ++ q) (cn_ids _ _ Hn')) as [Hd _]. cbn [app] in Hd.
    rewrite Hd. cbn [rbind snd].
    unfold cache_abs. rewrite El, Hfi, Hre. eexists. split; [done|].
    split; [|split; [|done]]; [|simpl; unfold abs_node at 1; simpl; by rewrite Hk].
    split; cbn [lru_ map_ next_node used_bytes_]; [done| | |done].
    + by rewrite Permutation_middle.
    + rewrite Hu. apply foldr_add_perm. unfold cache_abs. cbn [lru_]. rewrite El.
      by rewrite Permutation_middle.
  - unfold cache_abs in *. rewrite Ha. eexists. split; [done|]. split_and!; [|done..].
    by split.
Qed.

Lemma remove_absent k l : Lru.find k l = None -> Lru.remove k l = l.
Proof.
  unfold Lru.find, Lru.remove. destruct (List.find (Lru.has k) l) eqn:E; [done|]. intros _.
  induction l as [|e l IH]; [done|]. cbn in *. destruct (Lru.has k e); [done|]. cbn. by rewrite IH.
Qed.

Lemma insert_new cap k b l : Lru.find k l = None -> Lru.insert cap k b l = Lru.trim (S (length l)) cap ((k, b) :: l).
Proof. intros E. unfold Lru.insert, Lru.front. by rewrite remove_absent. Qed.

(** What [Insert] does: a refresh evicts nothing. *)
Lemma insert_spec c f o b :
  cache_wf c -> used_bytes_ c + blen b < 2 ^ 64 -> capacity_bytes_ c <> 0 ->
  exists c', BlockCache_Insert c f o (Some b) = Ok c' /\ cache_wf c' /\
    cache_abs c' = match Lru.find (f, o) (cache_abs c) with
                   | Some _ => Lru.front (f, o) b (cache_abs c)
                   | None => Lru.insert (capacity_bytes_ c) (f, o) b (cache_abs c)
                   end /\
    capacity_bytes_ c' = capacity_bytes_ c.
Proof.
  intros [Hn Hf Hu Hr] Hb Hc. pose proof (abs_find _ _ (f, o) Hn) as Ha.
  pose proof (total_nonneg (cache_abs c)) as H0. pose proof (blen_nonneg b) as Hb0.
  unfold BlockCache_Insert, Lru.front. destruct (Z.eqb_spec (capacity_bytes_ c) 0); [done|].
  unfold cache_abs in *. destruct (map_ c !! (f, o)) as [it|] eqn:Em.
  - destruct Ha as (p & e & q & El & Hk & Hfi & Hre). rewrite El in *.
    destruct (node_find p it e q (cn_ids _ _ Hn)) as [-> _]. cbn [rbind snd].
    set (x := (it, mkCacheEntry (ce_key e) b (blen b))).
    pose proof (cache_nodes_refresh p it e q _ b Hn) as Hn'. fold x in Hn'.
    rewrite (map_refresh p it e q x) by apply Hn.
    destruct (node_find p it _ q (cn_ids _ _ Hn')) as [_ E2]. fold x in E2. rewrite E2. cbn [rbind].
    rewrite Hfi, Hre. eexists. split; [done|]. split; [|split; [|done]].
    2: { simpl. unfold abs_node at 1. simpl. by rewrite Hk. }
    rewrite !map_app in *. simpl map in *. rewrite total_app, total_cons in *. cbn [snd abs_node] in *.
    assert (ce_bytes e = blen (ce_block e)) as Hbe.
    { pose proof (cn_bytes _ _ Hn) as Hby. by apply Forall_app in Hby as [_ [Hby _]%Forall_cons]. }
    pose proof (total_nonneg (map abs_node p)). pose proof (total_nonneg (map abs_node q)).
    pose proof (blen_nonneg (ce_block e)).
    assert (used_bytes_ c -u64 ce_bytes e +u64 blen b = used_bytes_ c - ce_bytes e + blen b) as Eu.
    { rewrite (u64_small (_ - _)) by lia. rewrite u64_small by lia. done. }
    split; cbn [lru_ map_ next_node used_bytes_]; rewrite ?Eu.
    + eapply cache_nodes_perm; [|exact Hn']. by rewrite Permutation_middle.
    + apply Forall_app in Hf as [? [? ?]%Forall_cons]. constructor; [done|]. by apply Forall_app.
    + unfold cache_abs. cbn [lru_ map]. rewrite map_app, total_cons, total_app. cbn [snd abs_node x ce_block].
      lia.
    + lia.
  - rewrite Ha, (insert_new _ _ _ _ Ha).
    destruct (evict_spec (length ((next_node c, mkCacheEntry (f, o) b (blen b)) :: lru_ c)) (capacity_bytes_ c)
      (used_bytes_ c +u64 blen b) ((next_node c, mkCacheEntry (f, o) b (blen b)) :: lru_ c)
      (<[(f, o) := next_node c]> (map_ c))) as (l' & m' & -> & Hn' & Hp & Ha').
    + apply cache_nodes_add; [done..|]. intros Hin.
      apply list_elem_of_In, in_map_iff in Hin as (n' & En & Hin%list_elem_of_In).
      rewrite Forall_forall in Hf. specialize (Hf _ Hin). simpl in Hf. lia.
    + rewrite u64_small by lia. cbn [map]. rewrite total_cons. cbn [snd abs_node ce_block]. lia.
    + apply u64_range.
    + eexists. split; [done|]. cbn [map length] in Ha'. rewrite length_map. split_and!; [|done..].
      split; cbn [lru_ map_ next_node used_bytes_]; [done| |done|].
      * destruct Hp as [k Hk].
        assert (Forall (fun n => n.1 < S (next_node c))%nat (l' ++ k)) as Hall.
        { rewrite <- Hk. constructor; [simpl; lia|]. eapply Forall_impl; [exact Hf|]. simpl. lia. }
        by apply Forall_app in Hall as [? _].
      * destruct Hp as [k Hk]. apply (f_equal (fun l => Lru.total (map abs_node l))) in Hk.
        rewrite map_app, total_app in Hk. cbn [map] in Hk. rewrite total_cons in Hk.
        cbn [snd abs_node ce_block] in Hk. pose proof (total_nonneg (map abs_node k)). lia.
Qed.

(** ** Lemmas: the abstract cache *)

Lemma trim_spec fuel cap l :
  (length l <= fuel)%nat -> l <> [] ->
  let l' := Lru.trim fuel cap l in
  l' `prefix_of` l /\ l' <> [] /\ (Lru.total l' <= cap \/ length l' = 1%nat).
Proof.
  revert l. induction fuel as [|fuel IH]; intros l Hf Hne; cbn [Lru.trim].
  { destruct l; [done|simpl in Hf; lia]. }
  destruct (Z.ltb_spec cap (Lru.total l)) as [Hlt|Hge]; simpl; [|by split_and!; auto].
  destruct (Z.ltb_spec 1 (blen l)) as [Hl|Hl].
  - destruct (exists_last Hne) as (l0 & n & ->). rewrite removelast_last.
    rewrite length_app in Hf. unfold blen in Hl. rewrite length_app in Hl. simpl in Hf, Hl.
    destruct (IH l0) as (Hp & Hn & Ht); [lia|destruct l0; [simpl in Hl; lia|done]|].
    split_and!; [|done..]. etransitivity; [exact Hp|by apply prefix_app_r].
  - split_and!; [done..|]. right. unfold blen in Hl. destruct l; [done|simpl in *; lia].
Qed.

(** Nothing is evicted exactly if the budget holds or one block is left. *)
Lemma trim_same cap k b l :
  Lru.trim (length (Lru.front k b l)) cap (Lru.front k b l) = Lru.front k b l <->
  Lru.total (Lru.front k b l) <= cap \/ length (Lru.front k b l) = 1%nat.
Proof.
  set (l' := Lru.front k b l). assert (l' <> []) as Hne by done. split.
  - intros E. destruct (trim_spec (length l') cap l') as (_ & _ & Ht); [done..|]. by rewrite E in Ht.
  - intros Hor. change (length l') with (S (length (Lru.remove k l))) at 1. cbn [Lru.trim].
    replace ((cap <? Lru.total l') && (1 <? blen l')) with false; [done|]. symmetry. apply andb_false_iff. unfold blen.
    rewrite !Z.ltb_ge. destruct Hor; [by left|right; lia].
Qed.

Lemma find_elem k l b : Lru.find k l = Some b -> (k, b) ∈ l.
Proof.
  unfold Lru.find. destruct (List.find (Lru.has k) l) as [[k' b']|] eqn:E; [|done]. intros [= <-].
  apply List.find_some in E as [Hin Hk]. unfold Lru.has in Hk. apply bool_decide_eq_true in Hk.
  simpl in Hk. subst. by apply list_elem_of_In.
Qed.

Lemma total_remove k b l : (k, b) ∈ l -> Lru.total ((k, b) :: Lru.remove k l) <= Lru.total l.
Proof.
  rewrite total_cons. cbn [snd]. induction l as [|[k' b'] l IH]; [by intros ?%elem_of_nil|].
  assert (forall l, Lru.total (Lru.remove k l) <= Lru.total l) as Hle.
  { clear. induction l as [|[k' b'] l IH]; [done|]. unfold Lru.remove in *. cbn [List.filter].
    destruct (negb (Lru.has k (k', b'))); rewrite ?total_cons; cbn [snd]; len. }
  intros [[= <- <-]|Hin]%elem_of_cons; unfold Lru.remove, Lru.has in *; cbn [List.filter fst]; rewrite total_cons; cbn [snd].
  - rewrite bool_decide_true by done. cbn [negb]. specialize (Hle l). lia.
  - specialize (IH Hin). destruct (bool_decide (k' = k)); cbn [negb]; rewrite ?total_cons; cbn [snd]; len.
Qed.

Lemma remove_Forall (P : CacheKey * bytes -> Prop) k l : Forall P l -> Forall P (Lru.remove k l).
Proof.
  rewrite !Forall_forall. intros H x Hx. apply H. unfold Lru.remove in Hx.
  apply list_elem_of_In, filter_In in Hx as [Hx _]. by apply list_elem_of_In.
Qed.

Lemma lookup_all (P : CacheKey -> bytes -> Prop) k l :
  Forall (fun e => P e.1 e.2) l ->
  Forall (fun e => P e.1 e.2) (Lru.lookup k l).2 /\ (forall b, (Lru.lookup k l).1 = Some b -> P k b).
Proof.
  intros H. unfold Lru.lookup. destruct (Lru.find k l) as [b|] eqn:E; [|by split].
  apply find_elem in E. rewrite Forall_forall in H. pose proof (H _ E) as Hb. simpl in Hb.
  rewrite <- Forall_forall in H. split; [constructor; [done|by apply remove_Forall]|].
  by intros ? [= <-].
Qed.

Lemma insert_all (P : CacheKey -> bytes -> Prop) cap k b l :
  P k b -> Forall (fun e => P e.1 e.2) l -> Forall (fun e => P e.1 e.2) (Lru.insert cap k b l).
Proof.
  intros Hb H. assert (Forall (fun e => P e.1 e.2) (Lru.front k b l)) as Hf by (constructor; [done|by apply remove_Forall]).
  destruct (trim_spec (length (Lru.front k b l)) cap (Lru.front k b l)) as ((r & E) & _); [done|done|].
  fold (Lru.insert cap k b l) in E. rewrite E in Hf. by apply Forall_app in Hf as [? _].
Qed.

(** ** The cache as its clients use it *)

(** [P k b] says that [b] is the content of the block [k]. The invariant of a
    cache of true blocks of less than 4 GiB. *)
Record cache_inv (P : CacheKey -> bytes -> Prop) (c : BlockCache) : Prop := {
  ci_wf : cache_wf c;
  ci_all : cache_all P c;
  ci_cap : 0 <= capacity_bytes_ c < 2 ^ 63;
  ci_used : used_bytes_ c <= Z.max (capacity_bytes_ c) (2 ^ 32) }.

Lemma cache_inv_new P cap : 0 <= cap < 2 ^ 63 -> cache_inv P (BlockCache_new cap).
Proof. intros. split; [apply cache_new_wf|apply Forall_nil_2|done|]. simpl. lia. Qed.

Lemma cache_inv_mono (P Q : CacheKey -> bytes -> Prop) c :
  (forall k b, (k, b) ∈ cache_abs c -> P k b -> Q k b) -> cache_inv P c -> cache_inv Q c.
Proof.
  intros HPQ [Hw Ha Hc Hu]. split; try done. unfold cache_all in *. rewrite Forall_forall in *.
  intros [k b] Hin. apply HPQ; [done|]. by apply (Ha (k, b)).
Qed.

Lemma cache_lookup_inv P c f o :
  cache_inv P c ->
  exists r c', BlockCache_Lookup c f o = Ok (r, c') /\ cache_inv P c' /\
    match r with Some b => P (f, o) b | None => Lru.find (f, o) (cache_abs c') = None end.
Proof.
  intros [Hw Ha Hc Hu]. destruct (lookup_spec c f o Hw) as (c' & E & Hw' & Habs & Hcap).
  destruct (lookup_all P (f, o) _ Ha) as [Ha' Hb].
  exists (Lru.lookup (f, o) (cache_abs c)).1, c'. split; [done|]. split.
  - split; [done|unfold cache_all; by rewrite Habs|by rewrite Hcap|].
    rewrite Hcap. etransitivity; [|exact Hu]. rewrite (cw_used _ Hw), (cw_used _ Hw'), Habs.
    unfold Lru.lookup. destruct (Lru.find (f, o) (cache_abs c)) as [b|] eqn:Ef; [|done].
    apply total_remove. by apply find_elem.
  - rewrite Habs. unfold Lru.lookup in *. destruct (Lru.find (f, o) (cache_abs c)) as [b|] eqn:Ef; simpl in *; [auto|done].
Qed.

Lemma cache_insert_inv P c f o b :
  cache_inv P c -> blen b < 2 ^ 32 -> P (f, o) b -> Lru.find (f, o) (cache_abs c) = None ->
  exists c', BlockCache_Insert c f o (Some b) = Ok c' /\ cache_inv P c'.
Proof.
  intros [Hw Ha Hc Hu] Hb HP Hnew. destruct (decide (capacity_bytes_ c = 0)) as [E0|E0].
  { exists c. unfold BlockCache_Insert. rewrite E0. by split. }
  destruct (insert_spec c f o b Hw) as (c' & E & Hw' & Habs & Hcap); [lia|done|]. rewrite Hnew in Habs.
  exists c'. split; [done|]. split; [done|unfold cache_all; rewrite Habs; by apply insert_all|by rewrite Hcap|].
  rewrite Hcap, (cw_used _ Hw'), Habs, insert_new by done.
  destruct (trim_spec (S (length (cache_abs c))) (capacity_bytes_ c) (((f, o), b) :: cache_abs c))
    as ([r Hr] & Hne & Ht); [simpl; lia|done|].
  destruct Ht as [|Hl]; [lia|]. destruct (Lru.trim _ _ _) as [|e [|? ?]]; try done.
  injection Hr as <- _. rewrite total_cons. unfold Lru.total. simpl. lia.
Qed.

(** ** Properties *)

(** C20 (refinement). On a well-formed cache the hash map, the linked list and the
    byte counter implement an LRU list. [Lookup] returns the block last stored under
    the key and moves it to the front. [Insert] puts the block in front; that it
    then evicts from the back to stay within the budget, as its contract says, holds
    if the key is new, and for a refresh exactly if there is nothing to evict:
    otherwise a refresh leaves every other block in place, over the budget. Neither
    uses a stale iterator, and the invariant is kept. *)
Theorem cache_refines_lru c f o b :
  cache_wf c -> used_bytes_ c + blen b < 2 ^ 64 -> capacity_bytes_ c <> 0 ->
  let l := cache_abs c in
  let l' := Lru.front (f, o) b l in
  (exists c', BlockCache_Lookup c f o = Ok ((Lru.lookup (f, o) l).1, c') /\
     cache_wf c' /\ cache_abs c' = (Lru.lookup (f, o) l).2) /\
  (exists c', BlockCache_Insert c f o (Some b) = Ok c' /\ cache_wf c' /\
     (cache_abs c' = Lru.insert (capacity_bytes_ c) (f, o) b l <->
      Lru.find (f, o) l = None \/ Lru.total l' <= capacity_bytes_ c \/ length l' = 1%nat) /\
     (Lru.find (f, o) l <> None -> cache_abs c' = l')).
Proof.
  intros Hwf Hb Hc l l'. split.
  - destruct (lookup_spec c f o Hwf) as (c' & ? & ? & ? & _). eauto.
  - destruct (insert_spec c f o b Hwf Hb Hc) as (c' & ? & ? & Ha & _). exists c'. fold l l' in Ha. split_and!; [done..| |].
    + destruct (Lru.find (f, o) l) eqn:Ef; [|tauto]. rewrite Ha. unfold Lru.insert. fold l'. pose proof (trim_same (capacity_bytes_ c) (f, o) b l) as Ht.
      split; [intros E; right; by apply Ht, eq_sym|]. intros [?|Hor]; [done|]. symmetry. by apply Ht.
    + intros Hne. by destruct (Lru.find (f, o) l).
Qed.

Lemma cache_refines_lru_witness :
  exists c c', BlockCache_Insert (BlockCache_new 200) 1 0 (Some (lit "block")) = Ok c /\
    BlockCache_Insert c 1 0 (Some (lit "other")) = Ok c' /\
    Lru.find (1, 0) (cache_abs c) = Some (lit "block") /\
    cache_abs c' = Lru.insert 200 (1, 0) (lit "other") (cache_abs c).
Proof.
  destruct (cache_refines_lru (BlockCache_new 200) 1 0 (lit "block")) as [_ (c & E & Hwf & _)].
  { apply cache_new_wf. } { reflexivity. } { discriminate. }
  pose proof E as E0. vm_compute in E. injection E as <-.
  destruct (cache_refines_lru _ 1 0 (lit "other") Hwf) as [_ (c' & E' & _ & Ha' & _)].
  { reflexivity. } { discriminate. }
  eexists _, c'. split; [exact E0|]. split; [exact E'|]. split; [reflexivity|]. apply Ha'. right. left. vm_compute. discriminate.
Defined.

(** C31 (bounds). Inserting a block under a new key leaves the cache within its
    byte budget or holding that one block alone, keeps the new block, and evicts
    only from the least recently used end. *)
Theorem cache_insert_within_budget c f o b :
  cache_wf c -> used_bytes_ c + blen b < 2 ^ 64 -> capacity_bytes_ c <> 0 ->
  Lru.find (f, o) (cache_abs c) = None ->
  exists c', BlockCache_Insert c f o (Some b) = Ok c' /\
    (size_bytes c' <= capacity_bytes_ c \/ cache_abs c' = [((f, o), b)]) /\
    Lru.find (f, o) (cache_abs c') = Some b /\ cache_abs c' `prefix_of` ((f, o), b) :: cache_abs c.
Proof.
  intros Hwf Hb Hc Hnew. destruct (insert_spec c f o b Hwf Hb Hc) as (c' & E & Hwf' & Ha & _).
  rewrite Hnew, insert_new in Ha by done. exists c'. split; [done|]. unfold size_bytes. rewrite (cw_used _ Hwf'), Ha.
  destruct (trim_spec (S (length (cache_abs c))) (capacity_bytes_ c) (((f, o), b) :: cache_abs c))
    as (Hp & Hne & Ht); [simpl; lia|done|].
  destruct (Lru.trim _ _ _) as [|e l]; [done|]. pose proof Hp as [r Hr]. injection Hr as <- Hr.
  split_and!; [|unfold Lru.find, Lru.has; simpl; by rewrite bool_decide_true|done].
  destruct Ht as [|Hl]; [by left|]. right. destruct l; [done|simpl in Hl; lia].
Qed.

Lemma cache_insert_within_budget_witness :
  exists c', BlockCache_Insert (BlockCache_new 3) 1 0 (Some (lit "block")) = Ok c' /\
    (size_bytes c' <= 3 \/ cache_abs c' = [((1, 0), lit "block")]) /\
    Lru.find (1, 0) (cache_abs c') = Some (lit "block") /\
    cache_abs c' `prefix_of` ((1, 0), lit "block") :: cache_abs (BlockCache_new 3).
Proof.
  apply (cache_insert_within_budget (BlockCache_new 3) 1 0 (lit "block")).
  - apply cache_new_wf.
  - reflexivity.
  - discriminate.
  - reflexivity.
Defined.

(** Refreshing a cached key with a larger block does not evict:
    the cache holds two blocks and exceeds its budget. *)
Example cache_refresh_exceeds_budget :
  exists c1 c2 c3,
    BlockCache_Insert (BlockCache_new 4) 1 0 (Some (lit "ab")) = Ok c1 /\
    BlockCache_Insert c1 1 8 (Some (lit "cd")) = Ok c2 /\
    BlockCache_Insert c2 1 0 (Some (lit "abcdef")) = Ok c3 /\
    capacity_bytes_ c3 = 4 /\ size_bytes c3 = 8 /\ length (cache_abs c3) = 2%nat.
Proof. do 3 eexists. split_and!; try (vm_compute; reflexivity). Qed.
