(* ===== verification/Posix.v ===== *)
(** The system calls the engine makes on its files, with their failures.

    The disk maps paths to files; a file knows how many of its bytes an [fsync]
    made durable, and what it held before each truncation that no [fsync] has
    covered since. Every call takes its outcome from an oracle list ([IoOk],
    a short count, or an errno) and succeeds once the list is used up, so a
    theorem over all oracles covers every pattern of faults. A descriptor is
    named by its path: the code never renames or unlinks a file that it has open
    for writing. *)
From S2P Require Import Prelude Types.

Definition EINTR : Z := 4.
Definition ENOENT : Z := 2.
Definition EBADF : Z := 9.

(** [strerror]. *)
Class Os := { strerror : Z -> bytes }.

(** One concrete [strerror], for the examples. *)
Definition plain_os : Os := {| strerror := fun _ => [] |}.

(** A file: its bytes, how many of them are durable, and the same of what it held
    before the truncations that are not durable yet, the last one first. *)
Record file := mkFileAt { f_data : bytes; f_synced : Z; f_before : list (bytes * Z) }.
Abbreviation mkFile data synced := (mkFileAt data synced []).

(** The truncated file. *)
Definition truncated (f : option file) : file :=
  match f with Some f => mkFileAt [] 0 ((f_data f, f_synced f) :: f_before f) | None => mkFile [] 0 end.

Inductive io_outcome := IoOk | IoShort (n : nat) | IoErr (errno : Z).

Record World := mkWorld { fs : gmap bytes file; io : list io_outcome }.

(** The outcome of the next call. *)
Definition next_io (σ : World) : io_outcome * World :=
  match io σ with
  | [] => (IoOk, σ)
  | o :: os => (o, mkWorld (fs σ) os)
  end.

(** Append to a file; a file that does not exist is created empty first. *)
Definition file_append (m : gmap bytes file) (path d : bytes) : gmap bytes file :=
  let f := default (mkFile [] 0) (m !! path) in
  <[path := mkFileAt (f_data f ++ d) (f_synced f) (f_before f)]> m.

(** A call that either fails with an errno or has the effect [k]. *)
Definition sys (σ : World) (k : gmap bytes file -> gmap bytes file) : option Z * World :=
  let (o, σ) := next_io σ in
  match o with
  | IoErr e => (Some e, σ)
  | _ => (None, mkWorld (k (fs σ)) (io σ))
  end.

(** [open(path, O_WRONLY | O_CREAT | O_TRUNC)]. *)
Definition open_trunc (path : bytes) (σ : World) : option Z * World :=
  sys σ (fun m => <[path := truncated (m !! path)]> m).
(** [open(path, O_WRONLY | O_CREAT | O_APPEND)]. *)
Definition open_append (path : bytes) (σ : World) : option Z * World :=
  sys σ (fun m => match m !! path with Some _ => m | None => <[path := mkFile [] 0]> m end).
(** [fsync(fd)]. *)
Definition fsync (path : bytes) (σ : World) : option Z * World :=
  sys σ (fun m => match m !! path with
                  | Some f => <[path := mkFile (f_data f) (blen (f_data f))]> m
                  | None => m
                  end).
(** [close(fd)]. *)
Definition close (σ : World) : option Z * World := sys σ (fun m => m).
(** [close(fd)] on an error path that goes on to report [errno]: a failing
    [close] overwrites it. *)
Definition close_errno (e : Z) (σ : World) : Z * World :=
  match close σ with
  | (Some e', σ) => (e', σ)
  | (None, σ) => (e, σ)
  end.
(** [rename(old, new)]. *)
Definition rename (old new : bytes) (σ : World) : option Z * World :=
  sys σ (fun m => match m !! old with
                  | Some f => <[new := f]> (delete old m)
                  | None => m
                  end).
(** [unlink(path)]. *)
Definition unlink (path : bytes) (σ : World) : World :=
  (sys σ (fun m => delete path m)).2.

(** The loop [while (off < n) { r = write(fd, data + off, n - off); ... }] shared
    by the log, the table writer and the manifest writer: a short count goes
    round again, [EINTR] retries, another errno is returned. *)
Fixpoint write_loop (os : list io_outcome) (path data : bytes) (m : gmap bytes file)
  : option Z * gmap bytes file * list io_outcome :=
  match data with
  | [] => (None, m, os)
  | _ :: _ =>
      match os with
      | [] => (None, file_append m path data, [])
      | IoOk :: os' => (None, file_append m path data, os')
      | IoShort n :: os' => write_loop os' path (drop n data) (file_append m path (take n data))
      | IoErr e :: os' => if e =? EINTR then write_loop os' path data m else (Some e, m, os')
      end
  end.

Definition write_fully (path data : bytes) (σ : World) : option Z * World :=
  let '(r, m, os) := write_loop (io σ) path data (fs σ) in (r, mkWorld m os).

(** The write loop on a descriptor; [None] stands for -1, on which [write]
    fails (an empty buffer makes no call). *)
Definition fd_write (fd : option bytes) (data : bytes) (σ : World) : option Z * World :=
  match fd, data with
  | Some path, _ => write_fully path data σ
  | None, [] => (None, σ)
  | None, _ :: _ => (Some EBADF, σ)
  end.

(** [open(path, O_RDONLY)]: an errno or the file. *)
Definition open_rdonly (path : bytes) (σ : World) : (Z + file) * World :=
  let (o, σ) := next_io σ in
  match o, fs σ !! path with
  | IoErr e, _ => (inl e, σ)
  | _, None => (inl ENOENT, σ)
  | _, Some f => (inr f, σ)
  end.

(** Sequencing of computations that return a [result] and thread the world: an
    early return or undefined behaviour ends the sequence. *)
Definition io_bind {A B} (m : result A * World) (k : A -> World -> result B * World) : result B * World :=
  match m with
  | (Ok a, σ) => k a σ
  | (Err s, σ) => (Err s, σ)
  | (UB, σ) => (UB, σ)
  end.
Notation "'let!' ( x , σ ) := m 'in' k" := (io_bind m (fun x σ => k))
  (at level 10, x pattern, σ name, m at level 200, k at level 200) : result_scope.

(** What a crash leaves of the bytes of a file: every durable byte, and any part of
    the suffix that was not made durable. *)
Definition crash_file (f f' : file) : Prop :=
  exists n, f_synced f <= Z.of_nat n /\ f_data f' = take n (f_data f).

(** A crash may also undo a truncation that no [fsync] covered. *)
Definition crash_undoes (f f' : file) : Prop := exists x s, (x, s) ∈ f_before f /\ crash_file (mkFile x s) f'.

(** ** Lemmas *)

Lemma truncated_data f : f_data (truncated f) = [].
Proof. by destruct f. Qed.

Lemma append_other m path path' d : path <> path' -> file_append m path d !! path' = m !! path'.
Proof. intros. unfold file_append. by rewrite lookup_insert_ne. Qed.

Lemma append_same m path d f :
  m !! path = Some f -> file_append m path d !! path = Some (mkFileAt (f_data f ++ d) (f_synced f) (f_before f)).
Proof. intros E. unfold file_append. by rewrite lookup_insert_eq, E. Qed.

(** A write loop appends a prefix of its buffer, all of it when it reports no
    error, and touches no other file. *)
Lemma write_loop_spec os path data m r m' os' f :
  m !! path = Some f -> write_loop os path data m = (r, m', os') ->
  exists t u, data = t ++ u /\ m' !! path = Some (mkFileAt (f_data f ++ t) (f_synced f) (f_before f)) /\
    (r = None -> u = []) /\ (forall path', path' <> path -> m' !! path' = m !! path').
Proof.
  revert data m f. induction os as [|o os IH]; intros data m f Hf; destruct data as [|x data]; cbn [write_loop].
  1,3: intros [= <- <- <-]; exists [], []; rewrite !app_nil_r, Hf; split_and!; try done; by destruct f.
  - intros [= <- <- <-]. exists (x :: data), []. rewrite app_nil_r, (append_same _ _ _ _ Hf).
    split_and!; try done. intros. by rewrite append_other.
  - destruct o as [|n|e].
    + intros [= <- <- <-]. exists (x :: data), []. rewrite app_nil_r, (append_same _ _ _ _ Hf).
      split_and!; try done. intros. by rewrite append_other.
    + intros (d1 & d2 & E & Hd & Hr & Ho)%(IH _ _ _ (append_same _ _ _ _ Hf)).
      exists (take n (x :: data) ++ d1), d2. cbn [f_data f_synced] in Hd.
      split_and!; [by rewrite <- app_assoc, <- E, take_drop|by rewrite app_assoc|done|].
      intros path' Hne. by rewrite Ho, append_other by done.
    + destruct (e =? EINTR); [by apply IH|].
      intros [= <- <- <-]. exists [], (x :: data). rewrite app_nil_r, Hf. split_and!; try done. by destruct f.
Qed.

Lemma write_fully_spec path data σ r σ' f :
  fs σ !! path = Some f -> write_fully path data σ = (r, σ') ->
  exists t u, data = t ++ u /\ fs σ' !! path = Some (mkFileAt (f_data f ++ t) (f_synced f) (f_before f)) /\
    (r = None -> u = []) /\ (forall path', path' <> path -> fs σ' !! path' = fs σ !! path').
Proof.
  intros Hf. unfold write_fully. destruct (write_loop (io σ) path data (fs σ)) as [[r0 m] os] eqn:E.
  intros [= <- <-]. by eapply write_loop_spec.
Qed.

(** The loop leaves other files alone, whether or not its file exists. *)
Lemma write_loop_others os path data m p :
  p <> path -> (write_loop os path data m).1.2 !! p = m !! p.
Proof.
  intros Hp. revert data m. induction os as [|o os IH]; intros data m; destruct data as [|b data]; cbn [write_loop fst snd]; try done.
  - unfold file_append. by rewrite lookup_insert_ne.
  - destruct o as [|n|e]; cbn [fst snd].
    + unfold file_append. by rewrite lookup_insert_ne.
    + rewrite IH. unfold file_append. by rewrite lookup_insert_ne.
    + destruct (_ =? _); [apply IH|done].
Qed.

Lemma fsync_spec path σ r σ' f :
  fs σ !! path = Some f -> fsync path σ = (r, σ') ->
  (exists f', fs σ' !! path = Some f' /\ f_data f' = f_data f /\
     match r with
     | None => f_synced f' = blen (f_data f) /\ f_before f' = []
     | Some _ => f_synced f' = f_synced f /\ f_before f' = f_before f
     end) /\
  (forall path', path' <> path -> fs σ' !! path' = fs σ !! path').
Proof.
  intros Hf. unfold fsync, sys, next_io.
  destruct (io σ) as [|o os]; [|destruct o]; cbn [fs io]; rewrite ?Hf; intros [= <- <-]; cbn [fs];
    (split; [|intros; by rewrite ?lookup_insert_ne]); rewrite ?lookup_insert_eq; eauto.
Qed.

(** The effect of a call by its result. *)
Lemma sys_spec σ k r σ' : sys σ k = (r, σ') -> fs σ' = match r with None => k (fs σ) | Some _ => fs σ end.
Proof. unfold sys, next_io. destruct (io σ) as [|[| |] os]; by intros [= <- <-]. Qed.

(** Without faults every call succeeds and the oracle stays empty. *)
Lemma write_fully_ok path data m :
  write_fully path data (mkWorld m []) =
  (None, mkWorld (match data with [] => m | _ => file_append m path data end) []).
Proof. by destruct data. Qed.

Lemma sys_ok m k : sys (mkWorld m []) k = (None, mkWorld (k m) []).
Proof. done. Qed.
