(* ===== verification/Wal.v ===== *)
(** The write-ahead log (src/wal.cpp, include/lsmdb/wal.h): framing, appending
    under I/O faults, and replay of a log that may end in a torn record. *)
From S2P Require Import Prelude Types Coding Crc32 Posix.

Definition kHeaderSize : Z := 4 + 4.

(** [class WalWriter]: [fd_] is [None] for -1, otherwise the open file. *)
Record WalWriter := mkWalWriter { wal_fd_ : option bytes; wal_path_ : bytes }.

Definition WalWriter_new : WalWriter := mkWalWriter None [].

Section Writer.
Context `{Os}.

Definition WalWriter_Open (path : bytes) (σ : World) : Status * WalWriter * World :=
  match open_append path σ with
  | (None, σ) => (Status_OK, mkWalWriter (Some path) path, σ)
  | (Some e, σ) =>
      (Status_IOError (lit "open " ++ path ++ lit ": " ++ strerror e), mkWalWriter None path, σ)
  end.

(** [WriteFully]. *)
Definition WriteFully (fd : option bytes) (data path : bytes) (σ : World) : Status * World :=
  match fd_write fd data σ with
  | (None, σ) => (Status_OK, σ)
  | (Some e, σ) => (Status_IOError (lit "write " ++ path ++ lit ": " ++ strerror e), σ)
  end.

(** [WalWriter::AddRecord]. *)
Definition AddRecord (w : WalWriter) (type : ValueType) (key value : bytes) (sync : bool) (σ : World)
  : Status * World :=
  let payload := [type] in
  let payload := PutFixed32 payload (u32 (blen key)) in
  let payload := payload ++ key in
  let payload := PutFixed32 payload (u32 (blen value)) in
  let payload := payload ++ value in
  let frame := PutFixed32 [] (Crc32 payload) in
  let frame := PutFixed32 frame (u32 (blen payload)) in
  let frame := frame ++ payload in
  let '(s, σ) := WriteFully (wal_fd_ w) frame (wal_path_ w) σ in
  if negb (ok s) then (s, σ)
  else if sync then
    match wal_fd_ w with
    | None => (Status_IOError (lit "fsync " ++ wal_path_ w ++ lit ": " ++ strerror EBADF), σ)
    | Some f =>
        match fsync f σ with
        | (None, σ) => (Status_OK, σ)
        | (Some e, σ) =>
            (Status_IOError (lit "fsync " ++ wal_path_ w ++ lit ": " ++ strerror e), σ)
        end
    end
  else (Status_OK, σ).

(** [WalWriter::Close]. *)
Definition WalWriter_Close (w : WalWriter) (σ : World) : Status * WalWriter * World :=
  match wal_fd_ w with
  | None => (Status_OK, w, σ)
  | Some _ =>
      match close σ with
      | (None, σ) => (Status_OK, mkWalWriter None (wal_path_ w), σ)
      | (Some e, σ) =>
          (Status_IOError (lit "close " ++ wal_path_ w ++ lit ": " ++ strerror e),
           mkWalWriter None (wal_path_ w), σ)
      end
  end.

(** [WalWriter::~WalWriter]. *)
Definition WalWriter_destroy (w : WalWriter) (σ : World) : World :=
  match wal_fd_ w with Some _ => (close σ).2 | None => σ end.

End Writer.

(** The payload decoding of [WalReplay], every field guarded against a malformed
    length; [None] is the [break] out of the loop. *)
Definition decode_payload (payload : bytes) (len : Z) : result (option entry) :=
  if len <? 1 + 4 then Ok None
  else
    let* type := of_option (payload !! 0%nat) in
    let q := 1 in
    let* klen := DecodeFixed32 payload q in
    let q := q + 4 in
    if len <? q + klen + 4 then Ok None
    else
      let* key := of_option (slice payload q klen) in
      let q := q + klen in
      let* vlen := DecodeFixed32 payload q in
      let q := q + 4 in
      if negb (q + vlen =? len) then Ok None
      else
        let* value := of_option (slice payload q vlen) in
        Ok (Some (Entry key value type)).

(** The loop of [WalReplay] over the buffer read from the log, from [pos] on: the
    records handed to the handler, in order. Every iteration consumes a header,
    so the buffer length bounds the iterations. *)
Fixpoint replay_loop (fuel : nat) (buf : bytes) (pos : Z) : result (list entry) :=
  match fuel with
  | O => UB
  | S fuel' =>
      if pos + kHeaderSize <=? blen buf then
        let* crc := DecodeFixed32 buf pos in
        let* len := DecodeFixed32 buf (pos + 4) in
        if blen buf <? pos + kHeaderSize + len then Ok []
        else
          let* payload := of_option (slice buf (pos + kHeaderSize) len) in
          if negb (Crc32 payload =? crc) then Ok []
          else
            let* rec := decode_payload payload len in
            match rec with
            | None => Ok []
            | Some e =>
                let* rest := replay_loop fuel' buf (pos + kHeaderSize + len) in
                Ok (e :: rest)
            end
      else Ok []
  end.

Definition replay_buffer (buf : bytes) : result (list entry) := replay_loop (S (length buf)) buf 0.

(** The loop [while (off < size) { r = read(fd, &buf[off], size - off); ... }]:
    [EINTR] retries, a zero count stops, another errno is returned. *)
Fixpoint read_loop (os : list io_outcome) (data acc : bytes) : (option Z * bytes) * list io_outcome :=
  match data with
  | [] => ((None, acc), os)
  | _ :: _ =>
      match os with
      | [] => ((None, acc ++ data), [])
      | IoOk :: os' => ((None, acc ++ data), os')
      | IoShort O :: os' => ((None, acc), os')
      | IoShort n :: os' => read_loop os' (drop n data) (acc ++ take n data)
      | IoErr e :: os' => if e =? EINTR then read_loop os' data acc else ((Some e, acc), os')
      end
  end.

(** [WalReplay]: the records replayed ([num_replayed] is their number). A missing
    log replays nothing. *)
Definition WalReplay `{Os} (path : bytes) (σ : World) : result (list entry) * World :=
  match open_rdonly path σ with
  | (inl e, σ) =>
      if e =? ENOENT then (Ok [], σ)
      else (Err (Status_IOError (lit "open " ++ path ++ lit ": " ++ strerror e)), σ)
  | (inr f, σ) =>
      let (o, σ) := next_io σ in
      match o with
      | IoErr e =>
          let (e, σ) := close_errno e σ in
          (Err (Status_IOError (lit "fstat " ++ path ++ lit ": " ++ strerror e)), σ)
      | _ =>
          let '((r, buf), os) := read_loop (io σ) (f_data f) [] in
          let σ := mkWorld (fs σ) os in
          match r with
          | Some e =>
              let (e, σ) := close_errno e σ in
              (Err (Status_IOError (lit "read " ++ path ++ lit ": " ++ strerror e)), σ)
          | None => (replay_buffer buf, (close σ).2)
          end
      end
  end.

(** ** The record format *)

Definition wal_payload (e : entry) : bytes :=
  e_type e :: fixed32 (u32 (blen (e_key e))) ++ e_key e ++ fixed32 (u32 (blen (e_value e))) ++ e_value e.

Definition wal_frame (e : entry) : bytes :=
  fixed32 (Crc32 (wal_payload e)) ++ fixed32 (u32 (blen (wal_payload e))) ++ wal_payload e.

(** The 32-bit length fields of the frame hold the lengths. *)
Definition wal_fits (e : entry) : Prop := 9 + blen (e_key e) + blen (e_value e) < 2 ^ 32.

Definition wal_frames (es : list entry) : bytes := concat (map wal_frame es).

(** ** Lemmas: replay *)

(** Replay looks only at the bytes from its position on. *)
Lemma replay_shift fuel pre rest pos :
  0 <= pos -> replay_loop fuel (pre ++ rest) (blen pre + pos) = replay_loop fuel rest pos.
Proof.
  revert pos. induction fuel as [|fuel IH]; intros pos Hpos; [done|]. cbn [replay_loop].
  replace (blen pre + pos + kHeaderSize <=? blen (pre ++ rest)) with (pos + kHeaderSize <=? blen rest)
    by (apply eq_true_iff_eq; rewrite !Z.leb_le; len).
  destruct (pos + kHeaderSize <=? blen rest); [|done].
  rewrite <- (Z.add_assoc (blen pre) pos 4), !DecodeFixed32_app_r by lia.
  destruct (DecodeFixed32 rest pos) as [crc| |]; [|done..]. cbn [rbind].
  destruct (DecodeFixed32 rest (pos + 4)) as [len| |] eqn:El; [|done..]. cbn [rbind].
  apply DecodeFixed32_range in El.
  replace (blen (pre ++ rest) <? blen pre + pos + kHeaderSize + len)
    with (blen rest <? pos + kHeaderSize + len)
    by (apply eq_true_iff_eq; rewrite !Z.ltb_lt; len).
  rewrite <- !(Z.add_assoc (blen pre)), slice_app_r by (unfold kHeaderSize; lia).
  rewrite (IH (pos + kHeaderSize + len)) by (unfold kHeaderSize, is_u32 in *; lia). done.
Qed.

Lemma decode_payload_total payload : exists o, decode_payload payload (blen payload) = Ok o.
Proof.
  unfold decode_payload. destruct (Z.ltb_spec (blen payload) (1 + 4)); [eauto|].
  destruct payload as [|b payload]; [rewrite blen_nil in *; lia|]. cbn [lookup list_lookup of_option rbind].
  destruct (DecodeFixed32_total (b :: payload) 1) as [klen Ek]; [lia..|]. rewrite Ek. cbn [rbind].
  pose proof (DecodeFixed32_range _ _ _ Ek) as Hk. unfold is_u32 in Hk.
  destruct (Z.ltb_spec (blen (b :: payload)) (1 + 4 + klen + 4)); [eauto|].
  destruct (slice (b :: payload) (1 + 4) klen) as [key|] eqn:Eks; [|apply slice_None in Eks; lia].
  cbn [of_option rbind].
  destruct (DecodeFixed32_total (b :: payload) (1 + 4 + klen)) as [vlen Ev]; [lia..|]. rewrite Ev. cbn [rbind].
  pose proof (DecodeFixed32_range _ _ _ Ev) as Hv. unfold is_u32 in Hv.
  destruct (Z.eqb_spec (1 + 4 + klen + 4 + vlen) (blen (b :: payload))); cbn [negb]; [|eauto].
  destruct (slice (b :: payload) (1 + 4 + klen + 4) vlen) as [value|] eqn:Evs; [|apply slice_None in Evs; lia].
  simpl. eauto.
Qed.

(** With enough fuel replay returns, the same records whatever the fuel, and
    never reads outside the buffer. *)
Lemma replay_total n buf pos :
  0 <= pos -> blen buf - pos <= Z.of_nat n ->
  exists es, forall fuel, (n < fuel)%nat -> replay_loop fuel buf pos = Ok es.
Proof.
  revert pos. induction n as [n IH] using lt_wf_ind. intros pos Hpos Hn.
  enough (exists es, forall fuel, (n <= fuel)%nat -> replay_loop (S fuel) buf pos = Ok es) as [es Hes].
  { exists es. intros [|fuel] Hf; [lia|]. apply Hes. lia. }
  cbn [replay_loop]. unfold kHeaderSize.
  destruct (Z.leb_spec (pos + (4 + 4)) (blen buf)); [|eauto].
  destruct (DecodeFixed32_total buf pos) as [crc Ec]; [lia..|]. rewrite Ec. cbn [rbind].
  destruct (DecodeFixed32_total buf (pos + 4)) as [len El]; [lia..|]. rewrite El. cbn [rbind].
  pose proof (DecodeFixed32_range _ _ _ El) as Hl. unfold is_u32 in Hl.
  destruct (Z.ltb_spec (blen buf) (pos + (4 + 4) + len)); [eauto|].
  destruct (slice buf (pos + (4 + 4)) len) as [payload|] eqn:Ep; [|apply slice_None in Ep; lia].
  cbn [of_option rbind]. destruct (negb _); [eauto|].
  apply slice_Some in Ep as (_ & _ & _ & <- & _).
  destruct (decode_payload_total payload) as [[e|] Eo]; rewrite Eo; cbn [rbind]; [|eauto].
  destruct (IH (n - 1)%nat ltac:(lia) (pos + (4 + 4) + blen payload)) as [es Hes]; [lia..|].
  exists (e :: es). intros fuel Hf. by rewrite Hes by lia.
Qed.

Lemma replay_fuel fuel fuel' buf :
  (length buf < fuel)%nat -> (length buf < fuel')%nat -> replay_loop fuel buf 0 = replay_loop fuel' buf 0.
Proof.
  intros H1 H2. destruct (replay_total (length buf) buf 0) as [es Hes]; [done|unfold blen; lia|].
  by rewrite !Hes.
Qed.

(** ** Lemmas: frames *)

Lemma wal_payload_len e : blen (wal_payload e) = 9 + blen (e_key e) + blen (e_value e).
Proof. unfold wal_payload. autorewrite with lsmlen. lia. Qed.
Lemma wal_frame_len e : blen (wal_frame e) = 17 + blen (e_key e) + blen (e_value e).
Proof. unfold wal_frame. autorewrite with lsmlen. rewrite wal_payload_len. lia. Qed.
#[export] Hint Rewrite wal_payload_len wal_frame_len : lsmlen.

Lemma decode_wal_payload e :
  wal_fits e -> decode_payload (wal_payload e) (blen (wal_payload e)) = Ok (Some e).
Proof.
  unfold wal_fits. intros Hf. pose proof (blen_nonneg (e_key e)). pose proof (blen_nonneg (e_value e)).
  unfold decode_payload. rewrite wal_payload_len. rewrite (proj2 (Z.ltb_ge _ _)) by lia.
  unfold wal_payload. rewrite !u32_small by lia. cbn [lookup list_lookup of_option rbind].
  destruct e as [key value type]. cbn [e_key e_value e_type] in *.
  pose proof (DecodeFixed32_mid [type] (blen key) (key ++ fixed32 (blen value) ++ value) 1) as Ek.
  pose proof (slice_eq _ ([type] ++ fixed32 (blen key)) key (fixed32 (blen value) ++ value) 5 (blen key) eq_refl) as Eks.
  pose proof (DecodeFixed32_mid ([type] ++ fixed32 (blen key) ++ key) (blen value) value (5 + blen key)) as Ev.
  pose proof (slice_eq _ ([type] ++ fixed32 (blen key) ++ key ++ fixed32 (blen value)) value [] (9 + blen key)
                (blen value) eq_refl) as Evs.
  rewrite ?app_nil_r, <- ?app_assoc in *. cbn [app] in *. autorewrite with lsmlen in *.
  rewrite Ek by (unfold is_u32; done || lia). cbn [rbind]. rewrite (proj2 (Z.ltb_ge _ _)) by lia.
  change (1 + 4) with 5. rewrite Eks by (done || lia). cbn [of_option rbind].
  rewrite Ev by (unfold is_u32; done || lia). cbn [rbind]. rewrite (proj2 (Z.eqb_eq _ _)) by lia. cbn [negb].
  replace (5 + blen key + 4) with (9 + blen key) by lia.
  by rewrite Evs by (done || lia).
Qed.

Lemma replay_frame fuel e rest :
  wal_fits e -> replay_loop (S fuel) (wal_frame e ++ rest) 0 = (let* r := replay_loop fuel rest 0 in Ok (e :: r)).
Proof.
  intros Hf. pose proof (blen_nonneg (e_key e)) as Hk. pose proof (blen_nonneg (e_value e)) as Hv.
  pose proof (wal_payload_len e) as Hpl. assert (is_u32 (blen (wal_payload e))) as Hpr by (unfold wal_fits, is_u32 in *; lia).
  cbn [replay_loop]. rewrite (proj2 (Z.leb_le _ _)) by (unfold kHeaderSize; autorewrite with lsmlen; pose proof (blen_nonneg rest); lia).
  rewrite <- (replay_shift fuel (wal_frame e) rest 0) by done. rewrite wal_frame_len.
  unfold wal_frame. rewrite u32_small by done. rewrite <- !app_assoc.
  rewrite DecodeFixed32_head by apply Crc32_range. cbn [rbind].
  rewrite (DecodeFixed32_mid (fixed32 (Crc32 (wal_payload e)))) by done. cbn [rbind]. unfold kHeaderSize.
  rewrite (proj2 (Z.ltb_ge _ _)) by (autorewrite with lsmlen; pose proof (blen_nonneg rest); lia).
  rewrite (slice_eq _ (fixed32 (Crc32 (wal_payload e)) ++ fixed32 (blen (wal_payload e))) (wal_payload e) rest)
    by (rewrite <- ?app_assoc; done).
  cbn [of_option rbind]. rewrite Z.eqb_refl. cbn [negb]. rewrite decode_wal_payload by done. cbn [rbind].
  replace (0 + (4 + 4) + blen (wal_payload e)) with (17 + blen (e_key e) + blen (e_value e) + 0) by lia. done.
Qed.

Lemma replay_frames es rest :
  Forall wal_fits es ->
  replay_buffer (wal_frames es ++ rest) = (let* r := replay_buffer rest in Ok (es ++ r)).
Proof.
  induction 1 as [|e es He Hes IH].
  - simpl. destruct (replay_buffer rest); done.
  - unfold replay_buffer in *. cbn [wal_frames map concat]. rewrite <- app_assoc.
    rewrite replay_frame by done. fold (wal_frames es).
    rewrite (replay_fuel _ (S (length (wal_frames es ++ rest)))).
    + rewrite IH. by destruct (replay_loop _ rest 0).
    + rewrite !length_app. pose proof (wal_frame_len e). unfold blen in *. lia.
    + lia.
Qed.

(** A torn record: a strict prefix of a frame. *)
Lemma replay_torn e t u :
  wal_fits e -> t ++ u = wal_frame e -> u <> [] -> replay_buffer t = Ok [].
Proof.
  intros Hf E Hu. unfold replay_buffer. cbn [replay_loop]. unfold kHeaderSize.
  destruct (Z.leb_spec (0 + (4 + 4)) (blen t)) as [Hle|]; [|done].
  destruct (DecodeFixed32_total t 0) as [crc ->]; [lia..|]. cbn [rbind].
  assert (DecodeFixed32 t (0 + 4) = Ok (blen (wal_payload e))) as ->.
  { rewrite <- (DecodeFixed32_app_l t u) by lia. rewrite E. unfold wal_frame.
    pose proof (blen_nonneg (e_key e)). pose proof (blen_nonneg (e_value e)).
    rewrite u32_small by (rewrite wal_payload_len; unfold wal_fits in Hf; lia).
    apply DecodeFixed32_mid; [|done]. rewrite wal_payload_len. unfold wal_fits, is_u32 in *. lia. }
  cbn [rbind]. rewrite (proj2 (Z.ltb_lt _ _)); [done|].
  apply (f_equal blen) in E. autorewrite with lsmlen in *.
  assert (0 < blen u) by (destruct u; [done|len]). lia.
Qed.

Lemma AddRecord_frame `{Os} w type key value sync σ :
  AddRecord w type key value sync σ =
  let '(s, σ) := WriteFully (wal_fd_ w) (wal_frame (Entry key value type)) (wal_path_ w) σ in
  if negb (ok s) then (s, σ)
  else if sync then
    match wal_fd_ w with
    | None => (Status_IOError (lit "fsync " ++ wal_path_ w ++ lit ": " ++ strerror EBADF), σ)
    | Some f =>
        match fsync f σ with
        | (None, σ) => (Status_OK, σ)
        | (Some e, σ) => (Status_IOError (lit "fsync " ++ wal_path_ w ++ lit ": " ++ strerror e), σ)
        end
    end
  else (Status_OK, σ).
Proof.
  unfold AddRecord, wal_frame, wal_payload. rewrite !PutFixed32_spec. cbn [e_type e_key e_value].
  cbn [app]. by rewrite <- !app_assoc.
Qed.

(** ** Lemmas: appending under faults *)

(** Appending touches only the file of the descriptor. *)
Lemma AddRecord_others `{Os} w type key value sync σ s σ' p :
  AddRecord w type key value sync σ = (s, σ') -> wal_fd_ w <> Some p -> fs σ' !! p = fs σ !! p.
Proof.
  rewrite AddRecord_frame. unfold WriteFully, fd_write. destruct (wal_fd_ w) as [path|] eqn:Ew.
  - intros E Hp. assert (p <> path) as Hne by congruence. revert E. unfold write_fully.
    pose proof (write_loop_others (io σ) path (wal_frame (Entry key value type)) (fs σ) p Hne) as Hw.
    destruct (write_loop _ path _ (fs σ)) as [[r m] os]. cbn [fst snd] in Hw.
    destruct r as [e|]; cbn [negb ok code_ Status_IOError Status_OK]; [by intros [= <- <-]|].
    destruct sync; [|by intros [= <- <-]].
    destruct (fsync path (mkWorld m os)) as [r σ1] eqn:Ef. apply sys_spec in Ef. cbn [fs] in Ef.
    destruct r; intros [= <- <-]; rewrite Ef; [done|]. destruct (m !! path); [by rewrite lookup_insert_ne|done].
  - intros E _. revert E. destruct (wal_frame _); cbn [negb ok code_ Status_IOError Status_OK]; [destruct sync|]; by intros [= <- <-].
Qed.

(** Whatever the system calls do, a call to [AddRecord] leaves the old log
    followed by a prefix of the frame: all of it (and durable, when asked) if it
    reports success. *)
Lemma AddRecord_log `{Os} path e sync σ s σ' f :
  fs σ !! path = Some f ->
  AddRecord (mkWalWriter (Some path) path) (e_type e) (e_key e) (e_value e) sync σ = (s, σ') ->
  exists t u f', wal_frame e = t ++ u /\ fs σ' !! path = Some f' /\ f_data f' = f_data f ++ t /\
    (f_synced f' = f_synced f /\ f_before f' = f_before f \/ f_synced f' = blen (f_data f') /\ f_before f' = []) /\
    (ok s = true -> u = [] /\ (sync = true -> f_synced f' = blen (f_data f') /\ f_before f' = [])) /\
    (forall path', path' <> path -> fs σ' !! path' = fs σ !! path').
Proof.
  intros Hf. rewrite AddRecord_frame. destruct e as [key value type]. cbn [e_key e_value e_type wal_fd_ wal_path_].
  unfold WriteFully, fd_write. destruct (write_fully path _ σ) as [r σ1] eqn:Ew.
  destruct (write_fully_spec _ _ _ _ _ _ Hf Ew) as (t & u & E & Hf1 & Hr & Ho).
  destruct r as [err|]; cbn [negb ok code_ Status_IOError Status_OK].
  { intros [= <- <-]. exists t, u, (mkFileAt (f_data f ++ t) (f_synced f) (f_before f)). split_and!; simpl; auto; done. }
  rewrite (Hr eq_refl) in *. destruct sync.
  2: { intros [= <- <-]. exists t, [], (mkFileAt (f_data f ++ t) (f_synced f) (f_before f)). split_and!; simpl; auto; done. }
  destruct (fsync path σ1) as [r σ2] eqn:Es.
  destruct (fsync_spec _ _ _ _ _ Hf1 Es) as ((f2 & Hf2 & Hd2 & Hs2) & Ho2). cbn [f_data f_synced f_before] in *.
  assert (forall path', path' <> path -> fs σ2 !! path' = fs σ !! path') as Ho'.
  { intros p Hp. by rewrite Ho2, Ho. }
  destruct r as [err|]; intros [= <- <-]; exists t, [], f2; rewrite Hd2; split_and!; simpl; auto; done.
Qed.

(** Replay is exact: what it returns is a run of intact frames at the start of
    the buffer. *)
Lemma decode_payload_exact payload e :
  decode_payload payload (blen payload) = Ok (Some e) -> payload = wal_payload e.
Proof.
  unfold decode_payload. destruct (_ <? _); [done|].
  destruct payload as [|b payload]; [done|]. cbn [lookup list_lookup of_option rbind].
  destruct (DecodeFixed32 (b :: payload) 1) as [klen| |] eqn:Ek; [|done..]. cbn [rbind].
  destruct (_ <? _); [done|].
  destruct (slice (b :: payload) (1 + 4) klen) as [key|] eqn:Eks; [|done]. cbn [of_option rbind].
  destruct (DecodeFixed32 (b :: payload) (1 + 4 + klen)) as [vlen| |] eqn:Ev; [|done..]. cbn [rbind].
  destruct (Z.eqb_spec (1 + 4 + klen + 4 + vlen) (blen (b :: payload))) as [Hl|]; cbn [negb]; [|done].
  destruct (slice (b :: payload) _ vlen) as [value|] eqn:Evs; [|done]. cbn [of_option rbind].
  intros [= <-]. unfold wal_payload. cbn [e_type e_key e_value].
  pose proof (DecodeFixed32_range _ _ _ Ek) as Rk. pose proof (DecodeFixed32_range _ _ _ Ev) as Rv.
  apply DecodeFixed32_exact in Ek as (a1 & r1 & E1 & Ha1).
  apply DecodeFixed32_exact in Ev as (a2 & r2 & E2 & Ha2).
  apply slice_Some in Eks as (_ & _ & _ & Hk & a3 & r3 & E3 & Ha3).
  apply slice_Some in Evs as (_ & _ & _ & Hv & a4 & r4 & E4 & Ha4).
  destruct a1 as [|? [|? ?]]; autorewrite with lsmlen in Ha1; try (pose proof (blen_nonneg a1)); try len.
  injection E1 as <- E1.
  assert (a3 = b :: fixed32 klen /\ key ++ r3 = r1) as [-> <-].
  { apply app_len_inj; [len|]. by rewrite <- E3, E1. }
  assert (a2 = b :: fixed32 klen ++ key /\ fixed32 vlen ++ r2 = r3) as [-> <-].
  { apply app_len_inj; [len|]. rewrite <- E2, E1. cbn [app]. by rewrite <- app_assoc. }
  assert (a4 = b :: fixed32 klen ++ key ++ fixed32 vlen /\ value ++ r4 = r2) as [-> <-].
  { apply app_len_inj; [len|].
    rewrite <- E4, E1. cbn [app]. by rewrite <- !app_assoc. }
  rewrite E1 in Hl. assert (r4 = []) as -> by (apply blen_0; len).
  rewrite E1, app_nil_r, Hk, Hv. by rewrite !u32_small.
Qed.

Lemma replay_exact fuel buf pos es :
  0 <= pos -> replay_loop fuel buf pos = Ok es ->
  Forall wal_fits es /\
  (es = [] \/ exists a b, buf = a ++ wal_frames es ++ b /\ blen a = pos).
Proof.
  revert pos es. induction fuel as [|fuel IH]; intros pos es Hpos; cbn [replay_loop]; [done|].
  unfold kHeaderSize. destruct (_ <=? _); [|intros [= <-]; auto].
  destruct (DecodeFixed32 buf pos) as [crc| |] eqn:Ec; [|done..]. cbn [rbind].
  destruct (DecodeFixed32 buf (pos + 4)) as [len| |] eqn:El; [|done..]. cbn [rbind].
  destruct (_ <? _); [intros [= <-]; auto|].
  destruct (slice buf (pos + (4 + 4)) len) as [payload|] eqn:Ep; [|done]. cbn [of_option rbind].
  destruct (Z.eqb_spec (Crc32 payload) crc) as [<-|]; cbn [negb]; [|intros [= <-]; auto].
  pose proof (DecodeFixed32_range _ _ _ El) as Hl.
  apply DecodeFixed32_exact in Ec as (a1 & r1 & E1 & Ha1).
  apply DecodeFixed32_exact in El as (a2 & r2 & E2 & Ha2).
  apply slice_Some in Ep as (_ & _ & _ & Hp & a3 & r3 & E3 & Ha3). subst len.
  destruct (decode_payload payload (blen payload)) as [[e|]| |] eqn:Ed; cbn [rbind]; try done;
    [|intros [= <-]; auto].
  apply decode_payload_exact in Ed as ->.
  assert (a2 = a1 ++ fixed32 (Crc32 (wal_payload e)) /\ fixed32 (blen (wal_payload e)) ++ r2 = r1) as [-> <-].
  { apply app_len_inj; [len|]. by rewrite <- E2, E1, <- app_assoc. }
  assert (a3 = a1 ++ fixed32 (Crc32 (wal_payload e)) ++ fixed32 (blen (wal_payload e)) /\
          wal_payload e ++ r3 = r2) as [-> <-].
  { apply app_len_inj; [len|]. by rewrite <- E3, E1, <- !app_assoc. }
  assert (wal_fits e) as Hfit by (unfold wal_fits, is_u32 in *; autorewrite with lsmlen in Hl; lia).
  assert (buf = a1 ++ wal_frame e ++ r3) as Eb.
  { unfold wal_frame. rewrite E1, u32_small by done. by rewrite <- !app_assoc. }
  destruct (replay_loop fuel buf _) as [rest| |] eqn:Er; cbn [rbind]; try done. intros [= <-].
  apply IH in Er as [Hfr Hr]; [|len]. split; [by constructor|]. right. exists a1.
  destruct Hr as [->|(a & b & E & Ha)].
  - exists r3. split; [|done]. unfold wal_frames. cbn [map concat]. by rewrite app_nil_r.
  - exists b. split; [|done]. rewrite Eb in E. rewrite app_assoc in E.
    symmetry in E. apply app_len_inj in E as [_ E]; [|len].
    rewrite Eb, <- E. unfold wal_frames. cbn [map concat]. by rewrite <- app_assoc.
Qed.

Lemma replay_buffer_total buf : exists es, replay_buffer buf = Ok es.
Proof.
  destruct (replay_total (length buf) buf 0) as [es Hes]; [done|unfold blen; lia|].
  exists es. apply Hes. lia.
Qed.

(** Replay of intact frames followed by a prefix of one more. *)
Lemma replay_prefix es e t u :
  Forall wal_fits es -> wal_fits e -> wal_frame e = t ++ u ->
  replay_buffer (wal_frames es ++ t) = Ok (if decide (u = []) then es ++ [e] else es).
Proof.
  intros Hes He E. rewrite replay_frames by done. destruct (decide (u = [])) as [->|Hu].
  - rewrite app_nil_r in E. subst t. pose proof (replay_frames [e] [] ltac:(by constructor)) as Hr.
    unfold wal_frames in Hr. cbn [map concat] in Hr. rewrite !app_nil_r in Hr. rewrite Hr.
    by cbn [rbind].
  - rewrite (replay_torn e t u) by done. cbn [rbind]. by rewrite app_nil_r.
Qed.

(** ** Properties *)

(** A log of intact records followed by any strict prefix of one
    more record (a crash in mid-append) replays to exactly the intact records,
    in order. *)
Theorem wal_replay_drops_torn_tail es e t u :
  Forall wal_fits es -> wal_fits e -> wal_frame e = t ++ u -> u <> [] ->
  replay_buffer (wal_frames es ++ t) = Ok es.
Proof. intros Hes He E Hu. by rewrite (replay_prefix es e t u), decide_False. Qed.

Lemma wal_replay_drops_torn_tail_witness :
  let a := Entry (lit "a") (lit "1") kValue in
  let b := Entry (lit "b") [] kTombstone in
  replay_buffer (wal_frames [a; b] ++ take 11 (wal_frame a)) = Ok [a; b].
Proof.
  intros a b.
  apply (wal_replay_drops_torn_tail [a; b] a (take 11 (wal_frame a)) (drop 11 (wal_frame a))).
  - repeat constructor.
  - reflexivity.
  - by rewrite take_drop.
  - vm_compute. discriminate.
Defined.

(** C22 (safety). Replay of arbitrary log bytes terminates without reading
    outside the buffer, and the records it delivers are exactly a run of intact,
    checksummed frames at the start of the log: it never invents a record. *)
Theorem wal_replay_exact buf :
  exists es rest, replay_buffer buf = Ok es /\ Forall wal_fits es /\ buf = wal_frames es ++ rest.
Proof.
  destruct (replay_buffer_total buf) as [es Hes]. exists es.
  pose proof (replay_exact _ _ _ _ ltac:(done) Hes) as [Hf [->|(a & b & E & Ha)]].
  - by exists buf.
  - apply blen_0 in Ha as ->. by exists b.
Qed.

(** C12 (safety). Durability of acknowledged writes: let every record of [es] be
    acknowledged and durable in the log, then let one more [AddRecord] run under
    any pattern of short writes, interrupts, write and fsync failures, and let a
    crash cut the log anywhere behind its synced part. Replay then delivers every
    acknowledged record, in order, and nothing else but possibly the record in
    flight; if that call reported success with [sync], its record is there
    too. *)
Theorem wal_crash_keeps_acknowledged `{Os} path es e sync σ s σ' f f' crashed :
  Forall wal_fits es -> wal_fits e ->
  fs σ !! path = Some f -> f_data f = wal_frames es -> f_synced f = blen (wal_frames es) ->
  AddRecord (mkWalWriter (Some path) path) (e_type e) (e_key e) (e_value e) sync σ = (s, σ') ->
  fs σ' !! path = Some f' -> crash_file f' crashed ->
  replay_buffer (f_data crashed) = Ok (es ++ [e]) \/
  replay_buffer (f_data crashed) = Ok es /\ (ok s && sync = false).
Proof.
  intros Hes He Hf Hd Hs Hadd Hf' (n & Hn & Hc).
  destruct (AddRecord_log _ _ _ _ _ _ _ Hf Hadd) as (t & u & f2 & E & Hf2 & Hd2 & Hs2 & Hok & _).
  rewrite Hf2 in Hf'. injection Hf' as <-. rewrite Hd2, Hd in *.
  assert (blen (wal_frames es) <= Z.of_nat n) as Hge.
  { destruct Hs2 as [[Hs2 _]|[Hs2 _]]; rewrite Hs2 in Hn; len. }
  rewrite take_app_ge in Hc by (unfold blen in Hge; lia).
  set (k := (n - length (wal_frames es))%nat) in *.
  rewrite Hc, (replay_prefix es e (take k t) (drop k t ++ u)) by (done || by rewrite app_assoc, take_drop).
  destruct (decide (drop k t ++ u = [])) as [|Hne]; [by left|]. right. split; [done|].
  destruct (ok s) eqn:Eok; [|done]. destruct sync; [|done]. destruct (Hok eq_refl) as [-> Hsync].
  exfalso. apply Hne. rewrite app_nil_r. destruct (Hsync eq_refl) as [Hsync' _]. rewrite Hsync' in Hn.
  apply drop_ge. rewrite blen_app in Hn. unfold k, blen in *. lia.
Qed.

Lemma wal_crash_keeps_acknowledged_witness :
  let a := Entry (lit "a") (lit "1") kValue in
  let b := Entry (lit "b") (lit "2") kValue in
  let p := lit "wal.log" in
  let crashed := mkFile (take 22 (wal_frames [a; b])) 0 in
  replay_buffer (f_data crashed) = Ok [a; b] \/ replay_buffer (f_data crashed) = Ok [a] /\ false = false.
Proof.
  intros a b p crashed.
  set (σ := mkWorld {[ p := mkFile (wal_frames [a]) (blen (wal_frames [a])) ]} [IoShort 5; IoErr 5]).
  apply (@wal_crash_keeps_acknowledged plain_os p [a] b true σ (Status_IOError (lit "write wal.log: "))
    (@AddRecord plain_os (mkWalWriter (Some p) p) kValue (lit "b") (lit "2") true σ).2
    (mkFile (wal_frames [a]) (blen (wal_frames [a])))
    (mkFile (take 24 (wal_frames [a; b])) 19) crashed).
  - repeat constructor.
  - reflexivity.
  - reflexivity.
  - reflexivity.
  - reflexivity.
  - vm_compute. reflexivity.
  - vm_compute. reflexivity.
  - exists 22%nat. split; [vm_compute; congruence|]. vm_compute. reflexivity.
Defined.
