(* ===== verification/TableFormat.v ===== *)
(** The SSTable file format (include/lsmdb/sstable.h): records, data blocks,
    index and footer, as the bytes that the writer lays out and the reader
    parses, and what reading a field of a well-formed record returns. *)
From S2P Require Import Prelude Types Coding Crc32.

Definition kSSTableMagic : Z := 0x4C534D42.
Definition kFooterSize : Z := 8 + 8 + 8 + 8 + 8 + 4.
Definition kDefaultBloomBitsPerKey : Z := 10.

(** [struct IndexEntry]. *)
Record IndexEntry := mkIndexEntry { first_key : bytes; ie_offset : Z; ie_length : Z }.

(** [AppendRecord]. *)
Definition AppendRecord (buf key value : bytes) (type : ValueType) : bytes :=
  let buf := buf ++ [type] in
  let buf := PutFixed32 buf (u32 (blen key)) in
  let buf := PutFixed32 buf (u32 (blen value)) in
  let buf := buf ++ key in
  buf ++ value.

(** ** The layout as a function of the records *)

Definition record_bytes (e : entry) : bytes :=
  e_type e :: fixed32 (u32 (blen (e_key e))) ++ fixed32 (u32 (blen (e_value e)))
    ++ e_key e ++ e_value e.

Definition block_bytes (es : list entry) : bytes := concat (map record_bytes es).

(** A block followed by its checksum. *)
Definition sealed (b : bytes) : bytes := b ++ fixed32 (Crc32 b).

(** The data section: one sealed block per group of records. *)
Definition data_bytes (bs : list (list entry)) : bytes :=
  concat (map (fun b => sealed (block_bytes b)) bs).

Definition block_first (b : list entry) : bytes :=
  match b with [] => [] | e :: _ => e_key e end.

(** The sparse index of the data section that starts at [off]. *)
Fixpoint index_from (off : Z) (bs : list (list entry)) : list IndexEntry :=
  match bs with
  | [] => []
  | b :: bs' =>
      mkIndexEntry (block_first b) (u64 off) (blen (block_bytes b))
      :: index_from (off + blen (block_bytes b) + 4) bs'
  end.

Definition index_entry_bytes (ie : IndexEntry) : bytes :=
  prefixed (first_key ie) ++ fixed64 (ie_offset ie) ++ fixed32 (ie_length ie).

Definition index_bytes (idx : list IndexEntry) : bytes := concat (map index_entry_bytes idx).

Definition footer_bytes (filter_offset filter_length index_offset index_length n : Z) : bytes :=
  fixed64 filter_offset ++ fixed64 filter_length ++ fixed64 index_offset
    ++ fixed64 index_length ++ fixed64 n ++ fixed32 kSSTableMagic.

(** The whole file. *)
Definition table_bytes (bs : list (list entry)) (filter : bytes) : bytes :=
  let d := data_bytes bs in
  let x := index_bytes (index_from 0 bs) in
  d ++ sealed filter ++ sealed x
    ++ footer_bytes (u64 (blen d)) (blen filter) (u64 (blen d + blen filter + 4)) (blen x)
         (u64 (blen (concat bs))).

(** How the writer groups records: a block is closed once it reaches the target
    size. The second component is the block still open. *)
Definition chunk_add (block_size : Z) (st : list (list entry) * list entry) (e : entry)
  : list (list entry) * list entry :=
  let pend := st.2 ++ [e] in
  if block_size <=? blen (block_bytes pend) then (st.1 ++ [pend], []) else (st.1, pend).

Definition chunk_close (st : list (list entry) * list entry) : list (list entry) :=
  match st.2 with [] => st.1 | pend => st.1 ++ [pend] end.

Definition chunks (block_size : Z) (es : list entry) : list (list entry) :=
  chunk_close (fold_left (chunk_add block_size) es ([], [])).

(** A record whose encoding takes at most 2 GiB. *)
Definition rec_fits (e : entry) : Prop := 9 + blen (e_key e) + blen (e_value e) <= 2 ^ 31.

(** The groups of a well-formed table: no empty group, every block below the
    4 GiB that its 32-bit length can express. *)
Definition block_ok (b : list entry) : Prop :=
  b <> [] /\ Forall rec_fits b /\ blen (block_bytes b) + 4 < 2 ^ 32.

(** ** Lemmas *)

Lemma AppendRecord_spec buf key value type :
  AppendRecord buf key value type = buf ++ record_bytes (Entry key value type).
Proof.
  unfold AppendRecord, record_bytes. rewrite !PutFixed32_spec. cbn [e_type e_key e_value].
  by rewrite <- !app_assoc.
Qed.

Lemma blen_record e : blen (record_bytes e) = 9 + blen (e_key e) + blen (e_value e).
Proof. unfold record_bytes. len. Qed.
Lemma blen_sealed b : blen (sealed b) = blen b + 4.
Proof. unfold sealed. len. Qed.
Lemma blen_footer a b c d n : blen (footer_bytes a b c d n) = kFooterSize.
Proof. unfold footer_bytes, kFooterSize. len. Qed.
Lemma blen_prefixed s : blen (prefixed s) = 4 + blen s.
Proof. unfold prefixed. len. Qed.
Lemma blen_index_entry ie : blen (index_entry_bytes ie) = 16 + blen (first_key ie).
Proof. unfold index_entry_bytes. rewrite !blen_app, blen_prefixed. len. Qed.
#[export] Hint Rewrite blen_record blen_sealed blen_footer blen_prefixed blen_index_entry : lsmlen.

Lemma block_bytes_app a b : block_bytes (a ++ b) = block_bytes a ++ block_bytes b.
Proof. unfold block_bytes. by rewrite map_app, concat_app. Qed.
Lemma block_bytes_cons e b : block_bytes (e :: b) = record_bytes e ++ block_bytes b.
Proof. done. Qed.
Lemma data_bytes_app a b : data_bytes (a ++ b) = data_bytes a ++ data_bytes b.
Proof. unfold data_bytes. by rewrite map_app, concat_app. Qed.
Lemma data_bytes_cons b bs : data_bytes (b :: bs) = sealed (block_bytes b) ++ data_bytes bs.
Proof. done. Qed.
Lemma index_bytes_app a b : index_bytes (a ++ b) = index_bytes a ++ index_bytes b.
Proof. unfold index_bytes. by rewrite map_app, concat_app. Qed.

Lemma block_bytes_nonempty b : b <> [] -> 0 < blen (block_bytes b).
Proof. destruct b as [|e b]; [done|]. intros _. rewrite block_bytes_cons. len. Qed.

Lemma index_from_app off a b :
  index_from off (a ++ b) = index_from off a ++ index_from (off + blen (data_bytes a)) b.
Proof.
  revert off. induction a as [|x a IH]; intros off; simpl; [by rewrite Z.add_0_r|].
  rewrite IH, data_bytes_cons. do 3 f_equal. len.
Qed.

Lemma index_from_length off bs : length (index_from off bs) = length bs.
Proof. revert off. induction bs as [|b bs IH]; intros off; simpl; [done|]. by rewrite IH. Qed.

(** The index entry of a block, and where the block lies in the data section. *)
Lemma index_from_lookup off a b c :
  index_from off (a ++ b :: c) !! length a
  = Some (mkIndexEntry (block_first b) (u64 (off + blen (data_bytes a))) (blen (block_bytes b))).
Proof.
  rewrite index_from_app, lookup_app_r by (by rewrite index_from_length).
  by rewrite index_from_length, Nat.sub_diag.
Qed.

Lemma index_from_keys off bs : map first_key (index_from off bs) = map block_first bs.
Proof. revert off. induction bs as [|b bs IH]; intros off; simpl; [done|]. by rewrite IH. Qed.

(** ** Reading one record *)

(** The fields of a record at offset [p] of a block. *)
Record record_at (m : bytes) (p : Z) (e : entry) : Prop := {
  ra_type : m !! Z.to_nat p = Some (e_type e);
  ra_klen : DecodeFixed32 m (p + 1) = Ok (blen (e_key e));
  ra_vlen : DecodeFixed32 m (p + 1 + 4) = Ok (blen (e_value e));
  ra_key : slice m (p + 1 + 4 + 4) (blen (e_key e)) = Some (e_key e);
  ra_value : slice m (p + 1 + 4 + 4 + blen (e_key e)) (blen (e_value e)) = Some (e_value e);
  ra_inside : p < blen m }.

Lemma record_at_mid a e b p :
  rec_fits e -> p = blen a -> record_at (a ++ record_bytes e ++ b) p e.
Proof.
  unfold rec_fits. intros Hf ->.
  pose proof (blen_nonneg (e_key e)) as Hk. pose proof (blen_nonneg (e_value e)) as Hv.
  unfold record_bytes. rewrite !u32_small by lia.
  set (fk := fixed32 (blen (e_key e))). set (fv := fixed32 (blen (e_value e))).
  assert (blen fk = 4 /\ blen fv = 4) as [Lk Lv] by done.
  split.
  - rewrite lookup_app_r by (unfold blen; lia). unfold blen. by rewrite Nat2Z.id, Nat.sub_diag.
  - replace (a ++ _) with ((a ++ [e_type e]) ++ fk ++ (fv ++ e_key e ++ e_value e ++ b))
      by (simpl; rewrite <- !app_assoc; done).
    apply DecodeFixed32_mid; [unfold is_u32; lia|len].
  - replace (a ++ _) with ((a ++ [e_type e] ++ fk) ++ fv ++ (e_key e ++ e_value e ++ b))
      by (simpl; rewrite <- !app_assoc; done).
    apply DecodeFixed32_mid; [unfold is_u32; lia|len].
  - apply (slice_eq _ (a ++ [e_type e] ++ fk ++ fv) _ (e_value e ++ b)); [|len|done].
    simpl. by rewrite <- !app_assoc.
  - apply (slice_eq _ (a ++ [e_type e] ++ fk ++ fv ++ e_key e) _ b); [|len|done].
    simpl. by rewrite <- !app_assoc.
  - len.
Qed.

(** ** Lemmas: grouping *)

Definition chunk_all (st : list (list entry) * list entry) : list entry := concat st.1 ++ st.2.

Lemma chunk_add_all bs st e : chunk_all (chunk_add bs st e) = chunk_all st ++ [e].
Proof.
  unfold chunk_all, chunk_add. destruct (bs <=? _); simpl; [|by rewrite app_assoc].
  rewrite concat_app, <- app_assoc. simpl. by rewrite !app_nil_r, ?app_assoc.
Qed.

Lemma chunk_close_all st : concat (chunk_close st) = chunk_all st.
Proof.
  unfold chunk_close, chunk_all. destruct st as [bs [|e p]]; simpl; [by rewrite app_nil_r|].
  rewrite concat_app. simpl. by rewrite app_nil_r.
Qed.

(** The open block stays below the target size and the closed ones in range. *)
Definition chunk_ok (block_size : Z) (st : list (list entry) * list entry) : Prop :=
  Forall block_ok st.1 /\ Forall rec_fits st.2 /\
  (st.2 <> [] -> blen (block_bytes st.2) < block_size).

Lemma chunk_add_ok bs st e :
  0 <= bs <= 2 ^ 30 -> chunk_ok bs st -> rec_fits e ->
  chunk_ok bs (chunk_add bs st e) /\ block_ok (st.2 ++ [e]).
Proof.
  intros Hbs (Hc & Hp & Hl) He.
  assert (block_ok (st.2 ++ [e])) as Hb.
  { split_and!; [by destruct st.2|by apply Forall_app; split; auto|].
    rewrite block_bytes_app. unfold rec_fits in He.
    destruct (decide (st.2 = [])) as [->|Hne]; [|specialize (Hl Hne)];
      unfold block_bytes in *; simpl in *; len. }
  split; [|done]. unfold chunk_add, chunk_ok.
  destruct (Z.leb_spec bs (blen (block_bytes (st.2 ++ [e])))); simpl.
  - split_and!; [by apply Forall_app; auto|done|done].
  - destruct Hb as (_ & Hb & _). split_and!; auto.
Qed.

Lemma chunk_close_ok bs st : 0 <= bs <= 2 ^ 30 -> chunk_ok bs st -> Forall block_ok (chunk_close st).
Proof.
  intros Hbs (Hc & Hp & Hl). unfold chunk_close. destruct st as [c [|e p]]; [done|]. simpl in *.
  apply Forall_app; split; [done|]. constructor; [|done]. split_and!; [done..|].
  specialize (Hl ltac:(done)). lia.
Qed.

Lemma chunks_concat bs es : concat (chunks bs es) = es.
Proof.
  unfold chunks. rewrite chunk_close_all.
  induction es as [|e es IH] using rev_ind; [done|].
  by rewrite fold_left_app; simpl; rewrite chunk_add_all, IH.
Qed.

(** ** Lemmas: sorted runs of records *)

Definition nonempty {A} (b : list A) : Prop := b <> [].

Lemma blocks_nonempty bs : Forall block_ok bs -> Forall nonempty bs.
Proof. intros Hb. eapply Forall_impl; [exact Hb|]. by intros b (? & _). Qed.

(** The blocks around a key: those that may start at or before it, those after. *)
Lemma blocks_cut bs key :
  Forall nonempty bs -> sorted_keys (concat bs) ->
  exists lo hi, bs = lo ++ hi /\ cut_at key (map block_first lo) (map block_first hi).
Proof.
  intros Hb Hs.
  assert (StronglySorted str_lt (map block_first bs)) as Hss.
  { revert Hs. induction Hb as [|b bs Hne Hb IH]; intros Hs; simpl; constructor.
    - apply IH. by apply sorted_keys_app in Hs as (_ & ? & _).
    - cbn [concat] in Hs. apply sorted_keys_app in Hs as (_ & _ & Hlt).
      destruct b as [|e b]; [done|]. apply Forall_cons in Hlt as [Hlt _]. clear IH.
      induction Hb as [|[|e' b'] bs Hne' Hb IH]; simpl; constructor; [done|done| |].
      + by apply Forall_cons in Hlt as [? _].
      + apply IH. cbn [concat] in Hlt. by apply Forall_app in Hlt as [_ ?]. }
  destruct (cut_exists key _ Hss) as (a & b & E & Hc).
  exists (take (length a) bs), (drop (length a) bs). rewrite take_drop. split; [done|].
  by rewrite <- firstn_map, <- skipn_map, E, take_app_length, drop_app_length.
Qed.

Lemma assoc_lt es key : Forall (fun e => str_lt key (e_key e)) es -> assoc es key = None.
Proof.
  intros Hlt. apply assoc_None. eapply Forall_impl; [exact Hlt|]. intros e He E. simpl in He. rewrite E in He. str_order.
Qed.

(** Blocks after the cut hold only larger keys; only the last block before it
    can hold the key. *)
Lemma assoc_after_cut bs hi key :
  Forall nonempty hi -> sorted_keys (bs ++ concat hi) -> Forall (fun k => str_lt key k) (map block_first hi) ->
  assoc (concat hi) key = None.
Proof.
  intros Hb Hs Hc. apply assoc_lt. destruct hi as [|b hi]; [done|].
  apply Forall_cons in Hb as [Hne _]. destruct b as [|e b]; [done|].
  apply Forall_cons in Hc as [He _]. apply sorted_keys_app in Hs as (_ & Hs & _).
  cbn [concat] in *. destruct Hs as [Hlt _]. constructor; [done|].
  eapply Forall_impl; [exact Hlt|]. intros f Hf. cbn [block_first] in He. str_order.
Qed.

Lemma assoc_before_cut lo b key :
  b <> [] -> sorted_keys (concat lo ++ b) -> str_le (block_first b) key -> assoc (concat lo) key = None.
Proof.
  intros Hne Hs Hle. destruct b as [|e b]; [done|]. apply sorted_keys_app in Hs as (_ & _ & Hlt).
  apply assoc_None. eapply Forall_impl; [exact Hlt|]. intros f Hf E.
  apply Forall_cons in Hf as [Hf _]. cbn [block_first] in Hle. rewrite E in Hf. str_order.
Qed.

Lemma assoc_cut lo b hi key :
  Forall nonempty (lo ++ b :: hi) -> sorted_keys (concat (lo ++ b :: hi)) ->
  cut_at key (map block_first (lo ++ [b])) (map block_first hi) ->
  assoc (concat (lo ++ b :: hi)) key = assoc b key.
Proof.
  intros Hb Hs [Hlo Hhi]. rewrite concat_app in *. cbn [concat] in *.
  apply Forall_app in Hb as [_ [Hbne Hbhi]%Forall_cons].
  rewrite !assoc_app.
  assert (assoc (concat lo) key = None) as ->.
  { apply (assoc_before_cut lo b).
    - done.
    - rewrite app_assoc in Hs. by apply sorted_keys_app in Hs as [? _].
    - rewrite map_app in Hlo. by apply Forall_app in Hlo as [_ [? _]%Forall_cons]. }
  rewrite (assoc_after_cut (concat lo ++ b) hi) by (done || by rewrite <- app_assoc).
  by destruct (assoc b key).
Qed.

(** The cut of a key that is in a block. *)
Lemma cut_of_member a b c e :
  Forall nonempty (a ++ b :: c) -> sorted_keys (concat (a ++ b :: c)) -> e ∈ b ->
  cut_at (e_key e) (map block_first (a ++ [b])) (map block_first c).
Proof.
  intros Hb Hs He. apply Forall_app in Hb as [Hba [_ Hbc]%Forall_cons].
  rewrite concat_app in Hs. cbn [concat] in Hs.
  apply sorted_keys_app in Hs as (_ & Hs & Hlt). apply sorted_keys_app in Hs as (Hsb & _ & Hbc').
  rewrite Forall_forall in Hbc'. specialize (Hbc' _ He).
  assert (forall P (l : list (list entry)), Forall nonempty l -> Forall P (concat l) ->
            Forall (fun k => exists e, e_key e = k /\ P e) (map block_first l)) as Hfirst.
  { clear. intros P l. induction 1 as [|[|e b] l Hne _ IH]; simpl; [done|done|].
    intros [He Hl]%Forall_cons. constructor; [eauto|]. apply IH. by apply Forall_app in Hl as [_ ?]. }
  split.
  - rewrite map_app. apply Forall_app. split; [|constructor; [|done]].
    + eapply Forall_impl; [exact (Hfirst _ _ Hba Hlt)|]. intros k (e' & <- & Hall).
      rewrite Forall_forall in Hall. specialize (Hall e ltac:(set_solver)). simpl in Hall. str_order.
    + destruct b as [|e0 b]; [by apply elem_of_nil in He|]. cbn [block_first].
      apply elem_of_cons in He as [->|He]; [str_order|]. destruct Hsb as [Hall _].
      rewrite Forall_forall in Hall. specialize (Hall e He). simpl in Hall. str_order.
  - eapply Forall_impl; [exact (Hfirst _ _ Hbc Hbc')|]. by intros k (e' & <- & Hall).
Qed.
