(* ===== verification/TableWriter.v ===== *)
(** The SSTable writer (class [SSTableWriter], src/sstable.cpp): buffering of
    records into blocks, the index and filter built on the way, the footer, and
    the file that a sequence of successful calls leaves on disk whatever the
    system calls did. *)
From S2P Require Import Prelude Types Coding Crc32 Bloom SkipList Posix TableFormat.

(** [class SSTableWriter]: [fd_] is [None] for -1. *)
Record SSTableWriter := mkWriter {
  w_path_ : bytes; w_block_size_ : Z; w_fd_ : option bytes; w_offset_ : Z; w_num_entries_ : Z;
  w_block_buf_ : bytes; w_block_first_key_ : bytes; w_index_ : list IndexEntry;
  w_bloom_ : BloomBuilder; w_finished_ : bool }.

Definition SSTableWriter_new (path : bytes) (block_size bloom_bits_per_key : Z) : SSTableWriter :=
  mkWriter path block_size None 0 0 [] [] [] (BloomBuilder_new bloom_bits_per_key) false.

Definition FileSize (w : SSTableWriter) : Z := w_offset_ w.
Definition NumEntries (w : SSTableWriter) : Z := w_num_entries_ w.

Definition set_offset (w : SSTableWriter) (o : Z) : SSTableWriter :=
  mkWriter (w_path_ w) (w_block_size_ w) (w_fd_ w) o (w_num_entries_ w) (w_block_buf_ w)
    (w_block_first_key_ w) (w_index_ w) (w_bloom_ w) (w_finished_ w).
Definition set_fd (w : SSTableWriter) (fd : option bytes) : SSTableWriter :=
  mkWriter (w_path_ w) (w_block_size_ w) fd (w_offset_ w) (w_num_entries_ w) (w_block_buf_ w)
    (w_block_first_key_ w) (w_index_ w) (w_bloom_ w) (w_finished_ w).
Definition set_finished (w : SSTableWriter) : SSTableWriter :=
  mkWriter (w_path_ w) (w_block_size_ w) (w_fd_ w) (w_offset_ w) (w_num_entries_ w) (w_block_buf_ w)
    (w_block_first_key_ w) (w_index_ w) (w_bloom_ w) true.
Definition set_bloom (w : SSTableWriter) (b : BloomBuilder) : SSTableWriter :=
  mkWriter (w_path_ w) (w_block_size_ w) (w_fd_ w) (w_offset_ w) (w_num_entries_ w) (w_block_buf_ w)
    (w_block_first_key_ w) (w_index_ w) b (w_finished_ w).

(** [Status s = m; if (!s.ok()) return s;]: run the next statement only after a
    success; on a failure return the status with the state [w] it leaves. *)
Notation "'try' σ := m 'orelse' w 'in' k" :=
  (match m with (s, σ) => if negb (ok s) then (s, w, σ) else k end)
  (at level 10, σ name, m at level 200, w at level 200, k at level 200) : result_scope.

Section Writer.
Context `{Os}.

Definition io_error (call path : bytes) (e : Z) : Status :=
  Status_IOError (call ++ path ++ lit ": " ++ strerror e).

Definition SSTableWriter_Open (w : SSTableWriter) (σ : World) : Status * SSTableWriter * World :=
  match open_trunc (w_path_ w) σ with
  | (None, σ) => (Status_OK, set_fd w (Some (w_path_ w)), σ)
  | (Some e, σ) => (io_error (lit "open ") (w_path_ w) e, set_fd w None, σ)
  end.

Definition WriteRaw (w : SSTableWriter) (data : bytes) (σ : World) : Status * World :=
  match fd_write (w_fd_ w) data σ with
  | (None, σ) => (Status_OK, σ)
  | (Some e, σ) => (io_error (lit "write ") (w_path_ w) e, σ)
  end.

(** The pair of writes that puts a block and its checksum on disk; data, filter
    and index blocks all go through it. *)
Definition WriteSealed (w : SSTableWriter) (data : bytes) (σ : World) : Status * World :=
  let '(s, σ) := WriteRaw w data σ in
  if negb (ok s) then (s, σ)
  else
    let crc_buf := PutFixed32 [] (Crc32 data) in
    WriteRaw w crc_buf σ.

(** [SSTableWriter::FlushBlock]. [block_len + 4] is [uint32_t] arithmetic. *)
Definition FlushBlock (w : SSTableWriter) (σ : World) : Status * SSTableWriter * World :=
  match w_block_buf_ w with
  | [] => (Status_OK, w, σ)
  | _ :: _ =>
      let block_offset := w_offset_ w in
      let block_len := u32 (blen (w_block_buf_ w)) in
      try σ := WriteSealed w (w_block_buf_ w) σ orelse w in
      (Status_OK,
       mkWriter (w_path_ w) (w_block_size_ w) (w_fd_ w) (w_offset_ w +u64 (block_len +u32 4))
         (w_num_entries_ w) [] (w_block_first_key_ w)
         (w_index_ w ++ [mkIndexEntry (w_block_first_key_ w) block_offset block_len])
         (w_bloom_ w) (w_finished_ w), σ)
  end.

(** [SSTableWriter::Add]. *)
Definition SSTableWriter_Add (w : SSTableWriter) (key value : bytes) (type : ValueType) (σ : World)
  : Status * SSTableWriter * World :=
  let first := match w_block_buf_ w with [] => key | _ => w_block_first_key_ w end in
  let w := mkWriter (w_path_ w) (w_block_size_ w) (w_fd_ w) (w_offset_ w) (w_num_entries_ w +u64 1)
             (AppendRecord (w_block_buf_ w) key value type) first (w_index_ w)
             (BloomBuilder_Add (w_bloom_ w) key) (w_finished_ w) in
  if w_block_size_ w <=? blen (w_block_buf_ w) then FlushBlock w σ else (Status_OK, w, σ).

(** The loop that serializes the index. *)
Definition put_index (buf : bytes) (e : IndexEntry) : bytes :=
  PutFixed32 (PutFixed64 (PutLengthPrefixed buf (first_key e)) (ie_offset e)) (ie_length e).

(** The filter block, the index block and the footer, written by [Finish] after
    the last data block. *)
Definition write_metadata (w : SSTableWriter) (σ : World) : Status * SSTableWriter * World :=
  let '(filter_buf, bloom) := BloomBuilder_Finish (w_bloom_ w) in
  let w := set_bloom w bloom in
  let filter_offset := w_offset_ w in
  let filter_length := blen filter_buf in
  try σ := WriteSealed w filter_buf σ orelse w in
  let w := set_offset w (w_offset_ w +u64 (filter_length +u64 4)) in
  let index_buf := fold_left put_index (w_index_ w) [] in
  let index_offset := w_offset_ w in
  let index_length := blen index_buf in
  try σ := WriteSealed w index_buf σ orelse w in
  let w := set_offset w (w_offset_ w +u64 (index_length +u64 4)) in
  let footer := PutFixed64 [] filter_offset in
  let footer := PutFixed64 footer filter_length in
  let footer := PutFixed64 footer index_offset in
  let footer := PutFixed64 footer index_length in
  let footer := PutFixed64 footer (w_num_entries_ w) in
  let footer := PutFixed32 footer kSSTableMagic in
  try σ := WriteRaw w footer σ orelse w in
  (Status_OK, set_offset w (w_offset_ w +u64 blen footer), σ).

(** The [fsync] and [close] at the end of [Finish]. *)
Definition sync_close (w : SSTableWriter) (σ : World) : Status * SSTableWriter * World :=
  match w_fd_ w with
  | None => (io_error (lit "fsync ") (w_path_ w) EBADF, w, σ)
  | Some f =>
      match fsync f σ with
      | (Some e, σ) => (io_error (lit "fsync ") (w_path_ w) e, w, σ)
      | (None, σ) =>
          match close σ with
          | (Some e, σ) => (io_error (lit "close ") (w_path_ w) e, set_fd w None, σ)
          | (None, σ) => (Status_OK, set_fd w None, σ)
          end
      end
  end.

(** [SSTableWriter::Finish]. *)
Definition SSTableWriter_Finish (w : SSTableWriter) (σ : World) : Status * SSTableWriter * World :=
  if w_finished_ w then (Status_OK, w, σ)
  else
    let w := set_finished w in
    let '(s, w, σ) := FlushBlock w σ in
    if negb (ok s) then (s, w, σ)
    else
      let '(s, w, σ) := write_metadata w σ in
      if negb (ok s) then (s, w, σ) else sync_close w σ.

(** [~SSTableWriter]. *)
Definition SSTableWriter_destroy (w : SSTableWriter) (σ : World) : World :=
  match w_fd_ w with Some _ => (close σ).2 | None => σ end.

(** The loop [for (it.SeekToFirst(); it.Valid(); it.Next())] of the flush paths
    over the entries that the iterator visits: stop at the first failure. *)
Fixpoint add_all (w : SSTableWriter) (es : list entry) (σ : World) : Status * SSTableWriter * World :=
  match es with
  | [] => (Status_OK, w, σ)
  | e :: es' =>
      let '(s, w, σ) := SSTableWriter_Add w (e_key e) (e_value e) (e_type e) σ in
      if negb (ok s) then (s, w, σ) else add_all w es' σ
  end.

(** [FlushMemTableToSSTable]: the status, and the file size and entry count
    stored through the out-parameters on success. *)
Definition FlushMemTableToSSTable (mem : SkipList) (path : bytes) (σ : World)
  : result (Status * option (Z * Z) * World) :=
  let w := SSTableWriter_new path 4096 kDefaultBloomBitsPerKey in
  let '(s, w, σ) := SSTableWriter_Open w σ in
  if negb (ok s) then Ok (s, None, SSTableWriter_destroy w σ)
  else
    let* it := SL_SeekToFirst mem in
    let* es := SL_drain (S (size (heap mem))) mem it in
    let '(s, w, σ) := add_all w es σ in
    if negb (ok s) then Ok (s, None, SSTableWriter_destroy w σ)
    else
      let '(s, w, σ) := SSTableWriter_Finish w σ in
      if negb (ok s) then Ok (s, None, SSTableWriter_destroy w σ)
      else Ok (s, Some (FileSize w, NumEntries w), SSTableWriter_destroy w σ).

(** ** Lemmas *)

(** The part of the world that a writer of [path] leaves alone. *)
Definition others_kept (path : bytes) (σ σ' : World) : Prop :=
  forall path', path' <> path -> fs σ' !! path' = fs σ !! path'.

#[global] Instance others_kept_preorder path : PreOrder (others_kept path).
Proof.
  split; [by intros ? ? ?|]. intros x y z Hxy Hyz p Hp. by rewrite Hyz, Hxy.
Qed.

(** A successful raw write appends all its bytes. *)
Lemma WriteRaw_ok w path data σ s σ' f :
  w_fd_ w = Some path -> fs σ !! path = Some f -> WriteRaw w data σ = (s, σ') ->
  others_kept path σ σ' /\ (exists f', fs σ' !! path = Some f') /\
  (ok s = true -> fs σ' !! path = Some (mkFileAt (f_data f ++ data) (f_synced f) (f_before f))).
Proof.
  intros Hfd Hf. unfold WriteRaw, fd_write. rewrite Hfd.
  destruct (write_fully path data σ) as [r σ1] eqn:Ew.
  destruct (write_fully_spec _ _ _ _ _ _ Hf Ew) as (t & u & -> & Hf1 & Hr & Ho).
  destruct r as [e|]; intros [= <- <-]; (split; [done|]); (split; [eauto|]); [done|].
  intros _. by rewrite (Hr eq_refl), app_nil_r.
Qed.

Lemma WriteSealed_ok w path data σ s σ' f :
  w_fd_ w = Some path -> fs σ !! path = Some f -> WriteSealed w data σ = (s, σ') ->
  others_kept path σ σ' /\
  (ok s = true -> fs σ' !! path = Some (mkFileAt (f_data f ++ sealed data) (f_synced f) (f_before f))).
Proof.
  intros Hfd Hf. unfold WriteSealed. destruct (WriteRaw w data σ) as [s1 σ1] eqn:E1.
  destruct (WriteRaw_ok _ _ _ _ _ _ _ Hfd Hf E1) as (Ho1 & _ & Hok1).
  destruct (ok s1) eqn:Eok1; cbn [negb]; [|intros [= <- <-]; split; [done|congruence]].
  intros E2. destruct (WriteRaw_ok _ _ _ _ _ _ _ Hfd (Hok1 eq_refl) E2) as (Ho2 & _ & Hok2).
  split; [by etransitivity|]. intros Hs. rewrite (Hok2 Hs), PutFixed32_spec.
  cbn [f_data f_synced f_before app]. unfold sealed. by rewrite app_assoc.
Qed.

Lemma put_index_spec idx buf : fold_left put_index idx buf = buf ++ index_bytes idx.
Proof.
  revert buf. induction idx as [|e idx IH]; intros buf; simpl; [by rewrite app_nil_r|].
  rewrite IH. unfold put_index, index_bytes. rewrite PutFixed32_spec, PutFixed64_spec, PutLengthPrefixed_spec.
  cbn [map concat]. unfold index_entry_bytes. by rewrite <- !app_assoc.
Qed.

(** The state of a writer that has taken the records grouped as [st]: closed
    blocks on disk, the open one in the buffer. *)
Record writer_at (path : bytes) (bs bpk : Z) (st : list (list entry) * list entry)
    (w : SSTableWriter) (σ : World) : Prop := {
  wa_path : w_path_ w = path;
  wa_fd : w_fd_ w = Some path;
  wa_bs : w_block_size_ w = bs;
  wa_file : exists n b, fs σ !! path = Some (mkFileAt (data_bytes st.1) n b);
  wa_offset : w_offset_ w = u64 (blen (data_bytes st.1));
  wa_num : w_num_entries_ w = u64 (blen (chunk_all st));
  wa_buf : w_block_buf_ w = block_bytes st.2;
  wa_first : st.2 <> [] -> w_block_first_key_ w = block_first st.2;
  wa_index : w_index_ w = index_from 0 st.1;
  wa_bloom : w_bloom_ w = build_over bpk (map e_key (chunk_all st)) }.

Lemma writer_open path bs bpk σ s w σ' :
  SSTableWriter_Open (SSTableWriter_new path bs bpk) σ = (s, w, σ') ->
  others_kept path σ σ' /\
  (ok s = true -> writer_at path bs bpk ([], []) w σ' /\ w_finished_ w = false).
Proof.
  unfold SSTableWriter_Open, open_trunc, sys, next_io. cbn [w_path_ SSTableWriter_new].
  destruct (io σ) as [|[| |e] os]; cbn [fs io]; intros [= <- <- <-]; cbn [fs];
    (split; [intros p Hp; cbn [fs]; by rewrite ?lookup_insert_ne|]); try done;
    intros _; (split; [|done]); split; cbn; eauto; rewrite lookup_insert_eq; destruct (fs σ !! path); by eexists _, _.
Qed.

Lemma u64_add_l a b : u64 (u64 a + b) = u64 (a + b).
Proof. unfold u64. by rewrite Zplus_mod_idemp_l. Qed.
Lemma u64_add_r a b : u64 (a + u64 b) = u64 (a + b).
Proof. unfold u64. by rewrite Zplus_mod_idemp_r. Qed.

(** Flushing the open block closes it. *)
Lemma FlushBlock_spec path bs bpk st w σ s w' σ' :
  writer_at path bs bpk st w σ -> (st.2 <> [] -> block_ok st.2) ->
  FlushBlock w σ = (s, w', σ') ->
  others_kept path σ σ' /\
  (ok s = true -> writer_at path bs bpk (chunk_close st, []) w' σ' /\ w_finished_ w' = w_finished_ w).
Proof.
  intros Hw Hb. destruct st as [cl pend]. cbn [fst snd] in *.
  pose proof (wa_buf _ _ _ _ _ _ Hw) as Hbuf. cbn [snd] in Hbuf. unfold FlushBlock, chunk_close. cbn [snd fst].
  destruct pend as [|e0 pend0].
  { unfold block_bytes in Hbuf. simpl in Hbuf. rewrite Hbuf. intros [= <- <- <-]. split; [reflexivity|]. by intros _. }
  set (pend := e0 :: pend0) in *. destruct (Hb ltac:(done)) as (_ & _ & Hlen).
  pose proof (block_bytes_nonempty pend ltac:(done)) as Hpos.
  destruct (w_block_buf_ w) as [|x xs] eqn:Ebuf; [by rewrite <- Hbuf in Hpos|].
  rewrite Hbuf. destruct (wa_file _ _ _ _ _ _ Hw) as (n & bf & Hf). cbn [fst] in Hf.
  destruct (WriteSealed w (block_bytes pend) σ) as [s1 σ1] eqn:E1.
  destruct (WriteSealed_ok _ _ _ _ _ _ _ (wa_fd _ _ _ _ _ _ Hw) Hf E1) as (Ho & Hok).
  destruct (ok s1) eqn:Eok1; cbn [negb]; [|intros [= <- <- <-]; split; [done|congruence]].
  specialize (Hok eq_refl). cbn [f_data f_synced f_before] in Hok.
  intros [= <- <- <-]. split; [done|]. intros _. split; [|done].
  assert (data_bytes (cl ++ [pend]) = data_bytes cl ++ sealed (block_bytes pend)) as Hd.
  { rewrite data_bytes_app. unfold data_bytes at 2. cbn [map concat]. by rewrite app_nil_r. }
  assert (chunk_all (cl ++ [pend], []) = chunk_all (cl, pend)) as Ha.
  { unfold chunk_all. cbn [fst snd]. rewrite concat_app. cbn [concat]. by rewrite !app_nil_r. }
  destruct Hw as [Hp Hfd Hbs _ Hoff Hnum _ Hfirst Hidx Hbl]. cbn [fst snd] in *.
  split; cbn [w_path_ w_fd_ w_block_size_ w_offset_ w_num_entries_ w_block_buf_ w_block_first_key_
              w_index_ w_bloom_ fst snd]; rewrite ?Hd, ?Ha; eauto.
  - rewrite Hoff, (u32_small (blen _)), u32_small, u64_add_l by lia. f_equal. len.
  - done.
  - rewrite Hidx, Hfirst, Hoff, u32_small, index_from_app by (done || lia).
    cbn [index_from]. by rewrite Z.add_0_l.
Qed.

Lemma Add_spec path bs bpk st w σ e s w' σ' :
  0 <= bs <= 2 ^ 30 -> writer_at path bs bpk st w σ -> chunk_ok bs st -> rec_fits e ->
  SSTableWriter_Add w (e_key e) (e_value e) (e_type e) σ = (s, w', σ') ->
  others_kept path σ σ' /\
  (ok s = true -> writer_at path bs bpk (chunk_add bs st e) w' σ' /\ w_finished_ w' = w_finished_ w).
Proof.
  intros Hbs Hw Hst He. destruct (chunk_add_ok bs st e Hbs Hst He) as [_ Hblk].
  unfold SSTableWriter_Add. rewrite AppendRecord_spec.
  set (w1 := mkWriter _ _ _ _ _ _ _ _ _ _).
  assert (block_bytes (st.2 ++ [e]) = w_block_buf_ w ++ record_bytes (Entry (e_key e) (e_value e) (e_type e))) as Hbuf.
  { rewrite (wa_buf _ _ _ _ _ _ Hw), block_bytes_app, block_bytes_cons. unfold block_bytes at 3. simpl.
    rewrite app_nil_r. by destruct e. }
  assert (writer_at path bs bpk (st.1, st.2 ++ [e]) w1 σ) as Hw1.
  { assert (chunk_all (st.1, st.2 ++ [e]) = chunk_all st ++ [e]) as Ha
      by (unfold chunk_all; cbn [fst snd]; by rewrite app_assoc).
    destruct Hw as [Hp Hfd Hb Hf Hoff Hnum Hbf Hfirst Hidx Hbl].
    split; cbn [w_path_ w_fd_ w_block_size_ w_offset_ w_num_entries_ w_block_buf_ w_block_first_key_
              w_index_ w_bloom_ fst snd w1]; rewrite ?Ha; try done.
    - rewrite Hnum, u64_add_l, blen_app. done.
    - intros _. destruct st as [cl [|e0 p]]; [by rewrite Hbf|]. cbn [snd app block_first] in *.
      pose proof (block_bytes_nonempty (e0 :: p) ltac:(done)) as Hpos. rewrite <- Hbf in Hpos.
      destruct (w_block_buf_ w); [done|]. by rewrite Hfirst.
    - rewrite Hbl, map_app. unfold build_over. by rewrite fold_left_app. }
  change (w_block_buf_ w1) with (w_block_buf_ w ++ record_bytes (Entry (e_key e) (e_value e) (e_type e))).
  rewrite <- Hbuf. change (w_block_size_ w1) with (w_block_size_ w). rewrite (wa_bs _ _ _ _ _ _ Hw).
  unfold chunk_add. destruct (bs <=? blen (block_bytes (st.2 ++ [e]))).
  - intros Hfl. destruct (FlushBlock_spec _ _ _ _ _ _ _ _ _ Hw1 ltac:(done) Hfl) as [Ho Hok].
    split; [done|]. intros Hs. destruct (Hok Hs) as [Hw' ->]. split; [|done].
    unfold chunk_close in Hw'. cbn [fst snd] in Hw'. destruct (st.2 ++ [e]) eqn:E; [by destruct st.2|done].
  - intros [= <- <- <-]. split; [reflexivity|]. by intros _.
Qed.

Lemma add_all_spec path bs bpk es st w σ s w' σ' :
  0 <= bs <= 2 ^ 30 -> Forall rec_fits es -> writer_at path bs bpk st w σ -> chunk_ok bs st ->
  add_all w es σ = (s, w', σ') ->
  others_kept path σ σ' /\
  (ok s = true -> writer_at path bs bpk (fold_left (chunk_add bs) es st) w' σ' /\
     chunk_ok bs (fold_left (chunk_add bs) es st) /\ w_finished_ w' = w_finished_ w).
Proof.
  intros Hbs Hes. revert st w σ. induction Hes as [|e es He Hes IH]; intros st w σ Hw Hst; simpl.
  { intros [= <- <- <-]. split; [reflexivity|]. by intros _. }
  destruct (SSTableWriter_Add w (e_key e) (e_value e) (e_type e) σ) as [[s1 w1] σ1] eqn:E1.
  destruct (Add_spec _ _ _ _ _ _ _ _ _ _ Hbs Hw Hst He E1) as [Ho1 Hok1].
  destruct (ok s1) eqn:Eok; cbn [negb]; [|intros [= <- <- <-]; split; [done|congruence]].
  intros E2. destruct (Hok1 eq_refl) as [Hw1 Hfin].
  destruct (IH _ _ _ Hw1 (proj1 (chunk_add_ok _ _ _ Hbs Hst He)) E2) as [Ho2 Hok2].
  split; [by etransitivity|]. intros Hs. destruct (Hok2 Hs) as (? & ? & ->). by split_and!.
Qed.

(** The filter block of a table. *)
Definition filter_of (bpk : Z) (es : list entry) : bytes :=
  (BloomBuilder_Finish (build_over bpk (map e_key es))).1.

Lemma write_metadata_spec path bs bpk blocks w σ s w' σ' :
  writer_at path bs bpk (blocks, []) w σ -> write_metadata w σ = (s, w', σ') ->
  let data := table_bytes blocks (filter_of bpk (concat blocks)) in
  others_kept path σ σ' /\
  (ok s = true -> (exists n b, fs σ' !! path = Some (mkFileAt data n b)) /\ w_fd_ w' = Some path /\
     w_offset_ w' = u64 (blen data) /\ w_num_entries_ w' = u64 (blen (concat blocks))).
Proof.
  intros [Hp Hfd _ (n & bf & Hf) Hoff Hnum _ _ Hidx Hbl] Hrun data. cbn [fst snd] in *.
  unfold chunk_all in *. cbn [fst snd] in *. rewrite app_nil_r in *.
  unfold write_metadata in Hrun. rewrite Hbl in Hrun. unfold data, filter_of. clear data.
  destruct (BloomBuilder_Finish (build_over bpk (map e_key (concat blocks)))) as [flt bl'] eqn:Eflt.
  cbn [fst]. rewrite put_index_spec, !PutFixed64_spec, PutFixed32_spec in Hrun.
  cbn [app set_bloom set_offset w_index_ w_offset_ w_num_entries_ w_fd_ w_path_] in Hrun.
  rewrite Hidx, Hoff, Hnum in Hrun. repeat (rewrite u64_add_r in Hrun || rewrite u64_add_l in Hrun).
  set (x := index_bytes (index_from 0 blocks)) in *.
  destruct (WriteSealed _ flt σ) as [s2 σ2] eqn:E2.
  destruct (WriteSealed_ok _ path _ _ _ _ _ Hfd Hf E2) as [Ho2 Hok2].
  destruct (ok s2) eqn:Eok2; cbn [negb] in Hrun; [|injection Hrun as <- <- <-; split; [done|congruence]].
  destruct (WriteSealed _ x σ2) as [s3 σ3] eqn:E3.
  destruct (WriteSealed_ok _ path _ _ _ _ _ Hfd (Hok2 eq_refl) E3) as [Ho3 Hok3].
  destruct (ok s3) eqn:Eok3; cbn [negb] in Hrun;
    [|injection Hrun as <- <- <-; split; [by etransitivity|congruence]].
  destruct (WriteRaw _ _ σ3) as [s4 σ4] eqn:E4.
  destruct (WriteRaw_ok _ path _ _ _ _ _ Hfd (Hok3 eq_refl) E4) as (Ho4 & _ & Hok4).
  assert (others_kept path σ σ4) as Ho by (do 2 (etransitivity; [done|]); done).
  destruct (ok s4) eqn:Eok4; cbn [negb] in Hrun; injection Hrun as <- <- <-; (split; [done|]); [|congruence].
  specialize (Hok4 eq_refl). cbn [f_data f_synced f_before] in Hok4. intros _. split_and!; [|done| |done].
  - exists n, bf. rewrite Hok4. unfold table_bytes, footer_bytes. fold x.
    by rewrite <- !app_assoc, !Z.add_assoc.
  - cbn [w_offset_ set_offset set_bloom]. f_equal. unfold table_bytes. rewrite !blen_app, blen_footer, !blen_sealed. fold x.
    unfold kFooterSize. len.
Qed.

Lemma sync_close_spec path w σ s w' σ' f :
  w_fd_ w = Some path -> fs σ !! path = Some f -> sync_close w σ = (s, w', σ') ->
  others_kept path σ σ' /\
  (ok s = true -> fs σ' !! path = Some (mkFile (f_data f) (blen (f_data f))) /\ w_fd_ w' = None /\
     w_offset_ w' = w_offset_ w /\ w_num_entries_ w' = w_num_entries_ w).
Proof.
  intros Hfd Hf. unfold sync_close. rewrite Hfd. destruct (fsync path σ) as [r σ1] eqn:E1.
  destruct (fsync_spec _ _ _ _ _ Hf E1) as [([d n b] & Hf1 & Hd1 & Hs1) Ho1]. cbn [f_data f_synced f_before] in *. subst d.
  destruct r as [e|]; [intros [= <- <- <-]; by split|]. destruct Hs1 as [-> ->].
  assert (forall r σ2, close σ1 = (r, σ2) -> fs σ2 = fs σ1) as Hc.
  { unfold close, sys, next_io. intros r σ2. destruct (io σ1) as [|[| |]]; by intros [= <- <-]. }
  destruct (close σ1) as [[e|] σ2]; intros [= <- <- <-]; pose proof (Hc _ _ eq_refl) as E;
    (split; [intros p Hp; by rewrite E, Ho1|]); [done|].
  intros _. by rewrite E.
Qed.

(** Finishing writes the open block, the filter, the index and the footer, and
    makes the file durable. *)
Lemma Finish_spec path bs bpk st w σ s w' σ' :
  0 <= bs <= 2 ^ 30 -> writer_at path bs bpk st w σ -> chunk_ok bs st -> w_finished_ w = false ->
  SSTableWriter_Finish w σ = (s, w', σ') ->
  let data := table_bytes (chunk_close st) (filter_of bpk (chunk_all st)) in
  others_kept path σ σ' /\
  (ok s = true -> fs σ' !! path = Some (mkFile data (blen data)) /\ w_fd_ w' = None /\
     FileSize w' = u64 (blen data) /\ NumEntries w' = u64 (blen (chunk_all st))).
Proof.
  intros Hbs Hw Hst Hfin Hrun data. unfold SSTableWriter_Finish in Hrun. rewrite Hfin in Hrun.
  assert (writer_at path bs bpk st (set_finished w) σ) as Hw0 by (destruct Hw; split; done).
  destruct (FlushBlock (set_finished w) σ) as [[s1 w1] σ1] eqn:E1.
  assert (st.2 <> [] -> block_ok st.2) as Hpend.
  { intros Hne. destruct Hst as (_ & Hp & Hl). specialize (Hl Hne). split_and!; [done..|lia]. }
  destruct (FlushBlock_spec _ _ _ _ _ _ _ _ _ Hw0 Hpend E1) as [Ho1 Hok1].
  destruct (ok s1) eqn:Eok1; cbn [negb] in Hrun; [|injection Hrun as <- <- <-; split; [done|congruence]].
  destruct (Hok1 eq_refl) as [Hw1 _].
  destruct (write_metadata w1 σ1) as [[s2 w2] σ2] eqn:E2.
  destruct (write_metadata_spec _ _ _ _ _ _ _ _ _ Hw1 E2) as [Ho2 Hok2]. rewrite chunk_close_all in Hok2.
  destruct (ok s2) eqn:Eok2; cbn [negb] in Hrun;
    [|injection Hrun as <- <- <-; split; [by etransitivity|congruence]].
  destruct (Hok2 eq_refl) as ((n & bf & Hf2) & Hfd2 & Hoff2 & Hnum2).
  destruct (sync_close_spec _ _ _ _ _ _ _ Hfd2 Hf2 Hrun) as [Ho3 Hok3].
  split; [do 2 (etransitivity; [done|]); done|]. intros Hs. destruct (Hok3 Hs) as (? & ? & Ho & Hn).
  unfold FileSize, NumEntries. rewrite Ho, Hn. by split_and!.
Qed.

(** A whole writing session: open, add, finish. *)
Lemma write_session path bs bpk es σ s1 w1 σ1 s2 w2 σ2 s3 w3 σ3 :
  0 <= bs <= 2 ^ 30 -> Forall rec_fits es ->
  SSTableWriter_Open (SSTableWriter_new path bs bpk) σ = (s1, w1, σ1) -> ok s1 = true ->
  add_all w1 es σ1 = (s2, w2, σ2) -> ok s2 = true ->
  SSTableWriter_Finish w2 σ2 = (s3, w3, σ3) ->
  let data := table_bytes (chunks bs es) (filter_of bpk es) in
  others_kept path σ σ3 /\
  (ok s3 = true -> fs σ3 !! path = Some (mkFile data (blen data)) /\ w_fd_ w3 = None /\
     FileSize w3 = u64 (blen data) /\ NumEntries w3 = u64 (blen es)).
Proof.
  intros Hbs Hes E1 Hs1 E2 Hs2 E3.
  destruct (writer_open _ _ _ _ _ _ _ E1) as [Ho1 Hok1]. destruct (Hok1 Hs1) as [Hw1 Hfin1].
  assert (chunk_ok bs ([], [])) as Hc0 by (split_and!; done).
  destruct (add_all_spec _ _ _ _ _ _ _ _ _ _ Hbs Hes Hw1 Hc0 E2) as [Ho2 Hok2].
  destruct (Hok2 Hs2) as (Hw2 & Hc2 & Hfin2). rewrite Hfin1 in Hfin2.
  destruct (Finish_spec _ _ _ _ _ _ _ _ _ Hbs Hw2 Hc2 Hfin2 E3) as [Ho3 Hok3].
  assert (chunk_all (fold_left (chunk_add bs) es ([], [])) = es) as Ha.
  { rewrite <- (chunks_concat bs es) at 2. unfold chunks. by rewrite chunk_close_all. }
  rewrite Ha in Hok3. split; [do 2 (etransitivity; [done|]); done|]. exact Hok3.
Qed.

End Writer.
