(* ===== verification/TableReader.v ===== *)
(** The SSTable reader (class [SSTableReader], src/sstable.cpp): opening and
    validating a file, CRC-checked block reads with and without the cache, and
    point lookups.

    The mapping of the file is a byte sequence; a load outside it, or outside a
    block copied from it, is undefined behaviour. Addresses are offsets from the
    start of the region, and the size checks keep the 64-bit wrap-around of the
    code. *)
From S2P Require Import Prelude Types Coding Crc32 Bloom Cache Posix TableFormat TableWriter.

(** [class SSTableReader]. The mapping is [base_], its size [file_size_]. *)
Record SSTableReader := mkReader {
  base_ : bytes; r_index_ : list IndexEntry; filter_ : BloomFilter; file_number_ : Z;
  r_num_entries_ : Z; smallest_key_ : bytes; largest_key_ : bytes; filter_enabled_ : bool }.

Definition file_size_ (r : SSTableReader) : Z := blen (base_ r).

(** What a reader mutates: the shared block cache it points to ([None] is
    [nullptr]) and its own counter [blocks_read_]. *)
Record ReadState := mkReadState { rs_cache : option BlockCache; blocks_read_ : Z }.

Definition count_block (rs : ReadState) : ReadState :=
  mkReadState (rs_cache rs) (blocks_read_ rs +u64 1).

(** The measurement switches: [has_filter], [ResetStats] (of the reader) and
    [SetFilterEnabled]. *)
Definition has_filter (r : SSTableReader) : bool := valid (filter_ r).
Definition Reader_ResetStats (rs : ReadState) : ReadState := mkReadState (rs_cache rs) 0.
Definition SetFilterEnabled (r : SSTableReader) (on : bool) : SSTableReader :=
  mkReader (base_ r) (r_index_ r) (filter_ r) (file_number_ r) (r_num_entries_ r) (smallest_key_ r)
    (largest_key_ r) on.

(** [SSTableReader::ReadBlock]: the verified copy of a block, or Corruption. The
    caller counts the block. *)
Definition ReadBlock (r : SSTableReader) (block_idx : nat) : result bytes :=
  let* e := of_option (r_index_ r !! block_idx) in
  if file_size_ r <? (ie_offset e +u64 ie_length e) +u64 4 then
    Err (Status_Corruption (lit "block extends past EOF"))
  else
    let* stored_crc := DecodeFixed32 (base_ r) (ie_offset e + ie_length e) in
    let* data := of_option (slice (base_ r) (ie_offset e) (ie_length e)) in
    if negb (Crc32 data =? stored_crc) then Err (Status_Corruption (lit "block CRC mismatch"))
    else Ok data.

(** The loop of [Open] over the index block. *)
Fixpoint parse_index (fuel : nat) (m : bytes) (p : Z) : result (list IndexEntry) :=
  match fuel with
  | O => UB
  | S fuel' =>
      if p <? blen m then
        if blen m <? p + 4 then Err (Status_Corruption (lit "truncated index entry"))
        else
          let* klen := DecodeFixed32 m p in
          let p := p + 4 in
          if blen m <? p + klen + 12 then Err (Status_Corruption (lit "truncated index entry"))
          else
            let* key := of_option (slice m p klen) in
            let p := p + klen in
            let* offset := DecodeFixed64 m p in
            let p := p + 8 in
            let* length := DecodeFixed32 m p in
            let p := p + 4 in
            let* rest := parse_index fuel' m p in
            Ok (mkIndexEntry key offset length :: rest)
      else Ok []
  end.

(** The scan of the last block for the largest key; [klen + vlen] is [uint32_t]
    arithmetic. *)
Fixpoint largest_loop (fuel : nat) (m : bytes) (q : Z) (largest : bytes) : result bytes :=
  match fuel with
  | O => UB
  | S fuel' =>
      if q <? blen m then
        let q := q + 1 in
        let* klen := DecodeFixed32 m q in
        let q := q + 4 in
        let* vlen := DecodeFixed32 m q in
        let q := q + 4 in
        let* key := of_option (slice m q klen) in
        largest_loop fuel' m (q + (klen +u32 vlen)) key
      else Ok largest
  end.

(** [SSTableReader::Open] on the mapped file. *)
Definition open_mapped (path base : bytes) (file_number : Z) : result SSTableReader :=
  let size := blen base in
  let footer := size - kFooterSize in
  let* filter_offset := DecodeFixed64 base footer in
  let* filter_length := DecodeFixed64 base (footer + 8) in
  let* index_offset := DecodeFixed64 base (footer + 16) in
  let* index_length := DecodeFixed64 base (footer + 24) in
  let* num_entries := DecodeFixed64 base (footer + 32) in
  let* magic := DecodeFixed32 base (footer + 40) in
  if negb (magic =? kSSTableMagic) then
    Err (Status_Corruption (lit "bad SSTable magic in " ++ path))
  else if (size <? (index_offset +u64 index_length) +u64 4)
       || (size <? (filter_offset +u64 filter_length) +u64 4) then
    Err (Status_Corruption (lit "metadata extends past EOF in " ++ path))
  else
    let* stored_crc := DecodeFixed32 base (index_offset + index_length) in
    let* index_data := of_option (slice base index_offset index_length) in
    if negb (Crc32 index_data =? stored_crc) then
      Err (Status_Corruption (lit "index CRC mismatch in " ++ path))
    else
      let* index := parse_index (S (length index_data)) index_data 0 in
      let* filter :=
        (if 0 <? filter_length then
           let* stored_crc := DecodeFixed32 base (filter_offset + filter_length) in
           let* fdata := of_option (slice base filter_offset filter_length) in
           if negb (Crc32 fdata =? stored_crc) then
             Err (Status_Corruption (lit "filter CRC mismatch in " ++ path))
           else BloomFilter_Reset fdata
         else Ok BloomFilter_empty) in
      let reader := mkReader base index filter file_number num_entries [] [] true in
      match index with
      | [] => Ok reader
      | front :: _ =>
          let* last_block := ReadBlock reader (length index - 1) in
          let* largest := largest_loop (S (length last_block)) last_block 0 [] in
          Ok (mkReader base index filter file_number num_entries (first_key front) largest true)
      end.

Section Open.
Context `{Os}.

(** [SSTableReader::Open]: open, [fstat], [mmap], close, then validate. *)
Definition SSTableReader_Open (path : bytes) (file_number : Z) (σ : World)
  : result SSTableReader * World :=
  match open_rdonly path σ with
  | (inl e, σ) => (Err (io_error (lit "open ") path e), σ)
  | (inr f, σ) =>
      let (o, σ) := next_io σ in
      match o with
      | IoErr e =>
          let (e, σ) := close_errno e σ in (Err (io_error (lit "fstat ") path e), σ)
      | _ =>
          let size := blen (f_data f) in
          if size <? kFooterSize then
            (Err (Status_Corruption (lit "file too small to be an SSTable: " ++ path)), (close σ).2)
          else
            let (o, σ) := next_io σ in
            match o with
            | IoErr e =>
                let (e, σ) := close_errno e σ in (Err (io_error (lit "mmap ") path e), σ)
            | _ =>
                let σ := (close σ).2 in
                (open_mapped path (f_data f) file_number, σ)
            end
      end
  end.

End Open.

(** ** Point lookups *)

(** [SSTableReader::GetBlock]: a failed status or the block. *)
Definition GetBlock (r : SSTableReader) (block_idx : nat) (rs : ReadState)
  : result ((Status + bytes) * ReadState) :=
  let* e := of_option (r_index_ r !! block_idx) in
  let offset := ie_offset e in
  let* (cached, rs) :=
    match rs_cache rs with
    | None => Ok (None, rs)
    | Some c =>
        let* (cached, c) := BlockCache_Lookup c (file_number_ r) offset in
        Ok (cached, mkReadState (Some c) (blocks_read_ rs))
    end in
  match cached with
  | Some b => Ok (inr b, rs)
  | None =>
      match ReadBlock r block_idx with
      | UB => UB
      | Err s => Ok (inl s, rs)
      | Ok block =>
          let rs := count_block rs in
          match rs_cache rs with
          | None => Ok (inr block, rs)
          | Some c =>
              let* c := BlockCache_Insert c (file_number_ r) offset (Some block) in
              Ok (inr block, mkReadState (Some c) (blocks_read_ rs))
          end
      end
  end.

(** [std::upper_bound] over the index by first key: the number of entries whose
    first key is not above [key], for an index partitioned by it. *)
Fixpoint upper_bound (fuel : nat) (idx : list IndexEntry) (key : bytes) (first len : nat) : result nat :=
  match fuel with
  | O => UB
  | S fuel' =>
      if (0 <? len)%nat then
        let half := (len / 2)%nat in
        let* e := of_option (idx !! (first + half)%nat) in
        if str_ltb key (first_key e) then upper_bound fuel' idx key first half
        else upper_bound fuel' idx key (first + half + 1) (len - half - 1)
      else Ok first
  end.

(** The record loop of [Get] over a block. *)
Fixpoint get_scan (fuel : nat) (m : bytes) (p : Z) (key : bytes) : result (LookupResult.t * option bytes) :=
  match fuel with
  | O => UB
  | S fuel' =>
      if p <? blen m then
        let* type := of_option (m !! Z.to_nat p) in
        let p := p + 1 in
        let* klen := DecodeFixed32 m p in
        let p := p + 4 in
        let* vlen := DecodeFixed32 m p in
        let p := p + 4 in
        let kptr := p in
        let p := p + klen in
        let vptr := p in
        let p := p + vlen in
        let* k := of_option (slice m kptr klen) in
        match str_compare key k with
        | Eq =>
            if is_tombstone_type type then Ok (LookupResult.kDeleted, None)
            else
              let* v := of_option (slice m vptr vlen) in
              Ok (LookupResult.kFound, Some v)
        | Lt => Ok (LookupResult.kNotFound, None)
        | Gt => get_scan fuel' m p key
        end
      else Ok (LookupResult.kNotFound, None)
  end.

(** [SSTableReader::Get]: the result with the value stored, and [*status]. *)
Definition SSTableReader_Get (r : SSTableReader) (key : bytes) (rs : ReadState)
  : result ((LookupResult.t * option bytes) * Status * ReadState) :=
  let miss := (LookupResult.kNotFound, None) in
  match r_index_ r with
  | [] => Ok (miss, Status_OK, rs)
  | _ :: _ =>
      let* may :=
        (if filter_enabled_ r && valid (filter_ r) then MayContain (filter_ r) key else Ok true) in
      if negb may then Ok (miss, Status_OK, rs)
      else
        let n := length (r_index_ r) in
        let* it := upper_bound (S n) (r_index_ r) key 0 n in
        if (it =? 0)%nat then Ok (miss, Status_OK, rs)
        else
          let* (block, rs) := GetBlock r (it - 1) rs in
          match block with
          | inl s => Ok (miss, s, rs)
          | inr block =>
              let* found := get_scan (S (length block)) block 0 key in
              Ok (found, Status_OK, rs)
          end
  end.

(** ** Well-formed tables *)

Definition last_key (es : list entry) : bytes :=
  match last es with Some e => e_key e | None => [] end.

(** What a filter must do for lookups to be right: answer without fault, and
    never rule out a key that is there. *)
Definition filter_sound (f : BloomFilter) (es : list entry) : Prop :=
  valid f = true ->
  forall key, exists b, MayContain f key = Ok b /\ (b = false -> assoc es key = None).

(** A reader over the sorted records grouped into the blocks [bs]. *)
Record table_ok (r : SSTableReader) (bs : list (list entry)) : Prop := {
  to_data : exists tail, base_ r = data_bytes bs ++ tail;
  to_size : file_size_ r < 2 ^ 63;
  to_count : blen bs <= 2 ^ 30;
  to_index : r_index_ r = index_from 0 bs;
  to_blocks : Forall block_ok bs;
  to_sorted : sorted_keys (concat bs);
  to_filter : filter_sound (filter_ r) (concat bs);
  to_smallest : smallest_key_ r = block_first (concat bs);
  to_largest : largest_key_ r = last_key (concat bs) }.

(** ** Lemmas: blocks *)

(** [ReadBlock] on a file that holds [d] where the index places a block of that
    length, followed by the stored checksum [crc]. *)
Lemma ReadBlock_raw r pre a b c d crc tail :
  base_ r = pre ++ d ++ fixed32 crc ++ tail -> blen pre = blen (data_bytes a) -> blen d = blen (block_bytes b) -> is_u32 crc ->
  file_size_ r < 2 ^ 63 -> r_index_ r = index_from 0 (a ++ b :: c) ->
  ReadBlock r (length a)
  = if Crc32 d =? crc then Ok d else Err (Status_Corruption (lit "block CRC mismatch")).
Proof.
  unfold file_size_. intros Hb Hp Hd Hcrc Hs Hi. unfold ReadBlock, file_size_.
  rewrite Hi, index_from_lookup. cbn [of_option rbind ie_offset ie_length].
  assert (blen (base_ r) = blen pre + blen d + 4 + blen tail) as Hl by (rewrite Hb; len).
  pose proof (blen_nonneg pre). pose proof (blen_nonneg d). pose proof (blen_nonneg tail).
  rewrite <- Hp, <- Hd, Z.add_0_l, (u64_small (blen pre)), (u64_small (_ + blen d)), u64_small by lia.
  zbool. rewrite Hb, (app_assoc pre d).
  rewrite DecodeFixed32_mid by (done || len). cbn [rbind].
  rewrite (slice_eq _ pre d (fixed32 crc ++ tail)) by (rewrite <- ?app_assoc; done).
  cbn [of_option rbind]. by destruct (Crc32 d =? crc).
Qed.

Lemma ReadBlock_at r a b c tail :
  base_ r = data_bytes (a ++ b :: c) ++ tail -> file_size_ r < 2 ^ 63 ->
  r_index_ r = index_from 0 (a ++ b :: c) ->
  ReadBlock r (length a) = Ok (block_bytes b).
Proof.
  intros Hb Hs Hi. rewrite (ReadBlock_raw r (data_bytes a) a b c (block_bytes b) (Crc32 (block_bytes b)) (data_bytes c ++ tail)).
  - by rewrite Z.eqb_refl.
  - rewrite Hb, data_bytes_app, data_bytes_cons. unfold sealed. by rewrite <- !app_assoc.
  - done.
  - done.
  - apply Crc32_range.
  - done.
  - done.
Qed.

Lemma ReadBlock_ok r a b c : table_ok r (a ++ b :: c) -> ReadBlock r (length a) = Ok (block_bytes b).
Proof. intros Ht. destruct (to_data _ _ Ht) as [tail Hd]. by eapply ReadBlock_at; [|apply Ht..]. Qed.

(** ** Lemmas: the index block *)

Definition index_fits (ie : IndexEntry) : Prop :=
  blen (first_key ie) < 2 ^ 32 /\ is_u64 (ie_offset ie) /\ is_u32 (ie_length ie).

Lemma parse_index_spec idx fuel pre :
  Forall index_fits idx -> (length (index_bytes idx) < fuel)%nat ->
  parse_index fuel (pre ++ index_bytes idx) (blen pre) = Ok idx.
Proof.
  intros Hi. revert fuel pre. induction Hi as [|[k o l] idx (Hk & Ho & Hl) Hi IH];
    intros [|fuel] pre Hf; try lia; cbn [parse_index].
  { rewrite app_nil_r. by destruct (Z.ltb_spec (blen pre) (blen pre)); [lia|]. }
  unfold index_bytes in *. cbn [map concat first_key ie_offset ie_length] in *.
  fold (index_bytes idx) in *. set (rest := index_bytes idx) in *.
  pose proof (blen_nonneg k). pose proof (blen_nonneg rest).
  assert (blen (pre ++ index_entry_bytes (mkIndexEntry k o l) ++ rest) = blen pre + 16 + blen k + blen rest) as Hlen
    by (autorewrite with lsmlen; cbn [first_key]; lia).
  unfold index_entry_bytes, prefixed in *. cbn [first_key ie_offset ie_length] in *.
  rewrite u32_small in * by lia. rewrite Hlen. zbool. rewrite <- !app_assoc.
  rewrite DecodeFixed32_mid by (done || unfold is_u32; lia). cbn [rbind]. zbool.
  rewrite (slice_eq _ (pre ++ fixed32 (blen k)) k (fixed64 o ++ fixed32 l ++ rest))
    by (rewrite <- ?app_assoc; (done || len)). cbn [of_option rbind].
  replace (pre ++ _) with ((pre ++ fixed32 (blen k) ++ k) ++ fixed64 o ++ fixed32 l ++ rest)
    by (rewrite <- !app_assoc; done).
  rewrite DecodeFixed64_mid by (done || len). cbn [rbind].
  replace ((pre ++ _) ++ _) with ((pre ++ fixed32 (blen k) ++ k ++ fixed64 o) ++ fixed32 l ++ rest)
    by (rewrite <- !app_assoc; done).
  rewrite DecodeFixed32_mid by (done || len). cbn [rbind].
  replace ((pre ++ _) ++ _) with ((pre ++ fixed32 (blen k) ++ k ++ fixed64 o ++ fixed32 l) ++ rest)
    by (rewrite <- !app_assoc; done).
  replace (blen pre + 4 + blen k + 8 + 4) with (blen (pre ++ fixed32 (blen k) ++ k ++ fixed64 o ++ fixed32 l)) by len.
  rewrite IH; [done|]. rewrite length_app in Hf. unfold blen in *. 
  rewrite !length_app, !le_split_length in Hf. lia.
Qed.

Lemma index_from_fits off bs : Forall block_ok bs -> Forall index_fits (index_from off bs).
Proof.
  intros Hb. revert off. induction Hb as [|b bs (Hne & Hr & Hl) Hb IH]; intros off; simpl; constructor; auto.
  destruct b as [|e b]; [done|]. apply Forall_cons in Hr as [He _]. unfold rec_fits in He.
  split; cbn [first_key ie_offset ie_length block_first]; [len|]. split; [apply u64_range|].
  unfold is_u32. split; len.
Qed.

(** ** Lemmas: scans of a block *)

(** [largest_loop] on the records [es] after the prefix [done]. *)
Lemma largest_loop_spec es fuel pre l :
  Forall rec_fits es -> (length es < fuel)%nat ->
  largest_loop fuel (pre ++ block_bytes es) (blen pre) l
  = Ok (match last es with Some e => e_key e | None => l end).
Proof.
  intros He. revert fuel pre l. induction He as [|e es He Hes IH]; intros [|fuel] pre l Hf; try (simpl in Hf; lia);
    cbn [largest_loop].
  { unfold block_bytes. simpl. rewrite app_nil_r. by destruct (Z.ltb_spec (blen pre) (blen pre)); [lia|]. }
  rewrite block_bytes_cons. destruct (record_at_mid pre e (block_bytes es) _ He eq_refl) as [Ht Hk Hv Hks Hvs Hin].
  rewrite (proj2 (Z.ltb_lt _ _) Hin). rewrite Hk. cbn [rbind]. rewrite Hv. cbn [rbind]. rewrite Hks. cbn [of_option rbind].
  unfold rec_fits in He. rewrite u32_small by len. rewrite app_assoc.
  replace (blen pre + 1 + 4 + 4 + (blen (e_key e) + blen (e_value e))) with (blen (pre ++ record_bytes e)) by len.
  rewrite IH by (simpl in Hf; lia). f_equal. destruct es as [|e' es]; [done|].
  rewrite (last_cons e), last_cons. by destruct (last es).
Qed.

Lemma block_len_ge es : (length es <= length (block_bytes es))%nat.
Proof.
  induction es as [|e es IH]; [done|]. rewrite block_bytes_cons, length_app. cbn [length].
  pose proof (blen_record e). learn_len. unfold blen in *. lia.
Qed.

(** [Get]'s loop finds the record of the key in a sorted block, or stops. *)
Lemma get_scan_spec es fuel pre key :
  Forall rec_fits es -> sorted_keys es -> (length es < fuel)%nat ->
  get_scan fuel (pre ++ block_bytes es) (blen pre) key = Ok (lookup_of (assoc es key)).
Proof.
  intros He. revert fuel pre. induction He as [|e es He Hes IH]; intros [|fuel] pre Hs Hf; try (simpl in Hf; lia);
    cbn [get_scan].
  { unfold block_bytes. simpl. rewrite app_nil_r. by destruct (Z.ltb_spec (blen pre) (blen pre)); [lia|]. }
  rewrite block_bytes_cons. destruct (record_at_mid pre e (block_bytes es) _ He eq_refl) as [Ht Hk Hv Hks Hvs Hin].
  rewrite (proj2 (Z.ltb_lt _ _) Hin), Ht. cbn [of_option rbind]. rewrite Hk. cbn [rbind]. rewrite Hv. cbn [rbind].
  rewrite Hks. cbn [of_option rbind]. destruct Hs as [Hlt Hs].
  rewrite assoc_cons. destruct (str_compare_spec key (e_key e)) as [->|Hc|Hc].
  - rewrite str_eqb_refl. cbn [lookup_of]. destruct (is_tombstone_type (e_type e)); [done|]. by rewrite Hvs.
  - destruct (str_eqb_spec (e_key e) key) as [<-|]; [exfalso; str_order|].
    rewrite (proj2 (assoc_None es key)); [done|]. eapply Forall_impl; [exact Hlt|].
    intros f Hf' E. simpl in Hf'. rewrite E in Hf'. str_order.
  - destruct (str_eqb_spec (e_key e) key) as [<-|]; [exfalso; str_order|].
    rewrite app_assoc.
    replace (blen pre + 1 + 4 + 4 + blen (e_key e) + blen (e_value e)) with (blen (pre ++ record_bytes e)) by len.
    rewrite IH by (done || simpl in Hf; lia). done.
Qed.

(** ** Lemmas: the index search *)

Lemma upper_bound_cut fuel idx key a b first len :
  map first_key idx = a ++ b -> cut_at key a b ->
  (first <= length a <= first + len)%nat -> (first + len <= length idx)%nat -> (len < fuel)%nat ->
  upper_bound fuel idx key first len = Ok (length a).
Proof.
  intros Hi Hc. revert first len. induction fuel as [|fuel IH]; intros first len Ha Hn Hf; [lia|].
  cbn [upper_bound]. destruct (Nat.ltb_spec 0 len) as [Hlen|]; [|f_equal; lia].
  assert (len / 2 < len)%nat as Hhalf by (apply Nat.div_lt; lia).
  destruct (lookup_lt_is_Some_2 idx (first + len / 2)) as [e He]; [lia|]. rewrite He. cbn [of_option rbind].
  assert ((a ++ b) !! (first + len / 2)%nat = Some (first_key e)) as Hk by (by rewrite <- Hi, list_lookup_fmap, He).
  pose proof (cut_at_lookup _ _ _ _ _ Hc Hk) as Hside.
  destruct (str_ltb_spec key (first_key e)) as [Hlt|Hge]; destruct (str_leb_spec (first_key e) key);
    try (exfalso; str_order); symmetry in Hside; [apply Nat.ltb_ge in Hside|apply Nat.ltb_lt in Hside]; apply IH; lia.
Qed.

(** ** Lemmas: opening a written file *)

Lemma filter_of_sound bpk es :
  0 <= blen es * bpk <= 2 ^ 32 - 8 ->
  exists f, BloomFilter_Reset (filter_of bpk es) = Ok f /\ valid f = true /\ filter_sound f es.
Proof.
  intros H. rewrite <- (blen_map e_key) in H.
  destruct (filter_answers bpk (map e_key es) [] H) as (f & Hr & Hv & _). exists f. split_and!; [done..|].
  intros _ key. destruct (filter_answers bpk (map e_key es) key H) as (f' & Hr' & _ & _ & [b Hb] & Hin).
  rewrite Hr in Hr'. injection Hr' as <-. exists b. split; [done|]. intros ->.
  apply assoc_None, Forall_forall. intros e He <-.
  assert (e_key e ∈ map e_key es) as Hk by (by apply list_elem_of_In, in_map, list_elem_of_In).
  specialize (Hin Hk). congruence.
Qed.

(** The fields of a footer at the end of a file. *)
Lemma footer_fields body fo fl io il n :
  is_u64 fo -> is_u64 fl -> is_u64 io -> is_u64 il -> is_u64 n ->
  let m := body ++ footer_bytes fo fl io il n in let p := blen m - kFooterSize in
  DecodeFixed64 m p = Ok fo /\ DecodeFixed64 m (p + 8) = Ok fl /\ DecodeFixed64 m (p + 16) = Ok io /\
  DecodeFixed64 m (p + 24) = Ok il /\ DecodeFixed64 m (p + 32) = Ok n /\
  DecodeFixed32 m (p + 40) = Ok kSSTableMagic.
Proof.
  intros Hfo Hfl Hio Hil Hn m p.
  assert (p = blen body) as -> by (unfold p, m; rewrite blen_app, blen_footer; lia).
  unfold m, footer_bytes. clear m. split_and!.
  - by apply DecodeFixed64_mid.
  - replace (body ++ _) with ((body ++ fixed64 fo) ++ fixed64 fl ++ fixed64 io ++ fixed64 il ++ fixed64 n ++ fixed32 kSSTableMagic)
      by (rewrite <- !app_assoc; done). apply DecodeFixed64_mid; [done|len].
  - replace (body ++ _) with ((body ++ fixed64 fo ++ fixed64 fl) ++ fixed64 io ++ fixed64 il ++ fixed64 n ++ fixed32 kSSTableMagic)
      by (rewrite <- !app_assoc; done). apply DecodeFixed64_mid; [done|len].
  - replace (body ++ _) with ((body ++ fixed64 fo ++ fixed64 fl ++ fixed64 io) ++ fixed64 il ++ fixed64 n ++ fixed32 kSSTableMagic)
      by (rewrite <- !app_assoc; done). apply DecodeFixed64_mid; [done|len].
  - replace (body ++ _) with ((body ++ fixed64 fo ++ fixed64 fl ++ fixed64 io ++ fixed64 il) ++ fixed64 n ++ fixed32 kSSTableMagic)
      by (rewrite <- !app_assoc; done). apply DecodeFixed64_mid; [done|len].
  - replace (body ++ _) with ((body ++ fixed64 fo ++ fixed64 fl ++ fixed64 io ++ fixed64 il ++ fixed64 n) ++ fixed32 kSSTableMagic ++ [])
      by (rewrite app_nil_r, <- !app_assoc; done). apply DecodeFixed32_mid; [done|len].
Qed.

(** A sealed block inside a file reads back. *)
Lemma sealed_fields a b c o l :
  o = blen a -> l = blen b ->
  DecodeFixed32 (a ++ sealed b ++ c) (o + l) = Ok (Crc32 b) /\ slice (a ++ sealed b ++ c) o l = Some b.
Proof.
  intros -> ->. unfold sealed. rewrite <- !app_assoc. split; [|by apply slice_mid].
  rewrite (app_assoc a). apply DecodeFixed32_mid; [apply Crc32_range|len].
Qed.

Lemma concat_len_ge {A} (bs : list (list A)) : Forall (fun b => b <> []) bs -> blen bs <= blen (concat bs).
Proof. induction 1 as [|[|x b] bs Hb _ IH]; simpl; [done|done|]. len. Qed.

Lemma data_len_ge bs : blen (concat bs) <= blen (data_bytes bs).
Proof.
  induction bs as [|b bs IH]; [done|]. rewrite data_bytes_cons. cbn [concat].
  pose proof (block_len_ge b). unfold blen in *. rewrite !length_app. unfold sealed. rewrite length_app. lia.
Qed.

(** A reader over the blocks with its index and filter loaded. *)
Lemma open_keys bs base flt fn n tail :
  Forall block_ok bs -> sorted_keys (concat bs) -> blen bs <= 2 ^ 30 ->
  base = data_bytes bs ++ tail -> blen base < 2 ^ 63 -> filter_sound flt (concat bs) ->
  exists r,
    (let index := index_from 0 bs in
     let reader := mkReader base index flt fn n [] [] true in
     match index with
     | [] => Ok reader
     | front :: _ =>
         let* last_block := ReadBlock reader (length index - 1) in
         let* largest := largest_loop (S (length last_block)) last_block 0 [] in
         Ok (mkReader base index flt fn n (first_key front) largest true)
     end) = Ok r /\
    table_ok r bs /\ file_number_ r = fn /\ filter_enabled_ r = true /\ r_num_entries_ r = n /\
    base_ r = base /\ filter_ r = flt.
Proof.
  intros Hb Hs Hn Hd Hsz Hf. destruct bs as [|b0 bs0] eqn:Ebs.
  { eexists. split; [done|]. split_and!; try done. split; cbn; eauto. }
  rewrite <- Ebs in *. pose proof (index_from_length 0 bs) as Hil.
  destruct (index_from 0 bs) as [|i0 idx] eqn:Ei; [by rewrite Ebs in Ei|].
  assert (first_key i0 = block_first b0) as Hk by (rewrite Ebs in Ei; by injection Ei as <- _).
  cbv zeta. rewrite Hil.
  destruct (exists_last (l := bs)) as (a & b & Ea); [by rewrite Ebs|].
  replace (length bs - 1)%nat with (length a) by (rewrite Ea, length_app; simpl; lia).
  rewrite (ReadBlock_at _ a b [] tail) by (rewrite <- ?Ea; done). cbn [rbind].
  pose proof Hb as Hb'. rewrite Ea in Hb'. apply Forall_app in Hb' as [_ [(Hbne & Hbr & _) _]%Forall_cons].
  pose proof (block_len_ge b) as Hge.
  pose proof (largest_loop_spec b (S (length (block_bytes b))) [] [] Hbr ltac:(lia)) as Hll.
  cbn [app] in Hll. rewrite blen_nil in Hll. rewrite Hll.
  cbn [rbind]. eexists. split; [done|]. split_and!; try done. split; cbn; eauto.
  - rewrite Hk, Ebs. rewrite Ebs in Hb. apply Forall_cons in Hb as [(Hne & _) _]. by destruct b0.
  - unfold last_key. rewrite Ea, concat_app. cbn [concat]. rewrite app_nil_r.
    destruct (exists_last (l := b) Hbne) as (b' & e & ->). by rewrite app_assoc, !last_snoc.
Qed.

Lemma open_table path bs bpk fn :
  let data := table_bytes bs (filter_of bpk (concat bs)) in
  Forall block_ok bs -> sorted_keys (concat bs) -> blen bs <= 2 ^ 30 -> blen data < 2 ^ 63 ->
  0 <= blen (concat bs) * bpk <= 2 ^ 32 - 8 ->
  exists r, open_mapped path data fn = Ok r /\ table_ok r bs /\ file_number_ r = fn /\
    filter_enabled_ r = true /\ r_num_entries_ r = blen (concat bs) /\ base_ r = data /\
    BloomFilter_Reset (filter_of bpk (concat bs)) = Ok (filter_ r).
Proof.
  intros data Hb Hs Hn Hsz Hbl.
  destruct (filter_of_sound bpk (concat bs) Hbl) as (f & Hr & Hv & Hf).
  assert (0 < blen (filter_of bpk (concat bs))) as Hfl.
  { unfold BloomFilter_Reset in Hr. destruct (Z.ltb_spec (blen (filter_of bpk (concat bs))) 5); [|lia].
    injection Hr as <-. done. }
  unfold data, table_bytes in *. clear data.
  set (d := data_bytes bs) in *. set (flt := filter_of bpk (concat bs)) in *.
  set (x := index_bytes (index_from 0 bs)) in *.
  set (ft := footer_bytes _ _ _ _ _) in *.
  pose proof (data_len_ge bs) as Hdl. fold d in Hdl.
  pose proof (blen_nonneg d). pose proof (blen_nonneg x). pose proof (blen_nonneg (concat bs)).
  assert (blen (d ++ sealed flt ++ sealed x ++ ft) = blen d + blen flt + 4 + blen x + 4 + 44) as Hlen.
  { unfold ft. autorewrite with lsmlen. unfold kFooterSize. lia. }
  rewrite Hlen in Hsz. unfold ft in Hlen |- *. clear ft. rewrite !u64_small in * by lia.
  set (ft := footer_bytes _ _ _ _ _) in *.
  destruct (open_keys bs (d ++ sealed flt ++ sealed x ++ ft) f fn (blen (concat bs)) (sealed flt ++ sealed x ++ ft))
    as (r & Hopen & Hok & ? & ? & ? & ? & <-); try done; [lia|].
  exists r. split; [|by split_and!]. unfold open_mapped.
  assert (forall v, 0 <= v < 2 ^ 63 -> is_u64 v) as Hu64 by (unfold is_u64; lia).
  destruct (footer_fields (d ++ sealed flt ++ sealed x) (blen d) (blen flt) (blen d + blen flt + 4) (blen x)
    (blen (concat bs))) as (E1 & E2 & E3 & E4 & E5 & E6); [apply Hu64; lia..|].
  rewrite <- !app_assoc in E1, E2, E3, E4, E5, E6. fold ft in E1, E2, E3, E4, E5, E6.
  rewrite E1, E2, E3, E4, E5, E6. cbn [rbind]. rewrite Z.eqb_refl. cbn [negb].
  rewrite Hlen, (u64_small (_ + blen x)), (u64_small (blen d + blen flt)), !u64_small by lia. zbool. cbn [orb].
  destruct (sealed_fields (d ++ sealed flt) x ft (blen d + blen flt + 4) (blen x)) as [F1 F2]; [len|done|].
  rewrite <- !app_assoc in F1, F2. rewrite F1, F2. cbn [of_option rbind]. rewrite Z.eqb_refl. cbn [negb].
  pose proof (parse_index_spec (index_from 0 bs) (S (length x)) [] (index_from_fits 0 bs Hb) ltac:(fold x; lia)) as Hp.
  cbn [app] in Hp. change (blen (@nil byte)) with 0 in Hp. fold x in Hp. rewrite Hp. cbn [rbind].
  destruct (sealed_fields d flt (sealed x ++ ft) (blen d) (blen flt)) as [G1 G2]; [done..|].
  rewrite G1, G2. cbn [of_option rbind]. rewrite Z.eqb_refl. cbn [negb]. rewrite Hr. cbn [rbind].
  exact Hopen.
Qed.

(** Opening a table written to disk, when the calls of [Open] do not fail. *)
Lemma open_file `{Os} path f fn σ :
  fs σ !! path = Some f -> io σ = [] -> kFooterSize <= blen (f_data f) ->
  SSTableReader_Open path fn σ = (open_mapped path (f_data f) fn, σ).
Proof.
  intros Hf Hio Hsz. destruct σ as [m os]. cbn [io fs] in *. subst os.
  unfold SSTableReader_Open, open_rdonly, next_io. cbn [io fs]. rewrite Hf. zbool. done.
Qed.

Lemma next_io_fs σ o σ' : next_io σ = (o, σ') -> fs σ' = fs σ.
Proof. unfold next_io. destruct (io σ); by intros [= <- <-]. Qed.
Lemma close_fs σ : fs (close σ).2 = fs σ.
Proof. unfold close, sys, next_io. by destruct (io σ) as [|[| |]]. Qed.
Lemma close_errno_fs e σ : fs (close_errno e σ).2 = fs σ.
Proof. unfold close_errno. pose proof (close_fs σ). by destruct (close σ) as [[|] ?]. Qed.

(** Opening a well-formed file under faults: the reader, or an I/O error. *)
Lemma open_cases `{Os} path fn σ f r res σ' :
  fs σ !! path = Some f -> kFooterSize <= blen (f_data f) -> open_mapped path (f_data f) fn = Ok r ->
  SSTableReader_Open path fn σ = (res, σ') ->
  fs σ' = fs σ /\ (res = Ok r \/ exists s, res = Err s /\ ok s = false).
Proof.
  intros Hf Hsz Hr. unfold SSTableReader_Open, open_rdonly.
  destruct (next_io σ) as [o1 σ1] eqn:E1. pose proof (next_io_fs _ _ _ E1) as F1. rewrite F1, Hf.
  destruct o1 as [|n|e]; [| |intros [= <- <-]; split; [done|]; right; by eexists].
  all: destruct (next_io σ1) as [o2 σ2] eqn:E2; pose proof (next_io_fs _ _ _ E2) as F2.
  all: pose proof (close_errno_fs) as Fc.
  all: destruct o2 as [|n2|e2]; [| |specialize (Fc e2 σ2); destruct (close_errno e2 σ2) as [e' σ'']; cbn [snd] in Fc;
         intros [= <- <-]; split; [congruence|]; right; by eexists].
  all: zbool; destruct (next_io σ2) as [o3 σ3] eqn:E3; pose proof (next_io_fs _ _ _ E3) as F3.
  all: destruct o3 as [|n3|e3]; [| |specialize (Fc e3 σ3); destruct (close_errno e3 σ3) as [e' σ'']; cbn [snd] in Fc;
         intros [= <- <-]; split; [congruence|]; right; by eexists].
  all: rewrite Hr; intros [= <- <-]; rewrite close_fs; split; [congruence|by left].
Qed.

(** ** Lemmas: point lookups *)

(** [P] tells the truth about the blocks of [r]. *)
Definition reader_truth (P : CacheKey -> bytes -> Prop) (r : SSTableReader) : Prop :=
  forall i e blk, r_index_ r !! i = Some e -> ReadBlock r i = Ok blk ->
  forall b, P (file_number_ r, ie_offset e) b <-> b = blk.

Definition rs_inv (P : CacheKey -> bytes -> Prop) (rs : ReadState) : Prop :=
  match rs_cache rs with Some c => cache_inv P c | None => True end.

(** At most one block was read. *)
Definition one_more (rs rs' : ReadState) : Prop :=
  blocks_read_ rs' = blocks_read_ rs \/ blocks_read_ rs' = blocks_read_ rs +u64 1.

(** Through a coherent cache or without one, [GetBlock] returns the block. *)
Lemma GetBlock_spec P r i e blk rs :
  reader_truth P r -> rs_inv P rs ->
  r_index_ r !! i = Some e -> ReadBlock r i = Ok blk -> blen blk < 2 ^ 32 ->
  exists rs', GetBlock r i rs = Ok (inr blk, rs') /\ rs_inv P rs' /\ one_more rs rs'.
Proof.
  intros HP Hrs He Hblk Hlen. unfold GetBlock. rewrite He. cbn [of_option rbind].
  unfold rs_inv in Hrs. destruct rs as [[c|] n]; cbn [rs_cache blocks_read_] in *.
  - destruct (cache_lookup_inv P c (file_number_ r) (ie_offset e) Hrs) as ([b|] & c' & -> & Hc' & Hr); cbn [rbind].
    + apply (HP i e blk He Hblk) in Hr as ->. eexists. split; [done|]. split; [done|by left].
    + rewrite Hblk. cbn [count_block rs_cache blocks_read_].
      assert (P (file_number_ r, ie_offset e) blk) as Hp by (by apply (HP i e blk)).
      destruct (cache_insert_inv P c' _ _ blk Hc' Hlen Hp Hr) as (c2 & -> & Hc2). cbn [rbind].
      eexists. split; [done|]. split; [done|by right].
  - cbn [rbind]. rewrite Hblk. cbn [count_block rs_cache blocks_read_].
    eexists. split; [done|]. split; [done|by right].
Qed.

Definition filter_passes (r : SSTableReader) (key : bytes) : result bool :=
  if filter_enabled_ r && valid (filter_ r) then MayContain (filter_ r) key else Ok true.

(** The filter of a well-formed table lets every key of the table through. *)
Lemma filter_passes_ok r bs key :
  table_ok r bs ->
  exists b, filter_passes r key = Ok b /\ (b = false -> assoc (concat bs) key = None).
Proof.
  intros Ht. unfold filter_passes. destruct (filter_enabled_ r); [|by exists true]. cbn [andb].
  destruct (valid (filter_ r)) eqn:Ev; [|by exists true]. by apply (to_filter _ _ Ht).
Qed.

Definition scan_block (key : bytes) (x : (Status + bytes) * ReadState)
  : result ((LookupResult.t * option bytes) * Status * ReadState) :=
  match x.1 with
  | inl s => Ok ((LookupResult.kNotFound, None), s, x.2)
  | inr block => let* found := get_scan (S (length block)) block 0 key in Ok (found, Status_OK, x.2)
  end.

(** Where a lookup that the filter lets through goes: to the last block that
    starts at or before the key. *)
Lemma Get_reaches r lo hi key rs :
  r_index_ r = index_from 0 (lo ++ hi) -> lo ++ hi <> [] ->
  cut_at key (map block_first lo) (map block_first hi) -> filter_passes r key = Ok true ->
  SSTableReader_Get r key rs
  = match lo with
    | [] => Ok ((LookupResult.kNotFound, None), Status_OK, rs)
    | _ => let* x := GetBlock r (length lo - 1) rs in scan_block key x
    end.
Proof.
  intros Hi Hne Hc Hf. unfold SSTableReader_Get. fold (filter_passes r key). rewrite Hf, Hi. cbn [rbind negb].
  destruct (index_from 0 (lo ++ hi)) as [|i0 idx] eqn:Ei; [by destruct (lo ++ hi)|]. rewrite <- Ei.
  rewrite index_from_length.
  rewrite (upper_bound_cut _ _ key (map block_first lo) (map block_first hi)); cbn [rbind].
  - rewrite length_map. destruct lo as [|b lo]; [done|]. cbn [length Nat.eqb].
    by destruct (GetBlock r (S (length lo) - 1) rs) as [[[s|blk] rs']| |].
  - by rewrite index_from_keys, map_app.
  - done.
  - rewrite length_map, length_app. lia.
  - rewrite index_from_length. lia.
  - lia.
Qed.

(** A lookup that the filter lets through: a key before the first one needs no
    block, any other is decided by one block. *)
Lemma Get_through r bs key rs :
  table_ok r bs -> bs <> [] -> filter_passes r key = Ok true ->
  (str_lt key (block_first (concat bs)) /\
   SSTableReader_Get r key rs = Ok (lookup_of (assoc (concat bs) key), Status_OK, rs)) \/
  exists i e b, r_index_ r !! i = Some e /\ ReadBlock r i = Ok (block_bytes b) /\ blen (block_bytes b) < 2 ^ 32 /\
    forall rs', GetBlock r i rs = Ok (inr (block_bytes b), rs') ->
      SSTableReader_Get r key rs = Ok (lookup_of (assoc (concat bs) key), Status_OK, rs').
Proof.
  intros Ht Hne Hf. pose proof (to_blocks _ _ Ht) as Hb. pose proof (to_sorted _ _ Ht) as Hs.
  pose proof (blocks_nonempty _ Hb) as Hbn.
  destruct (blocks_cut bs key Hbn Hs) as (lo & hi & -> & Hc).
  rewrite (Get_reaches r lo hi key rs (to_index _ _ Ht) Hne Hc Hf).
  destruct lo as [|b lo' _] using rev_ind.
  { left. cbn [app] in *. rewrite (assoc_after_cut [] hi key) by (done || apply Hc). split; [|done].
    destruct hi as [|h hi]; [done|]. destruct Hc as [_ [Hlt _]%Forall_cons]. apply Forall_cons in Hbn as [Hh _].
    by destruct h. }
  right. rewrite <- app_assoc in *. cbn [app] in *. rewrite length_app. cbn [length].
  replace (length lo' + 1 - 1)%nat with (length lo') by lia.
  pose proof Hb as Hb'. apply Forall_app in Hb' as [_ [(_ & Hbr & Hbl) _]%Forall_cons].
  pose proof (index_from_lookup 0 lo' b hi) as Hie. rewrite <- (to_index _ _ Ht) in Hie.
  eexists (length lo'), _, b. split; [exact Hie|]. split; [by apply (ReadBlock_ok _ _ _ _ Ht)|]. split; [lia|].
  intros rs' E. transitivity (scan_block key (inr (block_bytes b), rs')); [by destruct lo'; cbn [app]; rewrite E|].
  pose proof (get_scan_spec b (S (length (block_bytes b))) [] key Hbr) as Hscan.
  cbn [app] in Hscan. change (blen (@nil byte)) with 0 in Hscan.
  unfold scan_block. cbn [fst snd]. rewrite Hscan.
  - cbn [rbind]. by rewrite assoc_cut.
  - rewrite concat_app in Hs. cbn [concat] in Hs. by apply sorted_keys_app in Hs as (_ & (? & _)%sorted_keys_app & _).
  - pose proof (block_len_ge b). lia.
Qed.

(** A lookup that the filter rules out. *)
Lemma Get_ruled_out r bs key rs :
  table_ok r bs -> filter_passes r key = Ok false ->
  SSTableReader_Get r key rs = Ok (lookup_of (assoc (concat bs) key), Status_OK, rs).
Proof.
  intros Ht Hf. destruct (filter_passes_ok r bs key Ht) as (may & Hf' & Hmay). rewrite Hf in Hf'. injection Hf' as <-.
  rewrite Hmay by done. unfold SSTableReader_Get. fold (filter_passes r key). rewrite Hf. by destruct (r_index_ r).
Qed.

(** Lookups in a well-formed table. *)
Lemma Get_ok P r bs key rs :
  table_ok r bs -> reader_truth P r -> rs_inv P rs ->
  exists rs', SSTableReader_Get r key rs = Ok (lookup_of (assoc (concat bs) key), Status_OK, rs') /\
    rs_inv P rs' /\ one_more rs rs'.
Proof.
  intros Ht HP Hrs. assert (one_more rs rs) as H0 by (by left).
  destruct (decide (bs = [])) as [->|Hne].
  { exists rs. unfold SSTableReader_Get. by rewrite (to_index _ _ Ht). }
  destruct (filter_passes_ok r bs key Ht) as ([] & Hf & _); [|exists rs; split; [by apply Get_ruled_out|done]].
  destruct (Get_through r bs key rs Ht Hne Hf) as [(_ & E)|(i & e & b & He & Hblk & Hl & HG)]; [by exists rs|].
  destruct (GetBlock_spec P r i e _ rs HP Hrs He Hblk Hl) as (rs' & E & ?). exists rs'. split; [by apply HG|done].
Qed.

(** Lookups without a cache copy one block for each key that is not before the
    first one and that the filter lets through. *)
Lemma Get_uncached r bs key n b :
  table_ok r bs -> bs <> [] -> str_le (block_first (concat bs)) key -> filter_passes r key = Ok b ->
  SSTableReader_Get r key (mkReadState None n)
  = Ok (lookup_of (assoc (concat bs) key), Status_OK, mkReadState None (if b then n +u64 1 else n)).
Proof.
  intros Ht Hne Hle Hf. destruct b; [|by apply Get_ruled_out].
  destruct (Get_through r bs key (mkReadState None n) Ht Hne Hf) as [(Hlt & _)|(i & e & b & He & Hblk & _ & HG)].
  - exfalso. str_order.
  - apply HG. unfold GetBlock. rewrite He. cbn [of_option rbind rs_cache]. by rewrite Hblk.
Qed.

(** ** Lemmas: a session of writing, opening and reading *)

(** The limits within which the format's fixed-width fields hold: records of at
    most 2 GiB, [2^30] records, a bit array that the filter header can express,
    and a file size within [off_t]. *)
Record table_fits (bs bpk : Z) (es : list entry) : Prop := {
  tf_block : 0 <= bs <= 2 ^ 30;
  tf_recs : Forall rec_fits es;
  tf_sorted : sorted_keys es;
  tf_count : blen es <= 2 ^ 30;
  tf_bloom : 0 <= blen es * bpk <= 2 ^ 32 - 8;
  tf_size : blen (table_bytes (chunks bs es) (filter_of bpk es)) < 2 ^ 63 }.

Definition payload (es : list entry) : Z :=
  foldr Z.add 0 (map (fun e => blen (e_key e) + blen (e_value e)) es).

Lemma payload_app a b : payload (a ++ b) = payload a + payload b.
Proof. unfold payload. induction a as [|e a IH]; simpl in *; lia. Qed.

Lemma payload_bound es : Forall rec_fits es -> 0 <= payload es <= 2 ^ 31 * blen es.
Proof.
  unfold payload, rec_fits. induction 1 as [|e es He _ IH]; simpl; [done|]. rewrite blen_cons. len.
Qed.

Lemma blen_block es : blen (block_bytes es) = 9 * blen es + payload es.
Proof.
  unfold payload. induction es as [|e es IH]; [done|]. rewrite block_bytes_cons, blen_app, blen_record, IH, blen_cons.
  simpl. lia.
Qed.

(** The size of a file is linear in its records. *)
Lemma blen_data_index off bs :
  Forall nonempty bs ->
  blen (data_bytes bs) <= 13 * blen (concat bs) + payload (concat bs) /\
  blen (index_bytes (index_from off bs)) <= 16 * blen (concat bs) + payload (concat bs).
Proof.
  intros Hb. revert off. induction Hb as [|b bs Hne Hb IH]; intros off; [done|].
  cbn [concat index_from]. rewrite data_bytes_cons, payload_app, !blen_app, blen_sealed, blen_block.
  destruct (IH (off + (9 * blen b + payload b) + 4)) as [IH1 IH2].
  unfold index_bytes in *. cbn [map concat]. rewrite blen_app, blen_index_entry. cbn [first_key].
  destruct b as [|e b]; [done|]. cbn [block_first]. rewrite !blen_cons in *.
  assert (0 <= payload b /\ blen (e_key e) <= payload (e :: b)) as [Hp0 Hpe].
  { assert (forall l, 0 <= payload l) as Hp by (unfold payload; induction l; simpl in *; len).
    split; [apply Hp|]. specialize (Hp b). unfold payload in *. simpl. len. }
  assert (0 <= payload (e :: b)) by (pose proof (blen_nonneg (e_key e)); lia).
  learn_len. lia.
Qed.

Lemma chunks_ok bs es : 0 <= bs <= 2 ^ 30 -> Forall rec_fits es -> Forall block_ok (chunks bs es).
Proof.
  intros Hbs Hes. apply (chunk_close_ok bs); [done|].
  assert (forall st, chunk_ok bs st -> chunk_ok bs (fold_left (chunk_add bs) es st)) as Hf.
  { induction Hes as [|e es He Hes IH]; intros st Hst; simpl; [done|]. apply IH.
    by apply chunk_add_ok. }
  apply Hf. by split_and!.
Qed.

Lemma filter_len bpk es :
  0 <= blen es * bpk <= 2 ^ 32 - 8 -> blen (filter_of bpk es) <= 2 ^ 29 + 4.
Proof.
  intros Hb. rewrite <- (blen_map e_key) in Hb. unfold filter_of. rewrite Finish_shape by done.
  rewrite !blen_app, fill_length, blen_le_split by done.
  pose proof (bloom_bytes_range bpk (length (map e_key es)) Hb) as [Hr _].
  change (blen [byte_of (ProbesForBitsPerKey bpk)]) with 1. lia.
Qed.

(** The file size follows from the other limits. *)
Lemma table_fits_intro bs bpk es :
  0 <= bs <= 2 ^ 30 -> Forall rec_fits es -> sorted_keys es -> blen es <= 2 ^ 30 ->
  0 <= blen es * bpk <= 2 ^ 32 - 8 -> table_fits bs bpk es.
Proof.
  intros Hbs Hr Hs Hn Hb. split; try done.
  pose proof (blen_data_index 0 (chunks bs es) (blocks_nonempty _ (chunks_ok bs es Hbs Hr))) as [Hd Hi].
  rewrite chunks_concat in *. pose proof (payload_bound es Hr). pose proof (filter_len bpk es Hb).
  unfold table_bytes. rewrite !blen_app, blen_footer, !blen_sealed. unfold kFooterSize. lia.
Qed.

(** A table whose file holds what a writing session leaves. *)
Lemma session_open path bs bpk es fn :
  table_fits bs bpk es ->
  exists r, open_mapped path (table_bytes (chunks bs es) (filter_of bpk es)) fn = Ok r /\
    table_ok r (chunks bs es) /\ file_number_ r = fn /\ r_num_entries_ r = blen es /\
    base_ r = table_bytes (chunks bs es) (filter_of bpk es).
Proof.
  intros [Hb Hr Hs Hn Hf Hsz].
  pose proof (open_table path (chunks bs es) bpk fn) as Ho. rewrite chunks_concat in Ho.
  destruct Ho as (r & ? & ? & ? & _ & ? & ? & _); try done; [by apply chunks_ok| |by exists r].
  etransitivity; [apply concat_len_ge|by rewrite chunks_concat].
  eapply Forall_impl; [by apply (chunks_ok bs es)|]. by intros b (? & _).
Qed.

(** A writer that has taken the records [es]. *)
Definition writer_has (path : bytes) (bs bpk : Z) (es : list entry) (w : SSTableWriter) (σ : World) : Prop :=
  let st := fold_left (chunk_add bs) es ([], []) in
  writer_at path bs bpk st w σ /\ chunk_ok bs st /\ w_finished_ w = false.

(** Finishing a writer and opening its file, under faults. *)
Lemma finish_reopen `{Os} path bs bpk es w σ s3 w3 σ3 :
  table_fits bs bpk es -> writer_has path bs bpk es w σ -> SSTableWriter_Finish w σ = (s3, w3, σ3) ->
  let data := table_bytes (chunks bs es) (filter_of bpk es) in
  others_kept path σ σ3 /\
  (ok s3 = true ->
   w_fd_ w3 = None /\ FileSize w3 = blen data /\ NumEntries w3 = blen es /\
   forall fn res σ4, SSTableReader_Open path fn σ3 = (res, σ4) ->
     others_kept path σ σ4 /\ fs σ4 !! path = Some (mkFile data (blen data)) /\
     ((exists r, res = Ok r /\ table_ok r (chunks bs es) /\ file_number_ r = fn /\ base_ r = data) \/
      exists s, res = Err s /\ ok s = false)).
Proof.
  intros Hfit (Hw & Hc & Hfin) E3 data.
  destruct (Finish_spec _ _ _ _ _ _ _ _ _ (tf_block _ _ _ Hfit) Hw Hc Hfin E3) as [Ho Hok].
  assert (chunk_all (fold_left (chunk_add bs) es ([], [])) = es) as Ha.
  { rewrite <- (chunks_concat bs es) at 2. unfold chunks. by rewrite chunk_close_all. }
  rewrite Ha in Hok. fold (chunks bs es) in Hok. fold data in Hok.
  split; [done|]. intros Hs. destruct (Hok Hs) as (Hf3 & Hfd & Hsize & Hnum).
  pose proof (tf_size _ _ _ Hfit) as Hsz. pose proof (tf_count _ _ _ Hfit). fold data in Hsz.
  rewrite u64_small in Hsize by (pose proof (blen_nonneg data); lia).
  rewrite u64_small in Hnum by (pose proof (blen_nonneg es); lia).
  split_and!; try done. intros fn res σ4 E4.
  destruct (session_open path _ _ _ fn Hfit) as (r & Hopen & Ht & Hfn & _ & Hbase). fold data in Hopen, Hbase.
  assert (kFooterSize <= blen (f_data (mkFile data (blen data)))) as Hbig.
  { unfold data, table_bytes. cbn [f_data]. rewrite !blen_app, blen_footer. len. }
  destruct (open_cases path fn _ _ r res σ4 Hf3 Hbig Hopen E4) as [Hfs Hres].
  split; [intros p Hp; by rewrite Hfs, Ho|]. rewrite Hfs. split; [done|].
  destruct Hres as [->|]; [left; by exists r|by right].
Qed.

(** Opening a writer and adding records to it. *)
Lemma open_writer_has `{Os} path bs bpk σ s w σ' :
  SSTableWriter_Open (SSTableWriter_new path bs bpk) σ = (s, w, σ') ->
  others_kept path σ σ' /\ (ok s = true -> writer_has path bs bpk [] w σ').
Proof.
  intros E. destruct (writer_open _ _ _ _ _ _ _ E) as [Ho Hok]. split; [done|]. intros Hs.
  destruct (Hok Hs). by split_and!.
Qed.

Lemma add_writer_has `{Os} path bs bpk es e w σ s w' σ' :
  0 <= bs <= 2 ^ 30 -> rec_fits e -> writer_has path bs bpk es w σ ->
  SSTableWriter_Add w (e_key e) (e_value e) (e_type e) σ = (s, w', σ') ->
  others_kept path σ σ' /\ (ok s = true -> writer_has path bs bpk (es ++ [e]) w' σ').
Proof.
  intros Hbs He (Hw & Hc & Hfin) E. destruct (Add_spec _ _ _ _ _ _ _ _ _ _ Hbs Hw Hc He E) as [Ho Hok].
  split; [done|]. intros Hs. destruct (Hok Hs) as [Hw' Hf']. unfold writer_has. rewrite fold_left_app. cbn [fold_left].
  split_and!; [done|by apply chunk_add_ok|congruence].
Qed.

Lemma add_all_writer_has `{Os} path bs bpk es es' w σ s w' σ' :
  0 <= bs <= 2 ^ 30 -> Forall rec_fits es' -> writer_has path bs bpk es w σ ->
  add_all w es' σ = (s, w', σ') ->
  others_kept path σ σ' /\ (ok s = true -> writer_has path bs bpk (es ++ es') w' σ').
Proof.
  intros Hbs He (Hw & Hc & Hfin) E. destruct (add_all_spec _ _ _ _ _ _ _ _ _ _ Hbs He Hw Hc E) as [Ho Hok].
  split; [done|]. intros Hs. destruct (Hok Hs) as (Hw' & Hc' & Hf'). unfold writer_has. rewrite fold_left_app.
  split_and!; [done..|congruence].
Qed.

(** Reopening, under faults, the file of a completed writing session. *)
Lemma session_reopen `{Os} path bs bpk es σ s1 w1 σ1 s2 w2 σ2 s3 w3 σ3 fn res σ4 :
  table_fits bs bpk es ->
  SSTableWriter_Open (SSTableWriter_new path bs bpk) σ = (s1, w1, σ1) -> ok s1 = true ->
  add_all w1 es σ1 = (s2, w2, σ2) -> ok s2 = true ->
  SSTableWriter_Finish w2 σ2 = (s3, w3, σ3) -> ok s3 = true ->
  SSTableReader_Open path fn σ3 = (res, σ4) ->
  let data := table_bytes (chunks bs es) (filter_of bpk es) in
  others_kept path σ σ4 /\ fs σ4 !! path = Some (mkFile data (blen data)) /\
  w_fd_ w3 = None /\ FileSize w3 = blen data /\ NumEntries w3 = blen es /\
  ((exists r, res = Ok r /\ table_ok r (chunks bs es) /\ file_number_ r = fn /\ base_ r = data) \/
   exists s, res = Err s /\ ok s = false).
Proof.
  intros Hfit E1 Ok1 E2 Ok2 E3 Ok3 E4 data.
  destruct (open_writer_has _ _ _ _ _ _ _ E1) as [Ho1 Hw1].
  destruct (add_all_writer_has _ _ _ _ _ _ _ _ _ _ (tf_block _ _ _ Hfit) (tf_recs _ _ _ Hfit) (Hw1 Ok1) E2) as [Ho2 Hw2].
  destruct (finish_reopen _ _ _ _ _ _ _ _ _ Hfit (Hw2 Ok2) E3) as [_ Hok].
  destruct (Hok Ok3) as (? & ? & ? & Hopen). destruct (Hopen _ _ _ E4) as (Ho3 & ? & ?).
  split_and!; try done. do 2 (etransitivity; [done|]). done.
Qed.

(** The truth about the blocks of a set of readers. *)
Definition blocks_truth (rs : list SSTableReader) (k : CacheKey) (b : bytes) : Prop :=
  exists r i e, r ∈ rs /\ k.1 = file_number_ r /\ r_index_ r !! i = Some e /\ ie_offset e = k.2 /\
    ReadBlock r i = Ok b.

Lemma index_offset_inj bs off i j ei ej :
  0 <= off -> off + blen (data_bytes bs) < 2 ^ 64 ->
  index_from off bs !! i = Some ei -> index_from off bs !! j = Some ej -> ie_offset ei = ie_offset ej -> i = j.
Proof.
  assert (forall bs off j ej, 0 <= off -> off + blen (data_bytes bs) < 2 ^ 64 ->
    index_from off bs !! j = Some ej -> off <= ie_offset ej) as Hge.
  { clear. induction bs as [|b bs IH]; intros off [|j] ej Hoff Hsz; simpl; try done;
      rewrite data_bytes_cons in Hsz; autorewrite with lsmlen in Hsz; learn_len.
    - intros [= <-]. simpl. rewrite u64_small by lia. lia.
    - intros Hx%IH; lia. }
  revert off i j. induction bs as [|b bs IH]; intros off [|i] [|j] Hoff Hsz; simpl; try done;
    rewrite data_bytes_cons in Hsz; autorewrite with lsmlen in Hsz; learn_len.
  - intros [= <-] Hx%Hge; [|lia..]. simpl. rewrite u64_small by lia. lia.
  - intros Hx%Hge [= <-]; [|lia..]. simpl. rewrite u64_small by lia. lia.
  - intros Hi Hj He. f_equal. by eapply (IH (off + blen (block_bytes b) + 4)); [lia|lia|..].
Qed.

(** Readers with distinct file numbers share one truth. *)
Lemma blocks_truth_ok rs r :
  (forall r', r' ∈ rs -> exists bs, table_ok r' bs) ->
  (forall r', r' ∈ rs -> file_number_ r' = file_number_ r -> r' = r) -> r ∈ rs ->
  reader_truth (blocks_truth rs) r.
Proof.
  intros Hok Huniq Hin i e blk He Hblk b. split.
  - intros (r' & i' & e' & Hr' & Hn & He' & Ho & Hb'). simpl in Hn, Ho.
    rewrite (Huniq r') in * by done. destruct (Hok r Hin) as [bs Ht].
    rewrite (to_index _ _ Ht) in *. destruct (to_data _ _ Ht) as [tl Hd].
    pose proof (to_size _ _ Ht) as Hsz. unfold file_size_ in Hsz. rewrite Hd in Hsz.
    assert (i = i') as <- by (eapply index_offset_inj; [| |done..|]; [lia|len|done]).
    congruence.
  - intros ->. exists r, i, e. by split_and!.
Qed.

(** A sequence of lookups through one cache. *)
Fixpoint get_seq (r : SSTableReader) (keys : list bytes) (rs : ReadState)
  : result (list ((LookupResult.t * option bytes) * Status)) :=
  match keys with
  | [] => Ok []
  | k :: keys' =>
      let* (a, rs) := SSTableReader_Get r k rs in
      let* rest := get_seq r keys' rs in
      Ok (a :: rest)
  end.

Lemma get_seq_ok P r bs keys rs :
  table_ok r bs -> reader_truth P r -> rs_inv P rs ->
  get_seq r keys rs = Ok (map (fun k => (lookup_of (assoc (concat bs) k), Status_OK)) keys).
Proof.
  intros Ht HP. revert rs. induction keys as [|k keys IH]; intros rs Hrs; [done|]. cbn [get_seq map].
  destruct (Get_ok P r bs k rs Ht HP Hrs) as (rs' & -> & Hrs' & _). cbn [rbind]. by rewrite IH.
Qed.

(** ** Properties *)

(** C11 (round trip). Whatever the system calls do (short writes, interrupts,
    failures), if a writing session over sorted records reports success at every
    step, then the file is durable and complete: opening it succeeds, the
    reader's smallest and largest key and entry count are those of the records,
    and every sequence of lookups, with a shared LRU cache of any capacity or
    with none, returns for each key exactly the record written (value, tombstone
    or "not found") with an OK status. *)
Theorem sstable_write_open_get `{Os} path bs bpk es σ s1 w1 σ1 s2 w2 σ2 s3 w3 σ3 fn keys cap :
  table_fits bs bpk es -> 0 <= cap < 2 ^ 63 ->
  SSTableWriter_Open (SSTableWriter_new path bs bpk) σ = (s1, w1, σ1) -> ok s1 = true ->
  add_all w1 es σ1 = (s2, w2, σ2) -> ok s2 = true ->
  SSTableWriter_Finish w2 σ2 = (s3, w3, σ3) -> ok s3 = true ->
  exists f r, fs σ3 !! path = Some f /\ f_synced f = blen (f_data f) /\ FileSize w3 = blen (f_data f) /\
    SSTableReader_Open path fn (mkWorld (fs σ3) []) = (Ok r, mkWorld (fs σ3) []) /\
    smallest_key_ r = block_first es /\ largest_key_ r = last_key es /\ r_num_entries_ r = blen es /\
    forall cache, cache = None \/ cache = Some (BlockCache_new cap) ->
      get_seq r keys (mkReadState cache 0) = Ok (map (fun k => (lookup_of (assoc es k), Status_OK)) keys).
Proof.
  intros Hfit Hcap E1 H1 E2 H2 E3 H3.
  destruct (write_session _ _ _ _ _ _ _ _ _ _ _ _ _ _ (tf_block _ _ _ Hfit) (tf_recs _ _ _ Hfit) E1 H1 E2 H2 E3)
    as [_ Hok]. destruct (Hok H3) as (Hf & _ & Hsz & _).
  destruct (session_open path bs bpk es fn Hfit) as (r & Ho & Ht & Hfn & Hn & Hb).
  pose proof (tf_size _ _ _ Hfit) as Hlim. set (data := table_bytes _ _) in *.
  exists (mkFile data (blen data)), r. cbn [f_data f_synced].
  split_and!; [done|done|rewrite Hsz; apply u64_small; len| | | |done|].
  - rewrite (open_file path (mkFile data (blen data))); [cbn [f_data]; by rewrite Ho|done|done|].
    unfold data, table_bytes. cbn [f_data]. rewrite !blen_app, blen_footer. len.
  - by rewrite (to_smallest _ _ Ht), chunks_concat.
  - by rewrite (to_largest _ _ Ht), chunks_concat.
  - intros cache Hc.
    pose proof (get_seq_ok (blocks_truth [r]) r _ keys (mkReadState cache 0) Ht) as Hg.
    rewrite chunks_concat in Hg. apply Hg.
    + apply blocks_truth_ok; [|set_solver..]. intros r' ->%list_elem_of_singleton. by exists (chunks bs es).
    + destruct Hc as [->| ->]; [done|]. by apply cache_inv_new.
Qed.

(** Three records in two blocks. *)
Definition sample_records : list entry :=
  [Entry (lit "ant") (lit "1") kValue; Entry (lit "bee") [] kTombstone; Entry (lit "cat") (lit "22") kValue].

Lemma sample_fits : table_fits 20 10 sample_records.
Proof.
  split.
  - lia.
  - repeat apply Forall_cons_2; [vm_compute; discriminate..|apply Forall_nil_2].
  - repeat split; repeat constructor.
  - vm_compute. discriminate.
  - split; vm_compute; discriminate.
  - vm_compute. reflexivity.
Qed.

Lemma sstable_write_open_get_witness :
  let σ := mkWorld ∅ [IoOk; IoShort 7; IoErr EINTR; IoShort 1] in
  let o := @SSTableWriter_Open plain_os (SSTableWriter_new (lit "db/000001.sst") 20 10) σ in
  let a := @add_all plain_os o.1.2 sample_records o.2 in
  let d := @SSTableWriter_Finish plain_os a.1.2 a.2 in
  exists f r, fs d.2 !! lit "db/000001.sst" = Some f /\ f_synced f = blen (f_data f) /\
    FileSize d.1.2 = blen (f_data f) /\
    @SSTableReader_Open plain_os (lit "db/000001.sst") 1 (mkWorld (fs d.2) []) = (Ok r, mkWorld (fs d.2) []) /\
    smallest_key_ r = lit "ant" /\ largest_key_ r = lit "cat" /\ r_num_entries_ r = 3 /\
    forall cache, cache = None \/ cache = Some (BlockCache_new 100) ->
      get_seq r [lit "cat"; lit "bee"; lit "cat"; lit "dog"] (mkReadState cache 0)
      = Ok [(LookupResult.kFound, Some (lit "22"), Status_OK); (LookupResult.kDeleted, None, Status_OK);
            (LookupResult.kFound, Some (lit "22"), Status_OK); (LookupResult.kNotFound, None, Status_OK)].
Proof.
  intros σ o a d.
  apply (@sstable_write_open_get plain_os (lit "db/000001.sst") 20 10 sample_records σ o.1.1 o.1.2 o.2
    a.1.1 a.1.2 a.2 d.1.1 d.1.2 d.2 1 [lit "cat"; lit "bee"; lit "cat"; lit "dog"] 100).
  - exact sample_fits.
  - lia.
  - vm_compute. reflexivity.
  - vm_compute. reflexivity.
  - vm_compute. reflexivity.
  - vm_compute. reflexivity.
  - vm_compute. reflexivity.
  - vm_compute. reflexivity.
Defined.

(** A reader whose mapping holds other bytes. *)
Definition set_base (r : SSTableReader) (base : bytes) : SSTableReader :=
  mkReader base (r_index_ r) (filter_ r) (file_number_ r) (r_num_entries_ r) (smallest_key_ r)
    (largest_key_ r) (filter_enabled_ r).

(** The cache, if there is one, does not hold the block at [off] of file [fn]. *)
Definition cache_misses (fn off : Z) (rs rs' : ReadState) : Prop :=
  match rs_cache rs with
  | None => rs' = rs
  | Some c => exists c', BlockCache_Lookup c fn off = Ok (None, c') /\ rs' = mkReadState (Some c') (blocks_read_ rs)
  end.

(** Damage to a data block of at most four consecutive bytes never
    reaches a caller as data: reading the block reports Corruption, and a point
    lookup of a key that belongs to it, on a reader that does not have the block
    cached, returns "not found" with that Corruption status instead of a value. *)
Lemma damaged_block_is_reported r a b c pre good bad post key e tl rs rs' :
  table_ok r (a ++ b :: c) -> block_bytes b = pre ++ good ++ post ->
  length good = length bad -> (length good <= 4)%nat -> good <> bad ->
  base_ r = data_bytes a ++ sealed (block_bytes b) ++ tl ->
  e ∈ b -> e_key e = key -> cache_misses (file_number_ r) (blen (data_bytes a)) rs rs' ->
  let damaged := set_base r (data_bytes a ++ (pre ++ bad ++ post) ++ fixed32 (Crc32 (block_bytes b)) ++ tl) in
  ReadBlock damaged (length a) = Err (Status_Corruption (lit "block CRC mismatch")) /\
  SSTableReader_Get damaged key rs
  = Ok ((LookupResult.kNotFound, None), Status_Corruption (lit "block CRC mismatch"), rs').
Proof.
  intros Ht Hb Hl Hle Hne Hbase He Hk Hca damaged.
  assert (file_size_ damaged = file_size_ r) as Hsz.
  { unfold file_size_. cbn [damaged set_base base_]. rewrite Hbase, Hb. unfold sealed, blen.
    rewrite !length_app, !le_split_length. lia. }
  assert (ReadBlock damaged (length a) = Err (Status_Corruption (lit "block CRC mismatch"))) as Hread.
  { rewrite (ReadBlock_raw damaged (data_bytes a) a b c (pre ++ bad ++ post) (Crc32 (block_bytes b)) tl).
    - destruct (Z.eqb_spec (Crc32 (pre ++ bad ++ post)) (Crc32 (block_bytes b))) as [E|]; [|done].
      rewrite Hb in E. symmetry in E. apply Crc32_window in E; done.
    - done.
    - done.
    - rewrite Hb. unfold blen. rewrite !length_app. lia.
    - apply Crc32_range.
    - rewrite Hsz. apply Ht.
    - apply Ht. }
  split; [done|]. pose proof (to_blocks _ _ Ht) as Hbs. pose proof (to_sorted _ _ Ht) as Hs.
  pose proof (cut_of_member a b c e (blocks_nonempty _ Hbs) Hs He) as Hcut. rewrite Hk in Hcut.
  destruct (filter_passes_ok r _ key Ht) as ([|] & Hf & Hmay).
  2: { exfalso. specialize (Hmay eq_refl). rewrite assoc_None, Forall_forall in Hmay. apply (Hmay e); [|done].
       rewrite concat_app. cbn [concat]. set_solver. }
  rewrite (Get_reaches damaged (a ++ [b]) c key); try done.
  - rewrite length_app. cbn [length]. replace (length a + 1 - 1)%nat with (length a) by lia.
    assert (GetBlock damaged (length a) rs = Ok (inl (Status_Corruption (lit "block CRC mismatch")), rs')) as ->.
    { unfold GetBlock. pose proof (index_from_lookup 0 a b c) as Hie.
      rewrite <- (to_index _ _ Ht) in Hie. change (r_index_ damaged) with (r_index_ r).
      rewrite Hie. cbn [of_option rbind ie_offset]. rewrite u64_small.
      2: { pose proof (to_size _ _ Ht) as Hs63. unfold file_size_ in Hs63. rewrite Hbase, blen_app in Hs63.
           pose proof (blen_nonneg (data_bytes a)). pose proof (blen_nonneg (sealed (block_bytes b) ++ tl)). lia. }
      change (file_number_ damaged) with (file_number_ r). rewrite Z.add_0_l. unfold cache_misses in Hca. destruct (rs_cache rs) as [ch|].
      - destruct Hca as (c' & E & ->). rewrite E. cbn [rbind]. by rewrite Hread.
      - subst rs'. cbn [rbind]. by rewrite Hread. }
    by destruct a.
  - rewrite <- app_assoc. apply Ht.
  - by destruct a.
Qed.

Lemma damaged_block_is_reported_witness :
  exists r,
    let b := [Entry (lit "ant") (lit "1") kValue; Entry (lit "bee") [] kTombstone] in
    let c := [Entry (lit "cat") (lit "22") kValue] in
    let filter := filter_of 10 sample_records in
    let tl := drop (length (sealed (block_bytes b))) (table_bytes [b; c] filter) in
    let damaged := set_base r (take 9 (block_bytes b) ++ lit "cow" ++ drop 12 (block_bytes b)
                                 ++ fixed32 (Crc32 (block_bytes b)) ++ tl) in
    open_mapped (lit "t") (table_bytes [b; c] filter) 1 = Ok r /\
    SSTableReader_Get damaged (lit "ant") (mkReadState None 0)
    = Ok ((LookupResult.kNotFound, None), Status_Corruption (lit "block CRC mismatch"), mkReadState None 0).
Proof.
  set (b := [Entry (lit "ant") (lit "1") kValue; Entry (lit "bee") [] kTombstone]).
  set (c := [Entry (lit "cat") (lit "22") kValue]).
  set (tl := drop (length (sealed (block_bytes b))) (table_bytes [b; c] (filter_of 10 sample_records))).
  destruct (session_open (lit "t") 20 10 sample_records 1 sample_fits) as (r & Ho & Ht & _ & _ & Hb).
  exists r. split; [exact Ho|].
  apply (damaged_block_is_reported r [] b [c] (take 9 (block_bytes b)) (lit "ant") (lit "cow")
    (drop 12 (block_bytes b)) (lit "ant") (Entry (lit "ant") (lit "1") kValue) tl (mkReadState None 0) (mkReadState None 0)).
  - exact Ht.
  - vm_compute. reflexivity.
  - reflexivity.
  - simpl. lia.
  - discriminate.
  - rewrite Hb. vm_compute. reflexivity.
  - left.
  - reflexivity.
  - reflexivity.
Qed.

(** The bound check on the footer's offsets is 64-bit arithmetic that
    wraps: a file with a valid magic number whose index offset is [2^64 - 4]
    passes it, and [Open] goes on to read outside the mapping. *)
Theorem footer_bound_check_wraps `{Os} path fn m :
  m !! path = Some (mkFile (footer_bytes 0 0 (2 ^ 64 - 4) 0 0) 44) ->
  SSTableReader_Open path fn (mkWorld m []) = (UB, mkWorld m []).
Proof.
  intros Hm. rewrite (open_file path (mkFile (footer_bytes 0 0 (2 ^ 64 - 4) 0 0) 44)).
  - cbn [f_data]. f_equal.
  - done.
  - done.
  - cbn [f_data]. by rewrite blen_footer.
Qed.

Lemma footer_bound_check_wraps_witness :
  let m := {[ lit "f.sst" := mkFile (footer_bytes 0 0 (2 ^ 64 - 4) 0 0) 44 ]} in
  @SSTableReader_Open plain_os (lit "f.sst") 7 (mkWorld m []) = (UB, mkWorld m []).
Proof. intros m. apply (@footer_bound_check_wraps plain_os (lit "f.sst") 7 m). vm_compute. reflexivity. Defined.
