(* ===== verification/Damage.v ===== *)
(** Damage to a table's file on disk (sstable.cpp): a burst of up to four bytes
    anywhere before the footer, in a block, in the filter, in the index or in the
    stored checksums, also across the border of two of them. Every section carries
    its checksum, so that none of them is taken for what it was not. *)
From S2P Require Import Prelude Types Coding Crc32 Bloom Cache Posix TableFormat TableWriter TableReader.

(** ** Codewords *)

(** Data followed by its checksum leaves the register in one state, whatever the
    data. *)
Lemma sealed_residue b : crc_run 0xFFFFFFFF (sealed b) = crc_bits 32 0xFFFFFFFF.
Proof.
  unfold sealed. rewrite crc_run_app, (crc_run_load (fixed32 _)). pose proof (Crc32_range b) as Hr. unfold is_u32 in Hr.
  rewrite le_split_length, le_load_split. change (256 ^ Z.of_nat 4) with (2 ^ 32). rewrite Z.mod_small by done. rewrite Crc32_run.
  set (x := crc_run _ b). rewrite <- Z.lxor_assoc, Z.lxor_nilpotent, Z.lxor_0_l. done.
Qed.

(** Equal length, and equal but for a window of four bytes. *)
Definition near (s t : bytes) : Prop :=
  length s = length t /\ exists i, forall j, (j < i \/ i + 4 <= j)%nat -> s !! j = t !! j.

Lemma near_refl s : near s s.
Proof. split; [done|]. by exists O. Qed.

Lemma near_cut s l n : (length l <= 4)%nat -> (n + length l <= length s)%nat -> near s (take n s ++ l ++ drop (n + length l) s).
Proof.
  intros Hl Hn. assert (length (take n s) = n) as Ht by (apply length_take_le; lia). split.
  { rewrite !length_app, Ht, length_drop. lia. }
  exists n. intros j [Hj|Hj].
  - by rewrite lookup_app_l, lookup_take_lt by lia.
  - rewrite app_assoc, lookup_app_r, length_app, Ht, lookup_drop by (rewrite length_app; lia). f_equal. lia.
Qed.

Lemma near_window s t :
  near s t -> exists p g b q, s = p ++ g ++ q /\ t = p ++ b ++ q /\ length g = length b /\ (length g <= 4)%nat.
Proof.
  intros [Hl [i Hi]]. exists (take i s), (take 4 (drop i s)), (take 4 (drop i t)), (drop 4 (drop i s)).
  assert (take i s = take i t) as Et.
  { apply list_eq. intros j. destruct (decide (j < i)%nat); [rewrite !lookup_take_lt by done; auto|by rewrite !lookup_take_ge by lia]. }
  assert (drop 4 (drop i s) = drop 4 (drop i t)) as Ed.
  { rewrite !drop_drop. apply list_eq. intros j. rewrite !lookup_drop. apply Hi. lia. }
  split_and!.
  - by rewrite !take_drop.
  - by rewrite Ed, Et, !take_drop.
  - rewrite !length_take, !length_drop. lia.
  - rewrite length_take. lia.
Qed.

(** A part of a damaged string is damaged by the part of the burst that fell on
    it. *)
Lemma near_app a b t : near (a ++ b) t -> exists a' b', t = a' ++ b' /\ near a a' /\ near b b'.
Proof.
  intros [Hl [i Hi]]. rewrite length_app in Hl. exists (take (length a) t), (drop (length a) t). split; [by rewrite take_drop|]. split.
  - split; [rewrite length_take; lia|]. exists i. intros j Hj. destruct (decide (j < length a)%nat) as [Hlt|].
    + rewrite lookup_take_lt, <- Hi, lookup_app_l by done. done.
    + rewrite lookup_take_ge by lia. apply lookup_ge_None. lia.
  - split; [rewrite length_drop; lia|]. exists (i - length a)%nat. intros j Hj. rewrite lookup_drop, <- Hi by lia.
    rewrite lookup_app_r by lia. f_equal. lia.
Qed.

(** Two codewords are not near each other. *)
Lemma near_sealed_inj a b : near (sealed a) (sealed b) -> a = b.
Proof.
  intros (p & g & h & q & Ea & Eb & Hl & Hle)%near_window.
  assert (g = h) as ->.
  { pose proof (sealed_residue a) as Ra. pose proof (sealed_residue b) as Rb. rewrite Ea in Ra. rewrite Eb in Rb. rewrite <- Rb in Ra.
    rewrite !crc_run_app in Ra. assert (is_u32 0xFFFFFFFF) as Hu by (unfold is_u32; lia).
    apply (crc_run_inj_reg q) in Ra; [|apply crc_run_range, crc_run_range, Hu..].
    apply (crc_run_inj_data g h (crc_run 0xFFFFFFFF p)) in Ra; [exact Ra|apply crc_run_range, Hu|exact Hl|exact Hle]. }
  rewrite <- Eb in Ea. unfold sealed in Ea. apply (f_equal length) in Ea as El. rewrite !length_app, !le_split_length in El.
  apply app_len_inj in Ea as [? _]; [done|]. unfold blen. lia.
Qed.

(** A damaged section: as it was, or with a checksum that does not fit. *)
Lemma near_sealed b s :
  near (sealed b) s -> exists d c, s = d ++ fixed32 c /\ blen d = blen b /\ is_u32 c /\ (Crc32 d = c -> d = b).
Proof.
  intros Hn. pose proof Hn as [Hl _]. unfold sealed in Hl. rewrite length_app, le_split_length in Hl.
  set (c := le_load (drop (length b) s)). assert (length (drop (length b) s) = 4%nat) as H4 by (rewrite length_drop; lia).
  assert (drop (length b) s = fixed32 c) as Hc by (unfold c; rewrite <- H4; by rewrite le_split_load).
  exists (take (length b) s), c. rewrite <- Hc, take_drop. split; [done|]. split; [unfold blen; rewrite length_take; lia|]. split.
  - unfold c. pose proof (le_load_range (drop (length b) s)) as Hr. unfold blen in Hr. rewrite H4 in Hr. exact Hr.
  - intros Ec. symmetry. apply near_sealed_inj. unfold sealed at 2. rewrite Ec, <- Hc, take_drop. done.
Qed.

(** ** Sections of a damaged file *)

Lemma near_data bs t :
  near (data_bytes bs) t -> exists ss, t = concat ss /\ Forall2 (fun b s => near (sealed (block_bytes b)) s) bs ss.
Proof.
  revert t. induction bs as [|b bs IH]; intros t Hn.
  - exists []. destruct Hn as [Hl _]. by destruct t.
  - rewrite data_bytes_cons in Hn. apply near_app in Hn as (s & t' & -> & Hs & (ss & -> & Hss)%IH). exists (s :: ss). split; [done|]. by constructor.
Qed.

Lemma damaged_length bs ss : Forall2 (fun b s => near (sealed (block_bytes b)) s) bs ss -> blen (concat ss) = blen (data_bytes bs).
Proof.
  induction 1 as [|b s bs ss [Hl _] _ IH]; [done|]. rewrite data_bytes_cons. cbn [concat]. rewrite !blen_app, IH. unfold blen. lia.
Qed.

Definition mismatch : Status := Status_Corruption (lit "block CRC mismatch").

(** A block of a damaged file reads as it was, or is reported. *)
Lemma ReadBlock_damaged r bs ss tail i :
  base_ r = concat ss ++ tail -> Forall2 (fun b s => near (sealed (block_bytes b)) s) bs ss ->
  file_size_ r < 2 ^ 63 -> r_index_ r = index_from 0 bs -> (i < length bs)%nat ->
  exists b, bs !! i = Some b /\ (ReadBlock r i = Ok (block_bytes b) \/ ReadBlock r i = Err mismatch).
Proof.
  intros Hb Hn Hs Hi Hlt. destruct (lookup_lt_is_Some_2 bs i Hlt) as [b Hbi]. exists b. split; [done|].
  rewrite <- (take_drop_middle bs i b Hbi) in Hn, Hi. apply Forall2_app_inv_l in Hn as (sa & st & Ha & Hst & ->).
  apply Forall2_cons_inv_l in Hst as (s & sc & Hs' & _ & ->). destruct (near_sealed _ _ Hs') as (d & c & -> & Hd & Hc & Hfit).
  replace i with (length (take i bs)) by (rewrite length_take; lia).
  rewrite (ReadBlock_raw r (concat sa) (take i bs) b (drop (S i) bs) d c (concat sc ++ tail)); try done.
  - destruct (Z.eqb_spec (Crc32 d) c) as [E|]; [left; by rewrite Hfit|by right].
  - rewrite Hb, concat_app. cbn [concat]. by rewrite <- !app_assoc.
  - by apply damaged_length.
Qed.

(** A lookup goes to the same block of the damaged file, through a cache of intact
    blocks or without one. *)
Definition reads_like (r r' : SSTableReader) : Prop :=
  forall i, ReadBlock r' i = ReadBlock r i \/ ReadBlock r' i = Err mismatch.

Lemma GetBlock_damaged P r base' i rs :
  reads_like r (set_base r base') -> rs_inv P rs ->
  GetBlock (set_base r base') i rs = GetBlock r i rs \/
  exists rs', GetBlock (set_base r base') i rs = Ok (inl mismatch, rs') /\ rs_inv P rs'.
Proof.
  intros Hread Hrs. unfold GetBlock. cbn [set_base r_index_ file_number_]. fold (set_base r base').
  destruct (r_index_ r !! i) as [e|]; cbn [of_option rbind]; [|by left].
  destruct rs as [[c|] n]; unfold rs_inv in Hrs; cbn [rs_cache blocks_read_] in *.
  - destruct (cache_lookup_inv P c (file_number_ r) (ie_offset e) Hrs) as ([b|] & c' & -> & Hc' & _); cbn [rbind]; [by left|].
    destruct (Hread i) as [-> | ->]; [by left|right; by eexists].
  - cbn [rbind]. destruct (Hread i) as [-> | ->]; [by left|right; by eexists].
Qed.

Lemma Get_damaged P r base' key rs :
  reads_like r (set_base r base') -> rs_inv P rs ->
  SSTableReader_Get (set_base r base') key rs = SSTableReader_Get r key rs \/
  exists rs', SSTableReader_Get (set_base r base') key rs = Ok ((LookupResult.kNotFound, None), mismatch, rs') /\ rs_inv P rs'.
Proof.
  intros Hread Hrs. unfold SSTableReader_Get. cbn [set_base r_index_ filter_ filter_enabled_]. fold (set_base r base').
  destruct (r_index_ r) as [|e0 idx] eqn:Ei; [by left|]. rewrite <- Ei.
  destruct (if filter_enabled_ r && valid (filter_ r) then _ else _) as [may|s|]; cbn [rbind]; [|by left..].
  destruct (negb may); [by left|]. destruct (upper_bound _ _ _ _ _) as [it|s|]; cbn [rbind]; [|by left..].
  destruct (it =? 0)%nat; [by left|].
  destruct (GetBlock_damaged P r base' (it - 1) rs Hread Hrs) as [-> | (rs' & -> & ?)]; [by left|right; by exists rs'].
Qed.

(** The answers of a damaged table: the truth, or a report. *)
Definition honest (es : list entry) (key : bytes) (a : (LookupResult.t * option bytes) * Status) : Prop :=
  a = (lookup_of (assoc es key), Status_OK) \/ a = ((LookupResult.kNotFound, None), mismatch).

Lemma get_seq_damaged P r bs base' keys rs :
  table_ok r bs -> reader_truth P r -> reads_like r (set_base r base') -> rs_inv P rs ->
  exists answers, get_seq (set_base r base') keys rs = Ok answers /\ Forall2 (honest (concat bs)) keys answers.
Proof.
  intros Ht HP Hread. revert rs. induction keys as [|k keys IH]; intros rs Hrs; [by exists []|]. cbn [get_seq].
  destruct (Get_damaged P r base' k rs Hread Hrs) as [-> | (rs' & -> & Hrs')].
  - destruct (Get_ok P r bs k rs Ht HP Hrs) as (rs' & -> & Hrs' & _). cbn [rbind].
    destruct (IH rs' Hrs') as (l & -> & Hl). eexists. split; [done|]. constructor; [by left|done].
  - cbn [rbind]. destruct (IH rs' Hrs') as (l & -> & Hl). eexists. split; [done|]. constructor; [by right|done].
Qed.

(** A section of a file: bytes and the checksum stored after them. *)
Lemma section_fields base a d c z o :
  base = a ++ d ++ fixed32 c ++ z -> o = blen a -> is_u32 c ->
  DecodeFixed32 base (o + blen d) = Ok c /\ slice base o (blen d) = Some d.
Proof. intros -> -> Hc. split; [rewrite (app_assoc a); apply DecodeFixed32_mid; [done|len]|by apply slice_mid]. Qed.

(** ** Opening a damaged file *)

(** The parts of a table's file. *)
Definition table_body (bs : list (list entry)) (filter : bytes) : bytes :=
  data_bytes bs ++ sealed filter ++ sealed (index_bytes (index_from 0 bs)).
Definition table_footer (bs : list (list entry)) (filter : bytes) : bytes :=
  footer_bytes (u64 (blen (data_bytes bs))) (blen filter) (u64 (blen (data_bytes bs) + blen filter + 4))
    (blen (index_bytes (index_from 0 bs))) (u64 (blen (concat bs))).

Lemma table_parts bs filter : table_bytes bs filter = table_body bs filter ++ table_footer bs filter.
Proof. unfold table_bytes, table_body, table_footer. by rewrite <- !app_assoc. Qed.

(** The end of [Open], over blocks that may be damaged. *)
Lemma open_end r bs ss tail front idx :
  base_ r = concat ss ++ tail -> Forall2 (fun b s => near (sealed (block_bytes b)) s) bs ss -> Forall block_ok bs ->
  file_size_ r < 2 ^ 63 -> r_index_ r = index_from 0 bs -> index_from 0 bs = front :: idx ->
  ReadBlock r (length (index_from 0 bs) - 1) = Err mismatch \/
  exists b, last bs = Some b /\ ReadBlock r (length (index_from 0 bs) - 1) = Ok (block_bytes b).
Proof.
  intros Hb Hn Hok Hs Hi Hf. rewrite index_from_length. assert (0 < length bs)%nat as Hpos by (destruct bs; [done|cbn; lia]).
  destruct (ReadBlock_damaged r bs ss tail (length bs - 1) Hb Hn Hs Hi) as (b & Hl & [E|E]); [lia| |by left].
  right. exists b. split; [|done]. rewrite last_lookup. by replace (Init.Nat.pred (length bs)) with (length bs - 1)%nat by lia.
Qed.

(** The fields of a reader that [Open] leaves over a table. *)
Record opens_to (r : SSTableReader) (bs : list (list entry)) (filter : bytes) (fn : Z) : Prop := {
  ot_table : table_ok r bs;
  ot_number : file_number_ r = fn;
  ot_enabled : filter_enabled_ r = true;
  ot_entries : r_num_entries_ r = blen (concat bs);
  ot_filter : BloomFilter_Reset filter = Ok (filter_ r) }.

(** The end of [Open] from the last block read. *)
Lemma open_last r0 r bs ss tail filter fn :
  opens_to r bs filter fn -> base_ r0 = concat ss ++ tail -> file_size_ r0 < 2 ^ 63 ->
  Forall2 (fun b s => near (sealed (block_bytes b)) s) bs ss ->
  r0 = mkReader (base_ r0) (index_from 0 bs) (filter_ r) fn (blen (concat bs)) [] [] true ->
  (let res := match index_from 0 bs with
     | [] => Ok r0
     | front :: _ =>
         let* last_block := ReadBlock r0 (length (index_from 0 bs) - 1) in
         let* largest := largest_loop (S (length last_block)) last_block 0 [] in
         Ok (mkReader (base_ r0) (index_from 0 bs) (filter_ r) fn (blen (concat bs)) (first_key front) largest true)
     end in
   res = Err mismatch \/ res = Ok (set_base r (base_ r0))).
Proof.
  intros [Ht Hfn Hen Hne _] Hb Hsz Hss Hr0. pose proof (to_blocks _ _ Ht) as Hok.
  destruct bs as [|b0 bs'] eqn:Ebs.
  { right. cbn. rewrite Hr0. cbn. unfold set_base. rewrite (to_index _ _ Ht), (to_smallest _ _ Ht), (to_largest _ _ Ht), Hfn, Hen, Hne. done. }
  rewrite <- Ebs in *. destruct (index_from 0 bs) as [|front idx] eqn:Ei; [by rewrite Ebs in Ei|].
  destruct (open_end r0 bs ss tail front idx) as [E|(b & Hl & E)]; try done; [rewrite Hr0; cbn; by rewrite Ei|..]; rewrite Ei in E; cbv zeta; rewrite E; [by left|].
  right. cbn [rbind].
  assert (b ∈ bs) as Hin by (rewrite last_lookup in Hl; by eapply list_elem_of_lookup_2).
  pose proof (proj1 (Forall_forall _ _) Hok _ Hin) as (Hbne & Hbf & _).
  pose proof (block_len_ge b). pose proof (largest_loop_spec b (S (length (block_bytes b))) [] [] Hbf ltac:(lia)) as Hlg.
  cbn [app] in Hlg. rewrite blen_nil in Hlg. rewrite Hlg. cbn [rbind].
  assert (first_key front = smallest_key_ r) as ->.
  { rewrite (to_smallest _ _ Ht). rewrite Ebs in Ei, Hok |- *. injection Ei as <- _. apply Forall_cons in Hok as [(? & _) _]. by destruct b0. }
  assert (match last b with Some e => e_key e | None => [] end = largest_key_ r) as ->.
  { rewrite (to_largest _ _ Ht). unfold last_key. apply last_Some in Hl as [a ->]. rewrite concat_app. cbn [concat].
    rewrite app_nil_r. destruct (exists_last (l := b) Hbne) as (b' & e & ->). by rewrite app_assoc, !last_snoc. }
  rewrite <- Ei, <- (to_index _ _ Ht), <- Hne, <- Hfn. unfold set_base. by rewrite Hen.
Qed.

Lemma session_opens_to bs bpk es fn :
  table_fits bs bpk es -> exists r, opens_to r (chunks bs es) (filter_of bpk es) fn /\ 0 < blen (filter_of bpk es).
Proof.
  intros [Hb Hr Hs Hn Hf Hsz]. pose proof (open_table [] (chunks bs es) bpk fn) as Ho. rewrite chunks_concat in Ho.
  destruct Ho as (r & _ & Ht & ? & ? & ? & _ & Hre); try done; [by apply chunks_ok| |exists r; split].
  - etransitivity; [apply concat_len_ge|by rewrite chunks_concat].
    eapply Forall_impl; [by apply (chunks_ok bs es)|]. by intros b (? & _).
  - split; try done. by rewrite chunks_concat.
  - destruct (filter_of_sound bpk es Hf) as (f & Hr' & Hv & _). unfold BloomFilter_Reset in Hr'.
    destruct (Z.ltb_spec (blen (filter_of bpk es)) 5); [|lia]. injection Hr' as <-. done.
Qed.

(** A damaged file in its sections. *)
Record sections (bs : list (list entry)) (filter base' : bytes) (ss : list bytes) (fd xd : bytes) (fc xc : Z) : Prop := {
  se_base : base' = concat ss ++ fd ++ fixed32 fc ++ xd ++ fixed32 xc ++
    footer_bytes (blen (concat ss)) (blen fd) (blen (concat ss) + blen fd + 4) (blen xd) (blen (concat bs));
  se_blocks : Forall2 (fun b s => near (sealed (block_bytes b)) s) bs ss;
  se_data : blen (concat ss) = blen (data_bytes bs);
  se_filter : is_u32 fc /\ blen fd = blen filter /\ (Crc32 fd = fc -> fd = filter);
  se_index : is_u32 xc /\ (Crc32 xd = xc -> xd = index_bytes (index_from 0 bs));
  se_len : blen base' = blen (concat ss) + blen fd + 4 + blen xd + 4 + 44;
  se_size : blen base' < 2 ^ 63;
  se_count : blen (concat bs) <= blen (concat ss) }.

Lemma damaged_sections bs filter body' :
  blen (table_bytes bs filter) < 2 ^ 63 -> near (table_body bs filter) body' ->
  exists ss fd xd fc xc, sections bs filter (body' ++ table_footer bs filter) ss fd xd fc xc.
Proof.
  intros Hsz Hn. unfold table_body in Hn.
  apply near_app in Hn as (d' & rest' & -> & (ss & -> & Hss)%near_data & (f' & x' & -> & Hf & Hx)%near_app).
  destruct (near_sealed _ _ Hf) as (fd & fc & -> & Hfdl & Hfc & Hffit). destruct (near_sealed _ _ Hx) as (xd & xc & -> & Hxdl & Hxc & Hxfit).
  pose proof (damaged_length _ _ Hss) as Hdl. exists ss, fd, xd, fc, xc.
  rewrite table_parts in Hsz. unfold table_body, table_footer in *. rewrite <- Hdl, <- Hfdl, <- Hxdl in *.
  pose proof (data_len_ge bs) as Hdge. rewrite <- Hdl in Hdge. pose proof (blen_nonneg xd). pose proof (blen_nonneg (concat bs)). pose proof (blen_nonneg fd).
  assert (blen (concat ss) + blen fd + 4 + blen xd + 4 + 44 < 2 ^ 63) as Hlim by (autorewrite with lsmlen in Hsz; unfold kFooterSize in Hsz; lia).
  clear Hsz. rewrite !u64_small by lia.
  assert (forall n, blen (footer_bytes (blen (concat ss)) (blen fd) (blen (concat ss) + blen fd + 4) (blen xd) n) = 44) as Hft
    by (intros n; by rewrite blen_footer).
  split; try done.
  - by rewrite <- !app_assoc.
  - rewrite blen_app, Hft. autorewrite with lsmlen. lia.
  - rewrite blen_app, Hft. autorewrite with lsmlen. lia.
Qed.

(** What the reader finds in the footer and in the sections behind the blocks. *)
Lemma sections_read bs filter base' ss fd xd fc xc :
  sections bs filter base' ss fd xd fc xc ->
  let p := blen base' - kFooterSize in
  (DecodeFixed64 base' p = Ok (blen (concat ss)) /\ DecodeFixed64 base' (p + 8) = Ok (blen fd) /\
   DecodeFixed64 base' (p + 16) = Ok (blen (concat ss) + blen fd + 4) /\ DecodeFixed64 base' (p + 24) = Ok (blen xd) /\
   DecodeFixed64 base' (p + 32) = Ok (blen (concat bs)) /\ DecodeFixed32 base' (p + 40) = Ok kSSTableMagic) /\
  (DecodeFixed32 base' (blen (concat ss) + blen fd + 4 + blen xd) = Ok xc /\
   slice base' (blen (concat ss) + blen fd + 4) (blen xd) = Some xd) /\
  DecodeFixed32 base' (blen (concat ss) + blen fd) = Ok fc /\ slice base' (blen (concat ss)) (blen fd) = Some fd.
Proof.
  intros [Hb _ _ (Hfc & _) (Hxc & _) Hlen Hsz Hcnt] p. set (d := concat ss) in *. pose proof (blen_nonneg d). pose proof (blen_nonneg fd).
  pose proof (blen_nonneg xd). pose proof (blen_nonneg (concat bs)).
  assert (forall v, 0 <= v < 2 ^ 63 -> is_u64 v) as Hu64 by (unfold is_u64; lia).
  split; [|split].
  - pose proof (footer_fields (d ++ fd ++ fixed32 fc ++ xd ++ fixed32 xc) (blen d) (blen fd) (blen d + blen fd + 4) (blen xd) (blen (concat bs))) as F.
    rewrite <- !app_assoc in F. unfold p. rewrite Hb. apply F; apply Hu64; lia.
  - apply (section_fields base' (d ++ fd ++ fixed32 fc) xd xc (footer_bytes (blen d) (blen fd) (blen d + blen fd + 4) (blen xd) (blen (concat bs))));
      [rewrite Hb; by rewrite <- !app_assoc|len|done].
  - apply (section_fields base' d fd fc (xd ++ fixed32 xc ++ footer_bytes (blen d) (blen fd) (blen d + blen fd + 4) (blen xd) (blen (concat bs)))); done.
Qed.

(** A damaged file does not open, or opens to the reader of the intact one over the
    damaged bytes. *)
Lemma open_damaged path bs filter fn body' r :
  opens_to r bs filter fn -> 0 < blen filter -> blen (table_bytes bs filter) < 2 ^ 63 -> near (table_body bs filter) body' ->
  let base' := body' ++ table_footer bs filter in
  (exists msg, open_mapped path base' fn = Err (Status_Corruption msg)) \/
  open_mapped path base' fn = Ok (set_base r base').
Proof.
  intros Hop Hfl Hsz Hn base'. pose proof Hop as [Ht _ _ _ Hr].
  destruct (damaged_sections bs filter body' Hsz Hn) as (ss & fd & xd & fc & xc & Hse). fold base' in Hse.
  destruct (sections_read _ _ _ _ _ _ _ _ Hse) as ((E1 & E2 & E3 & E4 & E5 & E6) & (F1 & F2) & G1 & G2).
  destruct Hse as [Hb Hss _ (_ & Hfdl & Hffit) (_ & Hxfit) Hlen Hsz' _]. rewrite <- Hfdl in Hfl. set (d := concat ss) in *.
  pose proof (blen_nonneg d). pose proof (blen_nonneg xd).
  unfold open_mapped. rewrite E1, E2, E3, E4, E5, E6. cbn [rbind]. rewrite Z.eqb_refl. cbn [negb].
  rewrite (u64_small (_ + blen xd)), (u64_small (blen d + blen fd)), !u64_small by lia. zbool. cbn [orb].
  rewrite F1, F2. cbn [of_option rbind]. destruct (Z.eqb_spec (Crc32 xd) xc) as [Ex%Hxfit|]; cbn [negb]; [|by left; eexists].
  pose proof (parse_index_spec (index_from 0 bs) (S (length xd)) [] (index_from_fits 0 bs (to_blocks _ _ Ht)) ltac:(rewrite Ex; lia)) as Hp.
  cbn [app] in Hp. change (blen (@nil byte)) with 0 in Hp. rewrite <- Ex in Hp. rewrite Hp. cbn [rbind].
  rewrite G1, G2. cbn [of_option rbind]. destruct (Z.eqb_spec (Crc32 fd) fc) as [Ef%Hffit|]; cbn [negb]; [|by left; eexists].
  rewrite Ef, Hr. cbn [rbind]. unfold d in Hb.
  destruct (open_last (mkReader base' (index_from 0 bs) (filter_ r) fn (blen (concat bs)) [] [] true) r bs ss _ filter fn Hop Hb) as [E|E];
    try done; [left; eexists; exact E|right; exact E].
Qed.

(** The blocks of a damaged file against those of the intact one. *)
Lemma damaged_reads_like r bs ss tail :
  table_ok r bs -> blen (concat ss ++ tail) < 2 ^ 63 -> Forall2 (fun b s => near (sealed (block_bytes b)) s) bs ss ->
  reads_like r (set_base r (concat ss ++ tail)).
Proof.
  intros Ht Hsz Hss i. destruct (decide (i < length bs)%nat) as [Hi|].
  - destruct (ReadBlock_damaged (set_base r (concat ss ++ tail)) bs ss tail i) as (b & Hb & [E|E]); try done; [apply Ht|left|by right].
    rewrite E. symmetry. replace i with (length (take i bs)) by (rewrite length_take; lia).
    apply (ReadBlock_ok r (take i bs) b (drop (S i) bs)). by rewrite take_drop_middle.
  - left. unfold ReadBlock. cbn [set_base r_index_]. rewrite (to_index _ _ Ht), lookup_ge_None_2; [done|]. rewrite index_from_length. lia.
Qed.

(** ** Properties *)

(** C16 (safety). A burst of damage never misleads a reader. Take the file of any
    table that the writer can produce and change, anywhere before the footer, up to
    four consecutive bytes: in a record, in the filter, in the index, in a stored
    checksum or across the border of two of them. Then opening the file reports
    Corruption, or it succeeds with the true smallest and largest keys, and every
    sequence of lookups, with a cache or without one, answers each key with the
    record that was written or with "not found" under the Corruption status; it
    never returns a wrong value, misses a key without saying so, or faults. *)
Theorem damage_never_misleads path bs bpk es fn body' keys cap :
  table_fits bs bpk es -> 0 <= cap < 2 ^ 63 -> near (table_body (chunks bs es) (filter_of bpk es)) body' ->
  let base' := body' ++ table_footer (chunks bs es) (filter_of bpk es) in
  (exists msg, open_mapped path base' fn = Err (Status_Corruption msg)) \/
  exists r, open_mapped path base' fn = Ok r /\ smallest_key_ r = block_first es /\ largest_key_ r = last_key es /\
    forall cache, cache = None \/ cache = Some (BlockCache_new cap) ->
      exists answers, get_seq r keys (mkReadState cache 0) = Ok answers /\ Forall2 (honest es) keys answers.
Proof.
  intros Hfit Hcap Hn base'. destruct (session_opens_to bs bpk es fn Hfit) as (r & Hop & Hfl).
  pose proof (ot_table _ _ _ _ Hop) as Ht. pose proof (tf_size _ _ _ Hfit) as Hsz.
  destruct (open_damaged path (chunks bs es) _ fn body' r Hop Hfl Hsz Hn) as [E|E]; [by left|]. right.
  exists (set_base r base'). rewrite (table_parts (chunks bs es)), blen_app in Hsz.
  assert (blen base' < 2 ^ 63) as Hb by (unfold base'; destruct Hn as [Hl _]; rewrite blen_app; unfold blen in *; lia).
  unfold table_body in Hn. apply near_app in Hn as (d' & rest' & -> & (ss & -> & Hss)%near_data & _).
  unfold base' in Hb |- *. rewrite <- app_assoc in *.
  pose proof (to_smallest _ _ Ht) as H1. pose proof (to_largest _ _ Ht) as H2. rewrite chunks_concat in *. split_and!; [done..|].
  intros cache Hc. pose proof (get_seq_damaged (blocks_truth [r]) r (chunks bs es)) as Hg. rewrite chunks_concat in Hg.
  apply Hg; [done| |by apply (damaged_reads_like r (chunks bs es))|].
  - apply blocks_truth_ok; [|set_solver..]. intros r' ->%list_elem_of_singleton. by exists (chunks bs es).
  - destruct Hc as [->| ->]; [done|]. by apply cache_inv_new.
Qed.

(** Three bytes overwritten, the last one of the first record's value length and two
    of its key: the lookup of the key reports it, the other block is still read. *)
Lemma damage_never_misleads_witness :
  let body := table_body (chunks 20 sample_records) (filter_of 10 sample_records) in
  let body' := take 8 body ++ lit "cow" ++ drop 11 body in
  let base' := body' ++ table_footer (chunks 20 sample_records) (filter_of 10 sample_records) in
  ((exists msg, open_mapped (lit "t") base' 1 = Err (Status_Corruption msg)) \/
   exists r, open_mapped (lit "t") base' 1 = Ok r /\ smallest_key_ r = lit "ant" /\ largest_key_ r = lit "cat" /\
     forall cache, cache = None \/ cache = Some (BlockCache_new 100) ->
       exists answers, get_seq r [lit "ant"; lit "cat"] (mkReadState cache 0) = Ok answers /\
         Forall2 (honest sample_records) [lit "ant"; lit "cat"] answers) /\
  (let* r := open_mapped (lit "t") base' 1 in get_seq r [lit "ant"; lit "cat"] (mkReadState None 0))
  = Ok [((LookupResult.kNotFound, None), mismatch); ((LookupResult.kFound, Some (lit "22")), Status_OK)].
Proof.
  intros body body' base'. split; [|vm_compute; reflexivity].
  apply (damage_never_misleads (lit "t") 20 10 sample_records 1 body' [lit "ant"; lit "cat"] 100).
  - exact sample_fits.
  - lia.
  - apply (near_cut body (lit "cow") 8); [simpl; lia|]. vm_compute. lia.
Defined.
