(* ===== verification/Iterator.v ===== *)
(** The iterator interface (include/lsmdb/internal_iterator.h): the virtual
    functions of [InternalIterator] as a class, and the contract that a client
    such as the merge may rely on as laws. *)
From S2P Require Import Prelude Types.

(** [class InternalIterator]. The accessors are partial: calling them on an
    iterator that is not valid is undefined for some implementations. *)
Class InternalIterator (It : Type) := {
  it_Valid : It -> bool;
  it_Seek : It -> bytes -> result It;
  it_Next : It -> result It;
  it_key : It -> result bytes;
  it_value : It -> result bytes;
  it_IsTombstone : It -> result bool;
  it_status : It -> Status }.

(** What an implementation promises. [it_source it es]: the iterator ranges over
    the records [es]. [it_at it es rest]: it stands before the records [rest],
    on the first of them if there is one. *)
Class IteratorLaws (It : Type) `{InternalIterator It} := {
  it_source : It -> list entry -> Prop;
  it_at : It -> list entry -> list entry -> Prop;
  it_at_source it es rest : it_at it es rest -> it_source it es;
  it_at_suffix it es rest : it_at it es rest -> exists pre, es = pre ++ rest;
  it_source_sorted it es : it_source it es -> sorted_keys es;
  it_seek it es t :
    it_source it es -> exists it', it_Seek it t = Ok it' /\ it_at it' es (from_key t es);
  it_ok it es rest : it_at it es rest -> it_status it = Status_OK;
  it_at_end it es : it_at it es [] -> it_Valid it = false;
  it_at_head it es e rest :
    it_at it es (e :: rest) ->
    it_Valid it = true /\ it_key it = Ok (e_key e) /\ it_value it = Ok (e_value e) /\
    it_IsTombstone it = Ok (is_tombstone_type (e_type e));
  it_next it es e rest :
    it_at it es (e :: rest) -> exists it', it_Next it = Ok it' /\ it_at it' es rest }.

(** ** Two implementations behind one interface *)

(** A pointer to one of two implementations: virtual dispatch. *)
#[global] Instance sum_iterator {A B} `{InternalIterator A, InternalIterator B}
  : InternalIterator (A + B) := {
  it_Valid x := match x with inl a => it_Valid a | inr b => it_Valid b end;
  it_Seek x t := match x with
                 | inl a => let* a := it_Seek a t in Ok (inl a)
                 | inr b => let* b := it_Seek b t in Ok (inr b)
                 end;
  it_Next x := match x with
               | inl a => let* a := it_Next a in Ok (inl a)
               | inr b => let* b := it_Next b in Ok (inr b)
               end;
  it_key x := match x with inl a => it_key a | inr b => it_key b end;
  it_value x := match x with inl a => it_value a | inr b => it_value b end;
  it_IsTombstone x := match x with inl a => it_IsTombstone a | inr b => it_IsTombstone b end;
  it_status x := match x with inl a => it_status a | inr b => it_status b end }.

#[global] Program Instance sum_iterator_laws {A B} `{IteratorLaws A, IteratorLaws B}
  : IteratorLaws (A + B) := {
  it_source x es := match x with inl a => it_source a es | inr b => it_source b es end;
  it_at x es rest := match x with inl a => it_at a es rest | inr b => it_at b es rest end }.
Next Obligation. intros A B ? ? ? ? [a|b] es rest Hx; exact (it_at_source _ _ _ Hx). Qed.
Next Obligation. intros A B ? ? ? ? [a|b] es rest Hx; exact (it_at_suffix _ _ _ Hx). Qed.
Next Obligation. intros A B ? ? ? ? [a|b] es Hx; exact (it_source_sorted _ _ Hx). Qed.
Next Obligation.
  intros A B ? ? ? ? [a|b] es t Hs; destruct (it_seek _ _ t Hs) as (x & E & Hx); simpl; rewrite E;
    eexists; by split.
Qed.
Next Obligation. intros A B ? ? ? ? [a|b] es rest Hx; exact (it_ok _ _ _ Hx). Qed.
Next Obligation. intros A B ? ? ? ? [a|b] es Hx; exact (it_at_end _ _ Hx). Qed.
Next Obligation. intros A B ? ? ? ? [a|b] es e rest Hx; exact (it_at_head _ _ _ _ Hx). Qed.
Next Obligation.
  intros A B ? ? ? ? [a|b] es e rest Ha; destruct (it_next _ _ _ _ Ha) as (x & E & Hx); simpl; rewrite E;
    eexists; by split.
Qed.

Arguments it_at : simpl never.
Arguments it_source : simpl never.

(** ** Draining *)

(** What an iterator shows of a record. *)
Definition view (e : entry) : bytes * bytes * bool :=
  (e_key e, e_value e, is_tombstone_type (e_type e)).

(** [for (; it.Valid(); it.Next())]: what a client sees from [it] on. *)
Fixpoint it_drain {It} `{InternalIterator It} (fuel : nat) (it : It) : result (list (bytes * bytes * bool)) :=
  match fuel with
  | O => UB
  | S fuel' =>
      if it_Valid it then
        let* k := it_key it in
        let* v := it_value it in
        let* t := it_IsTombstone it in
        let* it := it_Next it in
        let* rest := it_drain fuel' it in
        Ok ((k, v, t) :: rest)
      else Ok []
  end.

Lemma it_drain_at {It} `{IteratorLaws It} fuel (it : It) es rest :
  it_at it es rest -> (length rest < fuel)%nat -> it_drain fuel it = Ok (map view rest).
Proof.
  revert it rest. induction fuel as [|fuel IH]; intros it rest Hat Hf; [lia|]. cbn [it_drain].
  destruct rest as [|e rest]; [by rewrite (it_at_end _ _ Hat)|].
  destruct (it_at_head _ _ _ _ Hat) as (-> & -> & -> & ->). cbn [rbind].
  destruct (it_next _ _ _ _ Hat) as (it' & -> & Hat'). cbn [rbind].
  rewrite (IH it' rest) by (done || simpl in Hf; lia). done.
Qed.
