(* ===== verification/TableIter.v ===== *)
(** The SSTable iterator (class [SSTableReader::Iterator], src/sstable.cpp) and
    its adapter [SstIter] (src/db.cpp): ordered traversal and seeking across the
    blocks of a table. The reader's block counter is not part of this state. *)
From S2P Require Import Prelude Types Coding Bloom Cache TableFormat TableReader Iterator.

(** [class SSTableReader::Iterator]. *)
Record SSTIter := mkSSTIter {
  i_reader : SSTableReader; i_block_idx : nat; i_pos : Z; i_block : bytes; i_valid : bool;
  i_key : bytes; i_value : bytes; i_type : ValueType; i_status : Status }.

(** [NewIterator]. *)
Definition NewIterator (r : SSTableReader) : SSTIter :=
  mkSSTIter r 0 0 [] false [] [] kValue Status_OK.

Definition set_valid (it : SSTIter) (v : bool) : SSTIter :=
  mkSSTIter (i_reader it) (i_block_idx it) (i_pos it) (i_block it) v (i_key it) (i_value it)
    (i_type it) (i_status it).

(** [Iterator::LoadBlock]: a failed read leaves the old block in place. *)
Definition LoadBlock (it : SSTIter) (block_idx : nat) : result SSTIter :=
  match ReadBlock (i_reader it) block_idx with
  | UB => UB
  | Err s => Ok (mkSSTIter (i_reader it) block_idx 0 (i_block it) (i_valid it) (i_key it) (i_value it)
                   (i_type it) s)
  | Ok b => Ok (mkSSTIter (i_reader it) block_idx 0 b (i_valid it) (i_key it) (i_value it)
                  (i_type it) Status_OK)
  end.

(** [Iterator::ParseCurrent]. Every turn of its loop but the last moves to the
    next block, so one more than the number of blocks bounds the turns. *)
Fixpoint parse_loop (fuel : nat) (it : SSTIter) : result SSTIter :=
  match fuel with
  | O => UB
  | S fuel' =>
      if negb (ok (i_status it)) then Ok (set_valid it false)
      else if blen (i_block it) <=? i_pos it then
        if (length (r_index_ (i_reader it)) <=? i_block_idx it + 1)%nat then Ok (set_valid it false)
        else
          let* it := LoadBlock it (i_block_idx it + 1) in
          parse_loop fuel' it
      else
        let m := i_block it in
        let p := i_pos it in
        let* type := of_option (m !! Z.to_nat p) in
        let p := p + 1 in
        let* klen := DecodeFixed32 m p in
        let p := p + 4 in
        let* vlen := DecodeFixed32 m p in
        let p := p + 4 in
        let* key := of_option (slice m p klen) in
        let p := p + klen in
        let* value := of_option (slice m p vlen) in
        let p := p + vlen in
        Ok (mkSSTIter (i_reader it) (i_block_idx it) p m true key value type (i_status it))
  end.

Definition ParseCurrent (it : SSTIter) : result SSTIter :=
  parse_loop (S (length (r_index_ (i_reader it)))) it.

(** [Iterator::SeekToFirst]. *)
Definition SST_SeekToFirst (it : SSTIter) : result SSTIter :=
  match r_index_ (i_reader it) with
  | [] => Ok (set_valid it false)
  | _ :: _ => let* it := LoadBlock it 0 in ParseCurrent it
  end.

(** [Iterator::Next]. *)
Definition SST_Next (it : SSTIter) : result SSTIter :=
  if negb (i_valid it) then Ok it else ParseCurrent it.

(** The forward scan of [Seek] to the first key not below the target. *)
Fixpoint seek_loop (fuel : nat) (it : SSTIter) (target : bytes) : result SSTIter :=
  match fuel with
  | O => UB
  | S fuel' =>
      let* it := ParseCurrent it in
      if negb (i_valid it) then Ok it
      else if str_leb target (i_key it) then Ok it
      else seek_loop fuel' it target
  end.

(** [Iterator::Seek]. Each turn of the scan consumes a record of at least one
    byte, so blocks times bytes bounds the turns. *)
Definition SST_Seek (it : SSTIter) (target : bytes) : result SSTIter :=
  let index := r_index_ (i_reader it) in
  match index with
  | [] => Ok (set_valid it false)
  | _ :: _ =>
      let* lo := bin_search (S (length index)) (map first_key index) target 0 (to_int (blen index)) in
      let idx := if lo =? 0 then 0%nat else Z.to_nat (lo - 1) in
      let* it := LoadBlock it idx in
      seek_loop (S (length index * length (base_ (i_reader it)))) it target
  end.

(** [class SstIter]: the adapter forwards every call. *)
#[global] Instance sst_iterator : InternalIterator SSTIter := {
  it_Valid := i_valid;
  it_Seek := SST_Seek;
  it_Next := SST_Next;
  it_key it := Ok (i_key it);
  it_value it := Ok (i_value it);
  it_IsTombstone it := Ok (is_tombstone_type (i_type it));
  it_status := i_status }.

(** ** Lemmas *)

(** The iterator is inside block [b]: it has consumed [d] and not yet [r]. *)
Record iter_pos (it : SSTIter) (a : list (list entry)) (b : list entry) (c : list (list entry))
    (d r : list entry) : Prop := {
  ip_table : table_ok (i_reader it) (a ++ b :: c);
  ip_idx : i_block_idx it = length a;
  ip_block : i_block it = block_bytes b;
  ip_split : b = d ++ r;
  ip_pos : i_pos it = blen (block_bytes d);
  ip_status : i_status it = Status_OK }.

(** The iterator stands on the first record of [rest]. *)
Definition sst_at (it : SSTIter) (bs : list (list entry)) (rest : list entry) : Prop :=
  table_ok (i_reader it) bs /\ i_status it = Status_OK /\
  match rest with
  | [] => i_valid it = false
  | e :: rest' =>
      i_valid it = true /\ i_key it = e_key e /\ i_value it = e_value e /\ i_type it = e_type e /\
      exists a b c d r, bs = a ++ b :: c /\ iter_pos it a b c (d ++ [e]) r /\ rest' = r ++ concat c
  end.

Lemma load_at it a b c :
  table_ok (i_reader it) (a ++ b :: c) ->
  exists it', LoadBlock it (length a) = Ok it' /\ iter_pos it' a b c [] b /\ i_reader it' = i_reader it.
Proof.
  intros Ht. unfold LoadBlock. rewrite (ReadBlock_ok _ _ _ _ Ht). eexists. split; [done|]. split; [|done].
  by split.
Qed.

Lemma table_index_length r bs : table_ok r bs -> length (r_index_ r) = length bs.
Proof. intros Ht. by rewrite (to_index _ _ Ht), index_from_length. Qed.

(** Parsing inside a block that has a record left. *)
Lemma parse_here fuel it a b c d e r :
  iter_pos it a b c d (e :: r) ->
  exists it', parse_loop (S fuel) it = Ok it' /\ i_reader it' = i_reader it /\
    sst_at it' (a ++ b :: c) (e :: r ++ concat c).
Proof.
  intros [Ht Hi Hbl Hb Hp Hst]. pose proof (to_blocks _ _ Ht) as Hok.
  apply Forall_app in Hok as [_ [(_ & Hrec & _) _]%Forall_cons].
  rewrite Hb in Hrec. apply Forall_app in Hrec as [_ [He _]%Forall_cons].
  destruct (record_at_mid (block_bytes d) e (block_bytes r) _ He eq_refl) as [E1 E2 E3 E4 E5 E6].
  assert (block_bytes b = block_bytes d ++ record_bytes e ++ block_bytes r) as Hbb
    by (by rewrite Hb, block_bytes_app, block_bytes_cons).
  cbn [parse_loop]. rewrite Hst, Hbl, Hp, Hbb. cbn [negb ok code_ Status_OK]. zbool.
  rewrite E1. cbn [of_option rbind]. rewrite E2. cbn [rbind]. rewrite E3. cbn [rbind].
  rewrite E4. cbn [of_option rbind]. rewrite E5. cbn [of_option rbind].
  eexists. split; [done|]. split; [done|]. split; [done|]. split; [done|].
  split_and!; try done. exists a, b, c, d, r. split_and!; try done.
  split; cbn [i_reader i_block_idx i_block i_pos i_status]; try done.
  - by rewrite <- app_assoc.
  - rewrite block_bytes_app, block_bytes_cons. unfold block_bytes at 3. cbn [map concat]. rewrite app_nil_r. len.
Qed.

Lemma parse_at c : forall fuel it a b d r,
  iter_pos it a b c d r -> (length c < fuel)%nat ->
  exists it', parse_loop fuel it = Ok it' /\ i_reader it' = i_reader it /\
    sst_at it' (a ++ b :: c) (r ++ concat c).
Proof.
  induction c as [|b' c IH]; intros [|fuel] it a b d [|e r] Hp Hf; try (simpl in Hf; lia);
    try by apply (parse_here _ _ _ _ _ d).
  all: cbn [parse_loop]; rewrite (ip_status _ _ _ _ _ _ Hp); cbn [negb ok code_ Status_OK];
    rewrite (ip_block _ _ _ _ _ _ Hp), (ip_pos _ _ _ _ _ _ Hp), (ip_idx _ _ _ _ _ _ Hp),
      (table_index_length _ _ (ip_table _ _ _ _ _ _ Hp)), length_app;
    pose proof (ip_split _ _ _ _ _ _ Hp) as Hb; cbn [length]; rewrite app_nil_r in Hb; subst d; zbool.
  - rewrite (proj2 (Nat.leb_le _ _)) by lia. eexists. split; [done|]. split; [done|].
    split; [apply Hp|]. split; [apply Hp|done].
  - rewrite (proj2 (Nat.leb_gt _ _)) by lia.
    pose proof (ip_table _ _ _ _ _ _ Hp) as Ht.
    replace (a ++ b :: b' :: c) with ((a ++ [b]) ++ b' :: c) in * by (by rewrite <- app_assoc).
    destruct (load_at it (a ++ [b]) b' c Ht) as (it1 & E1 & Hp1 & Hr1).
    rewrite length_app in E1. cbn [length] in E1. rewrite E1. cbn [rbind].
    destruct (IH fuel it1 (a ++ [b]) b' [] b' Hp1) as (it2 & E2 & Hr2 & Hat); [simpl in Hf; lia|].
    exists it2. rewrite Hr2. by split_and!.
Qed.

Lemma ParseCurrent_at it a b c d r :
  iter_pos it a b c d r ->
  exists it', ParseCurrent it = Ok it' /\ i_reader it' = i_reader it /\
    sst_at it' (a ++ b :: c) (r ++ concat c).
Proof.
  intros Hp. apply (parse_at c _ it a b d r Hp).
  rewrite (table_index_length _ _ (ip_table _ _ _ _ _ _ Hp)), length_app. simpl. lia.
Qed.

Lemma sst_next it bs e rest :
  sst_at it bs (e :: rest) -> exists it', SST_Next it = Ok it' /\ sst_at it' bs rest.
Proof.
  intros (Ht & Hst & Hv & _ & _ & _ & a & b & c & d & r & -> & Hp & ->).
  unfold SST_Next. rewrite Hv. cbn [negb].
  destruct (ParseCurrent_at _ _ _ _ _ _ Hp) as (it' & E & _ & Hat). eauto.
Qed.

Lemma sst_first it bs :
  table_ok (i_reader it) bs -> i_status it = Status_OK ->
  exists it', SST_SeekToFirst it = Ok it' /\ i_reader it' = i_reader it /\ sst_at it' bs (concat bs).
Proof.
  intros Ht Hst. unfold SST_SeekToFirst. pose proof (table_index_length _ _ Ht) as Hl.
  destruct bs as [|b bs]; destruct (r_index_ (i_reader it)); try done.
  { eexists. split; [done|]. split; [done|]. by split_and!. }
  destruct (load_at it [] b bs Ht) as (it1 & E1 & Hp1 & Hr1). cbn [length] in E1. rewrite E1. cbn [rbind].
  destruct (ParseCurrent_at _ _ _ _ _ _ Hp1) as (it2 & E2 & Hr2 & Hat). exists it2. by rewrite Hr2.
Qed.

(** The scan of [Seek] from a position with the records [rest] ahead. *)
Lemma seek_loop_at fuel it a b c d r t :
  iter_pos it a b c d r -> (length (r ++ concat c) < fuel)%nat ->
  exists it', seek_loop fuel it t = Ok it' /\ i_reader it' = i_reader it /\
    sst_at it' (a ++ b :: c) (from_key t (r ++ concat c)).
Proof.
  revert it a b c d r. induction fuel as [|fuel IH]; intros it a b c d r Hp Hf; [lia|]. cbn [seek_loop].
  destruct (ParseCurrent_at _ _ _ _ _ _ Hp) as (it1 & -> & Hr1 & Hat). cbn [rbind].
  destruct (r ++ concat c) as [|e rest] eqn:Er; pose proof Hat as (Ht & Hst & Hat').
  { rewrite Hat'. cbn [negb]. exists it1. by split_and!. }
  destruct Hat' as (Hv & Hk & _ & _ & a' & b' & c' & d' & r' & Ebs & Hp' & ->).
  rewrite Hv, Hk. cbn [negb from_key].
  destruct (str_leb_spec t (e_key e)); destruct (str_ltb_spec (e_key e) t); try (exfalso; str_order).
  { exists it1. by split_and!. }
  destruct (IH it1 a' b' c' _ r' Hp') as (it2 & E2 & Hr2 & Hat2); [simpl in Hf; lia|].
  exists it2. rewrite Hr2, Ebs. by split_and!.
Qed.

(** The block that [Seek] starts from: nothing before it reaches the target. *)
Lemma seek_block bs t :
  Forall nonempty bs -> sorted_keys (concat bs) -> bs <> [] ->
  exists lo hi a b c, bs = lo ++ hi /\ cut_at t (map block_first lo) (map block_first hi) /\
    bs = a ++ b :: c /\ length a = (length lo - 1)%nat /\ from_key t (b ++ concat c) = from_key t (concat bs).
Proof.
  intros Hb Hs Hne. destruct (blocks_cut bs t Hb Hs) as (lo & hi & E & Hc).
  destruct lo as [|b lo' _] using rev_ind.
  { destruct hi as [|b hi]; [by subst|]. exists [], (b :: hi), [], b, hi. by subst. }
  exists (lo' ++ [b]), hi, lo', b, hi. rewrite E, <- app_assoc in *. cbn [app] in *.
  split_and!; [done..|rewrite length_app; simpl; lia|].
  rewrite concat_app in *. cbn [concat] in *. rewrite (from_key_app t (concat lo')); [done|].
  apply Forall_app in Hb as [_ [Hbne _]%Forall_cons]. destruct b as [|e b]; [done|].
  destruct Hc as [Hlo _]. rewrite map_app in Hlo. apply Forall_app in Hlo as [_ [Hle _]%Forall_cons].
  apply sorted_keys_app in Hs as (_ & _ & Hlt). eapply Forall_impl; [exact Hlt|].
  intros f [Hf _]%Forall_cons. cbn [block_first] in Hle. str_order.
Qed.

Lemma sst_seek it bs t :
  table_ok (i_reader it) bs -> i_status it = Status_OK ->
  exists it', SST_Seek it t = Ok it' /\ i_reader it' = i_reader it /\ sst_at it' bs (from_key t (concat bs)).
Proof.
  intros Ht Hst. unfold SST_Seek. pose proof (table_index_length _ _ Ht) as Hl.
  destruct (decide (bs = [])) as [->|Hne].
  { destruct (r_index_ (i_reader it)); [|done]. eexists. split; [done|]. split; [done|]. by split_and!. }
  destruct (seek_block bs t (blocks_nonempty _ (to_blocks _ _ Ht)) (to_sorted _ _ Ht) Hne) as (lo & hi & a & b & c & E & Hc & Ea & Hla & Hfk).
  destruct (r_index_ (i_reader it)) as [|i0 idx] eqn:Ei; [by destruct bs|]. rewrite <- Ei in *.
  assert (map first_key (r_index_ (i_reader it)) = map block_first lo ++ map block_first hi) as Hk
    by (by rewrite (to_index _ _ Ht), index_from_keys, E, map_app).
  pose proof (to_count _ _ Ht) as Hcnt.
  assert (blen (r_index_ (i_reader it)) = blen bs) as Hbl by (unfold blen; by rewrite Hl).
  rewrite Hbl, to_int_small, Hk by (unfold blen in *; lia).
  rewrite bin_search_cut with (a := map block_first lo).
  2: done.
  2-5: autorewrite with lsmlen; rewrite ?E in *; autorewrite with lsmlen in *; unfold blen in *; rewrite ?length_app in *; lia.
  cbn [rbind]. rewrite blen_map.
  replace (if blen lo =? 0 then 0%nat else Z.to_nat (blen lo - 1)) with (length a)
    by (rewrite Hla; unfold blen; destruct (Z.eqb_spec (Z.of_nat (length lo)) 0); lia).
  pose proof Ht as Ht'. rewrite Ea in Ht'. destruct (load_at it a b c Ht') as (it1 & -> & Hp1 & Hr1). cbn [rbind].
  destruct (seek_loop_at (S (length (r_index_ (i_reader it)) * length (base_ (i_reader it1)))) it1 a b c [] b t Hp1)
    as (it2 & E2 & Hr2 & Hat).
  { destruct (to_data _ _ Ht) as [tl Hd]. rewrite Hr1, Hl, Hd.
    pose proof (data_len_ge bs) as Hge. rewrite Ea in *. rewrite !concat_app in *. cbn [concat] in *.
    unfold blen in Hge. rewrite !length_app in *. simpl in *. lia. }
  exists it2. split; [done|]. split; [by rewrite Hr2|]. by rewrite Ea, <- Ea, <- Hfk in *.
Qed.

(** The iterator keeps the contract of the interface. *)
#[global] Program Instance sst_iterator_laws : IteratorLaws SSTIter := {
  it_source it es := exists bs, table_ok (i_reader it) bs /\ es = concat bs /\ i_status it = Status_OK;
  it_at it es rest := exists bs, es = concat bs /\ sst_at it bs rest }.
Next Obligation. intros it es rest (bs & -> & Hat). exists bs. by destruct Hat as (? & ? & _). Qed.
Next Obligation.
  intros it es [|e rest] (bs & -> & Ht & Hst & Hat); [exists (concat bs); by rewrite app_nil_r|].
  destruct Hat as (_ & _ & _ & _ & a & b & c & d & r & -> & Hp & ->).
  exists (concat a ++ d). rewrite concat_app. cbn [concat]. rewrite (ip_split _ _ _ _ _ _ Hp).
  by rewrite <- !app_assoc.
Qed.
Next Obligation. intros it es (bs & Ht & -> & _). apply Ht. Qed.
Next Obligation.
  intros it es t (bs & Ht & -> & Hst). destruct (sst_seek it bs t Ht Hst) as (it' & E & _ & Hat).
  exists it'. split; [done|]. by exists bs.
Qed.
Next Obligation. intros it es rest (bs & _ & _ & ? & _). done. Qed.
Next Obligation. intros it es (bs & _ & _ & _ & ?). done. Qed.
Next Obligation.
  intros it es e rest (bs & _ & _ & _ & Hv & Hk & Hval & Hty & _). simpl. by rewrite Hv, Hk, Hval, Hty.
Qed.
Next Obligation.
  intros it es e rest (bs & -> & Hat). destruct (sst_next _ _ _ _ Hat) as (it' & E & Hat').
  exists it'. split; [done|]. by exists bs.
Qed.

(** ** Properties *)

(** C18 (functional). Iteration over a table written from sorted records and
    reopened: from [SeekToFirst] it visits every record exactly once, in order,
    across all block boundaries, and from [Seek t] exactly the records with keys
    not below [t]; the status stays OK and no step reads outside a block. *)
Theorem table_iterates_records path bs bpk es fn r t fuel :
  table_fits bs bpk es ->
  open_mapped path (table_bytes (chunks bs es) (TableWriter.filter_of bpk es)) fn = Ok r ->
  (length es < fuel)%nat ->
  exists it it', SST_SeekToFirst (NewIterator r) = Ok it /\ it_drain fuel it = Ok (map view es) /\
    SST_Seek (NewIterator r) t = Ok it' /\ it_drain fuel it' = Ok (map view (from_key t es)) /\
    it_status it = Status_OK /\ it_status it' = Status_OK.
Proof.
  intros Hfit Ho Hf. destruct (session_open path bs bpk es fn Hfit) as (r' & Ho' & Ht & _).
  rewrite Ho in Ho'. injection Ho' as <-.
  destruct (sst_first (NewIterator r) _ Ht eq_refl) as (it & E & _ & Hat).
  destruct (sst_seek (NewIterator r) _ t Ht eq_refl) as (it' & E' & _ & Hat').
  rewrite chunks_concat in *. exists it, it'.
  pose proof (from_key_length t es).
  rewrite (it_drain_at fuel it es es), (it_drain_at fuel it' es (from_key t es)); try lia.
  - split_and!; [done..|apply Hat|apply Hat'].
  - exists (chunks bs es). by rewrite chunks_concat.
  - exists (chunks bs es). by rewrite chunks_concat.
Qed.

Lemma table_iterates_records_witness :
  exists r it it', open_mapped (lit "t") (table_bytes (chunks 20 sample_records)
                     (TableWriter.filter_of 10 sample_records)) 1 = Ok r /\
    SST_SeekToFirst (NewIterator r) = Ok it /\ it_drain 4 it = Ok (map view sample_records) /\
    SST_Seek (NewIterator r) (lit "b") = Ok it' /\
    it_drain 4 it' = Ok (map view (from_key (lit "b") sample_records)) /\
    it_status it = Status_OK /\ it_status it' = Status_OK.
Proof.
  destruct (session_open (lit "t") 20 10 sample_records 1 sample_fits) as (r & Ho & _).
  destruct (table_iterates_records (lit "t") 20 10 sample_records 1 r (lit "b") 4 sample_fits Ho ltac:(simpl; lia))
    as (it & it' & H).
  exists r, it, it'. split; [exact Ho|exact H].
Defined.
