(* ===== verification/Merge.v ===== *)
(** The k-way merge (class [MergingIterator], src/merging_iterator.cpp), written
    against the iterator interface and proved against its laws: one ascending
    stream of unique keys in which the child of lowest index wins. *)
From S2P Require Import Prelude Types TableFormat TableWriter TableReader Iterator TableIter.

(** ** The operations *)

Section Merge.
Context {It : Type} `{InternalIterator It}.

(** [class MergingIterator]. *)
Record MergingIterator := mkMerging {
  children_ : list It; cur_key_ : bytes; cur_value_ : bytes; cur_is_tombstone_ : bool;
  m_valid_ : bool; m_status_ : Status }.

Definition MergingIterator_new (children : list It) : MergingIterator :=
  mkMerging children [] [] false false Status_OK.

(** [best < 0 || key < children[best].key()]: the index of the smallest head so
    far, with its key. *)
Definition better (best : option (nat * bytes)) (i : nat) (k : bytes) : option (nat * bytes) :=
  match best with
  | None => Some (i, k)
  | Some (_, bk) => if str_ltb k bk then Some (i, k) else best
  end.

(** The search of [Advance] for the smallest head; a child with a failed status
    ends it. *)
Fixpoint advance_best (cs : list It) (i : nat) (best : option (nat * bytes))
  : result (Status + option (nat * bytes)) :=
  match cs with
  | [] => Ok (inr best)
  | c :: cs' =>
      if negb (ok (it_status c)) then Ok (inl (it_status c))
      else if negb (it_Valid c) then advance_best cs' (S i) best
      else let* k := it_key c in advance_best cs' (S i) (better best i k)
  end.

(** The first child that is valid and stands on the key. *)
Fixpoint find_winner (cs : list It) (cur : bytes) : result (option It) :=
  match cs with
  | [] => Ok None
  | c :: cs' =>
      if it_Valid c then
        let* k := it_key c in
        if str_eqb k cur then Ok (Some c) else find_winner cs' cur
      else find_winner cs' cur
  end.

(** Advance every child that stands on the key. *)
Fixpoint consume (cs : list It) (cur : bytes) : result (list It) :=
  match cs with
  | [] => Ok []
  | c :: cs' =>
      let* c :=
        (if it_Valid c then
           let* k := it_key c in
           if str_eqb k cur then it_Next c else Ok c
         else Ok c) in
      let* cs' := consume cs' cur in
      Ok (c :: cs')
  end.

(** [MergingIterator::Advance]. *)
Definition Advance (m : MergingIterator) : result MergingIterator :=
  let* best := advance_best (children_ m) 0 None in
  match best with
  | inl s => Ok (mkMerging (children_ m) (cur_key_ m) (cur_value_ m) (cur_is_tombstone_ m) false s)
  | inr None =>
      Ok (mkMerging (children_ m) (cur_key_ m) (cur_value_ m) (cur_is_tombstone_ m) false (m_status_ m))
  | inr (Some (best, cur)) =>
      let* found := find_winner (children_ m) cur in
      let* winner :=
        match found with Some c => Ok c | None => of_option (children_ m !! best) end in
      let* value := it_value winner in
      let* tomb := it_IsTombstone winner in
      let* cs := consume (children_ m) cur in
      Ok (mkMerging cs cur value tomb true (m_status_ m))
  end.

(** [MergingIterator::SeekToFirst], given the [SeekToFirst] of a child. *)
Fixpoint seek_children (first : It -> result It) (cs : list It) : result (list It) :=
  match cs with
  | [] => Ok []
  | c :: cs' => let* c := first c in let* cs' := seek_children first cs' in Ok (c :: cs')
  end.

Definition Merge_SeekToFirst (first : It -> result It) (m : MergingIterator) : result MergingIterator :=
  let* cs := seek_children first (children_ m) in
  Advance (mkMerging cs (cur_key_ m) (cur_value_ m) (cur_is_tombstone_ m) (m_valid_ m) (m_status_ m)).

(** [MergingIterator::Next]. *)
Definition Merge_Next (m : MergingIterator) : result MergingIterator :=
  if negb (m_valid_ m) then Ok m else Advance m.

(** [for (; merge.Valid(); merge.Next())]: the triples a client sees, and the
    status at the end. *)
Fixpoint merge_drain (fuel : nat) (m : MergingIterator) : result (list (bytes * bytes * bool) * Status) :=
  match fuel with
  | O => UB
  | S fuel' =>
      if m_valid_ m then
        let* m' := Merge_Next m in
        let* (rest, s) := merge_drain fuel' m' in
        Ok ((cur_key_ m, cur_value_ m, cur_is_tombstone_ m) :: rest, s)
      else Ok ([], m_status_ m)
  end.

End Merge.
Arguments MergingIterator : clear implicits.

(** ** Abstract specification: merging sorted runs, the first run wins *)

Module Runs.

(** The first records of the runs. *)
Definition heads (rs : list (list entry)) : list entry :=
  flat_map (fun r => match r with [] => [] | e :: _ => [e] end) rs.

Definition min_key (k : option bytes) (e : entry) : option bytes :=
  match k with
  | None => Some (e_key e)
  | Some k => if str_ltb (e_key e) k then Some (e_key e) else Some k
  end.

Definition least (rs : list (list entry)) : option bytes := fold_left min_key (heads rs) None.

(** Drop the record of key [k] at the front of each run. *)
Definition step (k : bytes) (rs : list (list entry)) : list (list entry) :=
  map (fun r => match r with
                | [] => []
                | e :: r' => if str_eqb (e_key e) k then r' else r
                end) rs.

(** The merge: emit the smallest key with the record of the first run that has it. *)
Fixpoint merge_fuel (n : nat) (rs : list (list entry)) : list entry :=
  match n with
  | O => []
  | S n' =>
      match least rs with
      | None => []
      | Some k =>
          match assoc (heads rs) k with
          | Some e => e :: merge_fuel n' (step k rs)
          | None => []
          end
      end
  end.

Definition merge (rs : list (list entry)) : list entry := merge_fuel (length (concat rs)) rs.

End Runs.

(** ** Lemmas: the abstract merge *)

Lemma fold_min_spec l k0 :
  exists k, fold_left Runs.min_key l (Some k0) = Some k /\ str_le k k0 /\
    Forall (fun e => str_le k (e_key e)) l /\ (k = k0 \/ exists e, assoc l k = Some e).
Proof.
  revert k0. induction l as [|e l IH]; intros k0; cbn [fold_left Runs.min_key].
  { exists k0. split_and!; auto. str_order. }
  set (k1 := if str_ltb (e_key e) k0 then e_key e else k0).
  replace (if str_ltb (e_key e) k0 then Some (e_key e) else Some k0) with (Some k1)
    by (unfold k1; by destruct (str_ltb _ _)).
  destruct (IH k1) as (k & E & Hle & Hall & Hk). exists k.
  assert (str_le k1 k0 /\ str_le k1 (e_key e)) as [H0 He]
    by (unfold k1; destruct (str_ltb_spec (e_key e) k0); split; str_order).
  split_and!; [done|str_order|constructor; [str_order|done]|].
  rewrite assoc_cons. destruct (str_eqb_spec (e_key e) k) as [Hek|Hne]; [eauto|].
  destruct Hk as [->|Hk]; [|eauto]. left. unfold k1 in *.
  by destruct (str_ltb_spec (e_key e) k0).
Qed.

Lemma heads_nil rs : Runs.heads rs = [] <-> concat rs = [].
Proof.
  unfold Runs.heads. induction rs as [|[|e r] rs IH]; simpl; [done|done|]. split; done.
Qed.

Lemma least_None rs : Runs.least rs = None -> concat rs = [].
Proof.
  unfold Runs.least. intros H. apply heads_nil. destruct (Runs.heads rs) as [|e l]; [done|].
  simpl in H. destruct (fold_min_spec l (e_key e)) as (k & E & _). by rewrite E in H.
Qed.

Lemma least_Some rs k :
  Forall sorted_keys rs -> Runs.least rs = Some k ->
  (exists e, assoc (Runs.heads rs) k = Some e) /\ Forall (fun e => str_le k (e_key e)) (concat rs).
Proof.
  intros Hs Hk.
  assert ((exists e, assoc (Runs.heads rs) k = Some e) /\ Forall (fun e => str_le k (e_key e)) (Runs.heads rs))
    as [Hex Hall].
  { unfold Runs.least in Hk. destruct (Runs.heads rs) as [|e l]; [done|]. simpl in Hk.
    destruct (fold_min_spec l (e_key e)) as (k' & E & Hle & Hall & Hor). rewrite E in Hk. injection Hk as ->.
    split; [|by constructor]. rewrite assoc_cons. destruct (str_eqb_spec (e_key e) k); [eauto|].
    destruct Hor as [->|]; [done|eauto]. }
  split; [done|]. clear Hk Hex. induction Hs as [|r rs Hr Hs IH]; [done|]. cbn [concat].
  unfold Runs.heads in Hall. simpl in Hall. apply Forall_app in Hall as [Hh Hall].
  apply Forall_app. split; [|by apply IH]. destruct r as [|e r]; [done|]. apply Forall_cons in Hh as [He _].
  constructor; [done|]. destruct Hr as [Hr _]. eapply Forall_impl; [exact Hr|]. intros f Hf. str_order.
Qed.

(** A run whose keys are not below [k] has [k] only in front. *)
Lemma assoc_front r k :
  sorted_keys r -> Forall (fun e => str_le k (e_key e)) r ->
  assoc r k = match r with [] => None | e :: _ => if str_eqb (e_key e) k then Some e else None end.
Proof.
  destruct r as [|e r]; [done|]. intros [Hlt _] [Hle _]%Forall_cons. rewrite assoc_cons.
  destruct (str_eqb_spec (e_key e) k); [done|]. apply assoc_None. eapply Forall_impl; [exact Hlt|].
  intros f Hf E. simpl in Hf. rewrite E in Hf. str_order.
Qed.

Lemma assoc_heads rs k :
  Forall sorted_keys rs -> Forall (fun e => str_le k (e_key e)) (concat rs) ->
  assoc (concat rs) k = assoc (Runs.heads rs) k.
Proof.
  induction 1 as [|r rs Hr Hs IH]; [done|]. cbn [concat]. intros [Hle Hall]%Forall_app.
  unfold Runs.heads. cbn [flat_map]. rewrite !assoc_app, IH, (assoc_front r k) by done.
  destruct r as [|e r]; [done|]. rewrite assoc_cons. by destruct (str_eqb (e_key e) k).
Qed.

Lemma step_assoc k rs k' : k' <> k -> assoc (concat (Runs.step k rs)) k' = assoc (concat rs) k'.
Proof.
  intros Hne. induction rs as [|r rs IH]; [done|]. unfold Runs.step in *. cbn [map concat].
  rewrite !assoc_app, IH. destruct r as [|e r]; [done|].
  destruct (str_eqb_spec (e_key e) k) as [E|]; [|done]. rewrite assoc_cons.
  destruct (str_eqb_spec (e_key e) k'); [|done]. congruence.
Qed.

Lemma step_sorted k rs :
  Forall sorted_keys rs -> Forall (fun e => str_le k (e_key e)) (concat rs) ->
  Forall sorted_keys (Runs.step k rs) /\ Forall (fun e => str_lt k (e_key e)) (concat (Runs.step k rs)).
Proof.
  induction 1 as [|r rs Hr Hs IH]; [done|]. cbn [concat]. intros [Hle Hall]%Forall_app.
  destruct (IH Hall) as [H1 H2]. unfold Runs.step in *. cbn [map concat]. rewrite Forall_cons, Forall_app.
  destruct r as [|e r]; [done|]. apply Forall_cons in Hle as [He _]. pose proof Hr as [Hlt Hr'].
  destruct (str_eqb_spec (e_key e) k) as [E|Hne]; split_and!; try done; [by rewrite <- E|].
  assert (str_lt k (e_key e)) by str_order. constructor; [done|].
  eapply Forall_impl; [exact Hlt|]. intros f Hf. str_order.
Qed.

Lemma step_shrinks k rs e :
  assoc (Runs.heads rs) k = Some e -> (length (concat (Runs.step k rs)) < length (concat rs))%nat.
Proof.
  assert (forall rs, (length (concat (Runs.step k rs)) <= length (concat rs))%nat) as Hle.
  { clear. induction rs as [|r rs IH]; [done|]. unfold Runs.step in *. cbn [map concat].
    rewrite !length_app. destruct r as [|e r]; simpl; [lia|]. destruct (str_eqb _ _); simpl; lia. }
  induction rs as [|r rs IH]; [done|]. unfold Runs.heads, Runs.step in *. cbn [flat_map map concat].
  rewrite assoc_app, !length_app. specialize (Hle rs). unfold Runs.step in Hle. destruct r as [|e' r]; [simpl; auto|].
  rewrite assoc_cons. destruct (str_eqb (e_key e') k); simpl; [lia|]. intros Hx%IH. lia.
Qed.

Lemma step_incl k rs e : e ∈ concat (Runs.step k rs) -> e ∈ concat rs.
Proof.
  induction rs as [|r rs IH]; [done|]. unfold Runs.step in *. cbn [map concat].
  destruct r as [|e' r]; [done|]. destruct (str_eqb (e_key e') k); set_solver.
Qed.

(** The merge of sorted runs: ascending unique keys, the first run wins, nothing
    lost and nothing invented. *)
Lemma merge_fuel_spec n rs :
  (length (concat rs) <= n)%nat -> Forall sorted_keys rs ->
  let out := Runs.merge_fuel n rs in
  sorted_keys out /\ (forall k, assoc out k = assoc (concat rs) k) /\ (forall e, e ∈ out -> e ∈ concat rs).
Proof.
  revert rs. induction n as [|n IH]; intros rs Hn Hs; cbn [Runs.merge_fuel].
  { assert (concat rs = []) as -> by (by apply nil_length_inv; lia). done. }
  destruct (Runs.least rs) as [k|] eqn:Ek.
  2: { rewrite (least_None rs Ek). done. }
  destruct (least_Some rs k Hs Ek) as [[e He] Hle]. rewrite He. pose proof (assoc_Some _ _ _ He) as [_ Hek].
  destruct (step_sorted k rs Hs Hle) as [Hs' Hgt]. pose proof (step_shrinks k rs e He) as Hsh.
  destruct (IH (Runs.step k rs) ltac:(lia) Hs') as (Hsort & Hass & Hin). cbv zeta in *.
  pose proof (assoc_heads rs k Hs Hle) as Hhead. rewrite He in Hhead. split_and!.
  - split; [|done]. apply Forall_forall. intros f Hf%Hin. rewrite Forall_forall in Hgt.
    rewrite Hek. by apply Hgt.
  - intros k'. rewrite assoc_cons, Hek. destruct (str_eqb_spec k k') as [<-|Hne]; [done|].
    rewrite Hass. by apply step_assoc.
  - intros f [->|Hf]%elem_of_cons; [by apply assoc_Some in Hhead as [? _]|]. by eapply step_incl, Hin.
Qed.

Lemma merge_fuel_enough n m rs :
  (length (concat rs) <= n)%nat -> (length (concat rs) <= m)%nat -> Forall sorted_keys rs ->
  Runs.merge_fuel n rs = Runs.merge_fuel m rs.
Proof.
  revert m rs. induction n as [|n IH]; intros [|m] rs Hn Hm Hs; cbn [Runs.merge_fuel]; try done.
  1,2: assert (Runs.least rs = None) as -> by
      (unfold Runs.least; by rewrite (proj2 (heads_nil rs)) by (by apply nil_length_inv; lia)); done.
  destruct (Runs.least rs) as [k|] eqn:Ek; [|done].
  destruct (least_Some rs k Hs Ek) as [[e He] Hle]. rewrite He. f_equal.
  pose proof (step_shrinks k rs e He). apply IH; [lia..|]. by apply step_sorted.
Qed.

Lemma merge_length rs : (length (Runs.merge rs) <= length (concat rs))%nat.
Proof.
  unfold Runs.merge. generalize (length (concat rs)) as n. intros n. revert rs.
  induction n as [|n IH]; intros rs; simpl; [lia|]. destruct (Runs.least rs) as [k|]; simpl; [|lia].
  destruct (assoc (Runs.heads rs) k); simpl; [|lia]. specialize (IH (Runs.step k rs)). lia.
Qed.

Lemma merge_spec rs :
  Forall sorted_keys rs ->
  sorted_keys (Runs.merge rs) /\ (forall k, assoc (Runs.merge rs) k = assoc (concat rs) k) /\
  (forall e, e ∈ Runs.merge rs -> e ∈ concat rs).
Proof. intros Hs. by apply merge_fuel_spec. Qed.

(** One step of the merge. *)
Lemma merge_unfold rs :
  Forall sorted_keys rs ->
  Runs.merge rs = match Runs.least rs with
                  | None => []
                  | Some k => match assoc (Runs.heads rs) k with
                              | Some e => e :: Runs.merge (Runs.step k rs)
                              | None => []
                              end
                  end.
Proof.
  intros Hs. unfold Runs.merge at 1. rewrite (merge_fuel_enough _ (S (length (concat rs)))) by (lia || done).
  cbn [Runs.merge_fuel]. destruct (Runs.least rs) as [k|] eqn:Ek; [|done].
  destruct (least_Some rs k Hs Ek) as [[e He] Hle]. rewrite He. f_equal.
  pose proof (step_shrinks k rs e He). apply merge_fuel_enough; [lia..|]. by apply step_sorted.
Qed.

(** ** Lemmas: the iterator simulates the abstract merge *)

Section Simulation.
Context {It : Type} `{IteratorLaws It}.

(** The children stand before the runs. *)
Definition runs_at (cs : list It) (rs : list (list entry)) : Prop :=
  Forall2 (fun c r => exists es, it_at c es r) cs rs.

Lemma runs_at_sorted cs rs : runs_at cs rs -> Forall sorted_keys rs.
Proof.
  induction 1 as [|c r cs rs [es Hc] _ IH]; constructor; [|done].
  destruct (it_at_suffix _ _ _ Hc) as [pre ->].
  pose proof (it_source_sorted _ _ (it_at_source _ _ _ Hc)) as Hs. by apply sorted_keys_app in Hs as (_ & ? & _).
Qed.

Lemma better_key best i e :
  snd <$> better best i (e_key e) = Runs.min_key (snd <$> best) e.
Proof. destruct best as [[j k]|]; [|done]. simpl. by destruct (str_ltb _ _). Qed.

Lemma advance_best_at cs rs i best :
  runs_at cs rs ->
  exists b, advance_best cs i best = Ok (inr b) /\
    snd <$> b = fold_left Runs.min_key (Runs.heads rs) (snd <$> best).
Proof.
  intros Hcs. revert i best. induction Hcs as [|c r cs rs [es Hc] _ IH]; intros i best; cbn [advance_best]; [eauto|].
  rewrite (it_ok _ _ _ Hc). cbn [negb ok code_ Status_OK]. destruct r as [|e r].
  - rewrite (it_at_end _ _ Hc). cbn [negb]. apply IH.
  - destruct (it_at_head _ _ _ _ Hc) as (-> & -> & _). cbn [negb rbind].
    destruct (IH (S i) (better best i (e_key e))) as (b & -> & Hb). exists b. split; [done|].
    by rewrite Hb, better_key.
Qed.

Lemma find_winner_at cs rs k e :
  runs_at cs rs -> assoc (Runs.heads rs) k = Some e ->
  exists c, find_winner cs k = Ok (Some c) /\ it_value c = Ok (e_value e) /\
    it_IsTombstone c = Ok (is_tombstone_type (e_type e)).
Proof.
  induction 1 as [|c r cs rs [es Hc] _ IH]; [done|]. unfold Runs.heads. cbn [flat_map find_winner].
  destruct r as [|e' r]; [rewrite (it_at_end _ _ Hc); apply IH|].
  destruct (it_at_head _ _ _ _ Hc) as (-> & -> & Hv & Ht). cbn [rbind app]. rewrite assoc_cons.
  destruct (str_eqb (e_key e') k); [|apply IH]. intros [= ->]. by exists c.
Qed.

Lemma consume_at cs rs k :
  runs_at cs rs -> exists cs', consume cs k = Ok cs' /\ runs_at cs' (Runs.step k rs).
Proof.
  induction 1 as [|c r cs rs [es Hc] _ (cs' & IH & Hcs')]; [by exists []; split; [|constructor]|].
  cbn [consume]. rewrite IH. destruct r as [|e r].
  - rewrite (it_at_end _ _ Hc). cbn [rbind]. exists (c :: cs'). split; [done|]. constructor; eauto.
  - destruct (it_at_head _ _ _ _ Hc) as (-> & -> & _). cbn [rbind].
    unfold Runs.step. cbn [map]. destruct (str_eqb (e_key e) k).
    + destruct (it_next _ _ _ _ Hc) as (c' & -> & Hc'). cbn [rbind]. exists (c' :: cs').
      split; [done|]. constructor; eauto.
    + cbn [rbind]. exists (c :: cs'). split; [done|]. constructor; eauto.
Qed.

(** The merging iterator still has to emit [out], the current record first. *)
Definition merging_at (m : MergingIterator It) (out : list entry) : Prop :=
  m_status_ m = Status_OK /\
  match out with
  | [] => m_valid_ m = false
  | e :: out' =>
      m_valid_ m = true /\ (cur_key_ m, cur_value_ m, cur_is_tombstone_ m) = view e /\
      exists rs, runs_at (children_ m) rs /\ out' = Runs.merge rs
  end.

Lemma Advance_at m rs :
  runs_at (children_ m) rs -> m_status_ m = Status_OK ->
  exists m', Advance m = Ok m' /\ merging_at m' (Runs.merge rs).
Proof.
  intros Hcs Hst. pose proof (runs_at_sorted _ _ Hcs) as Hs. unfold Advance.
  destruct (advance_best_at _ _ 0 None Hcs) as (b & -> & Hb). cbn [rbind].
  rewrite (merge_unfold rs Hs). fold (Runs.least rs) in Hb.
  change (fold_left Runs.min_key (Runs.heads rs) (snd <$> @None (nat * bytes))) with (Runs.least rs) in Hb.
  destruct b as [[i k]|]; simpl in Hb; rewrite <- Hb.
  2: { eexists. split; [done|]. by split. }
  destruct (least_Some rs k Hs (eq_sym Hb)) as [[e He] _]. rewrite He.
  pose proof (assoc_Some _ _ _ He) as [_ Hek].
  destruct (find_winner_at _ _ _ _ Hcs He) as (c & -> & Hv & Ht). cbn [rbind]. rewrite Hv, Ht. cbn [rbind].
  destruct (consume_at _ _ k Hcs) as (cs' & -> & Hcs'). cbn [rbind]. eexists. split; [done|].
  split; [done|]. unfold view. rewrite Hek. cbn. split_and!; [done..|]. eauto.
Qed.

Lemma Merge_Next_at m e out :
  merging_at m (e :: out) -> exists m', Merge_Next m = Ok m' /\ merging_at m' out.
Proof.
  intros (Hst & Hv & _ & rs & Hcs & ->). unfold Merge_Next. rewrite Hv. cbn [negb]. by apply Advance_at.
Qed.

Lemma merge_drain_at fuel m out :
  merging_at m out -> (length out < fuel)%nat -> merge_drain fuel m = Ok (map view out, Status_OK).
Proof.
  revert m out. induction fuel as [|fuel IH]; intros m out Hm Hf; [lia|]. cbn [merge_drain].
  destruct out as [|e out]; pose proof Hm as [Hst Hm'].
  { by rewrite Hm', Hst. }
  destruct Hm' as (-> & Hcur & _). destruct (Merge_Next_at _ _ _ Hm) as (m' & -> & Hm1). cbn [rbind].
  rewrite (IH m' out) by (done || simpl in Hf; lia). cbn [rbind map]. by rewrite Hcur.
Qed.

(** Seeking the children of a merge to their first records. *)
Lemma seek_children_at first cs rs :
  Forall2 (fun c r => exists c', first c = Ok c' /\ exists es, it_at c' es r) cs rs ->
  exists cs', seek_children first cs = Ok cs' /\ runs_at cs' rs.
Proof.
  induction 1 as [|c r cs rs (c' & E & Hc) _ (cs' & IH & Hcs')]; [by exists []; split; [|constructor]|].
  cbn [seek_children]. rewrite E, IH. cbn [rbind]. exists (c' :: cs'). split; [done|]. by constructor.
Qed.

Lemma Merge_SeekToFirst_at first cs rs :
  Forall2 (fun c r => exists c', first c = Ok c' /\ exists es, it_at c' es r) cs rs ->
  exists m, Merge_SeekToFirst first (MergingIterator_new cs) = Ok m /\ merging_at m (Runs.merge rs).
Proof.
  intros (cs' & E & Hcs)%seek_children_at. unfold Merge_SeekToFirst. cbn [children_ MergingIterator_new].
  rewrite E. cbn [rbind]. by apply Advance_at.
Qed.

End Simulation.

(** ** Tables as children *)

(** The reader serves the records [es]. *)
Definition serves (r : SSTableReader) (es : list entry) : Prop :=
  exists bs, table_ok r bs /\ concat bs = es.

Lemma merge_of_tables readers runs :
  Forall2 serves readers runs ->
  exists m, Merge_SeekToFirst SST_SeekToFirst (MergingIterator_new (map NewIterator readers)) = Ok m /\
    merging_at m (Runs.merge runs) /\ Forall sorted_keys runs.
Proof.
  intros Hr.
  assert (Forall sorted_keys runs) as Hs.
  { induction Hr as [|r es rs ess (bs & Ht & <-) _ IH]; constructor; [apply Ht|done]. }
  destruct (Merge_SeekToFirst_at SST_SeekToFirst (map NewIterator readers) runs) as (m & E & Hm); [|by exists m].
  clear Hs. induction Hr as [|r es rs ess (bs & Ht & <-) _ IH]; cbn [map]; constructor; [|done].
  destruct (sst_first (NewIterator r) bs Ht eq_refl) as (it & E & _ & Hat). exists it. split; [done|].
  exists (concat bs). by exists bs.
Qed.

(** ** Properties *)

(** C14 (functional). The k-way merge over any number of well-formed tables, given
    in priority order: it terminates without fault and with an OK status, its
    keys are strictly ascending (so unique), for every key the table of lowest
    index that holds the key supplies the record, and no key is lost or
    invented. *)
Theorem merge_newest_wins readers runs fuel :
  Forall2 serves readers runs -> (length (concat runs) < fuel)%nat ->
  exists m out, Merge_SeekToFirst SST_SeekToFirst (MergingIterator_new (map NewIterator readers)) = Ok m /\
    merge_drain fuel m = Ok (map view out, Status_OK) /\ sorted_keys out /\
    (forall k, assoc out k = assoc (concat runs) k) /\ (forall e, e ∈ out -> e ∈ concat runs).
Proof.
  intros Hr Hf. destruct (merge_of_tables readers runs Hr) as (m & E & Hm & Hs).
  destruct (merge_spec runs Hs) as (H1 & H2 & H3). exists m, (Runs.merge runs). split; [done|].
  split; [|done]. apply merge_drain_at; [done|].
  eapply Nat.le_lt_trans; [|exact Hf]. apply merge_length.
Qed.

Lemma merge_newest_wins_witness :
  let new := [Entry (lit "bee") (lit "9") kValue; Entry (lit "cat") [] kTombstone] in
  exists r1 r2 m out,
    open_mapped (lit "2") (table_bytes (chunks 20 new) (filter_of 10 new)) 2 = Ok r1 /\
    open_mapped (lit "1") (table_bytes (chunks 20 sample_records) (filter_of 10 sample_records)) 1 = Ok r2 /\
    Merge_SeekToFirst SST_SeekToFirst (MergingIterator_new (map NewIterator [r1; r2])) = Ok m /\
    merge_drain 6 m = Ok (map view out, Status_OK) /\ sorted_keys out /\
    (forall k, assoc out k = assoc (concat [new; sample_records]) k) /\
    (forall e, e ∈ out -> e ∈ concat [new; sample_records]).
Proof.
  intros new.
  assert (table_fits 20 10 new) as Hfit.
  { split.
    - lia.
    - repeat apply Forall_cons_2; [vm_compute; discriminate..|apply Forall_nil_2].
    - repeat split; repeat constructor.
    - vm_compute. discriminate.
    - split; vm_compute; discriminate.
    - vm_compute. reflexivity. }
  destruct (session_open (lit "2") 20 10 new 2 Hfit) as (r1 & Ho1 & Ht1 & _).
  destruct (session_open (lit "1") 20 10 sample_records 1 sample_fits) as (r2 & Ho2 & Ht2 & _).
  destruct (merge_newest_wins [r1; r2] [new; sample_records] 6) as (m & out & H).
  - repeat apply Forall2_cons_2; [| |apply Forall2_nil_2].
    + exists (chunks 20 new). split; [exact Ht1|apply chunks_concat].
    + exists (chunks 20 sample_records). split; [exact Ht2|apply chunks_concat].
  - simpl. lia.
  - exists r1, r2, m, out. split; [exact Ho1|]. split; [exact Ho2|]. exact H.
Defined.

(** A child that failed stops the merge: if some child has a failed
    status, [Advance] emits nothing more, the merge is no longer valid and its
    status is that of the first failed child, so a compaction over a damaged
    input reports the damage instead of writing a partial merge as complete. *)
Theorem merge_stops_at_failed_child (m : MergingIterator SSTIter) pre c post :
  children_ m = pre ++ c :: post -> Forall (fun x => ok (i_status x) = true) pre ->
  ok (i_status c) = false ->
  exists m', Advance m = Ok m' /\ m_valid_ m' = false /\ m_status_ m' = i_status c /\
    children_ m' = children_ m.
Proof.
  intros Hcs Hpre Hc.
  assert (forall i best, advance_best (pre ++ c :: post) i best = Ok (inl (i_status c))) as Hb.
  { clear Hcs. induction Hpre as [|x pre Hx _ IH]; intros i best; cbn [app advance_best it_status sst_iterator].
    - by rewrite Hc.
    - rewrite Hx. cbn [negb]. destruct (negb (it_Valid x)); [apply IH|]. cbn [it_key sst_iterator rbind]. apply IH. }
  unfold Advance. rewrite Hcs, Hb. cbn [rbind]. eexists. by split_and!.
Qed.

Lemma merge_stops_at_failed_child_witness :
  let r := mkReader [] [] Bloom.BloomFilter_empty 1 0 [] [] true in
  let bad := mkSSTIter r 0 0 [] false [] [] kValue (Status_Corruption (lit "block CRC mismatch")) in
  let m := mkMerging [NewIterator r; bad] (lit "k") [] false true Status_OK in
  exists m', Advance m = Ok m' /\ m_valid_ m' = false /\ m_status_ m' = i_status bad /\
    children_ m' = [NewIterator r; bad].
Proof.
  intros r bad m. apply (merge_stops_at_failed_child m [NewIterator r] bad []).
  - reflexivity.
  - repeat constructor.
  - reflexivity.
Defined.
