(* ===== verification/Version.v ===== *)
(** Versions of the level layout (src/db.cpp, include/lsmdb/db.h): file names,
    file metadata, point lookups through the levels, the choice of a compaction
    and the installation of its result.

    A [shared_ptr] to a [FileMeta] or a [Version] is the value it points to:
    both are immutable once they are published. *)
From S2P Require Import Prelude Types Bloom Cache Posix TableFormat TableWriter TableReader Iterator.
From S2P Require Import TableIter Merge.

(** ** Options *)

(** [struct Options]. *)
Record Options := mkOptions {
  sync : bool; memtable_flush_threshold : Z; l0_compaction_trigger : Z; l1_target_bytes : Z;
  level_size_multiplier : Z; target_file_size : Z; max_levels : Z; bloom_bits_per_key : Z;
  block_cache_bytes : Z }.

Definition Options_default : Options :=
  mkOptions true (4 * 1024 * 1024) 4 (8 * 1024 * 1024) 10 (2 * 1024 * 1024) 7 10 (8 * 1024 * 1024).

Definition kOutputBlockSize : Z := 4096.

(** ** File names *)

(** The decimal digits of an unsigned integer, most significant first. *)
Fixpoint decimal (fuel : nat) (n : Z) (acc : bytes) : bytes :=
  match fuel with
  | O => acc
  | S fuel' =>
      let acc := byte_of (48 + n mod 10) :: acc in
      if n <? 10 then acc else decimal fuel' (n / 10) acc
  end.

(** [snprintf(buf, 32, "%06llu.sst", number)]: twenty digits hold every 64-bit
    number, so the buffer is large enough. *)
Definition NumberToName (number : Z) : bytes :=
  let d := decimal 20 number [] in
  replicate (6 - length d) Byte.x30 ++ d ++ lit ".sst".

#[global] Arguments NumberToName number : simpl never.

(** [name.find('.')]. *)
Fixpoint find_dot (name : bytes) : option nat :=
  match name with
  | [] => None
  | c :: name' => if Byte.eqb c Byte.x2e then Some O else S <$> find_dot name'
  end.

Fixpoint parse_digits (digits : bytes) (n : Z) : option Z :=
  match digits with
  | [] => Some n
  | c :: digits' =>
      if (byte_val c <? 48) || (57 <? byte_val c) then None
      else parse_digits digits' (n *u64 10 +u64 (byte_val c - 48))
  end.

(** [ParseFileNumber]. *)
Definition ParseFileNumber (name : bytes) : option Z :=
  match find_dot name with
  | None => None
  | Some dot =>
      if negb (str_eqb (drop dot name) (lit ".sst")) then None
      else if (dot =? 0)%nat then None
      else parse_digits (take dot name) 0
  end.

(** ** Files and versions *)

(** [struct FileMeta]. *)
Record FileMeta := mkFileMeta {
  fm_number : Z; fm_smallest : bytes; fm_largest : bytes; fm_file_size : Z; fm_num_entries : Z;
  fm_reader : SSTableReader }.

(** [struct Version]: the files of each level, level 0 first. *)
Abbreviation Version := (list (list FileMeta)).

(** [Overlaps]. *)
Definition Overlaps (fsmall flarge lo hi : bytes) : bool := str_leb lo flarge && str_leb fsmall hi.

(** A bound on the records of a set of files: a record takes at least one byte of
    its file, for each block of it. It is the fuel of the loops over records. *)
Definition records_bound (files : list FileMeta) : nat :=
  foldr (fun f n => length (r_index_ (fm_reader f)) * length (base_ (fm_reader f)) + n)%nat O files.

(** ** Point lookups *)

(** The loop over level 0, newest file first. The status of a table is
    discarded. *)
Fixpoint get_l0 (files : list FileMeta) (key : bytes) (cache : option BlockCache)
  : result ((LookupResult.t * option bytes) * option BlockCache) :=
  match files with
  | [] => Ok ((LookupResult.kNotFound, None), cache)
  | f :: files' =>
      if str_ltb key (fm_smallest f) || str_ltb (fm_largest f) key then get_l0 files' key cache
      else
        let* (found, _, rs) := SSTableReader_Get (fm_reader f) key (mkReadState cache 0) in
        match found.1 with
        | LookupResult.kNotFound => get_l0 files' key (rs_cache rs)
        | _ => Ok (found, rs_cache rs)
        end
  end.

(** The loop over the deeper levels: at most one file of each is consulted. *)
Fixpoint get_levels (levels : list (list FileMeta)) (key : bytes) (cache : option BlockCache)
  : result ((LookupResult.t * option bytes) * option BlockCache) :=
  match levels with
  | [] => Ok ((LookupResult.kNotFound, None), cache)
  | [] :: levels' => get_levels levels' key cache
  | files :: levels' =>
      let* lo := bin_search (S (length files)) (map fm_smallest files) key 0 (to_int (blen files)) in
      let* idx := int32 (lo - 1) in
      if idx <? 0 then get_levels levels' key cache
      else
        let* f := at_index files idx in
        if str_ltb (fm_largest f) key then get_levels levels' key cache
        else
          let* (found, _, rs) := SSTableReader_Get (fm_reader f) key (mkReadState cache 0) in
          match found.1 with
          | LookupResult.kNotFound => get_levels levels' key (rs_cache rs)
          | _ => Ok (found, rs_cache rs)
          end
  end.

(** [DB::GetFromVersion]; [None] is a null version pointer. *)
Definition GetFromVersion (v : option Version) (key : bytes) (cache : option BlockCache)
  : result ((LookupResult.t * option bytes) * option BlockCache) :=
  match v with
  | None | Some [] => Ok ((LookupResult.kNotFound, None), cache)
  | Some (l0 :: deeper) =>
      let* (found, cache) := get_l0 (rev l0) key cache in
      match found.1 with
      | LookupResult.kNotFound => get_levels deeper key cache
      | _ => Ok (found, cache)
      end
  end.

(** ** Choosing a compaction *)

(** [struct Compaction]. *)
Record Compaction := mkCompaction {
  source_level : nat; target_level : nat; bottommost : bool; c_inputs : list FileMeta }.

(** The byte budget of level [i >= 1]; the [int] multiplier converts to
    [uint64_t]. *)
Definition level_budget (o : Options) (i : nat) : Z :=
  Nat.iter (i - 1) (fun b => b *u64 u64 (level_size_multiplier o)) (l1_target_bytes o).

Definition level_bytes (files : list FileMeta) : Z :=
  fold_left (fun b f => b +u64 fm_file_size f) files 0.

Definition over_budget (o : Options) (i : nat) (files : list FileMeta) : bool :=
  negb (bool_decide (files = [])) && (level_budget o i <? level_bytes files).

(** [i < (size_t)options_.max_levels - 1]. *)
Definition below_max (o : Options) (i : nat) : bool := Z.of_nat i <? u64 (max_levels o) -u64 1.

Fixpoint needs_level (o : Options) (i : nat) (levels : list (list FileMeta)) : bool :=
  match levels with
  | [] => false
  | l :: levels' =>
      if below_max o i then
        if over_budget o i l then true else needs_level o (S i) levels'
      else false
  end.

Definition l0_triggered (o : Options) (l0 : list FileMeta) : bool :=
  l0_compaction_trigger o <=? to_int (blen l0).

(** [DB::NeedsCompaction]. *)
Definition NeedsCompaction (o : Options) (v : option Version) : bool :=
  match v with
  | None | Some [] => false
  | Some (l0 :: deeper) => if l0_triggered o l0 then true else needs_level o 1 deeper
  end.

(** [std::sort] by a strict order. The order of elements that the comparison
    does not separate is unspecified by the library; here they keep theirs. *)
Fixpoint sort_insert {A} (lt : A -> A -> bool) (x : A) (l : list A) : list A :=
  match l with
  | [] => [x]
  | y :: l' => if lt y x then y :: sort_insert lt x l' else x :: l
  end.
Definition std_sort {A} (lt : A -> A -> bool) (l : list A) : list A := foldr (sort_insert lt) [] l.

Definition newer (a b : FileMeta) : bool := fm_number b <? fm_number a.
Definition smaller (a b : FileMeta) : bool := str_ltb (fm_smallest a) (fm_smallest b).

Definition str_min (a b : bytes) : bytes := if str_ltb b a then b else a.
Definition str_max (a b : bytes) : bytes := if str_ltb a b then b else a.

Definition overlapping (lo hi : bytes) (files : list FileMeta) : list FileMeta :=
  List.filter (fun f => Overlaps (fm_smallest f) (fm_largest f) lo hi) files.

(** [no_data_below(target)]. *)
Definition no_data_below (v : Version) (target : nat) : bool :=
  forallb (fun l => bool_decide (l = [])) (drop (target + 1) v).

(** The second part of [DB::PickCompaction]: [levels] are those from [i] on. *)
Fixpoint pick_level (o : Options) (v : Version) (i : nat) (levels : list (list FileMeta)) : option Compaction :=
  match levels with
  | [] => None
  | l :: levels' =>
      if below_max o i then
        match l with
        | [] => pick_level o v (S i) levels'
        | chosen :: _ =>
            if level_bytes l <=? level_budget o i then pick_level o v (S i) levels'
            else
              let inputs :=
                chosen :: match levels' with
                          | next :: _ => overlapping (fm_smallest chosen) (fm_largest chosen) next
                          | [] => []
                          end in
              Some (mkCompaction i (i + 1) (no_data_below v (i + 1)) inputs)
        end
      else None
  end.

(** [DB::PickCompaction]. [l0.front()] of an empty level is undefined. *)
Definition PickCompaction (o : Options) (v : option Version) : result (option Compaction) :=
  match v with
  | None | Some [] => Ok None
  | Some ((l0 :: deeper) as v) =>
      if l0_triggered o l0 then
        let l0 := std_sort newer l0 in
        match l0 with
        | [] => UB
        | front :: _ =>
            let lo := fold_left (fun lo f => str_min lo (fm_smallest f)) l0 (fm_smallest front) in
            let hi := fold_left (fun hi f => str_max hi (fm_largest f)) l0 (fm_largest front) in
            let inputs := l0 ++ match deeper with l1 :: _ => overlapping lo hi l1 | [] => [] end in
            Ok (Some (mkCompaction 0 1 (no_data_below v 1) inputs))
        end
      else Ok (pick_level o v 1 deeper)
  end.

(** ** Installing a compaction *)

Definition removed (c : Compaction) (f : FileMeta) : bool :=
  existsb (fun g => fm_number g =? fm_number f) (c_inputs c).

Definition strip (c : Compaction) (files : list FileMeta) : list FileMeta :=
  List.filter (fun f => negb (removed c f)) files.

(** [DB::InstallCompaction] on the current version. *)
Definition InstallCompaction (v : Version) (c : Compaction) (outputs : list FileMeta) : Version :=
  let need := (Nat.max (source_level c) (target_level c) + 1)%nat in
  let nv := v ++ replicate (need - length v) [] in
  let nv := alter (strip c) (source_level c) nv in
  let nv := alter (strip c) (target_level c) nv in
  let nv := alter (fun files => files ++ outputs) (target_level c) nv in
  if (1 <=? target_level c)%nat then alter (std_sort smaller) (target_level c) nv else nv.

(** ** Lemmas: file names *)

Definition is_digit (c : byte) : Prop := 48 <= byte_val c <= 57.

Lemma digit_of_mod n : byte_val (byte_of (48 + n mod 10)) = 48 + n mod 10.
Proof. rewrite byte_val_of. pose proof (Z.mod_pos_bound n 10 eq_refl). apply Z.mod_small. lia. Qed.

Lemma decimal_digits fuel n acc : Forall is_digit acc -> Forall is_digit (decimal fuel n acc).
Proof.
  revert n acc. induction fuel as [|fuel IH]; intros n acc Ha; cbn [decimal]; [done|].
  assert (Forall is_digit (byte_of (48 + n mod 10) :: acc)) as Hc.
  { constructor; [|done]. unfold is_digit. rewrite digit_of_mod.
    pose proof (Z.mod_pos_bound n 10 eq_refl). lia. }
  destruct (n <? 10); [done|]. by apply IH.
Qed.

Lemma parse_digit c ds n : is_digit c -> parse_digits (c :: ds) n = parse_digits ds (n *u64 10 +u64 (byte_val c - 48)).
Proof. unfold is_digit. intros. cbn [parse_digits]. by zbool. Qed.

Lemma parse_decimal fuel n acc :
  (0 < fuel)%nat -> 0 <= n < 10 ^ Z.of_nat fuel -> is_u64 n ->
  parse_digits (decimal fuel n acc) 0 = parse_digits acc n.
Proof.
  unfold is_u64. revert n acc. induction fuel as [|fuel IH]; intros n acc Hf Hn Hu; [lia|]. cbn [decimal].
  assert (is_digit (byte_of (48 + n mod 10))) as Hd.
  { unfold is_digit. rewrite digit_of_mod. pose proof (Z.mod_pos_bound n 10 eq_refl). lia. }
  rewrite Nat2Z.inj_succ, Z.pow_succ_r in Hn by lia.
  destruct (Z.ltb_spec n 10).
  - rewrite parse_digit, digit_of_mod, Z.mod_small by (done || lia). f_equal.
    rewrite !u64_small by (rewrite ?u64_small; lia). lia.
  - destruct fuel as [|fuel]; [simpl in Hn; lia|].
    pose proof (Z.div_mod n 10 ltac:(lia)). pose proof (Z.mod_pos_bound n 10 eq_refl).
    assert (0 <= n / 10 <= n) by (split; [apply Z.div_pos|apply Z.div_le_upper_bound]; lia).
    rewrite IH; [|lia|split; [lia|apply Z.div_lt_upper_bound; lia]|lia].
    rewrite parse_digit, digit_of_mod by done. f_equal. rewrite (u64_small (_ * 10)), u64_small by lia. lia.
Qed.

Lemma parse_zeros z ds : parse_digits (replicate z Byte.x30 ++ ds) 0 = parse_digits ds 0.
Proof. induction z as [|z IH]; [done|]. cbn [replicate app]. rewrite parse_digit; [|by vm_compute]. exact IH. Qed.

Lemma find_dot_app p rest : Forall is_digit p -> find_dot (p ++ Byte.x2e :: rest) = Some (length p).
Proof.
  induction 1 as [|c p Hc _ IH]; [done|]. cbn [app find_dot].
  destruct (Byte.eqb c Byte.x2e) eqn:E; [|by rewrite IH].
  apply Byte.byte_dec_bl in E as ->. by destruct Hc.
Qed.

Lemma name_parses n : is_u64 n -> ParseFileNumber (NumberToName n) = Some n.
Proof.
  unfold is_u64. intros Hn. unfold NumberToName. set (d := decimal 20 n []). set (z := replicate (6 - length d) Byte.x30).
  assert (Forall is_digit (z ++ d)) as Hd.
  { apply Forall_app; split; [|by apply decimal_digits]. apply Forall_replicate. by vm_compute. }
  unfold ParseFileNumber. change (lit ".sst") with (Byte.x2e :: lit "sst"). rewrite app_assoc.
  rewrite find_dot_app, drop_app_length, take_app_length by done.
  rewrite str_eqb_refl. cbn [negb].
  assert (length (z ++ d) <> 0)%nat as Hne.
  { unfold z. rewrite length_app, length_replicate. unfold d. cbn [decimal].
    assert (forall f m a, (length a <= length (decimal f m a))%nat) as Hle.
    { clear. induction f as [|f IH]; intros m a; cbn [decimal]; [lia|].
      destruct (m <? 10); simpl; [lia|]. etransitivity; [|apply IH]. simpl. lia. }
    destruct (n <? 10); [simpl; lia|]. specialize (Hle 19%nat (n / 10) [byte_of (48 + n mod 10)]). cbn [length] in Hle. lia. }
  rewrite (proj2 (Nat.eqb_neq _ _) Hne). unfold z. rewrite parse_zeros. unfold d.
  by rewrite parse_decimal by (unfold is_u64; lia).
Qed.

Lemma name_inj n m : is_u64 n -> is_u64 m -> NumberToName n = NumberToName m -> n = m.
Proof. intros Hn Hm E. apply name_parses in Hn, Hm. rewrite E in Hn. congruence. Qed.

(** ** Well-formed versions *)

(** A file of the version serves the records [es]. *)
Record file_ok (f : FileMeta) (es : list entry) : Prop := {
  fo_serves : serves (fm_reader f) es;
  fo_nonempty : es <> [];
  fo_small : fm_smallest f = block_first es;
  fo_large : fm_largest f = last_key es;
  fo_number : file_number_ (fm_reader f) = fm_number f;
  fo_entries : fm_num_entries f = blen es;
  fo_size : fm_file_size f = blen (base_ (fm_reader f)) }.

Lemma file_records_bound f es :
  file_ok f es -> (length es <= length (r_index_ (fm_reader f)) * length (base_ (fm_reader f)))%nat.
Proof.
  intros [(bs & Ht & <-) Hne _ _ _]. destruct (to_data _ _ Ht) as [tl Hd].
  rewrite (table_index_length _ _ Ht), Hd, length_app. pose proof (data_len_ge bs) as Hge. unfold blen in Hge.
  destruct bs as [|b bs]; [done|]. simpl length at 2. nia.
Qed.

Lemma records_bound_enough files runs :
  Forall2 file_ok files runs -> (length (concat runs) <= records_bound files)%nat.
Proof.
  induction 1 as [|f es files runs Hf _ IH]; [done|]. cbn [concat records_bound foldr]. rewrite length_app.
  pose proof (file_records_bound f es Hf). unfold records_bound in IH. lia.
Qed.

(** The records of the files of each level. *)
Abbreviation contents := (list (list (list entry))).

(** The level invariant: every file is a well-formed table, and below level 0
    the files of a level are disjoint and in key order, so that their
    concatenation is one sorted run. *)
Record version_ok (v : Version) (ess : contents) : Prop := {
  vo_files : Forall2 (Forall2 file_ok) v ess;
  vo_sorted : Forall (fun l => sorted_keys (concat l)) (tail ess);
  vo_count : Forall (fun l => blen l <= 2 ^ 30) v }.

(** The runs of a version in the order in which reads consult them. *)
Definition newest_first (ess : contents) : list (list entry) :=
  match ess with [] => [] | l0 :: deeper => rev l0 ++ concat deeper end.

(** All records, newer versions of a key first. *)
Definition version_records (ess : contents) : list entry := concat (newest_first ess).

(** The cache that a version's readers share holds true blocks. *)
Definition cache_true (P : CacheKey -> bytes -> Prop) (cache : option BlockCache) : Prop :=
  match cache with Some c => cache_inv P c | None => True end.

(** ** Lemmas: lookups *)

Lemma serves_sorted r es : serves r es -> sorted_keys es.
Proof. intros (bs & Ht & <-). apply Ht. Qed.

Lemma last_key_ge es e : sorted_keys es -> e ∈ es -> str_le (e_key e) (last_key es).
Proof.
  induction es as [|f es IH] using rev_ind; [by intros _ ?%elem_of_nil|].
  intros Hs He. unfold last_key. rewrite last_snoc. apply sorted_keys_app in Hs as (_ & _ & Hlt).
  apply elem_of_app in He as [He| ->%list_elem_of_singleton]; [|str_order].
  rewrite Forall_forall in Hlt. specialize (Hlt e He). apply Forall_cons in Hlt as [Hlt _]. simpl in Hlt. str_order.
Qed.

Lemma first_key_le es e : sorted_keys es -> e ∈ es -> str_le (block_first es) (e_key e).
Proof.
  destruct es as [|f es]; [by intros _ ?%elem_of_nil|]. intros [Hlt _] [->|He]%elem_of_cons; simpl; [str_order|].
  rewrite Forall_forall in Hlt. specialize (Hlt e He). simpl in Hlt. str_order.
Qed.

(** A key outside the range of a file is not in it. *)
Lemma out_of_range f es key :
  file_ok f es -> str_lt key (fm_smallest f) \/ str_lt (fm_largest f) key -> assoc es key = None.
Proof.
  intros [Hs _ Hsm Hla _]. apply serves_sorted in Hs. rewrite Hsm, Hla. intros Hout.
  apply assoc_None, Forall_forall. intros e He <-.
  pose proof (last_key_ge es e Hs He). pose proof (first_key_le es e Hs He).
  destruct Hout; str_order.
Qed.

Lemma file_get P f es key cache :
  file_ok f es -> reader_truth P (fm_reader f) -> cache_true P cache ->
  exists rs, SSTableReader_Get (fm_reader f) key (mkReadState cache 0)
             = Ok (lookup_of (assoc es key), Status_OK, rs) /\ cache_true P (rs_cache rs).
Proof.
  intros [(bs & Ht & <-) _ _ _ _] HP Hc.
  destruct (Get_ok P _ bs key (mkReadState cache 0) Ht HP Hc) as (rs & E & Hrs & _). by exists rs.
Qed.

Lemma lookup_of_miss o : (lookup_of o).1 = LookupResult.kNotFound <-> o = None.
Proof. destruct o as [e|]; simpl; [|done]. by destruct (is_tombstone_type (e_type e)). Qed.

Section Lookups.
Variable P : CacheKey -> bytes -> Prop.

Definition files_true (files : list FileMeta) : Prop :=
  Forall (fun f => reader_truth P (fm_reader f)) files.

Lemma get_l0_ok files ess key cache :
  Forall2 file_ok files ess -> files_true files -> cache_true P cache ->
  exists cache', get_l0 files key cache = Ok (lookup_of (assoc (concat ess) key), cache') /\ cache_true P cache'.
Proof.
  intros Hf. revert cache. induction Hf as [|f es files ess Hf _ IH]; intros cache Ht Hc; cbn [get_l0 concat]; [eauto|].
  apply Forall_cons in Ht as [Htf Ht]. rewrite assoc_app.
  destruct (str_ltb_spec key (fm_smallest f)) as [Hlo|Hlo]; cbn [orb].
  { rewrite (out_of_range f es key) by auto. by apply IH. }
  destruct (str_ltb_spec (fm_largest f) key) as [Hhi|Hhi].
  { rewrite (out_of_range f es key) by auto. by apply IH. }
  destruct (file_get P f es key cache Hf Htf Hc) as (rs & -> & Hrs). cbn [rbind].
  destruct (IH (rs_cache rs) Ht Hrs) as (cache' & E & Hc').
  destruct (assoc es key) as [e|]; [|exists cache'; by rewrite E].
  exists (rs_cache rs). split; [|done]. simpl. by destruct (is_tombstone_type (e_type e)).
Qed.

(** The only file of a sorted level that can hold the key. *)
Lemma level_search files ess key :
  Forall2 file_ok files ess -> sorted_keys (concat ess) -> blen files <= 2 ^ 30 ->
  exists lo hi, ess = lo ++ hi /\ cut_at key (map block_first lo) (map block_first hi) /\
    bin_search (S (length files)) (map fm_smallest files) key 0 (to_int (blen files)) = Ok (blen lo).
Proof.
  intros Hf Hs Hn.
  assert (Forall nonempty ess) as Hne.
  { clear Hs Hn. induction Hf as [|f es fs ess [_ Hne _ _ _] _ IH]; constructor; done. }
  assert (map fm_smallest files = map block_first ess) as Hk.
  { clear Hs Hn Hne. induction Hf as [|f es fs ess [_ _ Hsm _ _] _ IH]; simpl; [done|]. by rewrite Hsm, IH. }
  pose proof (Forall2_length _ _ _ Hf) as Hl. destruct (blocks_cut ess key Hne Hs) as (lo & hi & -> & Hc).
  exists lo, hi. split; [done|]. split; [done|]. rewrite to_int_small by (pose proof (blen_nonneg files); lia).
  rewrite Hk, map_app. rewrite length_app in Hl.
  rewrite bin_search_cut; rewrite ?blen_map; try done; autorewrite with lsmlen; unfold blen in *; lia.
Qed.

Lemma get_levels_ok levels ess key cache :
  Forall2 (Forall2 file_ok) levels ess -> Forall (fun l => sorted_keys (concat l)) ess ->
  Forall (fun l => blen l <= 2 ^ 30) levels -> Forall files_true levels -> cache_true P cache ->
  exists cache', get_levels levels key cache = Ok (lookup_of (assoc (concat (concat ess)) key), cache') /\
    cache_true P cache'.
Proof.
  intros Hl. revert cache. induction Hl as [|files es levels ess Hf _ IH]; intros cache Hs Hn Ht Hc;
    cbn [get_levels concat]; [eauto|].
  apply Forall_cons in Hs as [Hs1 Hs]. apply Forall_cons in Hn as [Hn1 Hn]. apply Forall_cons in Ht as [Ht1 Ht].
  destruct files as [|f0 files0] eqn:Ef; [inversion Hf; subst; by apply IH|]. rewrite <- Ef in *.
  rewrite concat_app, assoc_app.
  destruct (level_search files es key Hf Hs1 Hn1) as (lo & hi & -> & Hcut & ->). cbn [rbind].
  assert (Forall nonempty (lo ++ hi)) as Hne.
  { clear -Hf. induction Hf as [|f es fs ess [_ Hne _ _ _] _ IH]; constructor; done. }
  pose proof (Forall2_length _ _ _ Hf) as Hlen. rewrite length_app in Hlen.
  assert (blen lo <= 2 ^ 30) as Hblo by (unfold blen in *; lia).
  destruct lo as [|es lo' _] using rev_ind.
  { cbn [app] in *. change (blen (@nil (list entry))) with 0. cbn. rewrite (assoc_after_cut [] hi key) by (done || apply Hcut). by apply IH. }
  rewrite blen_app in *. change (blen [es]) with 1 in *.
  unfold int32. pose proof (blen_nonneg lo'). zbool. cbn [andb rbind]. zbool.
  rewrite <- app_assoc in *. cbn [app] in *.
  apply Forall2_app_inv_r in Hf as (fl & fr & Hfl & Hfr & ->).
  inversion Hfr as [|f ? fr' ? Hfok Hfr']; subst fr. 
  pose proof (Forall2_length _ _ _ Hfl) as Hfl'.
  replace (at_index (fl ++ f :: fr') (blen lo' + 1 - 1)) with (Ok f).
  2: { unfold at_index, blen. zbool. replace (Z.to_nat (Z.of_nat (length lo') + 1 - 1)) with (length fl) by lia.
       by rewrite list_lookup_middle. }
  cbn [rbind]. rewrite (assoc_cut lo' es hi key Hne Hs1 Hcut).
  destruct (str_ltb_spec (fm_largest f) key) as [Hhi|Hhi].
  { rewrite (out_of_range f es key) by auto. by apply IH. }
  assert (reader_truth P (fm_reader f)) as Htf by (by apply Forall_app in Ht1 as [_ [? _]%Forall_cons]).
  destruct (file_get P f es key cache Hfok Htf Hc) as (rs & -> & Hrs). cbn [rbind].
  destruct (IH (rs_cache rs) Hs Hn Ht Hrs) as (cache' & E & Hc').
  destruct (assoc es key) as [e|]; [|exists cache'; by rewrite E].
  exists (rs_cache rs). split; [|done]. simpl. by destruct (is_tombstone_type (e_type e)).
Qed.

(** Lookups through a well-formed version find the newest record. *)
Lemma GetFromVersion_ok v ess key cache :
  version_ok v ess -> Forall files_true v -> cache_true P cache ->
  exists cache', GetFromVersion (Some v) key cache = Ok (lookup_of (assoc (version_records ess) key), cache') /\
    cache_true P cache'.
Proof.
  intros [Hf Hs Hn] Ht Hc. unfold GetFromVersion, version_records.
  destruct Hf as [|l0 e0 deeper ess Hl0 Hd]; [eauto|]. cbn [newest_first tail] in *.
  apply Forall_cons in Hn as [_ Hn]. apply Forall_cons in Ht as [Ht0 Ht].
  destruct (get_l0_ok (rev l0) (rev e0) key cache) as (c1 & -> & Hc1).
  - by apply Forall2_rev.
  - unfold files_true in *. by apply Forall_rev.
  - done.
  - cbn [rbind]. rewrite concat_app, assoc_app.
    destruct (get_levels_ok deeper ess key c1 Hd Hs Hn Ht Hc1) as (c2 & E & Hc2).
    destruct (assoc (concat (rev e0)) key) as [e|]; [|exists c2; by rewrite E].
    exists c1. split; [|done]. simpl. by destruct (is_tombstone_type (e_type e)).
Qed.

End Lookups.
