(* ===== verification/Db.v ===== *)
(** The database (class [DB], src/db.cpp): its state and every operation, as
    functions of the state and the world. Proofs are in the files that follow.

    [mu_] makes the sections that touch [current_] and [next_file_number_]
    atomic, so each operation is a function; the interleavings that the lock
    allows between the caller's thread and the background thread are the subject
    of the file on the background loop. *)
From Stdlib Require Import SpecFloat.
From S2P Require Import Prelude Types Coding Bloom SkipList Cache Posix Wal TableFormat.
From S2P Require Import TableWriter TableReader Iterator TableIter Merge Version.

(** [class DB]: the fields that operations read and write; [current_] is a
    nullable pointer. *)
Record DB := mkDB {
  options_ : Options; dir_ : bytes; mem_ : SkipList; block_cache_ : option BlockCache;
  wal_ : WalWriter; current_ : option Version; next_file_number_ : Z;
  user_bytes_ : Z; flush_bytes_ : Z; compaction_bytes_ : Z }.

Definition set_mem (d : DB) (m : SkipList) : DB :=
  mkDB (options_ d) (dir_ d) m (block_cache_ d) (wal_ d) (current_ d) (next_file_number_ d)
    (user_bytes_ d) (flush_bytes_ d) (compaction_bytes_ d).
Definition set_cache (d : DB) (c : option BlockCache) : DB :=
  mkDB (options_ d) (dir_ d) (mem_ d) c (wal_ d) (current_ d) (next_file_number_ d)
    (user_bytes_ d) (flush_bytes_ d) (compaction_bytes_ d).
Definition set_wal (d : DB) (w : WalWriter) : DB :=
  mkDB (options_ d) (dir_ d) (mem_ d) (block_cache_ d) w (current_ d) (next_file_number_ d)
    (user_bytes_ d) (flush_bytes_ d) (compaction_bytes_ d).
Definition set_current (d : DB) (v : option Version) : DB :=
  mkDB (options_ d) (dir_ d) (mem_ d) (block_cache_ d) (wal_ d) v (next_file_number_ d)
    (user_bytes_ d) (flush_bytes_ d) (compaction_bytes_ d).
Definition set_next (d : DB) (n : Z) : DB :=
  mkDB (options_ d) (dir_ d) (mem_ d) (block_cache_ d) (wal_ d) (current_ d) n
    (user_bytes_ d) (flush_bytes_ d) (compaction_bytes_ d).
Definition add_user_bytes (d : DB) (n : Z) : DB :=
  mkDB (options_ d) (dir_ d) (mem_ d) (block_cache_ d) (wal_ d) (current_ d) (next_file_number_ d)
    (user_bytes_ d +u64 n) (flush_bytes_ d) (compaction_bytes_ d).
Definition add_flush_bytes (d : DB) (n : Z) : DB :=
  mkDB (options_ d) (dir_ d) (mem_ d) (block_cache_ d) (wal_ d) (current_ d) (next_file_number_ d)
    (user_bytes_ d) (flush_bytes_ d +u64 n) (compaction_bytes_ d).
Definition add_compaction_bytes (d : DB) (n : Z) : DB :=
  mkDB (options_ d) (dir_ d) (mem_ d) (block_cache_ d) (wal_ d) (current_ d) (next_file_number_ d)
    (user_bytes_ d) (flush_bytes_ d) (compaction_bytes_ d +u64 n).

(** [DB::DB]. *)
Definition DB_new (o : Options) (dir : bytes) : DB :=
  mkDB o dir SkipList_new
    (if 0 <? block_cache_bytes o then Some (BlockCache_new (block_cache_bytes o)) else None)
    WalWriter_new None 1 0 0 0.

Definition wal_path_of (dir : bytes) : bytes := dir ++ lit "/wal.log".
Definition FilePath (d : DB) (number : Z) : bytes := dir_ d ++ lit "/" ++ NumberToName number.
Definition ManifestPath (d : DB) : bytes := dir_ d ++ lit "/MANIFEST".

#[global] Arguments FilePath d number : simpl never.

(** The metadata of a finished output, from its writer and its reader. *)
Definition file_meta (number : Z) (w : SSTableWriter) (r : SSTableReader) : FileMeta :=
  mkFileMeta number (smallest_key_ r) (largest_key_ r) (FileSize w) (NumEntries w) r.

(** ** The manifest *)

Definition put_file (buf : bytes) (f : FileMeta) : bytes :=
  let buf := PutFixed64 buf (fm_number f) in
  let buf := PutFixed64 buf (fm_file_size f) in
  let buf := PutFixed64 buf (fm_num_entries f) in
  let buf := PutLengthPrefixed buf (fm_smallest f) in
  PutLengthPrefixed buf (fm_largest f).

Definition put_level (buf : bytes) (level : list FileMeta) : bytes :=
  fold_left put_file level (PutFixed32 buf (u32 (blen level))).

(** The bytes that [WriteManifest] serializes. *)
Definition manifest_bytes (next_file : Z) (v : Version) : bytes :=
  let buf := PutFixed64 [] next_file in
  let buf := PutFixed32 buf (u32 (blen v)) in
  fold_left put_level v buf.

Section Operations.
Context `{Os} `{MemEnv}.

(** [DB::WriteManifest]. *)
Definition WriteManifest (d : DB) (v : Version) (σ : World) : Status * World :=
  let buf := manifest_bytes (next_file_number_ d) v in
  let tmp := ManifestPath d ++ lit ".tmp" in
  match open_trunc tmp σ with
  | (Some _, σ) => (Status_IOError (lit "open manifest.tmp"), σ)
  | (None, σ) =>
      match write_fully tmp buf σ with
      | (Some _, σ) => (Status_IOError (lit "write manifest.tmp"), (close σ).2)
      | (None, σ) =>
          match fsync tmp σ with
          | (Some _, σ) => (Status_IOError (lit "fsync manifest"), (close σ).2)
          | (None, σ) =>
              let σ := (close σ).2 in
              match rename tmp (ManifestPath d) σ with
              | (Some _, σ) => (Status_IOError (lit "rename manifest"), σ)
              | (None, σ) => (Status_OK, σ)
              end
          end
      end
  end.

(** The read loop of [LoadManifest], which stops at the first error or short end. *)
Fixpoint read_some (os : list io_outcome) (data acc : bytes) : bytes * list io_outcome :=
  match data with
  | [] => (acc, os)
  | _ :: _ =>
      match os with
      | [] => (acc ++ data, [])
      | IoOk :: os' => (acc ++ data, os')
      | IoShort O :: os' => (acc, os')
      | IoShort n :: os' => read_some os' (drop n data) (acc ++ take n data)
      | IoErr _ :: os' => (acc, os')
      end
  end.

Definition need (buf : bytes) (pos n : Z) : bool := pos + n <=? blen buf.

(** The fields of one file entry and the position after them. *)
Definition parse_file (buf : bytes) (pos : Z) : result (Z * Z * Z * bytes * bytes * Z) :=
  check (need buf pos 24) else Status_Corruption (lit "manifest truncated (file)") in
  let* number := DecodeFixed64 buf pos in
  let pos := pos + 8 in
  let* file_size := DecodeFixed64 buf pos in
  let pos := pos + 8 in
  let* num_entries := DecodeFixed64 buf pos in
  let pos := pos + 8 in
  check (need buf pos 4) else Status_Corruption (lit "manifest truncated (skey)") in
  let* sl := DecodeFixed32 buf pos in
  let pos := pos + 4 in
  check (need buf pos sl) else Status_Corruption (lit "manifest truncated (skey2)") in
  let* smallest := of_option (slice buf pos sl) in
  let pos := pos + sl in
  check (need buf pos 4) else Status_Corruption (lit "manifest truncated (lkey)") in
  let* ll := DecodeFixed32 buf pos in
  let pos := pos + 4 in
  check (need buf pos ll) else Status_Corruption (lit "manifest truncated (lkey2)") in
  let* largest := of_option (slice buf pos ll) in
  let pos := pos + ll in
  Ok (number, file_size, num_entries, smallest, largest, pos).

(** The loop over the files of one level. *)
Fixpoint load_files (n : nat) (d : DB) (buf : bytes) (pos max_number : Z) (σ : World)
  : result (list FileMeta * Z * Z) * World :=
  match n with
  | O => (Ok ([], pos, max_number), σ)
  | S n' =>
      let! ((number, file_size, num_entries, smallest, largest, pos), σ) := (parse_file buf pos, σ) in
      let! (reader, σ) := SSTableReader_Open (FilePath d number) number σ in
      let fm := mkFileMeta number smallest largest file_size num_entries reader in
      let! ((files, pos, max_number), σ) := load_files n' d buf pos (Z.max max_number number) σ in
      (Ok (fm :: files, pos, max_number), σ)
  end.

(** The loop over the levels. *)
Fixpoint load_levels (n : nat) (d : DB) (buf : bytes) (pos max_number : Z) (σ : World)
  : result (Version * Z) * World :=
  match n with
  | O => (Ok ([], max_number), σ)
  | S n' =>
      if negb (need buf pos 4) then (Err (Status_Corruption (lit "manifest truncated (level)")), σ)
      else
        let! (num_files, σ) := (DecodeFixed32 buf pos, σ) in
        let! ((files, pos, max_number), σ) :=
          load_files (Z.to_nat num_files) d buf (pos + 4) max_number σ in
        let! ((levels, max_number), σ) := load_levels n' d buf pos max_number σ in
        (Ok (files :: levels, max_number), σ)
  end.

(** The part of [LoadManifest] after the file was read: the version and the next
    file number. *)
Definition parse_manifest (d : DB) (buf : bytes) (σ : World) : result (Version * Z) * World :=
  if negb (need buf 0 12) then (Err (Status_Corruption (lit "manifest too short")), σ)
  else
    let! (next_file, σ) := (DecodeFixed64 buf 0, σ) in
    let! (num_levels, σ) := (DecodeFixed32 buf 8, σ) in
    let! ((levels, max_number), σ) := load_levels (Z.to_nat num_levels) d buf 12 0 σ in
    let v := levels ++ replicate (Z.to_nat (Z.max num_levels 1) - length levels) [] in
    (Ok (v, Z.max next_file (max_number +u64 1)), σ).

(** [DB::LoadManifest]: the database with its version loaded, or unchanged when
    there is no manifest. *)
Definition LoadManifest (d : DB) (σ : World) : result DB * World :=
  match open_rdonly (ManifestPath d) σ with
  | (inl e, σ) =>
      if e =? ENOENT then (Ok d, σ)
      else (Err (Status_IOError (lit "open manifest: " ++ strerror e)), σ)
  | (inr f, σ) =>
      let (o, σ) := next_io σ in
      match o with
      | IoErr _ => (Err (Status_IOError (lit "fstat manifest")), (close σ).2)
      | _ =>
          let (buf, os) := read_some (io σ) (f_data f) [] in
          let σ := (close (mkWorld (fs σ) os)).2 in
          let! ((v, next), σ) := parse_manifest d buf σ in
          (Ok (set_next (set_current d (Some v)) next), σ)
      end
  end.

(** ** Opening a database *)

(** The name of a directory entry: the path without the directory, if it has no
    further component. *)
Definition entry_name (dir path : bytes) : option bytes :=
  let prefix := dir ++ lit "/" in
  if str_eqb (take (length prefix) path) prefix then
    let name := drop (length prefix) path in
    if existsb (fun c => Byte.eqb c Byte.x2f) name then None else Some name
  else None.

Definition live_numbers (v : Version) : list Z := map fm_number (concat v).

(** One turn of the loop of [RemoveOrphanFiles]. *)
Definition remove_orphan (d : DB) (v : Version) (σ : World) (name : bytes) : World :=
  match ParseFileNumber name with
  | Some number =>
      if existsb (Z.eqb number) (live_numbers v) then σ else unlink (FilePath d number) σ
  | None => σ
  end.

(** The loop over the entries that [readdir] returns; a failing [readdir] returns a
    null pointer, as the end of the directory does. *)
Fixpoint readdir_loop (d : DB) (v : Version) (names : list bytes) (σ : World) : World :=
  let (o, σ) := next_io σ in
  match o, names with
  | IoErr _, _ | _, [] => σ
  | _, name :: names => readdir_loop d v names (remove_orphan d v σ name)
  end.

(** [DB::RemoveOrphanFiles], with the calls of [opendir], [readdir] and [closedir];
    the order of the directory entries does not matter to the set of files removed
    when all of them are read. *)
Definition RemoveOrphanFiles (d : DB) (v : Version) (σ : World) : World :=
  let (o, σ) := next_io σ in
  match o with
  | IoErr _ => σ
  | _ => (close (readdir_loop d v (omap (entry_name (dir_ d)) (map fst (map_to_list (fs σ)))) σ)).2
  end.

(** [DB::Recover]. *)
Definition Recover (d : DB) (σ : World) : result DB * World :=
  let! (d, σ) := LoadManifest d σ in
  let v := match current_ d with Some v => v | None => [[]] end in
  let d := set_current d (Some v) in
  let! (records, σ) := WalReplay (wal_path_of (dir_ d)) σ in
  let! (mem, σ) := (run_ops (mem_ d) records, σ) in
  let d := set_mem d mem in
  match WalWriter_Open (wal_path_of (dir_ d)) σ with
  | (s, w, σ) =>
      if negb (ok s) then (Err s, σ)
      else let d := set_wal d w in (Ok d, RemoveOrphanFiles d v σ)
  end.

Definition EEXIST : Z := 17.

(** [DB::Open] up to the start of the background thread. *)
Definition DB_Open (o : Options) (dir : bytes) (σ : World) : result DB * World :=
  match sys σ (fun m => m) with
  | (Some e, σ) =>
      if negb (e =? EEXIST) then (Err (Status_IOError (lit "mkdir " ++ dir ++ lit ": " ++ strerror e)), σ)
      else Recover (DB_new o dir) σ
  | (None, σ) => Recover (DB_new o dir) σ
  end.

(** [DB::Open] without options. *)
Definition DB_Open_default (dir : bytes) (σ : World) : result DB * World := DB_Open Options_default dir σ.

(** ** Writes *)

(** The publication of a flushed file in [FlushMemTable], under [mu_]. *)
Definition install_flush (d : DB) (fm : FileMeta) (σ : World) : result (Status * DB * World) :=
  let* nv := of_option (current_ d) in
  let nv := match nv with [] => [[]] | _ => nv end in
  let nv := alter (fun l0 => l0 ++ [fm]) 0%nat nv in
  let d := set_current d (Some nv) in
  let '(ms, σ) := WriteManifest d nv σ in
  if negb (ok ms) then Ok (ms, d, σ)
  else
    let d := set_mem d SkipList_new in
    let '(_, _, σ) := WalWriter_Close (wal_ d) σ in
    let σ := match open_trunc (wal_path_of (dir_ d)) σ with
             | (None, σ) => (close σ).2
             | (Some _, σ) => σ
             end in
    let '(ws, w, σ) := WalWriter_Open (wal_path_of (dir_ d)) σ in
    let d := set_wal d w in
    if negb (ok ws) then Ok (ws, d, σ) else Ok (Status_OK, d, σ).

(** [DB::FlushMemTable] up to the publication: the memtable is written to a new
    table, which is opened again. [None] when the function returns early. *)
Definition flush_table (d : DB) (σ : World) : result (Status * option (FileMeta * SSTableWriter) * DB * World) :=
  if SkipList_Size (mem_ d) =? 0 then Ok (Status_OK, None, d, σ)
  else
    let number := next_file_number_ d in
    let d := set_next d (next_file_number_ d +u64 1) in
    let path := FilePath d number in
    let w := SSTableWriter_new path kOutputBlockSize (bloom_bits_per_key (options_ d)) in
    let '(s, w, σ) := SSTableWriter_Open w σ in
    if negb (ok s) then Ok (s, None, d, SSTableWriter_destroy w σ)
    else
      let* it := SL_SeekToFirst (mem_ d) in
      let* es := SL_drain (S (size (heap (mem_ d)))) (mem_ d) it in
      let '(s, w, σ) := add_all w es σ in
      if negb (ok s) then Ok (s, None, d, SSTableWriter_destroy w σ)
      else
        let '(s, w, σ) := SSTableWriter_Finish w σ in
        if negb (ok s) then Ok (s, None, d, SSTableWriter_destroy w σ)
        else
          match SSTableReader_Open path number σ with
          | (UB, _) => UB
          | (Err s, σ) => Ok (s, None, d, SSTableWriter_destroy w σ)
          | (Ok reader, σ) =>
              let fm := file_meta number w reader in
              Ok (Status_OK, Some (fm, w), add_flush_bytes d (fm_file_size fm), σ)
          end.

(** The publication and the destructor of the writer. *)
Definition publish_table (d : DB) (fm : FileMeta) (w : SSTableWriter) (σ : World) : result (Status * DB * World) :=
  let* (s, d, σ) := install_flush d fm σ in
  Ok (s, d, SSTableWriter_destroy w σ).

(** [DB::FlushMemTable]. *)
Definition FlushMemTable (d : DB) (σ : World) : result (Status * DB * World) :=
  let* (s, table, d, σ) := flush_table d σ in
  match table with
  | None => Ok (s, d, σ)
  | Some (fm, w) => publish_table d fm w σ
  end.

(** Flush once the memtable has reached the threshold. *)
Definition maybe_flush (d : DB) (σ : World) : result (Status * DB * World) :=
  if memtable_flush_threshold (options_ d) <=? ApproximateMemoryUsage (mem_ d)
  then FlushMemTable d σ else Ok (Status_OK, d, σ).

(** [DB::Put] up to the test of the threshold. *)
Definition put_record (d : DB) (key value : bytes) (σ : World) : result (Status * DB * World) :=
  let '(s, σ) := AddRecord (wal_ d) kValue key value (sync (options_ d)) σ in
  if negb (ok s) then Ok (s, d, σ)
  else
    let* mem := SkipList_Put (mem_ d) key value in
    Ok (s, add_user_bytes (set_mem d mem) (blen key + blen value), σ).

(** [DB::Put]. *)
Definition DB_Put (d : DB) (key value : bytes) (σ : World) : result (Status * DB * World) :=
  let* (s, d, σ) := put_record d key value σ in
  if negb (ok s) then Ok (s, d, σ) else maybe_flush d σ.

(** [DB::Delete] up to the test of the threshold. *)
Definition delete_record (d : DB) (key : bytes) (σ : World) : result (Status * DB * World) :=
  let '(s, σ) := AddRecord (wal_ d) kTombstone key [] (sync (options_ d)) σ in
  if negb (ok s) then Ok (s, d, σ)
  else
    let* mem := SkipList_Delete (mem_ d) key in
    Ok (s, add_user_bytes (set_mem d mem) (blen key), σ).

(** [DB::Delete]. *)
Definition DB_Delete (d : DB) (key : bytes) (σ : World) : result (Status * DB * World) :=
  let* (s, d, σ) := delete_record d key σ in
  if negb (ok s) then Ok (s, d, σ) else maybe_flush d σ.

(** ** Reads *)

(** [DB::Get]; the cache is the only part of the database it changes. *)
Definition DB_Get (d : DB) (key : bytes) : result ((LookupResult.t * option bytes) * DB) :=
  let* r := SkipList_Get (mem_ d) key in
  match r.1 with
  | LookupResult.kNotFound =>
      let* (found, cache) := GetFromVersion (current_ d) key (block_cache_ d) in
      Ok (found, set_cache d cache)
  | _ => Ok (r, d)
  end.

End Operations.

(** [class MemIter]: a skip list with a position in it. *)
#[global] Instance mem_iterator : InternalIterator (SkipList * SLIter) := {
  it_Valid x := SL_Valid x.2;
  it_Seek x t := let* it := SL_Seek x.1 t in Ok (x.1, it);
  it_Next x := let* it := SL_Next x.1 x.2 in Ok (x.1, it);
  it_key x := let* n := SL_node x.1 x.2 in Ok (nkey n);
  it_value x := let* n := SL_node x.1 x.2 in Ok (nvalue n);
  it_IsTombstone x := let* n := SL_node x.1 x.2 in Ok (is_tombstone n);
  it_status _ := Status_OK }.

(** A [unique_ptr<InternalIterator>] of [Scan]. *)
Abbreviation AnyIter := ((SkipList * SLIter) + SSTIter)%type.

(** The sources of [Scan] in priority order. *)
Definition scan_sources (d : DB) : list AnyIter :=
  inl (mem_ d, None) ::
  match current_ d with
  | None | Some [] => []
  | Some (l0 :: deeper) =>
      map (fun f => inr (NewIterator (fm_reader f))) (rev l0)
      ++ map (fun f => inr (NewIterator (fm_reader f))) (concat deeper)
  end.

(** The loop that seeks every source, stopping at a failed status. *)
Fixpoint seek_all (its : list AnyIter) (start : bytes) : result (list AnyIter) :=
  match its with
  | [] => Ok []
  | it :: its' =>
      let* it := it_Seek it start in
      if negb (ok (it_status it)) then Err (it_status it)
      else let* its' := seek_all its' start in Ok (it :: its')
  end.

(** The smallest head, as [Scan] searches for it. *)
Fixpoint scan_best (its : list AnyIter) (i : nat) (best : option (nat * bytes)) : result (option (nat * bytes)) :=
  match its with
  | [] => Ok best
  | it :: its' =>
      if negb (it_Valid it) then scan_best its' (S i) best
      else let* k := it_key it in scan_best its' (S i) (better best i k)
  end.

(** The merge loop of [Scan]: the live pairs and the iterators at the end. *)
Fixpoint scan_loop (fuel : nat) (its : list AnyIter) (bound : bytes)
  : result (list (bytes * bytes) * list AnyIter) :=
  match fuel with
  | O => UB
  | S fuel' =>
      let* best := scan_best its 0 None in
      match best with
      | None => Ok ([], its)
      | Some (_, cur) =>
          if negb (bool_decide (bound = [])) && str_leb bound cur then Ok ([], its)
          else
            let* found := find_winner its cur in
            let* winner := of_option found in
            let* tomb := it_IsTombstone winner in
            let* val := it_value winner in
            let* its := consume its cur in
            let* (rest, its) := scan_loop fuel' its bound in
            Ok (if tomb : bool then rest else (cur, val) :: rest, its)
      end
  end.

(** A bound on the records that the sources can yield. *)
Definition scan_fuel (d : DB) : nat :=
  S (size (heap (mem_ d)) + records_bound (concat (default [] (current_ d)))).

(** [DB::Scan]: the status (OK, or that of a failed source) and [*out]. *)
Definition DB_Scan (d : DB) (start bound : bytes) : result (Status * list (bytes * bytes)) :=
  match seek_all (scan_sources d) start with
  | UB => UB
  | Err s => Ok (s, [])
  | Ok its =>
      let* (out, its) := scan_loop (scan_fuel d) its bound in
      match List.find (fun it => negb (ok (it_status it))) its with
      | Some it => Ok (it_status it, out)
      | None => Ok (Status_OK, out)
      end
  end.
