(* ===== verification/DbInvariant.v ===== *)
(** The in-memory invariant of the database (class [DB], src/db.cpp): what the
    memtable, the current version, the file numbers and the block cache hold of
    each other, what a reader of the database sees, and that reads and writes
    keep it under every pattern of I/O failures. *)
From S2P Require Import Prelude Types Coding Crc32 Bloom SkipList Cache Posix Wal TableFormat.
From S2P Require Import TableWriter TableReader Iterator TableIter Merge Version Db.

(** ** The invariant *)

Definition readers (v : Version) : list SSTableReader := map fm_reader (concat v).

(** The readers whose blocks may be cached: well-formed tables with distinct
    numbers already handed out. *)
Record readers_ok (next : Z) (R : list SSTableReader) : Prop := {
  ro_tables : forall r, r ∈ R -> exists bs, table_ok r bs;
  ro_unique : NoDup (map file_number_ R);
  ro_old : Forall (fun r => 0 <= file_number_ r < next) R }.

(** File numbers are distinct, were handed out, and grow along level 0. *)
Record numbers_ok (next : Z) (v : Version) : Prop := {
  no_unique : NoDup (map fm_number (concat v));
  no_old : Forall (fun f => 0 <= fm_number f < next) (concat v);
  no_l0 : StronglySorted Z.lt (map fm_number (default [] (head v))) }.

(** What a call returns: its status and, for a lookup, the answer. *)
Abbreviation reply := (Status * option (LookupResult.t * option bytes))%type.

Section Invariant.
Context `{MemEnv}.

(** [mes] are the records of the memtable, [ess] those of the files of the
    version [v], and [R] the readers that the cache may know. *)
Record db_ok (d : DB) (v : Version) (R : list SSTableReader) (mes : list entry) (ess : contents) : Prop := {
  do_mem : sl_contents (mem_ d) mes;
  do_fits : Forall rec_fits mes;
  do_current : current_ d = Some v;
  do_version : version_ok v ess;
  do_levels : v <> [];
  do_numbers : numbers_ok (next_file_number_ d) v;
  do_next : 1 <= next_file_number_ d;
  do_readers : readers_ok (next_file_number_ d) R;
  do_known : readers v ⊆ R;
  do_cache : cache_true (blocks_truth R) (block_cache_ d) }.

(** Every record of the database, newer versions of a key first. *)
Definition db_records (mes : list entry) (ess : contents) : list entry := mes ++ version_records ess.

(** ** Lemmas: reads *)

Lemma NoDup_map_inj {A B} (f : A -> B) l x y :
  NoDup (map f l) -> x ∈ l -> y ∈ l -> f x = f y -> x = y.
Proof.
  induction l as [|z l IH]; [by intros _ ?%elem_of_nil|]. intros [Hz Hnd]%NoDup_cons.
  assert (forall w, w ∈ l -> f w <> f z) as Hne.
  { intros w Hw E. apply Hz. rewrite <- E. by apply list_elem_of_In, in_map, list_elem_of_In. }
  intros [->|Hx]%elem_of_cons [->|Hy]%elem_of_cons E; [done| | |by apply IH].
  - symmetry in E. by apply Hne in E.
  - by apply Hne in E.
Qed.

Lemma readers_true next R r : readers_ok next R -> r ∈ R -> reader_truth (blocks_truth R) r.
Proof.
  intros [Ht Hu _] Hr. apply blocks_truth_ok; [done| |done].
  intros r' Hr' E. by eapply (NoDup_map_inj file_number_ R).
Qed.

Lemma version_true next R v :
  readers_ok next R -> readers v ⊆ R -> Forall (files_true (blocks_truth R)) v.
Proof.
  intros HR Hin. apply Forall_forall. intros l Hl. apply Forall_forall. intros f Hf.
  eapply readers_true; [done|]. apply Hin. unfold readers.
  apply list_elem_of_In, in_map, in_concat. exists l. by split; apply list_elem_of_In.
Qed.

(** A lookup returns the newest record of the key. *)
Lemma db_get d v R mes ess key :
  db_ok d v R mes ess ->
  exists c, DB_Get d key = Ok (lookup_of (assoc (db_records mes ess) key), set_cache d c) /\
    db_ok (set_cache d c) v R mes ess.
Proof.
  intros Hd. pose proof Hd as [Hm Hf Hcur Hv Hl Hn Hnx HR Hk Hc]. unfold DB_Get, db_records.
  rewrite (sl_get_contents _ _ key Hm), assoc_app. cbn [rbind].
  destruct (assoc mes key) as [e|].
  { exists (block_cache_ d). replace (set_cache d (block_cache_ d)) with d by (by destruct d).
    split; [|done]. simpl. by destruct (is_tombstone_type (e_type e)). }
  cbn [lookup_of fst]. rewrite Hcur.
  destruct (GetFromVersion_ok (blocks_truth R) v ess key (block_cache_ d) Hv (version_true _ _ _ HR Hk) Hc)
    as (c & -> & Hc'). cbn [rbind]. exists c. split; [done|]. by split.
Qed.

(** ** Lemmas: versions *)

(** Files at distinct numbers below the next one. *)
Lemma NoDup_bounded (l : list Z) n : NoDup l -> Forall (fun x => 0 <= x < n) l -> blen l <= Z.max 0 n.
Proof.
  intros Hnd Hb.
  assert (length l <= length (map Z.of_nat (seq 0 (Z.to_nat n))))%nat as Hle.
  { apply NoDup_incl_length; [by apply NoDup_ListNoDup|]. intros x Hx. rewrite Forall_forall in Hb.
    specialize (Hb x ltac:(by apply list_elem_of_In)). apply in_map_iff. exists (Z.to_nat x).
    split; [lia|]. apply in_seq. lia. }
  rewrite length_map, length_seq in Hle. unfold blen. lia.
Qed.

Lemma concat_snoc_head {A} (l0 : list A) (deeper : list (list A)) x :
  concat ((l0 ++ [x]) :: deeper) ≡ₚ x :: concat (l0 :: deeper).
Proof. simpl. rewrite <- app_assoc. simpl. by rewrite Permutation_middle. Qed.

Definition push_file (v : Version) (f : FileMeta) : Version := alter (fun l0 => l0 ++ [f]) 0%nat v.
Definition push_records (ess : contents) (es : list entry) : contents := alter (fun l0 => l0 ++ [es]) 0%nat ess.

Lemma push_length v fm : length (push_file v fm) = length v.
Proof. apply length_alter. Qed.

Lemma concat_push v fm : v <> [] -> concat (push_file v fm) ≡ₚ fm :: concat v.
Proof. destruct v as [|l0 deeper]; [done|]. intros _. apply concat_snoc_head. Qed.

(** The number of [fm] was handed out after those of level 0 and is no other
    file's. *)
Record fresh_file (next : Z) (v : Version) (fm : FileMeta) : Prop := {
  ff_old : 0 <= fm_number fm < next;
  ff_unique : fm_number fm ∉ map fm_number (concat v);
  ff_l0 : Forall (fun f => fm_number f < fm_number fm) (default [] (head v)) }.

(** A new file at the end of level 0. *)
Lemma version_push v ess next fm es :
  version_ok v ess -> numbers_ok next v -> v <> [] -> file_ok fm es -> fresh_file next v fm -> next <= 2 ^ 30 ->
  version_ok (push_file v fm) (push_records ess es) /\ numbers_ok next (push_file v fm).
Proof.
  intros [Hf Hs Hc] [Hu Ho Hl0] Hne Hfm [Hold Hnew Hafter] Hnext.
  assert (numbers_ok next (push_file v fm)) as Hno.
  { split; [rewrite concat_push by done; cbn [map]; by apply NoDup_cons|rewrite concat_push by done; by constructor|].
    destruct v as [|l0 deeper]; [done|]. cbn [push_file alter list_alter head default id] in *.
    rewrite map_app. apply StronglySorted_app_2; [|done|by repeat constructor].
    intros x y Hx ->%list_elem_of_singleton.
    apply list_elem_of_In, in_map_iff in Hx as (f & <- & Hin%list_elem_of_In).
    rewrite Forall_forall in Hafter. by apply Hafter. }
  split; [|done]. destruct Hno as [Hu' Ho' _].
  destruct Hf as [|l0 e0 deeper ess Hf0 Hfd]; [done|]. apply Forall_cons in Hc as [Hc0 Hcd].
  cbn [push_file push_records alter list_alter] in *. split; [|done|].
  - constructor; [|done]. apply Forall2_app; [done|]. by constructor.
  - constructor; [|done]. rewrite <- (blen_map fm_number).
    etransitivity; [apply (NoDup_bounded _ next)|lia].
    + cbn [concat] in Hu'. rewrite map_app in Hu'. by apply NoDup_app in Hu' as [? _].
    + cbn [concat] in Ho'. apply Forall_app in Ho' as [? _]. by apply Forall_map.
Qed.

Lemma version_records_push e0 ess es :
  version_records ((e0 ++ [es]) :: ess) = es ++ version_records (e0 :: ess).
Proof. unfold version_records, newest_first. rewrite rev_app_distr. simpl. done. Qed.

Lemma records_push ess es : ess <> [] -> version_records (push_records ess es) = es ++ version_records ess.
Proof. destruct ess as [|e0 ess]; [done|]. intros _. apply version_records_push. Qed.

Lemma contents_nonempty v ess : version_ok v ess -> v <> [] -> ess <> [].
Proof. intros [Hf _ _] Hne ->. by inversion Hf; subst. Qed.

Context `{Os}.

(** The new reader joins the readers that the cache may know. *)
Lemma readers_push next R r bs :
  readers_ok next R -> table_ok r bs -> file_number_ r ∉ map file_number_ R -> 0 <= file_number_ r < next ->
  readers_ok next (r :: R).
Proof.
  intros [Ht Hu Ho] Hr Hn Hnn. split; [|cbn [map]; by apply NoDup_cons|by constructor].
  intros r' [->|Hr']%elem_of_cons; eauto.
Qed.

Lemma cache_true_more R r c : cache_true (blocks_truth R) c -> cache_true (blocks_truth (r :: R)) c.
Proof.
  destruct c as [c|]; [|done]. apply cache_inv_mono.
  intros k b _ (r' & i & e & Hin & ?). exists r', i, e. split; [set_solver|done].
Qed.

(** The fields that writing a table does not touch: all but the counters and the
    next file number. *)
Definition same_db (d d' : DB) : Prop :=
  options_ d' = options_ d /\ dir_ d' = dir_ d /\ mem_ d' = mem_ d /\ block_cache_ d' = block_cache_ d /\
  wal_ d' = wal_ d /\ current_ d' = current_ d.

#[global] Instance same_db_preorder : PreOrder same_db.
Proof.
  split; [by intros ?; split_and!|]. intros x y z (?&?&?&?&?&?) (?&?&?&?&?&?). split_and!; congruence.
Qed.

Lemma same_db_path d d' n : same_db d d' -> FilePath d' n = FilePath d n.
Proof. intros (_ & Hdir & _). unfold FilePath. by rewrite Hdir. Qed.

(** A database that only took more file numbers is as well formed as before. *)
Lemma db_ok_frame d d' v R mes ess :
  db_ok d v R mes ess -> same_db d d' -> next_file_number_ d <= next_file_number_ d' -> db_ok d' v R mes ess.
Proof.
  intros [Hm Hf Hc Hv Hl [Hu Ho Hl0] Hn [Ht Hru Hro] Hk Hca] (_ & _ & Em & Ec & _ & Ecur) Hle.
  split; rewrite ?Em, ?Ec, ?Ecur; try done.
  - split; try done. eapply Forall_impl; [exact Ho|]. simpl. lia.
  - lia.
  - split; try done. eapply Forall_impl; [exact Hro|]. simpl. lia.
Qed.

(** A written table that is not in the version yet. *)
Record unpublished (d : DB) (v : Version) (R : list SSTableReader) (mes : list entry) (fm : FileMeta) : Prop := {
  up_file : file_ok fm mes;
  up_fresh : fresh_file (next_file_number_ d) v fm;
  up_reader : fm_number fm ∉ map file_number_ R }.

(** The database after a flushed file was published, whether or not the
    memtable could be dropped. *)
Lemma db_push d v R mes ess d' fm mes' :
  db_ok d v R mes ess -> unpublished d v R mes fm -> next_file_number_ d <= 2 ^ 30 ->
  current_ d' = Some (push_file v fm) -> next_file_number_ d' = next_file_number_ d ->
  block_cache_ d' = block_cache_ d -> sl_contents (mem_ d') mes' -> (mes' = mes \/ mes' = []) ->
  db_ok d' (push_file v fm) (fm_reader fm :: R) mes' (push_records ess mes) /\
  (forall k, assoc (db_records mes' (push_records ess mes)) k = assoc (db_records mes ess) k).
Proof.
  intros [Hm Hf Hcur Hv Hl Hno Hnx HR Hk Hc] [Hfm Hfr Hrd] Hlim Hcur' Hnx' Hca Hm' Hmes'.
  destruct (version_push v ess _ fm mes Hv Hno Hl Hfm Hfr Hlim) as [Hv' Hno'].
  destruct (fo_serves _ _ Hfm) as (bs & Ht & _). split.
  - split; rewrite ?Hnx', ?Hca; try done.
    + by destruct Hmes' as [->| ->].
    + by destruct v.
    + eapply readers_push; try done; rewrite (fo_number _ _ Hfm); [done|apply Hfr].
    + unfold readers. rewrite concat_push by done. cbn [map].
      intros r [->|Hin]%elem_of_cons; [left|right; by apply Hk].
    + by apply cache_true_more.
  - intros k. unfold db_records. rewrite records_push, !assoc_app by (by eapply contents_nonempty).
    destruct Hmes' as [->| ->]; [by destruct (assoc mes k)|done].
Qed.

(** What [FlushMemTable] needs of the memtable to fit the table format. *)
Definition mem_limits (d : DB) (mes : list entry) : Prop :=
  blen mes <= 2 ^ 25 /\ 0 <= bloom_bits_per_key (options_ d) <= 100 /\ next_file_number_ d < 2 ^ 30.

(** ** Lemmas: tables on disk *)

(** The file of a table holds, durably, the bytes that its reader maps. *)
Definition on_disk (d : DB) (σ : World) (f : FileMeta) : Prop :=
  fs σ !! FilePath d (fm_number f) = Some (mkFile (base_ (fm_reader f)) (blen (base_ (fm_reader f)))).

(** Moreover it opens again as that reader. *)
Record stored (d : DB) (σ : World) (f : FileMeta) : Prop := {
  st_disk : on_disk d σ f;
  st_size : kFooterSize <= blen (base_ (fm_reader f));
  st_opens : open_mapped (FilePath d (fm_number f)) (base_ (fm_reader f)) (fm_number f) = Ok (fm_reader f) }.

Lemma stored_kept d d' σ σ' f :
  dir_ d' = dir_ d -> fs σ' !! FilePath d (fm_number f) = fs σ !! FilePath d (fm_number f) -> stored d σ f -> stored d' σ' f.
Proof.
  intros Hdir E [Hd Hs Ho]. assert (FilePath d' (fm_number f) = FilePath d (fm_number f)) as Ep by (unfold FilePath; by rewrite Hdir).
  split; [|done|by rewrite Ep]. unfold on_disk. by rewrite Ep, E.
Qed.

(** A successful open read the file that is there. *)
Lemma open_ok_mapped path fn σ r σ' :
  SSTableReader_Open path fn σ = (Ok r, σ') ->
  exists f, fs σ !! path = Some f /\ kFooterSize <= blen (f_data f) /\ open_mapped path (f_data f) fn = Ok r /\ fs σ' = fs σ.
Proof.
  unfold SSTableReader_Open, open_rdonly. destruct (next_io σ) as [o1 σ1] eqn:E1. pose proof (next_io_fs _ _ _ E1) as F1.
  rewrite F1.
  destruct o1 as [|n|e]; [| |done]; (destruct (fs σ !! path) as [f|]; [|done]);
    destruct (next_io σ1) as [o2 σ2] eqn:E2; pose proof (next_io_fs _ _ _ E2) as F2;
    (destruct o2 as [|n2|e2]; [| |by destruct (close_errno e2 σ2)]);
    (destruct (Z.ltb_spec (blen (f_data f)) kFooterSize); [done|]);
    destruct (next_io σ2) as [o3 σ3] eqn:E3; pose proof (next_io_fs _ _ _ E3) as F3;
    (destruct o3 as [|n3|e3]; [| |by destruct (close_errno e3 σ3)]); intros [= Eo <-]; exists f; rewrite close_fs;
    split_and!; try done; congruence.
Qed.

(** Finishing a writer and opening its file again gives a well-formed, stored
    table or an error. *)
Lemma finish_stored d n bpk es w σ s3 w3 σ3 :
  table_fits kOutputBlockSize bpk es -> es <> [] -> writer_has (FilePath d n) kOutputBlockSize bpk es w σ ->
  SSTableWriter_Finish w σ = (s3, w3, σ3) ->
  others_kept (FilePath d n) σ σ3 /\
  (ok s3 = true -> w_fd_ w3 = None /\
   forall res σ4, SSTableReader_Open (FilePath d n) n σ3 = (res, σ4) ->
     others_kept (FilePath d n) σ σ4 /\
     ((exists r, res = Ok r /\ file_ok (file_meta n w3 r) es /\ stored d σ4 (file_meta n w3 r)) \/
      exists s, res = Err s /\ ok s = false)).
Proof.
  intros Hfit Hne Hw E3. destruct (finish_reopen _ _ _ _ _ _ _ _ _ Hfit Hw E3) as [Ho3 Hok].
  split; [done|]. intros Hs. destruct (Hok Hs) as (Hfd & Hsz & Hcnt & Hopen). split; [done|]. intros res σ4 E4.
  destruct (Hopen _ _ _ E4) as (Ho4 & Hfile & [(r & -> & Ht & Hfn & Hbase)|Herr]); (split; [done|]); [left|by right].
  apply open_ok_mapped in E4 as (f4 & Hf4 & Hft & Hmap & F4). rewrite <- F4, Hfile in Hf4. injection Hf4 as <-. cbn [f_data] in *.
  exists r. split; [done|]. split; split; cbn; rewrite ?Hbase; try done.
  - exists (chunks kOutputBlockSize es). split; [done|apply chunks_concat].
  - by rewrite (to_smallest _ _ Ht), chunks_concat.
  - by rewrite (to_largest _ _ Ht), chunks_concat.
  - unfold on_disk. cbn. by rewrite Hbase.
Qed.

Lemma destroy_fs w σ : fs (SSTableWriter_destroy w σ) = fs σ.
Proof. unfold SSTableWriter_destroy. destruct (w_fd_ w); [apply close_fs|done]. Qed.

(** ** Lemmas: flushing *)

(** Writing the memtable to a new table, under every pattern of faults: only the
    file of the next number is touched, and the table, if there is one, holds the
    memtable's records. *)
Lemma flush_table_spec d v R mes ess σ :
  db_ok d v R mes ess -> mem_limits d mes ->
  exists s t d' σ', flush_table d σ = Ok (s, t, d', σ') /\ same_db d d' /\
    next_file_number_ d <= next_file_number_ d' <= next_file_number_ d + 1 /\
    others_kept (FilePath d (next_file_number_ d)) σ σ' /\
    match t with
    | None => ok s = false \/ mes = [] /\ s = Status_OK
    | Some (fm, w) => file_ok fm mes /\ fm_number fm = next_file_number_ d /\
        next_file_number_ d' = next_file_number_ d + 1 /\ w_fd_ w = None /\ stored d σ' fm
    end.
Proof.
  intros Hd (Hn & Hb & Hlim). pose proof (do_mem _ _ _ _ _ Hd) as Hm. pose proof (do_next _ _ _ _ _ Hd) as Hnx.
  unfold flush_table. rewrite (sl_size _ _ Hm), u64_small by (pose proof (blen_nonneg mes); lia).
  destruct (Z.eqb_spec (blen mes) 0) as [Hz|Hne0].
  { apply blen_0 in Hz as ->. eexists _, None, d, σ. split_and!; try done; try lia. by right. }
  cbn [set_next options_ mem_ next_file_number_]. rewrite u64_small by lia.
  set (d1 := set_next d (next_file_number_ d + 1)). set (k := next_file_number_ d) in *.
  change (FilePath d1 k) with (FilePath d k). set (bpk := bloom_bits_per_key (options_ d)) in *.
  assert (forall s w σ1, others_kept (FilePath d k) σ σ1 -> ok s = false ->
    exists s' t d' σ', Ok (s, @None (FileMeta * SSTableWriter), d1, SSTableWriter_destroy w σ1) = Ok (s', t, d', σ') /\ same_db d d' /\
    k <= next_file_number_ d' <= k + 1 /\ others_kept (FilePath d k) σ σ' /\
    match t with
    | None => ok s' = false \/ mes = [] /\ s' = Status_OK
    | Some (fm, w) => file_ok fm mes /\ fm_number fm = k /\ next_file_number_ d' = k + 1 /\ w_fd_ w = None /\ stored d σ' fm
    end) as Hfail.
  { intros s w σ1 Ho Hs. eexists s, None, d1, _. split; [done|]. split_and!; try done; [cbn; lia..| |by left].
    intros p Hp. rewrite destroy_fs. by apply Ho. }
  destruct (SSTableWriter_Open (SSTableWriter_new (FilePath d k) kOutputBlockSize bpk) σ) as [[s1 w1] σ1] eqn:E1.
  destruct (open_writer_has _ _ _ _ _ _ _ E1) as [Ho1 Hw1].
  destruct (ok s1) eqn:Ok1; cbn [negb]; [|by apply Hfail].
  destruct (drain_contents _ _ Hm) as (it & -> & Hdr). cbn [rbind].
  change (heap (mem_ d1)) with (heap (mem_ d)). change (mem_ d1) with (mem_ d). rewrite Hdr. cbn [rbind].
  destruct (add_all w1 mes σ1) as [[s2 w2] σ2] eqn:E2.
  assert (table_fits kOutputBlockSize bpk mes) as Hfit.
  { apply table_fits_intro; [unfold kOutputBlockSize; lia|apply Hd|by eapply sl_contents_sorted|lia|].
    pose proof (blen_nonneg mes). nia. }
  destruct (add_all_writer_has _ _ _ _ _ _ _ _ _ _ (tf_block _ _ _ Hfit) (tf_recs _ _ _ Hfit) (Hw1 eq_refl) E2) as [Ho2 Hw2].
  assert (others_kept (FilePath d k) σ σ2) as Ho12 by (etransitivity; done).
  destruct (ok s2) eqn:Ok2; cbn [negb]; [|by apply Hfail].
  destruct (SSTableWriter_Finish w2 σ2) as [[s3 w3] σ3] eqn:E3.
  destruct (finish_stored d k _ _ _ _ _ _ _ Hfit ltac:(by intros ->) (Hw2 eq_refl) E3) as [Ho3 Hok3].
  assert (others_kept (FilePath d k) σ σ3) as Ho13 by (etransitivity; done).
  destruct (ok s3) eqn:Ok3; cbn [negb]; [|by apply Hfail].
  destruct (Hok3 eq_refl) as [Hfd Hopen].
  destruct (SSTableReader_Open (FilePath d k) k σ3) as [res σ4] eqn:E4.
  destruct (Hopen _ _ eq_refl) as (Ho4 & [(r & -> & Hfo & Hst)|(s' & -> & Hs')]).
  - eexists _, (Some (_, _)), _, _. split; [done|]. split_and!; try done; try (cbn; lia). etransitivity; [exact Ho12|exact Ho4].
  - apply Hfail; [|done]. etransitivity; [exact Ho12|exact Ho4].
Qed.

Lemma next_fresh next v fm :
  numbers_ok next v -> fm_number fm = next -> 0 <= next -> fresh_file (next + 1) v fm.
Proof.
  intros [_ Ho _] Hn Hz. split; [lia| |].
  - intros (f & E & Hin%list_elem_of_In)%list_elem_of_In%in_map_iff.
    rewrite Forall_forall in Ho. specialize (Ho f Hin). lia.
  - destruct v as [|l0 deeper]; [constructor|]. cbn [head default concat] in *. apply Forall_app in Ho as [Ho _].
    eapply Forall_impl; [exact Ho|]. simpl. lia.
Qed.

Lemma next_unpublished d d' v R mes ess mes' fm :
  db_ok d v R mes ess -> file_ok fm mes' -> fm_number fm = next_file_number_ d ->
  next_file_number_ d' = next_file_number_ d + 1 -> unpublished d' v R mes' fm.
Proof.
  intros Hd Hfm Hn Hn'. pose proof (do_next _ _ _ _ _ Hd). split; [done| |].
  - rewrite Hn'. apply next_fresh; [apply Hd|done|lia].
  - intros (r & E & Hin%list_elem_of_In)%list_elem_of_In%in_map_iff.
    pose proof (ro_old _ _ (do_readers _ _ _ _ _ Hd)) as Ho. rewrite Forall_forall in Ho. specialize (Ho r Hin). lia.
Qed.

(** The publication, whatever the system calls do. *)
Lemma publish_shows d v R mes ess fm w σ :
  db_ok d v R mes ess -> unpublished d v R mes fm -> next_file_number_ d <= 2 ^ 30 ->
  exists s d' σ' mes', publish_table d fm w σ = Ok (s, d', σ') /\
    db_ok d' (push_file v fm) (fm_reader fm :: R) mes' (push_records ess mes) /\ (mes' = mes \/ mes' = []) /\
    (forall k, assoc (db_records mes' (push_records ess mes)) k = assoc (db_records mes ess) k) /\
    options_ d' = options_ d /\ dir_ d' = dir_ d /\ next_file_number_ d' = next_file_number_ d.
Proof.
  intros Hd Hup Hlim. pose proof (do_current _ _ _ _ _ Hd) as Hcv. pose proof (do_levels _ _ _ _ _ Hd) as Hl.
  unfold publish_table, install_flush. rewrite Hcv. cbn [of_option rbind].
  replace (match v with [] => [[]] | _ :: _ => v end) with v by (by destruct v). fold (push_file v fm).
  pose proof (do_mem _ _ _ _ _ Hd) as Hmes.
  destruct (WriteManifest (set_current d (Some (push_file v fm))) (push_file v fm) σ) as [ms σ1].
  destruct (negb (ok ms)); cbn [rbind].
  { destruct (db_push d v R mes ess (set_current d (Some (push_file v fm))) fm mes Hd Hup Hlim) as [Hd' Hv]; try done; [by left|].
    eexists _, _, _, mes. split; [done|]. split; [exact Hd'|]. split_and!; try done. by left. }
  destruct (WalWriter_Close _ σ1) as [[cs cw] σ2].
  destruct (WalWriter_Open _ _) as [[ws wl] σ3].
  destruct (db_push d v R mes ess (set_wal (set_mem (set_current d (Some (push_file v fm))) SkipList_new) wl) fm [] Hd Hup Hlim)
    as [Hd' Hv]; try done; [apply new_contents|by right|].
  destruct (negb (ok ws)); cbn [rbind]; eexists _, _, _, []; (split; [done|]); (split; [exact Hd'|]); split_and!; try done; by right.
Qed.

(** From [d] a call reached [d'], which is well formed and shows its readers the
    records [recs]. *)
Definition db_moves (d d' : DB) (n : Z) (recs : list entry) : Prop :=
  exists v' R' mes' ess', db_ok d' v' R' mes' ess' /\ blen mes' <= n /\
    (forall k, assoc (db_records mes' ess') k = assoc recs k) /\
    options_ d' = options_ d /\ dir_ d' = dir_ d /\
    next_file_number_ d <= next_file_number_ d' <= next_file_number_ d + 1.

(** Whatever the system calls do, a flush neither faults nor changes what
    readers see. *)
Lemma flush_shows d v R mes ess σ :
  db_ok d v R mes ess -> mem_limits d mes ->
  exists s d' σ', FlushMemTable d σ = Ok (s, d', σ') /\ db_moves d d' (blen mes) (db_records mes ess).
Proof.
  intros Hd Hlim. destruct (flush_table_spec d v R mes ess σ Hd Hlim) as (s & t & d1 & σ1 & E & Hsame & Hnx & _ & Ht).
  unfold FlushMemTable. rewrite E. cbn [rbind]. pose proof (db_ok_frame _ _ _ _ _ _ Hd Hsame ltac:(lia)) as Hd1.
  destruct Hsame as (Ho & Hdir & _). destruct t as [[fm w]|].
  - destruct Ht as (Hfm & Hnum & Hnx1 & _ & _).
    destruct (publish_shows d1 v R mes ess fm w σ1 Hd1) as (s' & d' & σ' & mes' & -> & Hd' & Hor & Hview & Ho' & Hdir' & Hnx');
      [by apply (next_unpublished d d1 v R mes ess mes)|destruct Hlim; lia|].
    eexists _, _, _. split; [done|]. eexists _, _, mes', _. split; [exact Hd'|]. split_and!; try congruence; try done; try lia.
    destruct Hor as [->| ->]; [lia|]. apply blen_nonneg.
  - eexists _, _, _. split; [done|]. exists v, R, mes, ess. split_and!; try done; lia.
Qed.

(** ** Lemmas: writes *)

Lemma db_moves_weaken d d' n n' recs recs' :
  db_moves d d' n recs -> n <= n' -> (forall k, assoc recs k = assoc recs' k) -> db_moves d d' n' recs'.
Proof.
  intros (v' & R' & mes' & ess' & ? & ? & Hview & ?) Hn Hr. exists v', R', mes', ess'. split; [done|].
  split; [lia|]. split; [|done]. intros k. by rewrite Hview.
Qed.

(** The memtable takes a new record. *)
Lemma db_ok_mem d v R mes ess mem' e user :
  db_ok d v R mes ess -> rec_fits e -> sl_contents mem' (upsert e mes) ->
  db_ok (add_user_bytes (set_mem d mem') user) v R (upsert e mes) ess.
Proof.
  intros [? Hf ? ? ? ? ? ? ? ?] He Hm'. split; try done.
  apply Forall_forall. intros x [->|Hx]%upsert_elem; [done|]. rewrite Forall_forall in Hf. by apply Hf.
Qed.

Lemma records_upsert d v R mes ess e k :
  db_ok d v R mes ess -> assoc (db_records (upsert e mes) ess) k = assoc (e :: db_records mes ess) k.
Proof.
  intros Hd. unfold db_records. pose proof (sl_contents_sorted _ _ (do_mem _ _ _ _ _ Hd)) as Hs.
  rewrite assoc_cons, !assoc_app, assoc_upsert by done. by destruct (str_eqb (e_key e) k).
Qed.

Lemma insert_shows d v R mes ess mem' e user σ :
  db_ok d v R mes ess -> rec_fits e -> sl_contents mem' (upsert e mes) ->
  blen mes < 2 ^ 25 -> 0 <= bloom_bits_per_key (options_ d) <= 100 -> next_file_number_ d < 2 ^ 30 ->
  exists s d' σ', maybe_flush (add_user_bytes (set_mem d mem') user) σ = Ok (s, d', σ') /\
    db_moves d d' (blen mes + 1) (e :: db_records mes ess).
Proof.
  intros Hd He Hm' Hn Hb Hlim. set (d1 := add_user_bytes (set_mem d mem') user).
  pose proof (db_ok_mem d v R mes ess mem' e user Hd He Hm') as Hd1. fold d1 in Hd1.
  assert (blen (upsert e mes) <= blen mes + 1) as Hup by (pose proof (upsert_length e mes); unfold blen; lia).
  pose proof (fun k => records_upsert _ _ _ _ _ e k Hd) as Hrec.
  unfold maybe_flush. destruct (_ <=? _).
  - destruct (flush_shows d1 v R (upsert e mes) ess σ Hd1) as (s & d' & σ' & E & Hs).
    { split_and!; cbn; lia. }
    exists s, d', σ'. split; [done|]. by apply (db_moves_weaken _ _ _ _ _ _ Hs).
  - exists Status_OK, d1, σ. split; [done|]. exists v, R, (upsert e mes), ess. split_and!; try done; cbn; lia.
Qed.

(** A write either fails before the memtable changes, or shows its record. *)
Lemma put_shows d v R mes ess key value σ :
  db_ok d v R mes ess -> rec_fits (Entry key value kValue) ->
  blen mes < 2 ^ 25 -> 0 <= bloom_bits_per_key (options_ d) <= 100 -> next_file_number_ d < 2 ^ 30 ->
  exists s d' σ', DB_Put d key value σ = Ok (s, d', σ') /\
    (db_moves d d' (blen mes + 1) (Entry key value kValue :: db_records mes ess) \/ ok s = false /\ d' = d).
Proof.
  intros Hd He Hn Hb Hlim. unfold DB_Put, put_record.
  destruct (AddRecord (wal_ d) kValue key value (sync (options_ d)) σ) as [s1 σ1].
  destruct (ok s1) eqn:Ok1; cbn [negb rbind]; rewrite ?Ok1; cbn [negb]; [|eexists _, _, _; split; [done|]; by right].
  destruct (sl_insert_contents _ _ key value false (do_mem _ _ _ _ _ Hd)) as (mem' & E & Hm').
  unfold SkipList_Put. rewrite E. cbn [rbind]. rewrite Ok1. cbn [negb].
  destruct (insert_shows d v R mes ess mem' (Entry key value kValue) (blen key + blen value) σ1) as (s & d' & σ' & E' & Hs);
    try done. eauto 10.
Qed.

Lemma delete_shows d v R mes ess key σ :
  db_ok d v R mes ess -> rec_fits (Entry key [] kTombstone) ->
  blen mes < 2 ^ 25 -> 0 <= bloom_bits_per_key (options_ d) <= 100 -> next_file_number_ d < 2 ^ 30 ->
  exists s d' σ', DB_Delete d key σ = Ok (s, d', σ') /\
    (db_moves d d' (blen mes + 1) (Entry key [] kTombstone :: db_records mes ess) \/ ok s = false /\ d' = d).
Proof.
  intros Hd He Hn Hb Hlim. unfold DB_Delete, delete_record.
  destruct (AddRecord (wal_ d) kTombstone key [] (sync (options_ d)) σ) as [s1 σ1].
  destruct (ok s1) eqn:Ok1; cbn [negb rbind]; rewrite ?Ok1; cbn [negb]; [|eexists _, _, _; split; [done|]; by right].
  destruct (sl_insert_contents _ _ key [] true (do_mem _ _ _ _ _ Hd)) as (mem' & E & Hm').
  unfold SkipList_Delete. rewrite E. cbn [rbind]. rewrite Ok1. cbn [negb].
  destruct (insert_shows d v R mes ess mem' (Entry key [] kTombstone) (blen key) σ1) as (s & d' & σ' & E' & Hs);
    try done. eauto 10.
Qed.

(** ** A client session and its specification *)

Inductive client_op :=
| CPut (key value : bytes)
| CDelete (key : bytes)
| CGet (key : bytes)
| CFlush.

Definition exec (d : DB) (op : client_op) (σ : World) : result (reply * DB * World) :=
  match op with
  | CPut k v => let* (s, d, σ) := DB_Put d k v σ in Ok ((s, None), d, σ)
  | CDelete k => let* (s, d, σ) := DB_Delete d k σ in Ok ((s, None), d, σ)
  | CGet k => let* (a, d) := DB_Get d k in Ok ((Status_OK, Some a), d, σ)
  | CFlush => let* (s, d, σ) := FlushMemTable d σ in Ok ((s, None), d, σ)
  end.

Fixpoint exec_all (d : DB) (ops : list client_op) (σ : World) : result (list reply * DB * World) :=
  match ops with
  | [] => Ok ([], d, σ)
  | op :: ops' =>
      let* (r, d, σ) := exec d op σ in
      let* (rs, d, σ) := exec_all d ops' σ in
      Ok (r :: rs, d, σ)
  end.

(** The abstract database is the history of its mutations, newest first. A
    mutation that reports failure may or may not have taken effect. *)
Inductive spec_step (recs : list entry) : client_op -> reply -> list entry -> Prop :=
| spec_put k v s : spec_step recs (CPut k v) (s, None) (Entry k v kValue :: recs)
| spec_put_failed k v s : ok s = false -> spec_step recs (CPut k v) (s, None) recs
| spec_delete k s : spec_step recs (CDelete k) (s, None) (Entry k [] kTombstone :: recs)
| spec_delete_failed k s : ok s = false -> spec_step recs (CDelete k) (s, None) recs
| spec_get k : spec_step recs (CGet k) (Status_OK, Some (lookup_of (assoc recs k))) recs
| spec_flush s : spec_step recs CFlush (s, None) recs.

Inductive spec_run : list entry -> list client_op -> list reply -> list entry -> Prop :=
| spec_done recs : spec_run recs [] [] recs
| spec_more recs op r recs1 ops rs recs2 :
    spec_step recs op r recs1 -> spec_run recs1 ops rs recs2 ->
    spec_run recs (op :: ops) (r :: rs) recs2.

Definition op_fits (op : client_op) : Prop :=
  match op with
  | CPut k v => rec_fits (Entry k v kValue)
  | CDelete k => rec_fits (Entry k [] kTombstone)
  | _ => True
  end.

(** The history after a call that took effect. *)
Definition applied (recs : list entry) (op : client_op) : list entry :=
  match op with
  | CPut k v => Entry k v kValue :: recs
  | CDelete k => Entry k [] kTombstone :: recs
  | CGet _ | CFlush => recs
  end.

Lemma applied_ext recs recs' op :
  (forall k, assoc recs k = assoc recs' k) -> forall k, assoc (applied recs op) k = assoc (applied recs' op) k.
Proof. intros Hr k. destruct op; cbn [applied]; rewrite ?assoc_cons, ?Hr; done. Qed.

(** One call refines one step. *)
Lemma exec_step d v R mes ess recs op σ :
  db_ok d v R mes ess -> (forall k, assoc (db_records mes ess) k = assoc recs k) -> op_fits op ->
  blen mes < 2 ^ 25 -> 0 <= bloom_bits_per_key (options_ d) <= 100 -> next_file_number_ d < 2 ^ 30 ->
  exists r d' σ' recs', exec d op σ = Ok (r, d', σ') /\ spec_step recs op r recs' /\
    db_moves d d' (blen mes + 1) recs'.
Proof.
  intros Hd Hview Hop Hn Hb Hlim.
  assert (forall d' e, db_moves d d' (blen mes + 1) (e :: db_records mes ess) ->
    db_moves d d' (blen mes + 1) (e :: recs)) as Hcons.
  { intros d' e Hs. apply (db_moves_weaken _ _ _ _ _ _ Hs); [lia|]. intros k. by rewrite !assoc_cons, Hview. }
  assert (forall c, db_ok (set_cache d c) v R mes ess -> db_moves d (set_cache d c) (blen mes + 1) recs) as Hsame.
  { intros c Hc. exists v, R, mes, ess. split_and!; try done; cbn; lia. }
  assert (db_moves d d (blen mes + 1) recs) as Hself.
  { replace d with (set_cache d (block_cache_ d)) at 2 by (by destruct d). apply Hsame. by destruct d. }
  destruct op as [key value|key|key|]; cbn [exec op_fits] in *.
  - destruct (put_shows d v R mes ess key value σ Hd Hop) as (s & d' & σ' & -> & Hor); [lia|done..|]. cbn [rbind].
    destruct Hor as [Hs|[Hs ->]]; eexists _, _, _, _; (split; [done|]); split;
      [apply spec_put|by apply Hcons|by apply spec_put_failed|done].
  - destruct (delete_shows d v R mes ess key σ Hd Hop) as (s & d' & σ' & -> & Hor); [lia|done..|]. cbn [rbind].
    destruct Hor as [Hs|[Hs ->]]; eexists _, _, _, _; (split; [done|]); split;
      [apply spec_delete|by apply Hcons|by apply spec_delete_failed|done].
  - destruct (db_get d v R mes ess key Hd) as (c & -> & Hd'). cbn [rbind]. rewrite Hview.
    eexists _, _, _, _. split; [done|]. split; [apply spec_get|]. by apply Hsame.
  - destruct (flush_shows d v R mes ess σ Hd) as (s & d' & σ' & -> & Hs); [split_and!; lia|]. cbn [rbind].
    eexists _, _, _, _. split; [done|]. split; [apply spec_flush|].
    apply (db_moves_weaken _ _ _ _ _ _ Hs); [lia|done].
Qed.

(** [d] is well formed with at most [n] records in the memtable and shows its
    readers the records [recs]. *)
Definition db_shows (d : DB) (n : Z) (recs : list entry) : Prop :=
  exists v R mes ess, db_ok d v R mes ess /\ blen mes <= n /\ (forall k, assoc (db_records mes ess) k = assoc recs k).

Lemma exec_all_run ops d n recs σ :
  db_shows d n recs -> Forall op_fits ops -> n + blen ops <= 2 ^ 25 ->
  0 <= bloom_bits_per_key (options_ d) <= 100 -> next_file_number_ d + blen ops <= 2 ^ 30 ->
  exists rs d' σ' recs', exec_all d ops σ = Ok (rs, d', σ') /\ spec_run recs ops rs recs' /\
    db_shows d' (n + blen ops) recs'.
Proof.
  intros Hs Hops. revert d n recs σ Hs. induction Hops as [|op ops Hop _ IH]; intros d n recs σ Hs Hn Hb Hlim.
  { exists [], d, σ, recs. split; [done|]. split; [constructor|]. by rewrite blen_nil, Z.add_0_r. }
  rewrite blen_cons in *. pose proof (blen_nonneg ops). cbn [exec_all].
  destruct Hs as (v & R & mes & ess & Hd & Hm & Hview).
  destruct (exec_step d v R mes ess recs op σ Hd Hview Hop) as (r & d1 & σ1 & recs1 & -> & Hstep & Hs1); [lia|lia|lia|].
  cbn [rbind]. destruct Hs1 as (v1 & R1 & mes1 & ess1 & Hd1 & Hm1 & Hview1 & Ho & Hdir & Hnx).
  destruct (IH d1 (n + 1) recs1 σ1) as (rs & d2 & σ2 & recs2 & -> & Hrun & Hs2);
    [|lia|by rewrite Ho|lia|].
  - exists v1, R1, mes1, ess1. split_and!; try done; lia.
  - cbn [rbind]. exists (r :: rs), d2, σ2, recs2. split; [done|]. split; [by econstructor|].
    by replace (n + (1 + blen ops)) with (n + 1 + blen ops) by lia.
Qed.

(** A database that was just created: no files, an empty memtable, a log open. *)
Definition fresh (o : Options) (dir : bytes) : DB :=
  set_wal (set_current (DB_new o dir) (Some [[]])) (mkWalWriter (Some (wal_path_of dir)) (wal_path_of dir)).

Lemma fresh_shows o dir : block_cache_bytes o < 2 ^ 63 -> db_shows (fresh o dir) 0 [].
Proof.
  intros Hc. exists [[]], [], [], [[]]. split_and!; try done; [|cbn; lia..].
  split; try done; cbn.
  - apply new_contents.
  - split; repeat constructor; vm_compute; discriminate.
  - split; [apply NoDup_nil_2|done|constructor].
  - split; [by intros r ?%elem_of_nil|apply NoDup_nil_2|done].
  - destruct (Z.ltb_spec 0 (block_cache_bytes o)); [|done]. apply cache_inv_new. lia.
Qed.

Lemma entry_name_app dir name :
  existsb (fun c => Byte.eqb c Byte.x2f) name = false -> entry_name dir (dir ++ lit "/" ++ name) = Some name.
Proof.
  intros Hn. unfold entry_name. rewrite app_assoc, take_app_length, drop_app_length, str_eqb_refl. by rewrite Hn.
Qed.

(** Opening a directory with no files creates the log and an empty database. *)
Lemma open_fresh o dir :
  DB_Open o dir (mkWorld ∅ []) = (Ok (fresh o dir), mkWorld {[ wal_path_of dir := mkFile [] 0 ]} []).
Proof.
  unfold DB_Open, sys, next_io. cbn [io fs]. unfold Recover, LoadManifest, open_rdonly, next_io. cbn [io fs].
  rewrite lookup_empty. cbn [Z.eqb ENOENT Pos.eqb io_bind].
  unfold WalReplay, open_rdonly, next_io. cbn [io fs set_current dir_ DB_new current_ mem_]. rewrite lookup_empty.
  cbn [Z.eqb ENOENT Pos.eqb io_bind run_ops].
  unfold WalWriter_Open, open_append, sys, next_io. cbn [io fs set_mem dir_ set_current DB_new]. rewrite lookup_empty.
  cbn [ok code_ Status_OK negb]. unfold RemoveOrphanFiles, next_io. cbn [io fs].
  rewrite insert_empty, map_to_list_singleton. cbn [map fst omap list_omap dir_ set_wal set_mem set_current DB_new].
  assert (entry_name dir (wal_path_of dir) = Some (lit "wal.log")) as ->; [|done].
  by apply (entry_name_app dir (lit "wal.log")).
Qed.

(** ** Properties *)

(** C4 (refinement). A database opened on an empty directory implements a map:
    for every sequence of puts, deletes, lookups and flushes, every shape of the
    skip list and every pattern of failing, interrupted or short system calls,
    no call faults, and the replies are those of the history of mutations. A
    lookup returns the value last put, "deleted" after a delete and "not found"
    for a key never written, wherever the newest record lives (memtable, level 0
    or block cache); a mutation that returns OK has taken effect; one that fails
    took effect completely or not at all. *)
Theorem db_refines_history o dir ops :
  0 <= bloom_bits_per_key o <= 100 -> block_cache_bytes o < 2 ^ 63 ->
  Forall op_fits ops -> blen ops <= 2 ^ 25 ->
  exists d0 σ0, DB_Open o dir (mkWorld ∅ []) = (Ok d0, σ0) /\
    forall os, exists replies d' σ' recs,
      exec_all d0 ops (mkWorld (fs σ0) os) = Ok (replies, d', σ') /\ spec_run [] ops replies recs.
Proof.
  intros Hb Hc Hops Hn. eexists _, _. split; [apply open_fresh|]. intros os.
  destruct (exec_all_run ops (fresh o dir) 0 [] (mkWorld (fs (mkWorld {[ wal_path_of dir := mkFile [] 0 ]} [])) os)
    (fresh_shows o dir Hc) Hops) as (rs & d' & σ' & recs & E & Hrun & _); [lia|done|cbn; lia|].
  by exists rs, d', σ', recs.
Qed.

End Invariant.

Definition sample_session : list client_op :=
  [CPut (lit "a") (lit "1"); CPut (lit "b") (lit "2"); CFlush; CDelete (lit "a"); CGet (lit "b"); CGet (lit "a");
   CGet (lit "c")].

Lemma db_refines_history_witness :
  exists d0 σ0, @DB_Open plain_os alternating_env Options_default (lit "db") (mkWorld ∅ []) = (Ok d0, σ0) /\
    forall os, exists replies d' σ' recs,
      @exec_all alternating_env plain_os d0 sample_session (mkWorld (fs σ0) os) = Ok (replies, d', σ') /\
      spec_run [] sample_session replies recs.
Proof.
  apply (@db_refines_history alternating_env plain_os Options_default (lit "db") sample_session).
  - cbn. lia.
  - vm_compute. reflexivity.
  - repeat apply Forall_cons_2; try apply Forall_nil_2; vm_compute; try exact I; discriminate.
  - vm_compute. discriminate.
Defined.

(** ** Damaged tables *)

(** The table [f] with other bytes in its mapping. *)
Definition with_base (f : FileMeta) (base : bytes) : FileMeta :=
  mkFileMeta (fm_number f) (fm_smallest f) (fm_largest f) (fm_file_size f) (fm_num_entries f) (set_base (fm_reader f) base).

Lemma misses_true P fn off rs rs' : cache_misses fn off rs rs' -> cache_true P (rs_cache rs) -> cache_true P (rs_cache rs').
Proof.
  unfold cache_misses, cache_true. destruct (rs_cache rs) as [c|] eqn:E; [|by intros ->; rewrite E].
  intros (c' & El & ->) Hc. destruct (cache_lookup_inv P c fn off Hc) as (r & c2 & E2 & Hc2 & _). rewrite El in E2.
  injection E2 as _ <-. exact Hc2.
Qed.

(** The version without its newest table. *)
Lemma version_older l0 f deeper e0 es dess :
  version_ok ((l0 ++ [f]) :: deeper) ((e0 ++ [es]) :: dess) -> version_ok (l0 :: deeper) (e0 :: dess) /\ file_ok f es.
Proof.
  intros [[Hl Hd]%Forall2_cons Hs [Hn0 Hn]%Forall_cons]. apply Forall2_app_inv in Hl as [Hl Hf].
  2: { apply Forall2_length in Hl. rewrite !length_app in Hl. cbn in Hl. lia. }
  apply Forall2_cons in Hf as [Hf _]. split; [|exact Hf]. split; [by constructor|exact Hs|].
  constructor; [|exact Hn]. rewrite blen_app in Hn0. pose proof (blen_nonneg [f]). lia.
Qed.

(** C36 (error). A lookup does not report corruption. Take any database in which the
    newest version of [key] is in the newest table of level 0, and damage up to four
    consecutive bytes of the block that holds it, while the block is not cached. The
    table's lookup then says [Corruption]; but [DB::Get] drops that status, goes on
    to the older tables and returns their answer, as if the newest table did not
    exist: an overwritten value as found, a key put again after its delete as
    deleted, a key without older versions as not found. *)
Theorem corrupt_block_reveals_older `{MemEnv} d R mes l0 f deeper e0 dess a b c pre good bad post tl e rs :
  db_ok d ((l0 ++ [f]) :: deeper) R mes ((e0 ++ [concat (a ++ b :: c)]) :: dess) ->
  assoc mes (e_key e) = None -> table_ok (fm_reader f) (a ++ b :: c) -> e ∈ b ->
  base_ (fm_reader f) = data_bytes a ++ sealed (block_bytes b) ++ tl -> block_bytes b = pre ++ good ++ post ->
  length good = length bad -> (length good <= 4)%nat -> good <> bad ->
  cache_misses (fm_number f) (blen (data_bytes a)) (mkReadState (block_cache_ d) 0) rs ->
  let f' := with_base f (data_bytes a ++ (pre ++ bad ++ post) ++ fixed32 (Crc32 (block_bytes b)) ++ tl) in
  let d' := set_current d (Some ((l0 ++ [f']) :: deeper)) in
  (exists d1, DB_Get d (e_key e) = Ok (lookup_of (Some e), d1)) /\
  SSTableReader_Get (fm_reader f') (e_key e) (mkReadState (block_cache_ d) 0)
    = Ok ((LookupResult.kNotFound, None), Status_Corruption (lit "block CRC mismatch"), rs) /\
  let older := lookup_of (assoc (version_records (e0 :: dess)) (e_key e)) in
  (exists d2, DB_Get d' (e_key e) = Ok (older, d2)) /\
  (exists d3, DB_Get (set_current d (Some (l0 :: deeper))) (e_key e) = Ok (older, d3)).
Proof.
  intros Hd Hmem Ht He Hbase Hb Hlen Hle Hne Hca f' d'. pose proof Hd as [Hm _ _ Hv _ _ _ HR Hk Hc].
  destruct (version_older _ _ _ _ _ _ Hv) as [Hv' Hf].
  assert (assoc (concat (a ++ b :: c)) (e_key e) = Some e) as Hes.
  { apply assoc_sorted; [apply Ht|]. rewrite concat_app. cbn [concat]. set_solver. }
  assert (SSTableReader_Get (fm_reader f') (e_key e) (mkReadState (block_cache_ d) 0)
    = Ok ((LookupResult.kNotFound, None), Status_Corruption (lit "block CRC mismatch"), rs)) as Hget.
  { apply (damaged_block_is_reported (fm_reader f) a b c pre good bad post (e_key e) e tl); try done.
    by rewrite (fo_number _ _ Hf). }
  assert (readers (l0 :: deeper) ⊆ R) as Hk'.
  { intros r Hr. apply Hk. unfold readers in *. cbn [concat] in *. rewrite !map_app in *. set_solver. }
  pose proof (fun ch => GetFromVersion_ok (blocks_truth R) _ _ (e_key e) ch Hv' (version_true _ _ _ HR Hk')) as Holder.
  cbn zeta. split_and!; [|exact Hget| |].
  - destruct (db_get d _ R mes _ (e_key e) Hd) as (ch & E & _). eexists. rewrite E. do 3 f_equal.
    unfold db_records, version_records. cbn [newest_first]. rewrite assoc_app, Hmem, rev_app_distr. cbn [rev app].
    rewrite concat_cons, assoc_app. by rewrite Hes.
  - unfold DB_Get. change (mem_ d') with (mem_ d). rewrite (sl_get_contents _ _ (e_key e) Hm), Hmem. cbn [rbind lookup_of fst d' current_ set_current mem_ block_cache_ GetFromVersion].
    rewrite rev_app_distr. cbn [rev app get_l0].
    assert (str_ltb (e_key e) (fm_smallest f') || str_ltb (fm_largest f') (e_key e) = false) as ->.
    { apply orb_false_iff. cbn [f' with_base fm_smallest fm_largest]. split;
        (match goal with |- str_ltb ?x ?y = false => destruct (str_ltb_spec x y); [|done] end); by rewrite (out_of_range f _ (e_key e) Hf) in Hes by auto. }
    rewrite Hget. cbn [rbind fst]. pose proof (misses_true _ _ _ _ _ Hca Hc) as Hc'.
    destruct (Holder (rs_cache rs) Hc') as (ch & E & _).
    cbn [GetFromVersion] in E. destruct (get_l0 (rev l0) (e_key e) (rs_cache rs)) as [[found ch1]| |]; [|done..]. cbn [rbind] in E |- *.
    rewrite E. by eexists.
  - unfold DB_Get. change (mem_ (set_current _ _)) with (mem_ d). rewrite (sl_get_contents _ _ (e_key e) Hm), Hmem.
    cbn [rbind lookup_of fst current_ set_current block_cache_]. destruct (Holder (block_cache_ d) Hc) as (ch & -> & _). by eexists.
Qed.

(** Two versions of one key, in two tables of level 0. *)
Definition two_versions : list client_op :=
  [CPut (lit "k") (lit "old"); CFlush; CPut (lit "k") (lit "new"); CFlush].

Definition two_versions_run : result (list reply * DB * World) :=
  @exec_all alternating_env plain_os (fresh Options_default (lit "db")) two_versions (mkWorld ∅ []).

(** The database that they leave. *)
Lemma two_versions_ok :
  match two_versions_run with
  | Ok (_, d, _) => exists v R mes ess, @db_ok alternating_env d v R mes ess /\ blen mes <= 4
  | _ => False
  end.
Proof.
  destruct (@exec_all_run alternating_env plain_os two_versions (fresh Options_default (lit "db")) 0 [] (mkWorld ∅ []))
    as (rs & d & σ & recs & E & _ & v & R & mes & ess & Hd & Hm & _).
  - by apply fresh_shows.
  - repeat apply Forall_cons_2; try apply Forall_nil_2; vm_compute; try exact I; discriminate.
  - vm_compute. discriminate.
  - cbn. lia.
  - vm_compute. discriminate.
  - unfold two_versions_run. rewrite E. exists v, R, mes, ess. split; [exact Hd|exact Hm].
Qed.

(** A table of one record is one block. *)
Lemma single_record f es : file_ok f es -> fm_num_entries f = 1 ->
  exists e tl, es = concat [[e]] /\ table_ok (fm_reader f) [[e]] /\ base_ (fm_reader f) = sealed (block_bytes [e]) ++ tl.
Proof.
  intros Hf Hn. pose proof (fo_entries _ _ Hf) as Hes. rewrite Hn in Hes. destruct (fo_serves _ _ Hf) as (bs & Ht & <-).
  destruct (to_data _ _ Ht) as (tl & Hbase). pose proof (blocks_nonempty _ (to_blocks _ _ Ht)) as Hne.
  assert (exists e, bs = [[e]]) as (e & ->).
  { unfold blen in Hes. destruct bs as [|b bs]; [cbn in Hes; lia|]. apply Forall_cons in Hne as [Hb Hne]. cbn [concat] in Hes.
    rewrite length_app in Hes. destruct b as [|e b]; [done|]. cbn [length] in Hes. destruct bs as [|b' bs].
    - destruct b; [by exists e|cbn in Hes; lia].
    - apply Forall_cons in Hne as [Hb' _]. destruct b'; [done|]. cbn [concat] in Hes. rewrite length_app in Hes. cbn in Hes. lia. }
  exists e, tl. split_and!; [done|done|]. rewrite Hbase. unfold data_bytes. cbn [map concat]. by rewrite app_nil_r.
Qed.

Definition flip_byte (b : byte) : byte := byte_of (Z.lxor (byte_val b) 1).

Lemma corrupt_block_reveals_older_witness :
  match two_versions_run with
  | Ok (_, d, _) =>
      exists f_old f_new base, current_ d = Some [[f_old; f_new]] /\
        (exists d1, DB_Get d (lit "k") = Ok ((LookupResult.kFound, Some (lit "new")), d1)) /\
        (exists d2, DB_Get (set_current d (Some [[f_old; with_base f_new base]])) (lit "k")
                    = Ok ((LookupResult.kFound, Some (lit "old")), d2))
  | _ => False
  end.
Proof.
  assert (match two_versions_run with
          | Ok (_, d, _) =>
              match current_ d with
              | Some [[f_old; f_new]] =>
                  (fm_num_entries f_new = 1 /\ fm_smallest f_new = lit "k" /\ SkipList_Size (mem_ d) = 0) /\
                  ((let* (found, _) := DB_Get d (lit "k") in Ok found) = Ok (LookupResult.kFound, Some (lit "new")) /\
                   (let* (found, _) := DB_Get (set_current d (Some [[f_old]])) (lit "k") in Ok found) = Ok (LookupResult.kFound, Some (lit "old"))) /\
                  match block_cache_ d with
                  | Some c => match BlockCache_Lookup c (fm_number f_new) 0 with Ok (None, _) => True | _ => False end
                  | None => True
                  end
              | _ => False
              end
          | _ => False
          end) as Hs by (vm_compute; repeat split).
  pose proof two_versions_ok as Hok. destruct two_versions_run as [[[rs d] σ]| |]; [|destruct Hs..].
  destruct Hok as (v & R & mes & ess & Hd & Hmes). destruct (current_ d) as [[|[|fo [|fn [|]]] [|]]|] eqn:Ecur; try (destruct Hs; fail).
  destruct Hs as ((Hn & Hk & Hsz) & [Hnew Hold] & Hca).
  pose proof (do_current _ _ _ _ _ Hd) as Hv. rewrite Ecur in Hv. injection Hv as <-. pose proof (vo_files _ _ (do_version _ _ _ _ _ Hd)) as Hf.
  inversion Hf as [|? es0 ? ? Hl Hnil]; subst. inversion Hnil; subst. inversion Hl as [|? eo ? ? _ Hl2]; subst.
  inversion Hl2 as [|? en ? ? Hfn Hl3]; subst. inversion Hl3; subst. destruct (single_record fn en Hfn Hn) as (e & tl & -> & Ht & Hbase).
  assert (e_key e = lit "k") as Ek by (pose proof (fo_small _ _ Hfn) as E; rewrite Hk in E; by rewrite E).
  assert (mes = []) as ->.
  { rewrite (sl_size _ _ (do_mem _ _ _ _ _ Hd)) in Hsz. pose proof (blen_nonneg mes). rewrite u64_small in Hsz by lia. by apply blen_0. }
  destruct (block_bytes [e]) as [|x rest] eqn:Eb; [by pose proof (block_bytes_nonempty [e] ltac:(done)) as Hb; rewrite Eb in Hb|].
  assert (exists rs, cache_misses (fm_number fn) (blen (data_bytes [])) (mkReadState (block_cache_ d) 0) rs) as (rs' & Hmiss).
  { unfold cache_misses. cbn [rs_cache blocks_read_]. change (blen (data_bytes [])) with 0. destruct (block_cache_ d) as [c|]; [|by eexists].
    destruct (BlockCache_Lookup c (fm_number fn) 0) as [[[?|] c']| |]; [destruct Hca| |destruct Hca..]. by eexists _, c'. }
  destruct (@corrupt_block_reveals_older alternating_env d R [] [fo] fn [] [eo] [] [] [e] [] [] [x] [flip_byte x] rest tl e rs')
    as ((d1 & E1) & _ & (d2 & E2) & (d3 & E3)).
  - exact Hd.
  - reflexivity.
  - exact Ht.
  - left.
  - rewrite Hbase, Eb. reflexivity.
  - exact Eb.
  - reflexivity.
  - cbn. lia.
  - by destruct x.
  - exact Hmiss.
  - rewrite Ek in *. cbn [app] in E3. rewrite E1 in Hnew. rewrite E3 in Hold. cbn [rbind] in Hnew, Hold.
    assert (forall A (x y : A), Ok x = Ok y -> x = y) as Hok by (by intros ??? [=]). apply Hok in Hnew, Hold.
    rewrite Hold in E2. rewrite Hnew in E1. eexists fo, fn, _. split; [reflexivity|]. split; [exists d1; exact E1|exists d2; exact E2].
Defined.
