(* ===== verification/DbScan.v ===== *)
(** Range scans ([DB::Scan], src/db.cpp): the memtable and table iterators
    behind one interface, merged newest first, with deleted keys left out. *)
From S2P Require Import Prelude Types Bloom SkipList Cache Posix TableFormat TableWriter TableReader.
From S2P Require Import Iterator TableIter Merge Version Db DbInvariant.

(** ** The memtable iterator keeps the contract of the interface *)

Section MemIterator.
Context `{MemEnv}.

#[global] Program Instance mem_iterator_laws : IteratorLaws (SkipList * SLIter) := {
  it_source x es := sl_contents x.1 es;
  it_at x es rest := exists lo hi, wf x.1 (lo ++ hi) /\ x.2 = c_loc <$> head hi /\
                       map cell_entry (lo ++ hi) = es /\ map cell_entry hi = rest }.
Next Obligation. intros [s it] es rest (lo & hi & Hwf & _ & <- & _). by exists (lo ++ hi). Qed.
Next Obligation. intros [s it] es rest (lo & hi & _ & _ & <- & <-). exists (map cell_entry lo). by rewrite map_app. Qed.
Next Obligation. intros [s it] es Hs. by eapply sl_contents_sorted. Qed.
Next Obligation.
  intros [s it] es t (cs & Hwf & <-). destruct (sl_seek_contents s cs t Hwf) as (lo & hi & -> & E & Hhi).
  exists (s, c_loc <$> head hi). cbn in *. rewrite E. cbn [rbind]. split; [done|]. by exists lo, hi.
Qed.
Next Obligation. done. Qed.
Next Obligation. intros [s it] es (lo & [|d hi] & _ & Hit & _ & Hr); [|done]. cbn in *. by rewrite Hit. Qed.
Next Obligation.
  intros [s it] es e rest (lo & [|d hi] & Hwf & Hit & _ & Hr); [done|]. cbn in *. injection Hr as <- <-.
  destruct (iter_step s d hi it) as (Hv & (n & En & Hn) & _); [split; eauto|].
  rewrite En. cbn [rbind]. unfold node_entry, cell_entry in Hn. injection Hn as -> -> Ht. cbn [e_key e_value e_type cell_entry].
  split_and!; try done. f_equal. by destruct (is_tombstone n), (c_tomb d).
Qed.
Next Obligation.
  intros [s it] es e rest (lo & [|d hi] & Hwf & Hit & Hes & Hr); [done|]. cbn in *. injection Hr as <- <-.
  destruct (iter_step s d hi it) as (_ & _ & it' & En & Hit' & _); [split; eauto|].
  exists (s, it'). rewrite En. split; [done|]. exists (lo ++ [d]), hi. cbn. rewrite <- app_assoc. by split_and!.
Qed.

End MemIterator.

(** ** Lemmas: the sources *)

(** The records from a key on. *)
Lemma assoc_from_key t es k :
  sorted_keys es -> assoc (from_key t es) k = if str_leb t k then assoc es k else None.
Proof.
  induction es as [|e es IH]; cbn [from_key]; [by destruct (str_leb t k)|]. intros [Hlt Hs].
  destruct (str_ltb_spec (e_key e) t) as [He|He].
  - rewrite IH, assoc_cons by done. destruct (str_leb_spec t k); [|done].
    destruct (str_eqb_spec (e_key e) k) as [<-|]; [exfalso; str_order|done].
  - destruct (str_leb_spec t k) as [|Hk]; [done|]. rewrite assoc_None. constructor; [intros E; rewrite E in He; str_order|].
    eapply Forall_impl; [exact Hlt|]. intros f Hf E. simpl in Hf. rewrite E in Hf. str_order.
Qed.

Lemma assoc_from_runs t runs k :
  Forall sorted_keys runs ->
  assoc (concat (map (from_key t) runs)) k = if str_leb t k then assoc (concat runs) k else None.
Proof.
  induction 1 as [|r runs Hr _ IH]; cbn [map concat]; [by destruct (str_leb t k)|].
  rewrite !assoc_app, IH, assoc_from_key by done. by destruct (str_leb t k).
Qed.

Section Scan.
Context `{MemEnv}.

Lemma scan_best_at cs rs i best :
  runs_at cs rs ->
  exists b, scan_best cs i best = Ok b /\ snd <$> b = fold_left Runs.min_key (Runs.heads rs) (snd <$> best).
Proof.
  intros Hcs. revert i best. induction Hcs as [|c r cs rs [es Hc] _ IH]; intros i best; cbn [scan_best]; [eauto|].
  destruct r as [|e r].
  - rewrite (it_at_end _ _ Hc). cbn [negb]. apply IH.
  - destruct (it_at_head _ _ _ _ Hc) as (-> & -> & _). cbn [negb rbind].
    destruct (IH (S i) (better best i (e_key e))) as (b & -> & Hb). exists b. split; [done|].
    by rewrite Hb, better_key.
Qed.

(** What [Scan] makes of the merged records: stop at the bound, skip tombstones. *)
Fixpoint scan_out (bound : bytes) (es : list entry) : list (bytes * bytes) :=
  match es with
  | [] => []
  | e :: es' =>
      if negb (bool_decide (bound = [])) && str_leb bound (e_key e) then []
      else if is_tombstone_type (e_type e) then scan_out bound es'
      else (e_key e, e_value e) :: scan_out bound es'
  end.

Lemma scan_loop_at fuel its rs bound :
  runs_at its rs -> (length (concat rs) < fuel)%nat ->
  exists its' rs', scan_loop fuel its bound = Ok (scan_out bound (Runs.merge rs), its') /\ runs_at its' rs'.
Proof.
  revert its rs. induction fuel as [|fuel IH]; intros its rs Hr Hf; [lia|]. cbn [scan_loop].
  pose proof (runs_at_sorted _ _ Hr) as Hs.
  destruct (scan_best_at its rs 0 None Hr) as (b & -> & Hb). cbn [rbind].
  rewrite (merge_unfold rs Hs). change (snd <$> b = Runs.least rs) in Hb.
  destruct b as [[i k]|]; simpl in Hb; rewrite <- Hb; [|by exists its, rs].
  destruct (least_Some rs k Hs (eq_sym Hb)) as [[e He] _]. rewrite He.
  pose proof (assoc_Some _ _ _ He) as [_ Hek]. pose proof (step_shrinks k rs e He) as Hsh.
  cbn [scan_out]. rewrite Hek.
  destruct (negb (bool_decide (bound = [])) && str_leb bound k); [by exists its, rs|].
  destruct (find_winner_at _ _ _ _ Hr He) as (c & -> & Hv & Ht). cbn [rbind of_option]. rewrite Ht, Hv. cbn [rbind].
  destruct (consume_at _ _ k Hr) as (cs & -> & Hcs). cbn [rbind].
  destruct (IH cs (Runs.step k rs) Hcs ltac:(lia)) as (its' & rs' & -> & Hr'). cbn [rbind].
  exists its', rs'. split; [|done]. by destruct (is_tombstone_type (e_type e)).
Qed.

Lemma scan_out_elem bound es k v :
  sorted_keys es ->
  (k, v) ∈ scan_out bound es <->
  (bound = [] \/ str_lt k bound) /\ exists e, assoc es k = Some e /\ is_tombstone_type (e_type e) = false /\ e_value e = v.
Proof.
  induction es as [|e es IH]; cbn [scan_out]; [intros _; split; [by intros ?%elem_of_nil|by intros (_ & e & ? & _)]|].
  intros [Hlt Hs]. specialize (IH Hs). rewrite assoc_cons.
  assert (assoc es (e_key e) = None) as Hnone by (by apply assoc_lt).
  destruct (negb (bool_decide (bound = [])) && str_leb bound (e_key e)) eqn:Eb.
  - apply andb_true_iff in Eb as [Hne Hle]. apply negb_true_iff, bool_decide_eq_false in Hne.
    destruct (str_leb_spec bound (e_key e)) as [Hle'|]; [|done].
    split; [by intros ?%elem_of_nil|]. intros ([->|Hk] & f & Hf & _); [done|].
    destruct (str_eqb_spec (e_key e) k) as [<-|_]; [exfalso; str_order|].
    apply assoc_Some in Hf as [Hin <-]. rewrite Forall_forall in Hlt. specialize (Hlt f Hin). exfalso. simpl in Hlt. str_order.
  - assert (bound = [] \/ str_lt (e_key e) bound) as Hb.
    { apply andb_false_iff in Eb as [Eb|Eb].
      - left. by apply negb_false_iff, bool_decide_eq_true in Eb.
      - right. destruct (str_leb_spec bound (e_key e)); [done|str_order]. }
    destruct (is_tombstone_type (e_type e)) eqn:Et.
    + rewrite IH. destruct (str_eqb_spec (e_key e) k) as [<-|Hne]; [|done].
      rewrite Hnone. split; intros (_ & f & Hf & Ht & _); [done|]. injection Hf as <-. congruence.
    + rewrite elem_of_cons, IH. destruct (str_eqb_spec (e_key e) k) as [<-|Hne].
      * rewrite Hnone. split.
        -- intros [[= ->]|(_ & f & Hf & _)]; [|done]. split; [done|]. by exists e.
        -- intros (_ & f & [= <-] & _ & <-). by left.
      * split; [|auto]. intros [[= Ek _]|?]; [by rewrite Ek in Hne|done].
Qed.

Lemma scan_out_sorted bound es : sorted_keys es -> StronglySorted str_lt (map fst (scan_out bound es)).
Proof.
  induction es as [|e es IH]; cbn [scan_out]; [constructor|]. intros [Hlt Hs].
  destruct (negb _ && _); [constructor|]. destruct (is_tombstone_type (e_type e)); [auto|].
  cbn [map fst]. constructor; [auto|]. apply Forall_forall. intros k Hk.
  apply list_elem_of_In, in_map_iff in Hk as ([k' v] & <- & Hin%list_elem_of_In).
  apply scan_out_elem in Hin as (_ & f & Hf & _); [|done]. apply assoc_Some in Hf as [Hin <-].
  rewrite Forall_forall in Hlt. by apply Hlt.
Qed.

Lemma seek_all_at its runs t :
  Forall2 it_source its runs ->
  exists its', seek_all its t = Ok its' /\ runs_at its' (map (from_key t) runs).
Proof.
  induction 1 as [|it r its runs Hit _ (its' & IH & Hr)]; cbn [seek_all map]; [by exists []; split; [|constructor]|].
  destruct (it_seek _ _ t Hit) as (it' & E & Hat). rewrite E. cbn [rbind].
  rewrite (it_ok _ _ _ Hat), IH. cbn [negb ok code_ Status_OK rbind].
  exists (it' :: its'). split; [done|]. constructor; eauto.
Qed.

Lemma files_source files ess :
  Forall2 file_ok files ess ->
  Forall2 (it_source (It := AnyIter)) (map (fun f => inr (NewIterator (fm_reader f))) files) ess.
Proof.
  induction 1 as [|f es files ess [(bs & Ht & <-) _ _ _ _] _ IH]; cbn [map]; constructor; [|done].
  exists bs. by split_and!.
Qed.

(** The sources of a scan range over the runs of the database, newest first. *)
Lemma sources_ok d v R mes ess :
  db_ok d v R mes ess -> Forall2 it_source (scan_sources d) (mes :: newest_first ess).
Proof.
  intros [Hm _ Hcur [Hf _ _] Hl _ _ _ _ _]. unfold scan_sources. rewrite Hcur. constructor; [exact Hm|].
  destruct Hf as [|l0 e0 deeper ess0 Hl0 Hd]; [done|]. cbn [newest_first].
  apply Forall2_app; apply files_source; [by apply Forall2_rev|].
  clear Hcur Hl. induction Hd as [|l e ls es Hle _ IH]; cbn [concat]; [done|]. by apply Forall2_app.
Qed.

Lemma sources_sorted (its : list AnyIter) runs : Forall2 it_source its runs -> Forall sorted_keys runs.
Proof. induction 1 as [|it r its rs Hit _ IH]; [constructor|]. constructor; [exact (it_source_sorted _ _ Hit)|done]. Qed.

(** The fuel covers every record that the sources can yield. *)
Lemma scan_fuel_enough d v R mes ess :
  db_ok d v R mes ess -> (length (concat (mes :: newest_first ess)) < scan_fuel d)%nat.
Proof.
  intros [(cs & Hwf & <-) _ Hcur [Hf _ _] _ _ _ _ _ _]. unfold scan_fuel. rewrite Hcur. cbn [default concat].
  rewrite length_app, length_map, (wf_size _ _ Hwf).
  assert (length (concat (newest_first ess)) = length (concat (concat ess))) as ->.
  { destruct ess as [|e0 ess]; [done|]. cbn [newest_first concat]. rewrite !concat_app, !length_app. f_equal.
    clear. induction e0 as [|r e0 IH]; [done|]. cbn [rev concat].
    rewrite concat_app, !length_app, IH. cbn [concat]. rewrite app_nil_r. lia. }
  assert (Forall2 file_ok (concat v) (concat ess)) as Hall.
  { clear -Hf. induction Hf as [|l e ls es Hle _ IH]; cbn [concat]; [done|]. by apply Forall2_app. }
  apply records_bound_enough in Hall. simpl. lia.
Qed.

Lemma db_scan d v R mes ess start bound :
  db_ok d v R mes ess ->
  DB_Scan d start bound
  = Ok (Status_OK, scan_out bound (Runs.merge (map (from_key start) (mes :: newest_first ess)))).
Proof.
  intros Hd. pose proof (sources_ok _ _ _ _ _ Hd) as Hsrc. unfold DB_Scan.
  destruct (seek_all_at _ _ start Hsrc) as (its & -> & Hr).
  destruct (scan_loop_at (scan_fuel d) its _ bound Hr) as (its' & rs' & -> & Hr').
  { eapply Nat.le_lt_trans; [|by eapply scan_fuel_enough]. generalize (mes :: newest_first ess) as rs. clear.
    induction rs as [|r rs IH]; cbn [map concat]; [done|]. rewrite !length_app. pose proof (from_key_length start r). lia. }
  cbn [rbind]. assert (List.find (fun it => negb (ok (it_status it))) its' = None) as ->; [|done].
  apply find_None. clear -Hr'. induction Hr' as [|it r its rs [es Hat] _ IH]; constructor; [|done].
  by rewrite (it_ok _ _ _ Hat).
Qed.

(** The result of a scan: keys strictly ascending, and exactly the live pairs of
    the range. *)
Lemma scan_live_range d v R mes ess start bound :
  db_ok d v R mes ess ->
  exists out, DB_Scan d start bound = Ok (Status_OK, out) /\ StronglySorted str_lt (map fst out) /\
    forall k val, (k, val) ∈ out <->
      str_le start k /\ (bound = [] \/ str_lt k bound) /\
      exists e, assoc (db_records mes ess) k = Some e /\ is_tombstone_type (e_type e) = false /\ e_value e = val.
Proof.
  intros Hd. eexists. split; [by eapply db_scan|].
  assert (Forall sorted_keys (mes :: newest_first ess)) as Hs.
  { eapply sources_sorted. by eapply sources_ok. }
  assert (Forall sorted_keys (map (from_key start) (mes :: newest_first ess))) as Hs'.
  { apply Forall_map. eapply Forall_impl; [exact Hs|]. intros r. apply from_key_sorted. }
  destruct (merge_spec _ Hs') as (Hms & Hma & _).
  split; [by apply scan_out_sorted|]. intros k val. rewrite scan_out_elem by done.
  rewrite Hma, assoc_from_runs by done. unfold db_records, version_records.
  change (mes ++ concat (newest_first ess)) with (concat (mes :: newest_first ess)).
  destruct (str_leb_spec start k) as [Hle|Hlt]; [naive_solver|].
  split; [intros (_ & e & ? & _); done|intros (? & _); done].
Qed.

End Scan.
