(* ===== verification/Compaction.v ===== *)
(** Leveled compaction (src/db.cpp): [DB::DoCompaction] as a run that merges the
    inputs into new files, one turn of its loop at a time, and an installation
    under the lock. The invariant of the run ([run_inv]) speaks of the current
    database and world, so that it can be kept between the turns while another
    thread changes them. *)
From S2P Require Import Prelude Types Bloom SkipList Cache Posix Wal TableFormat TableWriter.
From S2P Require Import TableReader Iterator TableIter Merge Version Db DbInvariant.

(** The local variables of [DoCompaction] with the state they act on. *)
Record CompactState := mkCompactState {
  cs_db : DB; cs_w : option SSTableWriter; cs_number : Z; cs_path : bytes;
  cs_outputs : list FileMeta; cs_world : World }.

Section Operations.
Context `{Os}.

(** The lambda [finish_output]. *)
Definition finish_output (st : CompactState) : result (Status * CompactState) :=
  match cs_w st with
  | None => Ok (Status_OK, st)
  | Some w =>
      let '(s, w, σ) := SSTableWriter_Finish w (cs_world st) in
      if negb (ok s) then
        Ok (s, mkCompactState (cs_db st) (Some w) (cs_number st) (cs_path st) (cs_outputs st) σ)
      else
        match SSTableReader_Open (cs_path st) (cs_number st) σ with
        | (UB, _) => UB
        | (Err s, σ) =>
            Ok (s, mkCompactState (cs_db st) (Some w) (cs_number st) (cs_path st) (cs_outputs st) σ)
        | (Ok reader, σ) =>
            let fm := file_meta (cs_number st) w reader in
            Ok (Status_OK,
                mkCompactState (add_compaction_bytes (cs_db st) (fm_file_size fm)) None (cs_number st)
                  (cs_path st) (cs_outputs st ++ [fm]) (SSTableWriter_destroy w σ))
        end
  end.

(** The output that the loop writes to: the open one, or a new one under the
    next file number. *)
Definition open_output (st : CompactState) : Status * CompactState :=
  match cs_w st with
  | Some _ => (Status_OK, st)
  | None =>
      let d := cs_db st in
      let number := next_file_number_ d in
      let d := set_next d (next_file_number_ d +u64 1) in
      let path := FilePath d number in
      let w := SSTableWriter_new path kOutputBlockSize (bloom_bits_per_key (options_ d)) in
      let '(s, w, σ) := SSTableWriter_Open w (cs_world st) in
      (s, mkCompactState d (Some w) number path (cs_outputs st) σ)
  end.

(** The body of the loop for the current record of the merge. *)
Definition compact_body (c : Compaction) (m : MergingIterator SSTIter) (st : CompactState)
  : result (Status * CompactState) :=
  if bottommost c && cur_is_tombstone_ m then Ok (Status_OK, st)
  else
    let '(s, st) := open_output st in
    if negb (ok s) then Ok (s, st)
    else
      let* w := of_option (cs_w st) in
      let t := if cur_is_tombstone_ m then kTombstone else kValue in
      let '(s, w, σ) := SSTableWriter_Add w (cur_key_ m) (cur_value_ m) t (cs_world st) in
      let st := mkCompactState (cs_db st) (Some w) (cs_number st) (cs_path st) (cs_outputs st) σ in
      if negb (ok s) then Ok (s, st)
      else if target_file_size (options_ (cs_db st)) <=? FileSize w then finish_output st
      else Ok (Status_OK, st).

(** One turn of the loop: the body and [Next] while the merge has a record; then
    the check of its status and the last [finish_output]. [None] ends the run. *)
Definition compact_turn (c : Compaction) (m : MergingIterator SSTIter) (st : CompactState)
  : result (option (MergingIterator SSTIter) * Status * CompactState) :=
  if m_valid_ m then
    let* (s, st) := compact_body c m st in
    if negb (ok s) then Ok (None, s, st)
    else
      let* m := Merge_Next m in
      Ok (Some m, s, st)
  else if negb (ok (m_status_ m)) then Ok (None, m_status_ m, st)
  else
    let* (s, st) := finish_output st in
    Ok (None, s, st).

Fixpoint compact_loop (fuel : nat) (c : Compaction) (m : MergingIterator SSTIter) (st : CompactState)
  : result (Status * CompactState) :=
  match fuel with
  | O => UB
  | S fuel' =>
      let* (next, s, st) := compact_turn c m st in
      match next with
      | Some m => compact_loop fuel' c m st
      | None => Ok (s, st)
      end
  end.

Definition compact_fuel (c : Compaction) : nat := S (records_bound (c_inputs c)).

(** The merge of the inputs, at its first record. *)
Definition compact_start (c : Compaction) : result (MergingIterator SSTIter) :=
  Merge_SeekToFirst SST_SeekToFirst (MergingIterator_new (map (fun f => NewIterator (fm_reader f)) (c_inputs c))).

(** The part of [DoCompaction] that runs without the lock. *)
Definition compact_run (d : DB) (c : Compaction) (σ : World) : result (Status * CompactState) :=
  let* m := compact_start c in
  compact_loop (compact_fuel c) c m (mkCompactState d None 0 [] [] σ).

(** The part of [DoCompaction] under the lock: publish the new version, then
    remove the inputs. *)
Definition compact_install (d : DB) (c : Compaction) (outputs : list FileMeta) (σ : World)
  : result (Status * DB * World) :=
  let* v := of_option (current_ d) in
  let nv := InstallCompaction v c outputs in
  let d := set_current d (Some nv) in
  let '(ms, σ) := WriteManifest d nv σ in
  if negb (ok ms) then Ok (ms, d, σ)
  else Ok (Status_OK, d, fold_left (fun σ f => unlink (FilePath d (fm_number f)) σ) (c_inputs c) σ).

(** The destructor of [w] on leaving [DoCompaction]. *)
Definition destroy_output (st : CompactState) : World :=
  match cs_w st with Some w => SSTableWriter_destroy w (cs_world st) | None => cs_world st end.

(** [DB::DoCompaction]. *)
Definition DoCompaction (d : DB) (c : Compaction) (σ : World) : result (Status * DB * World) :=
  let* (s, st) := compact_run d c σ in
  if negb (ok s) then Ok (s, cs_db st, destroy_output st)
  else compact_install (cs_db st) c (cs_outputs st) (cs_world st).

End Operations.

(** ** The run: merging the inputs into new files *)

(** What the loop keeps of a record: a tombstone is dropped at the bottommost
    level, and the type byte is normalised to the two named values. *)
Definition emitted (bottom : bool) (e : entry) : list entry :=
  let tomb := is_tombstone_type (e_type e) in
  if bottom && tomb then [] else [Entry (e_key e) (e_value e) (if tomb then kTombstone else kValue)].

Definition written (bottom : bool) (es : list entry) : list entry := flat_map (emitted bottom) es.

(** The file numbers that the outputs have: the finished ones and the open one. *)
Definition taken (st : CompactState) : list Z :=
  map fm_number (cs_outputs st) ++ match cs_w st with Some _ => [cs_number st] | None => [] end.

Abbreviation cs_next st := (next_file_number_ (cs_db st)).

(** A run draws file numbers and touches no file but those of its outputs. *)
Record run_frame (st st' : CompactState) : Prop := {
  rf_db : same_db (cs_db st) (cs_db st');
  rf_outputs : cs_outputs st `prefix_of` cs_outputs st';
  rf_taken : exists n, 0 <= n /\ taken st' = taken st ++ seqZ (cs_next st) n /\ cs_next st' = cs_next st + n;
  rf_fs : forall p, (forall k, k ∈ taken st' -> p <> FilePath (cs_db st) k) ->
          fs (cs_world st') !! p = fs (cs_world st) !! p }.

(** [outs] are the records of the finished outputs and [cur] those of the open one. *)
Record run_inv (bpk : Z) (outs : list (list entry)) (cur : list entry) (st : CompactState) : Prop := {
  ri_outputs : Forall2 file_ok (cs_outputs st) outs;
  ri_unique : NoDup (taken st);
  ri_range : Forall (fun k => 0 <= k < cs_next st) (taken st);
  ri_disk : Forall (stored (cs_db st) (cs_world st)) (cs_outputs st);
  ri_open : match cs_w st with
            | None => cur = []
            | Some w =>
                cs_path st = FilePath (cs_db st) (cs_number st) /\
                writer_has (cs_path st) kOutputBlockSize bpk cur w (cs_world st)
            end }.

Lemma FilePath_inj d n m : is_u64 n -> is_u64 m -> FilePath d n = FilePath d m -> n = m.
Proof. intros Hn Hm E. apply app_inv_head, app_inv_head in E. by apply name_inj. Qed.

#[global] Instance run_frame_preorder : PreOrder run_frame.
Proof.
  split.
  - intros st. split; [done|done| |done]. exists 0. split; [done|]. rewrite Z.add_0_r. by rewrite app_nil_r.
  - intros x y z [Hdb Hpr (n & Hn & Ht & Hx) Hfs] [Hdb' Hpr' (n' & Hn' & Ht' & Hx') Hfs']. split.
    + by etransitivity.
    + by etransitivity.
    + exists (n + n'). split; [lia|]. rewrite Ht', Ht, Hx', Hx, <- app_assoc, seqZ_app by done. split; [done|lia].
    + intros p Hp. rewrite Hfs'; [apply Hfs|].
      * intros k Hk. apply Hp. rewrite Ht'. apply elem_of_app. by left.
      * intros k Hk. rewrite (same_db_path _ _ k Hdb). by apply Hp.
Qed.

(** A step that writes only to the file of one output. *)
Lemma frame_write st st' k :
  same_db (cs_db st) (cs_db st') -> cs_outputs st `prefix_of` cs_outputs st' -> taken st' = taken st -> cs_next st' = cs_next st -> k ∈ taken st ->
  others_kept (FilePath (cs_db st) k) (cs_world st) (cs_world st') -> run_frame st st'.
Proof.
  intros Hdb Hpr Ht Hn Hk Ho. split; [done|done| |].
  - exists 0. rewrite Ht, Hn, Z.add_0_r. split; [done|]. by rewrite app_nil_r.
  - intros p Hp. apply Ho, Hp. by rewrite Ht.
Qed.

Lemma writer_has_kept path bs bpk es w σ σ' :
  fs σ' !! path = fs σ !! path -> writer_has path bs bpk es w σ -> writer_has path bs bpk es w σ'.
Proof. intros E ([? ? ? Hf ? ? ? ? ? ?] & Hc & Hfin). split; [|done]. split; try done. by rewrite E. Qed.

(** The run does not depend on what else happens to the database. *)
Lemma run_inv_moved bpk outs cur st d' σ' :
  run_inv bpk outs cur st -> dir_ d' = dir_ (cs_db st) -> cs_next st <= next_file_number_ d' ->
  (forall k, k ∈ taken st -> fs σ' !! FilePath (cs_db st) k = fs (cs_world st) !! FilePath (cs_db st) k) ->
  run_inv bpk outs cur (mkCompactState d' (cs_w st) (cs_number st) (cs_path st) (cs_outputs st) σ').
Proof.
  intros [Hout Hu Hr Hd Hop] Hdir Hn Hfs. split; cbn [cs_w cs_number cs_path cs_outputs cs_db cs_world]; try done.
  - eapply Forall_impl; [exact Hr|]. simpl. lia.
  - rewrite Forall_forall in *. intros f Hf. eapply stored_kept; [done| |by apply Hd]. apply Hfs.
    unfold taken. apply elem_of_app. left. by apply list_elem_of_In, in_map, list_elem_of_In.
  - destruct (cs_w st) as [w|] eqn:Ew; [|done]. destruct Hop as [Hp Hw]. split.
    + rewrite Hp. unfold FilePath. by rewrite Hdir.
    + eapply writer_has_kept; [|exact Hw]. rewrite Hp. apply Hfs. unfold taken. rewrite Ew. apply elem_of_app. right. by left.
Qed.

Lemma written_app b es es' : written b (es ++ es') = written b es ++ written b es'.
Proof. apply flat_map_app. Qed.

Lemma emitted_spec b e x :
  x ∈ emitted b e -> e_key x = e_key e /\ e_value x = e_value e /\
  is_tombstone_type (e_type x) = is_tombstone_type (e_type e).
Proof.
  unfold emitted. destruct (b && _); [by intros ?%elem_of_nil|]. intros ->%list_elem_of_singleton. simpl.
  by destruct (is_tombstone_type (e_type e)).
Qed.

Lemma written_elem b es x : x ∈ written b es -> exists e, e ∈ es /\ x ∈ emitted b e.
Proof. intros (e & ? & ?)%list_elem_of_In%in_flat_map. exists e. by split; apply list_elem_of_In. Qed.

Lemma written_length b es : (length (written b es) <= length es)%nat.
Proof.
  induction es as [|e es IH]; [done|]. simpl. rewrite length_app. unfold emitted. destruct (b && _); simpl in *; lia.
Qed.

Lemma written_fits b es : Forall rec_fits es -> Forall rec_fits (written b es).
Proof.
  rewrite !Forall_forall. intros Hf x (e & He & (Hk & Hv & _)%emitted_spec)%written_elem.
  unfold rec_fits. rewrite Hk, Hv. by apply Hf.
Qed.

Lemma written_sorted b es : sorted_keys es -> sorted_keys (written b es).
Proof.
  induction es as [|e es IH]; [done|]. intros [Hlt Hs]. simpl. apply sorted_keys_app. split_and!; [|by apply IH|].
  - unfold emitted. destruct (b && _); [constructor|]. by repeat constructor.
  - apply Forall_forall. intros x (Hk & _)%emitted_spec. apply Forall_forall.
    intros y (e' & He' & (Hk' & _)%emitted_spec)%written_elem. rewrite Hk, Hk'.
    rewrite Forall_forall in Hlt. by apply Hlt.
Qed.

Section Run.
Context `{Os}.
Variables (bpk total : Z).

(** The limits of the table format on a run over [total] records. *)
Hypothesis Htotal : total <= 2 ^ 25.
Hypothesis Hbits : 0 <= bpk <= 100.

(** What is left to write after [outs] and [cur]. *)
Definition run_fits (outs : list (list entry)) (cur rest : list entry) : Prop :=
  let all := concat outs ++ cur ++ rest in sorted_keys all /\ Forall rec_fits all /\ blen all <= total.

(** The records of one output fit a table. *)
Lemma output_fits outs cur rest : run_fits outs cur rest -> table_fits kOutputBlockSize bpk cur.
Proof.
  intros (Hs & Hf & Hn). apply sorted_keys_app in Hs as (_ & Hs & _). apply sorted_keys_app in Hs as (Hs & _).
  apply Forall_app in Hf as [_ Hf]. apply Forall_app in Hf as [Hf _]. rewrite !blen_app in Hn.
  pose proof (blen_nonneg (concat outs)). pose proof (blen_nonneg cur). pose proof (blen_nonneg rest).
  apply table_fits_intro; try done; [lia|nia].
Qed.

Lemma run_fits_app outs cur es rest : run_fits outs cur (es ++ rest) <-> run_fits outs (cur ++ es) rest.
Proof. unfold run_fits. by rewrite <- !app_assoc. Qed.

(** Writing to one output leaves the others on disk. *)
Lemma disk_kept d σ σ' k files :
  others_kept (FilePath d k) σ σ' -> is_u64 k -> Forall (fun f => is_u64 (fm_number f) /\ fm_number f <> k) files ->
  Forall (stored d σ) files -> Forall (stored d σ') files.
Proof.
  intros Ho Hk Hne Hd. rewrite Forall_forall in *. intros f Hf. destruct (Hne f Hf) as [Hu Hn].
  eapply stored_kept; [done| |by apply Hd]. apply Ho. intros E. by apply FilePath_inj in E.
Qed.

(** The finished outputs have other numbers than [k]. *)
Lemma outputs_ne outs cur st k :
  run_inv bpk outs cur st -> cs_next st <= 2 ^ 30 -> k ∉ map fm_number (cs_outputs st) ->
  Forall (fun f => is_u64 (fm_number f) /\ fm_number f <> k) (cs_outputs st).
Proof.
  intros [_ _ Hr _ _] Hn Hk. unfold taken in Hr. apply Forall_app in Hr as [Hr _]. rewrite Forall_map in Hr.
  rewrite Forall_forall in *. intros f Hf. specialize (Hr f Hf). simpl in Hr. split; [unfold is_u64; lia|].
  intros <-. apply Hk. by apply list_elem_of_In, in_map, list_elem_of_In.
Qed.

Lemma open_number st w : cs_w st = Some w -> cs_number st ∈ taken st.
Proof. intros E. unfold taken. rewrite E. apply elem_of_app. right. by left. Qed.

Lemma open_ne st w : cs_w st = Some w -> NoDup (taken st) -> cs_number st ∉ map fm_number (cs_outputs st).
Proof.
  intros E. unfold taken. rewrite E. intros (_ & Hd & _)%NoDup_app Hin. apply (Hd _ Hin). by left.
Qed.

(** [finish_output] closes the open output or leaves only the frame. *)
Lemma finish_output_spec outs cur st :
  run_inv bpk outs cur st -> run_fits outs cur [] -> (cs_w st <> None -> cur <> []) -> cs_next st <= 2 ^ 30 ->
  exists s st', finish_output st = Ok (s, st') /\ run_frame st st' /\ cs_next st' = cs_next st /\
    (ok s = true -> exists outs', run_inv bpk outs' [] st' /\ cs_w st' = None /\ concat outs' = concat outs ++ cur).
Proof.
  intros Hi Hfit Hne Hlim. pose proof Hi as [Hout Huq Hr Hdisk Hop]. unfold finish_output. destruct (cs_w st) as [w|] eqn:Ew.
  2: { subst cur. exists Status_OK, st. split; [done|]. split; [done|]. split; [done|].
       intros _. exists outs. by rewrite app_nil_r. }
  destruct Hop as (Hpath & Hw). rewrite Hpath in *. pose proof (open_number _ _ Ew) as Hin. pose proof (open_ne _ _ Ew Huq) as Hnot.
  destruct (SSTableWriter_Finish w (cs_world st)) as [[s w3] σ3] eqn:E3.
  destruct (finish_stored (cs_db st) (cs_number st) _ _ _ _ _ _ _ (output_fits _ _ _ Hfit) (Hne ltac:(done)) Hw E3) as [Ho3 Hok].
  assert (forall w' d' σ', same_db (cs_db st) d' -> next_file_number_ d' = cs_next st -> others_kept (FilePath (cs_db st) (cs_number st)) (cs_world st) σ' ->
    run_frame st (mkCompactState d' (Some w') (cs_number st) (FilePath (cs_db st) (cs_number st)) (cs_outputs st) σ')) as Hf.
  { intros w' d' σ' H1 H2 H3. eapply frame_write; [done|done| |done|exact Hin|done]. unfold taken. by rewrite Ew. }
  destruct (ok s) eqn:Es; cbn [negb]; [|eexists _, _; split; [done|]; split; [by apply Hf|]; split; [done|congruence]].
  destruct (Hok eq_refl) as (Hfd & Hopen).
  destruct (SSTableReader_Open _ (cs_number st) σ3) as [res σ4] eqn:E4.
  destruct (Hopen _ _ eq_refl) as (Ho4 & [(r & -> & Hfo & Hst)|(s' & -> & Hs')]);
    [|eexists _, _; split; [done|]; split; [by apply Hf|]; split; [done|congruence]].
  unfold SSTableWriter_destroy. rewrite Hfd. eexists _, _. split; [done|].
  match goal with |- run_frame st ?s' /\ _ => assert (taken s' = taken st) as Htk end.
  { unfold taken. cbn [cs_w cs_outputs]. rewrite Ew, map_app. cbn [map file_meta fm_number]. by rewrite app_nil_r. }
  split; [eapply frame_write; try done; by apply prefix_app_r|]. split; [done|]. intros _.
  exists (outs ++ [cur]). cbn [cs_w]. split; [|by rewrite concat_app; cbn [concat]; rewrite app_nil_r].
  split; rewrite ?Htk; cbn [cs_w cs_db cs_outputs cs_world]; try done.
  - apply Forall2_app; [done|]. by constructor.
  - assert (is_u64 (cs_number st)) as Hu by (rewrite Forall_forall in Hr; specialize (Hr _ Hin); simpl in Hr; unfold is_u64; lia).
    apply Forall_app; split; [|apply Forall_singleton; by eapply stored_kept; [| |exact Hst]].
    pose proof (disk_kept _ _ _ _ _ Ho4 Hu (outputs_ne _ _ _ _ Hi Hlim Hnot) Hdisk) as Hd'.
    eapply Forall_impl; [exact Hd'|]. intros f. by apply stored_kept.
Qed.

(** A new output under the next number, if none is open. *)
Lemma open_output_spec outs cur st s st' :
  run_inv bpk outs cur st -> 0 <= cs_next st < 2 ^ 30 -> bloom_bits_per_key (options_ (cs_db st)) = bpk ->
  open_output st = (s, st') ->
  run_frame st st' /\ cs_next st <= cs_next st' <= cs_next st + 1 /\
  (ok s = true -> run_inv bpk outs cur st' /\ exists w, cs_w st' = Some w).
Proof.
  intros Hi Hlim Hbpk. pose proof Hi as [Hout Huq Hr Hdisk Hop]. unfold open_output.
  destruct (cs_w st) as [w|] eqn:Ew.
  { intros [= <- <-]. split; [done|]. split; [lia|]. eauto. }
  cbn [set_next options_ next_file_number_]. rewrite Hbpk. set (k := cs_next st) in *.
  change (FilePath (set_next (cs_db st) _) k) with (FilePath (cs_db st) k).
  destruct (SSTableWriter_Open _ (cs_world st)) as [[s1 w1] σ1] eqn:E1. intros [= <- <-].
  destruct (open_writer_has _ _ _ _ _ _ _ E1) as [Ho Hw]. rewrite u64_small by lia.
  match goal with |- run_frame st ?s' /\ _ => assert (taken s' = taken st ++ [k]) as Htk by (unfold taken; cbn [cs_w cs_outputs cs_number]; by rewrite Ew, app_nil_r) end.
  assert (k ∉ taken st) as Hk.
  { intros Hin. rewrite Forall_forall in Hr. specialize (Hr _ Hin). simpl in Hr. lia. }
  split; [|split; [cbn; lia|]].
  - split; [done|done| |].
    + exists 1. split; [done|]. by rewrite Htk.
    + intros p Hp. apply Ho, Hp. rewrite Htk. apply elem_of_app. right. by left.
  - intros Hs. split; [|by eexists]. split; rewrite ?Htk; cbn [cs_w cs_db cs_outputs cs_world cs_path cs_number]; try done.
    + apply NoDup_app. split_and!; [done| |apply NoDup_singleton]. intros x Hx ->%list_elem_of_singleton. done.
    + apply Forall_app. split; [|apply Forall_singleton; cbn; lia]. eapply Forall_impl; [exact Hr|]. cbn. lia.
    + assert (Forall (stored (cs_db st) σ1) (cs_outputs st)) as Hd'.
      { eapply disk_kept; [exact Ho|unfold is_u64; lia| |done]. apply (outputs_ne outs cur); [done|lia|].
        intros Hin. apply Hk. unfold taken. rewrite Ew. by rewrite app_nil_r. }
      eapply Forall_impl; [exact Hd'|]. intros f. by apply stored_kept.
    + split; [done|]. subst cur. by apply Hw.
Qed.

(** One turn of the body. *)
Lemma compact_body_spec c m outs cur st e rest :
  (cur_key_ m, cur_value_ m, cur_is_tombstone_ m) = view e ->
  run_inv bpk outs cur st -> (cs_w st <> None -> cur <> []) ->
  0 <= cs_next st < 2 ^ 30 -> bloom_bits_per_key (options_ (cs_db st)) = bpk ->
  run_fits outs cur (emitted (bottommost c) e ++ rest) ->
  exists s st', compact_body c m st = Ok (s, st') /\ run_frame st st' /\ cs_next st <= cs_next st' <= cs_next st + 1 /\
    (ok s = true -> exists outs' cur', run_inv bpk outs' cur' st' /\ (cs_w st' <> None -> cur' <> []) /\
       concat outs' ++ cur' = concat outs ++ cur ++ emitted (bottommost c) e).
Proof.
  intros Hv Hi Hne Hlim Hbpk Hfit. injection Hv as Hk Hval Ht. unfold compact_body. rewrite Hk, Hval, Ht.
  unfold emitted in *. destruct (bottommost c && is_tombstone_type (e_type e)) eqn:Eb.
  { exists Status_OK, st. split; [done|]. split; [done|]. split; [lia|]. intros _. exists outs, cur. by rewrite app_nil_r. }
  set (e' := Entry (e_key e) (e_value e) (if is_tombstone_type (e_type e) then kTombstone else kValue)) in *.
  destruct (open_output st) as [s1 st1] eqn:E1.
  destruct (open_output_spec _ _ _ _ _ Hi Hlim Hbpk E1) as (Hf1 & Hn1 & Hok1).
  destruct (ok s1) eqn:Es1; cbn [negb]; [|eexists _, _; split; [done|]; split; [done|]; split; [done|congruence]].
  destruct (Hok1 eq_refl) as (Hi1 & w & Ew). rewrite Ew. cbn [of_option rbind].
  change (e_key e) with (e_key e'). change (e_value e) with (e_value e').
  change (if is_tombstone_type (e_type e) then kTombstone else kValue) with (e_type e').
  destruct (SSTableWriter_Add w _ _ _ (cs_world st1)) as [[s2 w2] σ2] eqn:E2.
  pose proof Hi1 as [Hout Huq Hr Hdisk Hop]. rewrite Ew in Hop. destruct Hop as (Hpath & Hw).
  assert (rec_fits e') as He'.
  { destruct Hfit as (_ & Hf & _). do 2 (apply Forall_app in Hf as [_ Hf]). by apply Forall_cons in Hf as [? _]. }
  assert (0 <= kOutputBlockSize <= 2 ^ 30) as Hbs by (unfold kOutputBlockSize; lia).
  destruct (add_writer_has _ _ _ _ _ _ _ _ _ _ Hbs He' Hw E2) as [Ho2 Hok2]. rewrite Hpath in Ho2.
  set (st2 := mkCompactState _ _ _ _ _ σ2). pose proof (open_number _ _ Ew) as Hin.
  assert (taken st2 = taken st1) as Htk by (unfold taken; cbn [st2 cs_w cs_outputs cs_number]; by rewrite Ew).
  assert (run_frame st st2) as Hf2 by (etransitivity; [exact Hf1|by eapply frame_write]).
  destruct (ok s2) eqn:Es2; cbn [negb]; [|eexists _, _; split; [done|]; split; [done|]; split; [done|congruence]].
  assert (run_inv bpk outs (cur ++ [e']) st2) as Hi2.
  { split; rewrite ?Htk; try done.
    - assert (is_u64 (cs_number st1)) by (rewrite Forall_forall in Hr; specialize (Hr _ Hin); simpl in Hr; unfold is_u64; lia).
      eapply disk_kept; [exact Ho2|done|exact (outputs_ne outs cur st1 _ Hi1 ltac:(lia) (open_ne _ _ Ew Huq))|exact Hdisk].
    - split; [done|]. by apply Hok2. }
  assert (cur ++ [e'] <> []) as Hne2 by (by destruct cur).
  apply run_fits_app in Hfit. destruct (_ <=? _).
  - destruct (finish_output_spec outs (cur ++ [e']) st2 Hi2) as (s3 & st3 & -> & Hf3 & Hn3 & Hok3); [|done|cbn; lia|].
    { destruct Hfit as (Hs & Hf & Hn). rewrite app_assoc in *. unfold run_fits. rewrite app_nil_r.
      apply sorted_keys_app in Hs as (Hs & _). apply Forall_app in Hf as [Hf _]. rewrite blen_app in Hn.
      pose proof (blen_nonneg rest). split_and!; [done|done|lia]. }
    exists s3, st3. split; [done|]. split; [by etransitivity|]. split; [cbn in Hn3; lia|]. intros Hs3.
    destruct (Hok3 Hs3) as (outs' & Hi3 & Hw3 & Hcat). exists outs', []. by rewrite app_nil_r.
  - eexists _, _. split; [done|]. split; [done|]. split; [done|]. intros _. by exists outs, (cur ++ [e']).
Qed.

(** One turn of the loop before the rest [out] of the merge: the run goes on
    over a shorter rest, fails, or is complete. *)
Lemma compact_turn_spec c m out outs cur st :
  merging_at m out -> run_inv bpk outs cur st -> (cs_w st <> None -> cur <> []) ->
  0 <= cs_next st < 2 ^ 30 -> bloom_bits_per_key (options_ (cs_db st)) = bpk ->
  run_fits outs cur (written (bottommost c) out) ->
  exists next s st', compact_turn c m st = Ok (next, s, st') /\ run_frame st st' /\ cs_next st <= cs_next st' <= cs_next st + 1 /\
    match next with
    | Some m' => exists e out' outs' cur', out = e :: out' /\ merging_at m' out' /\ run_inv bpk outs' cur' st' /\
        (cs_w st' <> None -> cur' <> []) /\
        concat outs' ++ cur' ++ written (bottommost c) out' = concat outs ++ cur ++ written (bottommost c) out
    | None => ok s = true -> exists outs', run_inv bpk outs' [] st' /\ cs_w st' = None /\
        concat outs' = concat outs ++ cur ++ written (bottommost c) out
    end.
Proof.
  intros Hm Hi Hne Hlim Hbpk Hfit. unfold compact_turn. destruct out as [|e out]; pose proof Hm as [Hst Hm'].
  - rewrite Hm', Hst. cbn [ok Status_OK code_ negb]. change (written _ []) with (@nil entry) in *.
    destruct (finish_output_spec outs cur st Hi Hfit Hne ltac:(lia)) as (s & st' & -> & Hf & Hn & Hok). cbn [rbind].
    eexists None, s, st'. split; [done|]. split; [done|]. split; [lia|]. by rewrite app_nil_r.
  - destruct Hm' as (-> & Hv & _). cbn [written flat_map] in Hfit.
    destruct (compact_body_spec c m outs cur st e (written (bottommost c) out) Hv Hi Hne Hlim Hbpk Hfit) as (s & st1 & -> & Hf1 & Hn1 & Hok1).
    cbn [rbind]. destruct (ok s) eqn:Es; cbn [negb].
    2: { exists None, s, st1. split; [done|]. split; [done|]. split; [done|congruence]. }
    destruct (Hok1 eq_refl) as (outs1 & cur1 & Hi1 & Hne1 & Hcat).
    destruct (Merge_Next_at _ _ _ Hm) as (m' & -> & Hm1). cbn [rbind].
    exists (Some m'), s, st1. split; [done|]. split; [done|]. split; [done|]. exists e, out, outs1, cur1. split_and!; try done.
    cbn [written flat_map]. rewrite !app_assoc. rewrite !app_assoc in Hcat. by rewrite Hcat.
Qed.

Lemma outs_le files outs : Forall2 file_ok files outs -> blen outs <= blen (concat outs).
Proof.
  induction 1 as [|f es fs outs [_ Hne _ _ _] _ IH]; [done|]. cbn [concat]. rewrite blen_cons, blen_app.
  destruct es; [done|]. rewrite blen_cons. pose proof (blen_nonneg es). lia.
Qed.

(** Every output holds a record. *)
Lemma taken_le outs cur st rest :
  run_inv bpk outs cur st -> (cs_w st <> None -> cur <> []) -> run_fits outs cur rest -> blen (taken st) <= total.
Proof.
  intros [Hout _ _ _ Hop] Hne (_ & _ & Hn). pose proof (outs_le _ _ Hout). pose proof (Forall2_length _ _ _ Hout) as Hl.
  unfold taken. rewrite blen_app, blen_map. rewrite !blen_app in Hn. pose proof (blen_nonneg rest).
  replace (blen (cs_outputs st)) with (blen outs) by (unfold blen; lia).
  destruct (cs_w st) as [w|]; [|change (blen (@nil Z)) with 0; subst; change (blen (@nil entry)) with 0 in Hn; lia].
  change (blen [cs_number st]) with 1. destruct cur as [|e cur]; [by destruct Hne|]. rewrite blen_cons in Hn. pose proof (blen_nonneg cur). lia.
Qed.

(** The whole loop over the rest [out] of the merge; [first] is the file number
    at which the run started. *)
Lemma compact_loop_spec fuel first c m out outs cur st :
  merging_at m out -> (length out < fuel)%nat ->
  run_inv bpk outs cur st -> (cs_w st <> None -> cur <> []) ->
  0 <= first -> first + total < 2 ^ 30 -> cs_next st = first + blen (taken st) ->
  bloom_bits_per_key (options_ (cs_db st)) = bpk ->
  run_fits outs cur (written (bottommost c) out) ->
  exists s st', compact_loop fuel c m st = Ok (s, st') /\ run_frame st st' /\ cs_next st' <= first + total + 1 /\
    (ok s = true -> exists outs', run_inv bpk outs' [] st' /\ cs_w st' = None /\
       concat outs' = concat outs ++ cur ++ written (bottommost c) out).
Proof.
  revert m out outs cur st. induction fuel as [|fuel IH]; intros m out outs cur st Hm Hfuel Hi Hne H0 Hlim Hnx Hbpk Hfit; [lia|].
  pose proof (taken_le _ _ _ _ Hi Hne Hfit) as Htk. pose proof (blen_nonneg (taken st)).
  cbn [compact_loop]. destruct (compact_turn_spec c m out outs cur st Hm Hi Hne ltac:(lia) Hbpk Hfit)
    as (next & s & st1 & -> & Hf & Hn1 & Hres). cbn [rbind]. destruct next as [m'|].
  - destruct Hres as (e & out' & outs' & cur' & -> & Hm' & Hi' & Hne' & Hcat).
    destruct (IH m' out' outs' cur' st1 Hm') as (s2 & st2 & -> & Hf2 & Hn2 & Hok2); [simpl in Hfuel; lia|done|done|done|done| | | |].
    + destruct Hf as [_ _ (n & Hn & Ht & Hx) _]. rewrite Hx, Ht, blen_app. unfold blen at 2. rewrite length_seqZ. lia.
    + destruct Hf as [(Ho & _) _ _ _]. by rewrite Ho.
    + unfold run_fits. by rewrite Hcat.
    + rewrite Hcat in Hok2. exists s2, st2. split; [done|]. split; [by etransitivity|done].
  - exists s, st1. split; [done|]. split; [done|]. split; [lia|done].
Qed.

End Run.

Lemma file_fits f es : file_ok f es -> Forall rec_fits es.
Proof.
  intros [(bs & Ht & <-) _ _ _ _]. apply Forall_concat. eapply Forall_impl; [apply (to_blocks _ _ Ht)|]. by intros b (_ & ? & _).
Qed.

(** The records that a compaction of [runs] writes. *)
Lemma merged_fits bottom files runs :
  Forall2 file_ok files runs -> run_fits (blen (concat runs)) [] [] (written bottom (Runs.merge runs)).
Proof.
  intros Hin. assert (Forall sorted_keys runs) as Hs.
  { clear -Hin. induction Hin as [|f es fs ess Hf _ IH]; constructor; [eapply serves_sorted; apply Hf|done]. }
  destruct (merge_spec _ Hs) as (Hms & _ & Hme). pose proof (merge_length runs) as Hml. unfold run_fits. cbn [concat app]. split_and!.
  - by apply written_sorted.
  - apply written_fits, Forall_forall. intros e He%Hme. apply list_elem_of_In, in_concat in He as (r & Hr & He).
    apply list_elem_of_In in He, Hr. apply list_elem_of_lookup in Hr as [i Hi].
    destruct (Forall2_lookup_r _ _ _ _ _ Hin Hi) as (f & _ & Hf). pose proof (file_fits f r Hf) as Hff. rewrite Forall_forall in Hff. by apply Hff.
  - unfold blen. pose proof (written_length bottom (Runs.merge runs)). lia.
Qed.

(** The merge starts at the first record of all. *)
Lemma compact_start_spec c runs :
  Forall2 file_ok (c_inputs c) runs ->
  exists m, compact_start c = Ok m /\ merging_at m (Runs.merge runs) /\ (length (Runs.merge runs) < compact_fuel c)%nat.
Proof.
  intros Hin. assert (Forall2 serves (map fm_reader (c_inputs c)) runs) as Hsv.
  { clear -Hin. induction Hin as [|f es fs ess Hf _ IH]; [constructor|]. constructor; [apply Hf|done]. }
  destruct (merge_of_tables _ _ Hsv) as (m & E & Hm & _). rewrite map_map in E. exists m. split; [done|]. split; [done|].
  pose proof (merge_length runs) as Hml. pose proof (records_bound_enough _ _ Hin) as Hrb. unfold compact_fuel. lia.
Qed.

Lemma run_inv_start bpk d σ : run_inv bpk [] [] (mkCompactState d None 0 [] [] σ).
Proof. split; cbn; try done. apply NoDup_nil_2. Qed.

(** The run of a compaction under every pattern of system-call outcomes: it
    never faults, leaves the database and the other files alone, and, when it
    succeeds, the outputs hold the merge of the inputs. *)
Lemma compact_run_spec `{Os} d c σ runs :
  Forall2 file_ok (c_inputs c) runs ->
  blen (concat runs) <= 2 ^ 25 -> 0 <= bloom_bits_per_key (options_ d) <= 100 ->
  0 <= next_file_number_ d /\ next_file_number_ d + blen (concat runs) < 2 ^ 30 ->
  exists s st, compact_run d c σ = Ok (s, st) /\ run_frame (mkCompactState d None 0 [] [] σ) st /\
    (ok s = true -> exists outs, run_inv (bloom_bits_per_key (options_ d)) outs [] st /\ cs_w st = None /\
       concat outs = written (bottommost c) (Runs.merge runs)).
Proof.
  intros Hin Hn Hb Hnx. unfold compact_run. destruct (compact_start_spec c runs Hin) as (m & -> & Hm & Hfuel). cbn [rbind].
  destruct (compact_loop_spec _ _ Hn Hb (compact_fuel c) (next_file_number_ d) c m (Runs.merge runs) [] []
    (mkCompactState d None 0 [] [] σ) Hm) as (s & st & E' & Hf & _ & Hok); try done; try lia.
  - apply run_inv_start.
  - unfold taken. cbn. change (blen (@nil Z)) with 0. lia.
  - by apply (merged_fits _ (c_inputs c)).
  - by exists s, st.
Qed.
