(* ===== verification/Leveling.v ===== *)
(** The shape of the levels under compaction (src/db.cpp): what
    [DB::PickCompaction] chooses, what [DB::InstallCompaction] makes of it, and
    that the levels below 0 stay sorted runs while every key keeps its value. *)
From S2P Require Import Prelude Types Bloom SkipList Cache Posix Wal TableFormat TableWriter.
From S2P Require Import TableReader Iterator TableIter Merge Version Db DbInvariant Compaction.

(** ** Sorting *)

Section Sort.
Context {A : Type} (lt : A -> A -> bool).

Lemma sort_insert_perm x l : sort_insert lt x l ≡ₚ x :: l.
Proof.
  induction l as [|y l IH]; simpl; [done|]. destruct (lt y x); [|done]. rewrite IH. constructor.
Qed.

Lemma std_sort_perm l : std_sort lt l ≡ₚ l.
Proof. induction l as [|x l IH]; simpl; [done|]. by rewrite sort_insert_perm, IH. Qed.

Lemma sort_insert_at x l1 l2 :
  Forall (fun y => lt y x = true) l1 -> Forall (fun y => lt y x = false) l2 ->
  sort_insert lt x (l1 ++ l2) = l1 ++ x :: l2.
Proof.
  induction 1 as [|y l1 Hy _ IH]; intros H2; simpl; [destruct H2; simpl; [done|by rewrite H]|].
  rewrite Hy. by rewrite IH.
Qed.

(** Sorting a permutation of a strictly ordered list gives that list. *)
Lemma std_sort_unique l l' :
  (forall x y, lt x y = true -> lt y x = false) ->
  l ≡ₚ l' -> StronglySorted (fun x y => lt x y = true) l' -> std_sort lt l = l'.
Proof.
  intros Hasym. revert l'. induction l as [|x l IH]; intros l' Hp Hs.
  { apply Permutation_nil_l in Hp as <-. done. }
  assert (x ∈ l') as Hin by (rewrite <- Hp; left).
  apply list_elem_of_split in Hin as (l1 & l2 & ->).
  assert (l ≡ₚ l1 ++ l2) as Hp' by (apply (Permutation_cons_app_inv _ _ Hp)).
  cbn [std_sort foldr]. fold (std_sort lt l).
  assert (StronglySorted (fun x y => lt x y = true) (l1 ++ l2) /\ Forall (fun y => lt y x = true) l1 /\
          Forall (fun y => lt x y = true) l2) as (Hs' & H1 & H2).
  { clear -Hs. induction l1 as [|z l1 IH]; cbn [app] in *.
    - apply StronglySorted_inv in Hs as [? ?]. by split_and!.
    - apply StronglySorted_inv in Hs as [Hs Hz]. destruct (IH Hs) as (? & ? & ?).
      apply Forall_app in Hz as [Hz1 [Hzx Hz2]%Forall_cons]. split_and!; [|by constructor|done].
      constructor; [done|]. by apply Forall_app. }
  rewrite (IH _ Hp' Hs'). apply sort_insert_at; [done|].
  eapply Forall_impl; [exact H2|]. intros y. apply Hasym.
Qed.

End Sort.

Lemma newer_asym x y : newer x y = true -> newer y x = false.
Proof. unfold newer. lia. Qed.

Lemma smaller_asym x y : smaller x y = true -> smaller y x = false.
Proof. unfold smaller. do 2 case (str_ltb_spec _ _); try done. intros. exfalso. str_order. Qed.

(** Level 0 in the order of its numbers is already oldest first. *)
Lemma sort_newer l0 : StronglySorted Z.lt (map fm_number l0) -> std_sort newer l0 = rev l0.
Proof.
  intros Hs. apply std_sort_unique; [apply newer_asym|apply Permutation_rev|].
  induction l0 as [|f l0 IH]; cbn [rev map] in *; [constructor|]. apply StronglySorted_inv in Hs as [Hs Hf].
  apply StronglySorted_app_2; [|by apply IH|by repeat constructor].
  intros x y Hx ->%list_elem_of_singleton. rewrite <- Permutation_rev in Hx. rewrite Forall_map, Forall_forall in Hf.
  specialize (Hf x Hx). simpl in Hf. unfold newer. lia.
Qed.

(** ** Overlapping files of a sorted level *)

Lemma file_range f es : file_ok f es -> str_le (fm_smallest f) (fm_largest f).
Proof.
  intros [Hs Hne Hsm Hla _]. apply serves_sorted in Hs. rewrite Hsm, Hla. destruct es as [|e es]; [done|].
  apply (last_key_ge (e :: es) e Hs). left.
Qed.

(** Keys of a file lie in its range. *)
Lemma file_keys f es e : file_ok f es -> e ∈ es -> str_le (fm_smallest f) (e_key e) /\ str_le (e_key e) (fm_largest f).
Proof.
  intros [Hs _ Hsm Hla _] He. apply serves_sorted in Hs. rewrite Hsm, Hla. split; [by apply first_key_le|by apply last_key_ge].
Qed.

Definition precedes (f g : FileMeta) : Prop := str_lt (fm_largest f) (fm_smallest g).

Lemma level_sorted files ess :
  Forall2 file_ok files ess -> sorted_keys (concat ess) -> StronglySorted precedes files.
Proof.
  induction 1 as [|f es files ess Hf Hfs IH]; intros Hs; [constructor|]. cbn [concat] in Hs.
  apply sorted_keys_app in Hs as (_ & Hs & Hlt). constructor; [by apply IH|].
  apply Forall_forall. intros g Hg. apply list_elem_of_lookup in Hg as [i Hi].
  destruct (Forall2_lookup_l _ _ _ _ _ Hfs Hi) as (esg & Hig & [_ Hneg Hsmg _ _]).
  destruct Hf as [_ Hne _ Hla _]. unfold precedes. rewrite Hla, Hsmg.
  destruct esg as [|eg esg]; [done|]. destruct (last es) as [el|] eqn:El; [|by apply last_None in El].
  assert (last_key es = e_key el) as -> by (unfold last_key; by rewrite El).
  rewrite Forall_forall in Hlt. assert (el ∈ es) as Hel by (by apply last_Some_elem_of).
  specialize (Hlt _ Hel). rewrite Forall_forall in Hlt. apply Hlt. apply list_elem_of_In, in_concat.
  exists (eg :: esg). split; [|by left]. by eapply list_elem_of_In, list_elem_of_lookup_2.
Qed.

Lemma overlapping_cons lo hi f files :
  overlapping lo hi (f :: files)
  = if Overlaps (fm_smallest f) (fm_largest f) lo hi then f :: overlapping lo hi files else overlapping lo hi files.
Proof. done. Qed.

(** The files that overlap a range are contiguous in a sorted level. *)
Lemma overlapping_split lo hi files :
  StronglySorted precedes files -> Forall (fun f => str_le (fm_smallest f) (fm_largest f)) files ->
  exists low high, files = low ++ overlapping lo hi files ++ high /\
    Forall (fun f => str_lt (fm_largest f) lo) low /\ Forall (fun f => str_lt hi (fm_smallest f)) high.
Proof.
  induction 1 as [|f files Hs IH Hf]; intros Hr; [by exists [], []|]. apply Forall_cons in Hr as [Hrf Hr].
  destruct (IH Hr) as (low & high & E & Hlow & Hhigh). rewrite overlapping_cons. unfold Overlaps.
  destruct (str_leb_spec lo (fm_largest f)) as [Hlo|Hlo]; cbn [andb].
  2: { exists (f :: low), high. cbn [app]. split; [rewrite E at 1; done|]. split; [constructor; [str_order|done]|done]. }
  assert (low = []) as ->.
  { destruct low as [|g low]; [done|]. exfalso. rewrite E in Hf, Hr. cbn [app] in Hf, Hr.
    apply Forall_cons in Hf as [Hfg _]. apply Forall_cons in Hr as [Hg _]. apply Forall_cons in Hlow as [Hgl _].
    unfold precedes in Hfg. str_order. }
  cbn [app] in E. destruct (str_leb_spec (fm_smallest f) hi) as [Hhi|Hhi].
  - exists [], high. cbn [app]. by rewrite <- E.
  - assert (overlapping lo hi files = []) as Hno.
    { destruct (overlapping lo hi files) as [|g mid] eqn:Em; [done|]. exfalso.
      assert (g ∈ overlapping lo hi files) as Hg by (rewrite Em; left).
      apply list_elem_of_In, filter_In in Hg as [Hg Ho]. apply list_elem_of_In in Hg.
      rewrite Forall_forall in Hf. specialize (Hf g Hg). unfold precedes in Hf. unfold Overlaps in Ho.
      apply andb_prop in Ho as [_ Ho]. revert Ho. case (str_leb_spec _ _); [|done]. intros. str_order. }
    exists [], (f :: files). rewrite Hno. cbn [app]. split; [done|]. split; [done|].
    constructor; [str_order|]. eapply Forall_impl; [exact Hf|]. intros g. unfold precedes. intros. str_order.
Qed.

(** The range over all files of level 0. *)
Lemma fold_min_le files lo f :
  let r := fold_left (fun lo f => str_min lo (fm_smallest f)) files lo in
  str_le r lo /\ (f ∈ files -> str_le r (fm_smallest f)).
Proof.
  revert lo. induction files as [|g files IH]; intros lo; cbn [fold_left].
  { split; [str_order|by intros ?%elem_of_nil]. }
  destruct (IH (str_min lo (fm_smallest g))) as [Hle Hin].
  assert (str_le (str_min lo (fm_smallest g)) lo /\ str_le (str_min lo (fm_smallest g)) (fm_smallest g)) as [Ha Hb].
  { unfold str_min. case (str_ltb_spec _ _); intros; split; str_order. }
  split; [str_order|]. intros [->|Hf]%elem_of_cons; [str_order|by apply Hin].
Qed.

Lemma fold_max_ge files hi f :
  let r := fold_left (fun hi f => str_max hi (fm_largest f)) files hi in
  str_le hi r /\ (f ∈ files -> str_le (fm_largest f) r).
Proof.
  revert hi. induction files as [|g files IH]; intros hi; cbn [fold_left].
  { split; [str_order|by intros ?%elem_of_nil]. }
  destruct (IH (str_max hi (fm_largest g))) as [Hle Hin].
  assert (str_le hi (str_max hi (fm_largest g)) /\ str_le (fm_largest g) (str_max hi (fm_largest g))) as [Ha Hb].
  { unfold str_max. case (str_ltb_spec _ _); intros; split; str_order. }
  split; [str_order|]. intros [->|Hf]%elem_of_cons; [str_order|by apply Hin].
Qed.

(** ** Levels with their records *)

(** A file with the records it serves. *)
Abbreviation cell := (FileMeta * list entry)%type.
Definition files_of (cs : list (list cell)) : Version := map (map fst) cs.
Definition records_of (cs : list (list cell)) : contents := map (map snd) cs.
Definition recs (l : list cell) : list entry := concat (map snd l).
Definition cell_ok (x : cell) : Prop := file_ok x.1 x.2.

Lemma recs_app l l' : recs (l ++ l') = recs l ++ recs l'.
Proof. unfold recs. by rewrite map_app, concat_app. Qed.

Lemma recs_elem l e : e ∈ recs l <-> exists x, x ∈ l /\ e ∈ x.2.
Proof.
  unfold recs. rewrite list_elem_of_In, in_concat. setoid_rewrite in_map_iff. split.
  - intros (es & (x & <- & Hx) & He). exists x. by split; apply list_elem_of_In.
  - intros (x & Hx & He). exists x.2. split; [exists x; split; [done|]|]; by apply list_elem_of_In.
Qed.

Lemma cells_Forall2 (l : list cell) : Forall2 file_ok (map fst l) (map snd l) <-> Forall cell_ok l.
Proof.
  induction l as [|x l IH]; cbn [map]; [by split; constructor|].
  rewrite Forall2_cons, Forall_cons, IH. done.
Qed.

Lemma version_ok_cells cs :
  version_ok (files_of cs) (records_of cs) <->
  Forall (Forall cell_ok) cs /\ Forall (fun l => sorted_keys (recs l)) (tail cs) /\ Forall (fun l => blen l <= 2 ^ 30) cs.
Proof.
  assert (Forall2 (Forall2 file_ok) (files_of cs) (records_of cs) <-> Forall (Forall cell_ok) cs) as H1.
  { unfold files_of, records_of. induction cs as [|l cs IH]; cbn [map]; [by split; constructor|].
    by rewrite Forall2_cons, Forall_cons, IH, cells_Forall2. }
  assert (tail (records_of cs) = map (map snd) (tail cs)) as H2 by (by destruct cs).
  assert (Forall (fun l => blen l <= 2 ^ 30) (files_of cs) <-> Forall (fun l => blen l <= 2 ^ 30) cs) as H3.
  { unfold files_of. rewrite Forall_map. apply Forall_iff. intros l. by rewrite blen_map. }
  split.
  - intros [Hf Hs Hc]. rewrite H2, Forall_map in Hs. split_and!; [by apply H1|done|by apply H3].
  - intros (Hf & Hs & Hc). split; [by apply H1|by rewrite H2, Forall_map|by apply H3].
Qed.

Lemma Forall2_cells files ess : Forall2 file_ok files ess -> exists l : list cell, files = map fst l /\ ess = map snd l.
Proof.
  induction 1 as [|f es files ess _ _ (l & -> & ->)]; [by exists []|]. by exists ((f, es) :: l).
Qed.

Lemma version_cells v ess : version_ok v ess -> exists cs, v = files_of cs /\ ess = records_of cs.
Proof.
  intros [Hf _ _]. induction Hf as [|files es v ess (l & -> & ->)%Forall2_cells _ (cs & -> & ->)]; [by exists []|].
  by exists (l :: cs).
Qed.

(** ** Plans *)

(** The parts of the levels that a compaction reads: from the source level the
    files [taken] (in priority order) and the rest [keep]; in the target level the
    overlapping files [mid] between [low] and [high]; the levels above and below. *)
Record Plan := mkPlan {
  p_pre : list (list cell); p_taken : list cell; p_keep : list cell;
  p_low : list cell; p_mid : list cell; p_high : list cell; p_more : list (list cell) }.

Definition plan_levels (p : Plan) : list (list cell) :=
  p_pre p ++ (rev (p_taken p) ++ p_keep p) :: (p_low p ++ p_mid p ++ p_high p) :: p_more p.

(** The levels after the inputs were replaced by [outs]. *)
Definition compacted_levels (p : Plan) (outs : list cell) : list (list cell) :=
  p_pre p ++ p_keep p :: (p_low p ++ outs ++ p_high p) :: p_more p.

(** The files of the plan that stay. *)
Definition p_others (p : Plan) : list cell :=
  concat (p_pre p) ++ p_keep p ++ p_low p ++ p_high p ++ concat (p_more p).

(** The compaction [c] carries out the plan [p]. *)
Record plan_ok (p : Plan) (c : Compaction) : Prop := {
  po_source : source_level c = length (p_pre p);
  po_target : target_level c = S (length (p_pre p));
  po_inputs : c_inputs c = map fst (p_taken p ++ p_mid p);
  po_some : p_taken p <> [];
  po_one : p_pre p = [] \/ exists x, p_taken p = [x];
  po_low : forall x y, x ∈ recs (p_low p) -> y ∈ recs (p_taken p) -> str_lt (e_key x) (e_key y);
  po_high : forall x y, x ∈ recs (p_taken p) -> y ∈ recs (p_high p) -> str_lt (e_key x) (e_key y);
  po_bottom : bottommost c = true -> Forall (eq []) (p_more p) }.

Lemma plan_perm p : concat (plan_levels p) ≡ₚ (p_taken p ++ p_mid p) ++ p_others p.
Proof.
  unfold plan_levels, p_others. rewrite concat_app. cbn [concat]. rewrite <- Permutation_rev. solve_Permutation.
Qed.

Lemma compacted_perm p outs : concat (compacted_levels p outs) ≡ₚ outs ++ p_others p.
Proof. unfold compacted_levels, p_others. rewrite concat_app. cbn [concat]. solve_Permutation. Qed.

(** ** Installation *)

Lemma concat_files cs : concat (files_of cs) = map fst (concat cs).
Proof. unfold files_of. symmetry. apply concat_map. Qed.

Lemma files_of_app cs cs' : files_of (cs ++ cs') = files_of cs ++ files_of cs'.
Proof. apply map_app. Qed.

Lemma strip_none c l : Forall (fun f => f ∈ c_inputs c) l -> strip c l = [].
Proof.
  induction 1 as [|f l Hf _ IH]; [done|]. cbn [strip List.filter]. unfold strip in IH.
  assert (removed c f = true) as ->; [|done]. apply existsb_exists. exists f. split; [by apply list_elem_of_In|lia].
Qed.

Lemma strip_all c l :
  Forall (fun f => fm_number f ∉ map fm_number (c_inputs c)) l -> strip c l = l.
Proof.
  induction 1 as [|f l Hf _ IH]; [done|]. cbn [strip List.filter]. unfold strip in IH.
  assert (removed c f = false) as ->; [|by rewrite IH].
  apply not_true_iff_false. unfold removed. rewrite existsb_exists. intros (g & Hg & E). apply Hf.
  apply list_elem_of_In, in_map_iff. exists g. split; [lia|done].
Qed.

Lemma strip_app c l l' : strip c (l ++ l') = strip c l ++ strip c l'.
Proof. apply List.filter_app. Qed.

Section Install.
Variables (p : Plan) (c : Compaction).
Hypothesis Hplan : plan_ok p c.
Hypothesis Hunique : NoDup (map fm_number (concat (files_of (plan_levels p)))).

(** The files that stay have other numbers than the inputs. *)
Lemma others_stay l : l ⊆ p_others p -> strip c (map fst l) = map fst l.
Proof.
  intros Hl. apply strip_all, Forall_map, Forall_forall. intros x Hx. cbn.
  rewrite concat_files, (plan_perm p), (po_inputs _ _ Hplan) in *. rewrite !map_app in Hunique.
  apply NoDup_app in Hunique as (_ & Hd & _). intros Hin. rewrite !map_app in Hin. apply (Hd _ Hin).
  apply list_elem_of_In, in_map_iff. exists x.1. split; [done|]. apply in_map, list_elem_of_In. by apply Hl.
Qed.

Lemma inputs_go l : l ⊆ p_taken p ++ p_mid p -> strip c (map fst l) = [].
Proof.
  intros Hl. apply strip_none, Forall_map, Forall_forall. intros x Hx. rewrite (po_inputs _ _ Hplan).
  apply list_elem_of_In, in_map, list_elem_of_In. by apply Hl.
Qed.

(** The new version: the inputs are gone and the outputs stand in their place,
    in key order. *)
Lemma install_levels (outs : list cell) :
  StronglySorted (fun f g => smaller f g = true) (map fst (p_low p ++ outs ++ p_high p)) ->
  InstallCompaction (files_of (plan_levels p)) c (map fst outs) = files_of (compacted_levels p outs).
Proof.
  intros Hs. unfold InstallCompaction. rewrite (po_source _ _ Hplan), (po_target _ _ Hplan).
  set (n := length (p_pre p)). unfold plan_levels, compacted_levels. rewrite !files_of_app. cbn [files_of map].
  assert (length (files_of (p_pre p)) = n) as Hn by apply length_map.
  replace (Nat.max n (S n) + 1 - _)%nat with O by (rewrite length_app, Hn; simpl; lia).
  cbn [replicate]. rewrite app_nil_r. replace (1 <=? S n)%nat with true by done.
  rewrite !alter_app_r_alt by (rewrite Hn; lia). rewrite Hn, Nat.sub_diag. replace (S n - n)%nat with 1%nat by lia.
  f_equal. cbn. f_equal; [|f_equal].
  - rewrite map_app, strip_app, (others_stay (p_keep p)) by (unfold p_others; set_solver).
    rewrite inputs_go; [done|]. intros x Hx. rewrite <- Permutation_rev in Hx. set_solver.
  - rewrite !map_app, !strip_app, (others_stay (p_low p)), (others_stay (p_high p)) by (unfold p_others; set_solver).
    rewrite inputs_go by set_solver. apply std_sort_unique; [apply smaller_asym| |by rewrite <- !map_app].
    cbn [app]. solve_Permutation.
Qed.

End Install.

(** ** What readers see *)

(** A lookup after a compaction answers as before, except that a key known to
    be deleted may have become unknown. *)
Definition forgets (before after : option entry) : Prop :=
  lookup_of after = lookup_of before \/
  (exists e, before = Some e /\ is_tombstone_type (e_type e) = true) /\ after = None.

Lemma forgets_refl o : forgets o o.
Proof. by left. Qed.

Lemma forgets_trans a b c : forgets a b -> forgets b c -> forgets a c.
Proof.
  intros [Hab|[Ha ->]] [Hbc|[(e & Hb & Ht) ->]].
  - left. congruence.
  - subst b. right. split; [|done]. revert Hab. cbn [lookup_of]. rewrite Ht. destruct a as [x|]; cbn [lookup_of]; [|done].
    destruct (is_tombstone_type (e_type x)) eqn:Ex; [|done]. by exists x.
  - right. split; [done|]. destruct c as [x|]; [|done]. revert Hbc. cbn [lookup_of]. by destruct (is_tombstone_type (e_type x)).
  - by right.
Qed.

Lemma forgets_app pre es es' k : forgets (assoc es k) (assoc es' k) -> forgets (assoc (pre ++ es) k) (assoc (pre ++ es') k).
Proof. rewrite !assoc_app. destruct (assoc pre k); [by left|done]. Qed.

(** The record kept for a key. *)
Definition kept_record (b : bool) (o : option entry) : option entry :=
  match o with Some e => head (emitted b e) | None => None end.

Lemma assoc_written b es k : sorted_keys es -> assoc (written b es) k = kept_record b (assoc es k).
Proof.
  induction es as [|e es IH]; [done|]. intros [Hlt Hs]. change (written b (e :: es)) with (emitted b e ++ written b es).
  rewrite assoc_app, assoc_cons, IH by done.
  unfold emitted at 1. destruct (str_eqb_spec (e_key e) k) as [Hk|Hk].
  - cbn [kept_record]. unfold emitted. destruct (b && _) eqn:Eb; cbn [head].
    + assert (assoc es k = None) as ->; [|done]. apply assoc_None. eapply Forall_impl; [exact Hlt|].
      simpl. intros x Hx E. rewrite E, <- Hk in Hx. str_order.
    + rewrite assoc_cons. cbn [e_key]. by rewrite <- Hk, str_eqb_refl.
  - destruct (b && _); [done|]. rewrite assoc_cons. cbn [e_key]. destruct (str_eqb_spec (e_key e) k); [done|].
    by rewrite assoc_nil.
Qed.

Lemma forgets_kept b o : forgets o (kept_record b o).
Proof.
  destruct o as [e|]; [|by left]. cbn [kept_record]. unfold emitted. destruct (is_tombstone_type (e_type e)) eqn:Et.
  - destruct b; cbn [andb head]; [right; by eauto|]. left. simpl. by rewrite Et.
  - rewrite andb_false_r. left. simpl. by rewrite Et.
Qed.

Lemma assoc_elem es k e : assoc es k = Some e -> e ∈ es /\ e_key e = k.
Proof. intros E. by apply assoc_Some in E. Qed.

(** Replacing the taken and overlapping records by their merge. *)
Lemma replace_view b runs (T B M A D : list entry) k :
  Forall sorted_keys runs -> concat runs = T ++ M -> sorted_keys (B ++ M ++ A) ->
  (forall x y, x ∈ B -> y ∈ T -> str_lt (e_key x) (e_key y)) ->
  (forall x y, x ∈ T -> y ∈ A -> str_lt (e_key x) (e_key y)) ->
  (b = true -> D = []) ->
  forgets (assoc (T ++ (B ++ M ++ A) ++ D) k) (assoc ((B ++ written b (Runs.merge runs) ++ A) ++ D) k).
Proof.
  intros Hr Hc Hs HB HA HD. destruct (merge_spec _ Hr) as (Hms & Hma & _).
  rewrite !assoc_app, assoc_written, Hma, Hc, assoc_app by done.
  apply sorted_keys_app in Hs as (_ & Hs & HBM). apply sorted_keys_app in Hs as (_ & _ & HMA).
  rewrite Forall_forall in HBM, HMA.
  destruct (assoc B k) as [x|] eqn:EB.
  - apply assoc_elem in EB as [Hx Hk]. destruct (assoc T k) as [y|] eqn:ET; [|by left].
    apply assoc_elem in ET as [Hy Hk']. specialize (HB x y Hx Hy). exfalso. rewrite Hk, Hk' in HB. str_order.
  - destruct (match assoc T k with Some e => Some e | None => assoc M k end) as [e|] eqn:E.
    2: { destruct (assoc T k); [done|]. rewrite E. by left. }
    assert (assoc A k = None) as HAk.
    { destruct (assoc A k) as [a|] eqn:EA; [|done]. apply assoc_elem in EA as [Ha Hk]. exfalso.
      destruct (assoc T k) as [y|] eqn:ET.
      - apply assoc_elem in ET as [Hy Hk']. specialize (HA y a Hy Ha). rewrite Hk, Hk' in HA. str_order.
      - apply assoc_elem in E as [He Hk']. specialize (HMA e He). rewrite Forall_forall in HMA.
        specialize (HMA a Ha). rewrite Hk, Hk' in HMA. str_order. }
    assert (match assoc T k with Some e => Some e | None => match match assoc M k with Some e => Some e | None => assoc A k end with
      Some e => Some e | None => assoc D k end end = Some e) as Eold.
    { destruct (assoc T k); [done|]. by rewrite E. }
    rewrite Eold, HAk. pose proof (forgets_kept b (Some e)) as Hf.
    destruct (kept_record b (Some e)) as [x|] eqn:Ek; [done|].
    assert (b = true) as Hb; [|by rewrite HD].
    revert Ek. cbn [kept_record]. unfold emitted. by destruct b.
Qed.

Section Installed.
Variables (p : Plan) (c : Compaction) (outs : list cell) (next : Z).
Abbreviation cs := (plan_levels p).
Abbreviation cs' := (compacted_levels p outs).

Hypothesis Hplan : plan_ok p c.
Hypothesis Hver : version_ok (files_of cs) (records_of cs).
Hypothesis Hnum : numbers_ok next (files_of cs).
Hypothesis Hlim : next <= 2 ^ 30.
Hypothesis Hcells : Forall cell_ok outs.
Hypothesis Hrecs : recs outs = written (bottommost c) (Runs.merge (map snd (p_taken p ++ p_mid p))).
Hypothesis Hfresh : NoDup (map fm_number (map fst outs)).
Hypothesis Hnew : Forall (fun x => 0 <= fm_number x.1 < next /\ fm_number x.1 ∉ map fm_number (concat (files_of cs))) outs.

Lemma plan_cells_ok x : x ∈ (p_taken p ++ p_mid p) ++ p_others p -> cell_ok x.
Proof.
  apply version_ok_cells in Hver as (Hok & _). intros Hx. rewrite <- plan_perm in Hx.
  apply list_elem_of_In, in_concat in Hx as (l & Hl%list_elem_of_In & Hx%list_elem_of_In).
  rewrite Forall_forall in Hok. specialize (Hok l Hl). rewrite Forall_forall in Hok. by apply Hok.
Qed.

Lemma target_sorted : sorted_keys (recs (p_low p) ++ recs (p_mid p) ++ recs (p_high p)).
Proof.
  apply version_ok_cells in Hver as (_ & Hs & _). unfold plan_levels in Hs.
  assert (Forall (fun l => sorted_keys (recs l)) ((p_low p ++ p_mid p ++ p_high p) :: p_more p)) as Hs'.
  { destruct (p_pre p) as [|l pre]; cbn [app tail] in Hs; [done|]. apply Forall_app in Hs as [_ Hs].
    by apply Forall_cons in Hs as [_ Hs]. }
  apply Forall_cons in Hs' as [Hs' _]. by rewrite !recs_app in Hs'.
Qed.

Lemma inputs_sorted : Forall sorted_keys (map snd (p_taken p ++ p_mid p)).
Proof.
  apply Forall_map, Forall_forall. intros x Hx. eapply serves_sorted, fo_serves, plan_cells_ok. set_solver.
Qed.

Lemma outs_from e : e ∈ recs outs -> exists e', e' ∈ recs (p_taken p) ++ recs (p_mid p) /\ e_key e = e_key e'.
Proof.
  rewrite Hrecs. intros (e' & He' & (Hk & _)%emitted_spec)%written_elem. exists e'. split; [|done].
  destruct (merge_spec _ inputs_sorted) as (_ & _ & Hin). rewrite <- recs_app. by apply Hin.
Qed.

Lemma new_target_sorted : sorted_keys (recs (p_low p ++ outs ++ p_high p)).
Proof.
  rewrite !recs_app. pose proof target_sorted as Hs. apply sorted_keys_app in Hs as (Hl & Hs & Hlm).
  apply sorted_keys_app in Hs as (_ & Hh & Hmh). rewrite Forall_forall in Hlm, Hmh.
  assert (forall x y, x ∈ recs (p_low p) -> y ∈ recs outs -> str_lt (e_key x) (e_key y)) as H1.
  { intros x y Hx (y' & Hy & ->)%outs_from. apply elem_of_app in Hy as [Hy|Hy]; [by apply Hplan|].
    specialize (Hlm x Hx). rewrite Forall_forall in Hlm. apply Hlm. set_solver. }
  assert (forall x y, x ∈ recs outs -> y ∈ recs (p_high p) -> str_lt (e_key x) (e_key y)) as H2.
  { intros x y (x' & Hx & ->)%outs_from Hy. apply elem_of_app in Hx as [Hx|Hx]; [by apply (po_high _ _ Hplan)|].
    specialize (Hmh x' Hx). rewrite Forall_forall in Hmh. by apply Hmh. }
  apply sorted_keys_app. split_and!; [done| |].
  - apply sorted_keys_app. split_and!; [rewrite Hrecs; apply written_sorted; by apply merge_spec, inputs_sorted|done|].
    apply Forall_forall. intros x Hx. apply Forall_forall. intros y Hy. by apply H2.
  - apply Forall_forall. intros x Hx. apply Forall_forall. intros y [Hy|Hy]%elem_of_app; [by apply H1|].
    specialize (Hlm x Hx). rewrite Forall_forall in Hlm. apply Hlm. set_solver.
Qed.

Lemma numbers_perm : map fm_number (concat (files_of cs')) ≡ₚ map fm_number (map fst outs) ++ map fm_number (map fst (p_others p)).
Proof. by rewrite concat_files, compacted_perm, !map_app. Qed.

Lemma numbers_after : numbers_ok next (files_of cs').
Proof.
  destruct Hnum as [Hu Ho Hl0]. rewrite concat_files, plan_perm, !map_app in Hu, Ho.
  split.
  - rewrite numbers_perm. apply NoDup_app. split_and!; [done| |].
    + intros n Hn Hin. apply list_elem_of_In, in_map_iff in Hn as (f & <- & Hf).
      apply in_map_iff in Hf as (x & <- & Hx%list_elem_of_In). rewrite Forall_forall in Hnew.
      destruct (Hnew x Hx) as [_ Hno]. apply Hno. rewrite concat_files, plan_perm, !map_app. apply elem_of_app. by right.
    + by apply NoDup_app in Hu as (_ & _ & ?).
  - rewrite concat_files, compacted_perm, map_app. apply Forall_app. split.
    + apply Forall_map. eapply Forall_impl; [exact Hnew|]. by intros x [? _].
    + by apply Forall_app in Ho as [_ ?].
  - unfold plan_levels, compacted_levels in *. destruct (p_pre p) as [|l pre]; cbn [app files_of map head default id] in *; [|done].
    rewrite !map_app in Hl0. by apply StronglySorted_app in Hl0 as (_ & _ & ?).
Qed.

Lemma version_after : version_ok (files_of cs') (records_of cs').
Proof.
  apply version_ok_cells. pose proof Hver as Hv. apply version_ok_cells in Hv as (Hok & Hs & _).
  split_and!.
  - unfold plan_levels, compacted_levels in *. apply Forall_app in Hok as [Hp Hok]. apply Forall_cons in Hok as [Hsrc Hok].
    apply Forall_cons in Hok as [Htgt Hmore]. apply Forall_app in Hsrc as [_ Hkeep].
    apply Forall_app in Htgt as [Hlow Htgt]. apply Forall_app in Htgt as [_ Hhigh].
    apply Forall_app; split; [done|]. repeat constructor; try done. by rewrite !Forall_app.
  - pose proof new_target_sorted as Ht. unfold plan_levels, compacted_levels in *.
    destruct (p_pre p) as [|l pre] eqn:Ep; cbn [app tail] in *.
    { apply Forall_cons in Hs as [_ Hs]. by constructor. }
    apply Forall_app in Hs as [Hp Hs]. apply Forall_cons in Hs as [Hsrc Hs]. apply Forall_cons in Hs as [_ Hs].
    apply Forall_app. split; [done|]. constructor; [|by constructor].
    rewrite recs_app in Hsrc. by apply sorted_keys_app in Hsrc as (_ & ? & _).
  - pose proof numbers_after as [Hu Ho _]. clear -Hu Ho Hlim. unfold files_of in *. revert Hu Ho. generalize cs' as ls.
    induction ls as [|l ls IH]; cbn [map concat]; intros Hu Ho; [constructor|]. rewrite map_app in Hu.
    apply NoDup_app in Hu as (Hu1 & _ & Hu2). apply Forall_app in Ho as [Ho1 Ho2]. constructor; [|by apply IH].
    rewrite <- (blen_map fst), <- (blen_map fm_number). etransitivity; [apply (NoDup_bounded _ next); [done|by apply Forall_map]|lia].
Qed.

(** Records of disjoint ranges commute. *)
Lemma assoc_swap a b rest k : sorted_keys (a ++ b) -> assoc (a ++ b ++ rest) k = assoc (b ++ a ++ rest) k.
Proof.
  intros (_ & _ & Hlt)%sorted_keys_app. rewrite !assoc_app. rewrite Forall_forall in Hlt.
  destruct (assoc a k) as [x|] eqn:Ea, (assoc b k) as [y|] eqn:Eb; try done.
  apply assoc_elem in Ea as [Hx Hkx], Eb as [Hy Hky]. specialize (Hlt x Hx). rewrite Forall_forall in Hlt.
  specialize (Hlt y Hy). rewrite Hkx, Hky in Hlt. exfalso. str_order.
Qed.

Lemma version_records_levels l0 deeper :
  version_records (records_of (l0 :: deeper)) = concat (rev (map snd l0)) ++ concat (map recs deeper).
Proof.
  unfold version_records. cbn [records_of map newest_first]. rewrite concat_app. f_equal.
  induction deeper as [|l deeper IH]; [done|]. cbn [map concat]. by rewrite concat_app, IH.
Qed.

Lemma view_after k : forgets (assoc (version_records (records_of cs)) k) (assoc (version_records (records_of cs')) k).
Proof.
  assert (forall pre, (forgets (assoc (pre ++ recs (p_taken p) ++ (recs (p_low p) ++ recs (p_mid p) ++ recs (p_high p)) ++ concat (map recs (p_more p))) k)
     (assoc (pre ++ (recs (p_low p) ++ recs outs ++ recs (p_high p)) ++ concat (map recs (p_more p))) k))) as Hrep.
  { intros pre. apply forgets_app. rewrite Hrecs. apply replace_view; try apply Hplan.
    - apply inputs_sorted.
    - by rewrite <- recs_app.
    - apply target_sorted.
    - intros Hb%(po_bottom _ _ Hplan). induction Hb as [|l more <- _ IH]; [done|]. exact IH. }
  destruct (po_one _ _ Hplan) as [Hp|[x Hx]].
  - unfold plan_levels, compacted_levels. rewrite Hp. cbn [app]. rewrite !version_records_levels. cbn [map concat].
    rewrite map_app, map_rev, rev_app_distr, rev_involutive, concat_app, <- app_assoc, !recs_app. apply Hrep.
  - unfold plan_levels, compacted_levels. destruct (p_pre p) as [|l pre] eqn:Ep.
    { cbn [app]. rewrite !version_records_levels. cbn [map concat].
      rewrite map_app, map_rev, rev_app_distr, rev_involutive, concat_app, <- app_assoc, !recs_app. apply Hrep. }
    assert (sorted_keys (recs (p_taken p) ++ recs (p_keep p))) as Hsrc.
    { pose proof Hver as Hv. apply version_ok_cells in Hv as (_ & Hs & _). unfold plan_levels in Hs. rewrite Ep in Hs.
      cbn [app tail] in Hs. apply Forall_app in Hs as [_ [Hs _]%Forall_cons]. rewrite Hx in *. by rewrite recs_app in Hs. }
    cbn [app]. rewrite !version_records_levels, !map_app, !concat_app. cbn [map concat]. rewrite !recs_app.
    replace (recs (rev (p_taken p))) with (recs (p_taken p)) by (by rewrite Hx).
    set (X := concat (rev (map snd l))). set (Y := concat (map recs pre)). set (D := concat (map recs (p_more p))) in *.
    specialize (Hrep (X ++ Y ++ recs (p_keep p))). rewrite <- !app_assoc in *.
    assert (forall Z, assoc (X ++ Y ++ recs (p_taken p) ++ recs (p_keep p) ++ Z) k = assoc (X ++ Y ++ recs (p_keep p) ++ recs (p_taken p) ++ Z) k) as ->; [|exact Hrep].
    intros Z. rewrite (assoc_app X), (assoc_app X), (assoc_app Y), (assoc_app Y), assoc_swap by done. done.
Qed.

Lemma smaller_sorted (l : list cell) :
  Forall cell_ok l -> sorted_keys (recs l) -> StronglySorted (fun f g => smaller f g = true) (map fst l).
Proof.
  intros Hl Hs. pose proof (level_sorted _ _ (proj2 (cells_Forall2 l) Hl) Hs) as Hp. clear Hs.
  assert (Forall (fun f => str_le (fm_smallest f) (fm_largest f)) (map fst l)) as Hr.
  { apply Forall_map. eapply Forall_impl; [exact Hl|]. intros x. apply file_range. }
  clear Hl. induction Hp as [|f files _ IH Hf]; constructor; apply Forall_cons in Hr as [Hrf Hr]; [by apply IH|].
  eapply Forall_impl; [exact Hf|]. unfold precedes, smaller. intros g Hg. case (str_ltb_spec _ _); [done|]. intros. str_order.
Qed.

(** The installation carries out the plan: the inputs are replaced by the
    outputs, the levels below 0 stay sorted runs, and readers see the same. *)
Lemma install_ok :
  InstallCompaction (files_of cs) c (map fst outs) = files_of cs' /\
  version_ok (files_of cs') (records_of cs') /\ numbers_ok next (files_of cs') /\
  forall k, forgets (assoc (version_records (records_of cs)) k) (assoc (version_records (records_of cs')) k).
Proof.
  split_and!; [|apply version_after|apply numbers_after|apply view_after].
  apply install_levels; [done|apply Hnum|]. apply smaller_sorted; [|apply new_target_sorted].
  rewrite !Forall_app. split_and!; [|done|]; apply Forall_forall; intros x Hx; apply plan_cells_ok; unfold p_others; set_solver.
Qed.

End Installed.

(** ** What is picked *)

(** The levels that a compaction needs, as [InstallCompaction] pads them. *)
Definition padded {A} (c : Compaction) (v : list (list A)) : list (list A) :=
  v ++ replicate (Nat.max (source_level c) (target_level c) + 1 - length v) [].

Lemma install_padded v c outputs : InstallCompaction (padded c v) c outputs = InstallCompaction v c outputs.
Proof.
  unfold InstallCompaction, padded. rewrite length_app, length_replicate.
  replace (_ - (length v + _))%nat with O by lia. cbn [replicate]. by rewrite app_nil_r.
Qed.

Lemma padded_files c cs : padded c (files_of cs) = files_of (padded c cs).
Proof.
  unfold padded. rewrite files_of_app. f_equal. unfold files_of. rewrite length_map.
  generalize (Nat.max (source_level c) (target_level c) + 1 - length cs)%nat as n. induction n; [done|]. simpl. by f_equal.
Qed.

Lemma map_split3 (l : list cell) a b c :
  map fst l = a ++ b ++ c -> exists la lb lc, l = la ++ lb ++ lc /\ map fst la = a /\ map fst lb = b /\ map fst lc = c.
Proof.
  intros (la & l' & -> & <- & E)%map_eq_app. apply map_eq_app in E as (lb & lc & -> & <- & <-). by exists la, lb, lc.
Qed.

(** The target part of a plan over the sorted level [l]. *)
Lemma target_split (l taken : list cell) lo hi :
  Forall cell_ok l -> sorted_keys (recs l) -> Forall cell_ok taken ->
  (forall x, x ∈ taken -> str_le lo (fm_smallest x.1) /\ str_le (fm_largest x.1) hi) ->
  exists low mid high, l = low ++ mid ++ high /\ map fst mid = overlapping lo hi (map fst l) /\
    (forall x y, x ∈ recs low -> y ∈ recs taken -> str_lt (e_key x) (e_key y)) /\
    (forall x y, x ∈ recs taken -> y ∈ recs high -> str_lt (e_key x) (e_key y)).
Proof.
  intros Hl Hs Ht Hr.
  assert (Forall (fun f => str_le (fm_smallest f) (fm_largest f)) (map fst l)) as Hrange.
  { apply Forall_map. eapply Forall_impl; [exact Hl|]. intros x. apply file_range. }
  destruct (overlapping_split lo hi (map fst l)) as (lowf & highf & E & Hlow & Hhigh); [|done|].
  { eapply level_sorted; [by apply cells_Forall2|done]. }
  destruct (map_split3 _ _ _ _ E) as (low & mid & high & -> & <- & Hmid & <-).
  rewrite !Forall_app in Hl. destruct Hl as (Hlc & _ & Hhc). rewrite Forall_map, Forall_forall in *.
  assert (forall e, e ∈ recs taken -> str_le lo (e_key e) /\ str_le (e_key e) hi) as Htk.
  { intros e (x & Hx & He)%recs_elem. destruct (Hr x Hx). destruct (file_keys x.1 x.2 e (Ht x Hx) He). split; str_order. }
  exists low, mid, high. split_and!; [done|done| |].
  - intros e e' (x & Hx & He)%recs_elem He'%Htk. specialize (Hlow x Hx). simpl in Hlow. destruct He'.
    destruct (file_keys x.1 x.2 e (Hlc x Hx) He). str_order.
  - intros e e' He%Htk (x & Hx & He')%recs_elem. specialize (Hhigh x Hx). simpl in Hhigh. destruct He.
    destruct (file_keys x.1 x.2 e' (Hhc x Hx) He'). str_order.
Qed.

Lemma no_data_spec cs pre l more target :
  cs = pre ++ l :: more -> target = length pre -> no_data_below (files_of cs) target = true -> Forall (eq []) more.
Proof.
  intros -> ->. unfold no_data_below. rewrite forallb_forall, files_of_app. cbn [files_of map].
  replace (length pre + 1)%nat with (length (files_of pre) + 1)%nat by (unfold files_of; by rewrite length_map).
  rewrite drop_app_add. cbn [drop]. intros Hall. apply Forall_forall. intros x Hx. symmetry. apply (map_eq_nil fst).
  specialize (Hall (map fst x)). apply (bool_decide_eq_true _), Hall, in_map, list_elem_of_In, Hx.
Qed.

Ltac plan_cbn :=
  cbn [source_level target_level bottommost c_inputs p_pre p_taken p_keep p_low p_mid p_high p_more length].

(** The compaction of level 0. *)
Lemma plan_l0 o cs c :
  version_ok (files_of cs) (records_of cs) -> StronglySorted Z.lt (map fm_number (default [] (head (files_of cs)))) ->
  l0_triggered o (default [] (head (files_of cs))) = true ->
  PickCompaction o (Some (files_of cs)) = Ok (Some c) ->
  exists p, plan_ok p c /\ plan_levels p = padded c cs.
Proof.
  intros Hv Hn Htr E. apply version_ok_cells in Hv as (Hok & Hs & _). destruct cs as [|l0 deeper]; [done|].
  cbn [files_of map head default id] in *. unfold PickCompaction in E. rewrite Htr, (sort_newer _ Hn), <- map_rev in E.
  destruct (map fst (rev l0)) as [|front tl] eqn:Ef; [done|].
  assert (rev l0 <> []) as Hsome by (by intros Er; rewrite Er in Ef). rewrite <- Ef in E. injection E as <-.
  set (lo := fold_left (fun lo f => str_min lo (fm_smallest f)) _ _).
  set (hi := fold_left (fun hi f => str_max hi (fm_largest f)) _ _).
  apply Forall_cons in Hok as [Hok0 Hok]. cbn [tail] in Hs.
  assert (forall x, x ∈ rev l0 -> str_le lo (fm_smallest x.1) /\ str_le (fm_largest x.1) hi) as Hr.
  { intros x Hx%(list_elem_of_fmap_2 fst). split; [by apply fold_min_le|by apply fold_max_ge]. }
  assert (Forall cell_ok (rev l0)) as Ht by (by apply Forall_rev).
  set (v := files_of (l0 :: deeper)).
  destruct deeper as [|l1 more].
  - exists (mkPlan [] (rev l0) [] [] [] [] []). split.
    + split; plan_cbn; try done; [by rewrite !app_nil_r|by left|by intros x y ?%elem_of_nil|by intros x y _ ?%elem_of_nil].
    + unfold plan_levels, padded. cbn. by rewrite rev_involutive, app_nil_r.
  - apply Forall_cons in Hok as [Hok1 _]. apply Forall_cons in Hs as [Hs1 _].
    destruct (target_split l1 (rev l0) lo hi Hok1 Hs1 Ht Hr) as (low & mid & high & -> & Hmid & Hlow & Hhigh).
    exists (mkPlan [] (rev l0) [] low mid high more). split.
    + split; plan_cbn; try done; [by rewrite (map_app fst (rev l0) mid), Hmid|by left|]. by apply (no_data_spec (l0 :: (low ++ mid ++ high) :: more) [l0] (low ++ mid ++ high) more).
    + unfold plan_levels, padded. cbn. by rewrite rev_involutive, !app_nil_r.
Qed.

(** The compaction of one file of a deeper level. *)
Lemma plan_level o cs pre levels c :
  version_ok (files_of cs) (records_of cs) -> cs = pre ++ levels -> pre <> [] ->
  pick_level o (files_of cs) (length pre) (files_of levels) = Some c ->
  exists p, plan_ok p c /\ plan_levels p = padded c cs.
Proof.
  intros Hv. revert pre c. induction levels as [|l levels IH]; intros pre c Hcs Hpre; [done|]. cbn [files_of map pick_level].
  assert (forall c, pick_level o (files_of cs) (S (length pre)) (files_of levels) = Some c ->
    exists p, plan_ok p c /\ plan_levels p = padded c cs) as Hnext.
  { clear c. intros c E. apply (IH (pre ++ [l])); [by rewrite <- app_assoc|by destruct pre|].
    rewrite length_app. cbn [length]. by rewrite Nat.add_1_r. }
  destruct (below_max o (length pre)); [|done]. destruct l as [|x rest]; [by apply Hnext|]. cbn [map].
  destruct (_ <=? _); [by apply Hnext|]. intros [= <-]. clear Hnext IH.
  apply version_ok_cells in Hv as (Hok & Hs & _).
  assert (Forall (Forall cell_ok) ((x :: rest) :: levels) /\ Forall (fun l => sorted_keys (recs l)) levels) as [Hok' Hs'].
  { rewrite Hcs in Hok, Hs. apply Forall_app in Hok as [_ Hok]. split; [done|]. destruct pre as [|p0 pre']; [done|].
    cbn [app tail] in Hs. by apply Forall_app in Hs as [_ [_ ?]%Forall_cons]. }
  apply Forall_cons in Hok' as [[Hx _]%Forall_cons Hok'].
  assert (Forall cell_ok [x]) as Ht by (constructor; [exact Hx|constructor]).
  destruct levels as [|l1 more].
  - exists (mkPlan pre [x] rest [] [] [] []). split.
    + split; plan_cbn; try done; [lia|right; by exists x|by intros y z ?%elem_of_nil|by intros y z _ ?%elem_of_nil].
    + unfold plan_levels, padded. cbn. rewrite Hcs, length_app. cbn [length].
      replace (_ - _)%nat with 1%nat by lia. cbn [replicate]. by rewrite <- app_assoc.
  - apply Forall_cons in Hok' as [Hok1 _]. apply Forall_cons in Hs' as [Hs1 _].
    destruct (target_split l1 [x] (fm_smallest x.1) (fm_largest x.1) Hok1 Hs1 Ht) as (low & mid & high & -> & Hmid & Hlow & Hhigh).
    { intros y ->%list_elem_of_singleton. split; str_order. }
    exists (mkPlan pre [x] rest low mid high more). split.
    + split; plan_cbn; try done; [lia|by cbn; rewrite Hmid|right; by exists x|].
      apply (no_data_spec _ (pre ++ [x :: rest]) (low ++ mid ++ high) more); [by rewrite Hcs, <- app_assoc|].
      by rewrite length_app.
    + unfold plan_levels, padded. cbn. rewrite Hcs, length_app. cbn [length].
      replace (_ - _)%nat with O by lia. cbn [replicate]. by rewrite app_nil_r.
Qed.

Lemma pick_plan o cs c next :
  version_ok (files_of cs) (records_of cs) -> numbers_ok next (files_of cs) ->
  PickCompaction o (Some (files_of cs)) = Ok (Some c) -> exists p, plan_ok p c /\ plan_levels p = padded c cs.
Proof.
  intros Hv [_ _ Hn] E. destruct (l0_triggered o (default [] (head (files_of cs)))) eqn:Et; [by eapply plan_l0|].
  destruct cs as [|l0 deeper]; [done|]. cbn [files_of map head default id] in *.
  unfold PickCompaction in E. rewrite Et in E. injection E as E.
  by apply (plan_level o (l0 :: deeper) [l0] deeper c).
Qed.

(** The levels that a compaction reaches are bounded by the option. *)
Lemma pick_target o v c :
  1 <= max_levels o < 2 ^ 31 -> PickCompaction o (Some v) = Ok (Some c) ->
  Z.of_nat (target_level c) <= Z.max 1 (max_levels o - 1).
Proof.
  intros Hm. destruct v as [|l0 deeper]; [done|]. unfold PickCompaction. destruct (l0_triggered o l0).
  { destruct (std_sort newer l0); [done|]. intros [= <-]. cbn. lia. }
  generalize (l0 :: deeper) as v. intros v [= E]. revert E. generalize 1%nat as i.
  induction deeper as [|l deeper IH]; intros i; cbn [pick_level]; [done|].
  destruct (below_max o i) eqn:Eb; [|done]. unfold below_max in Eb. rewrite (u64_small (max_levels o)) in Eb by lia.
  rewrite u64_small in Eb by lia. destruct l as [|f l]; [apply IH|]. destruct (_ <=? _); [apply IH|]. intros [= <-]. cbn [target_level]. lia.
Qed.
