(* ===== verification/Manifest.v ===== *)
(** The manifest (src/db.cpp): [DB::WriteManifest] under faulty system calls, and
    [DB::LoadManifest] as its inverse. *)
From S2P Require Import Prelude Types Coding Bloom SkipList Cache Posix Wal TableFormat.
From S2P Require Import TableWriter TableReader Iterator TableIter Merge Version Db DbInvariant Compaction.

(** ** The format *)

Definition file_bytes (f : FileMeta) : bytes :=
  fixed64 (fm_number f) ++ fixed64 (fm_file_size f) ++ fixed64 (fm_num_entries f)
  ++ prefixed (fm_smallest f) ++ prefixed (fm_largest f).

Definition files_bytes (files : list FileMeta) : bytes := concat (map file_bytes files).

Definition level_entry (files : list FileMeta) : bytes := fixed32 (u32 (blen files)) ++ files_bytes files.

Lemma put_files_spec files buf : fold_left put_file files buf = buf ++ files_bytes files.
Proof.
  revert buf. induction files as [|f files IH]; intros buf; cbn [fold_left]; [by rewrite app_nil_r|].
  rewrite IH. unfold put_file. rewrite !PutLengthPrefixed_spec, !PutFixed64_spec.
  unfold files_bytes. cbn [map concat]. unfold file_bytes. by rewrite <- !app_assoc.
Qed.

Lemma manifest_bytes_spec next v :
  manifest_bytes next v = fixed64 next ++ fixed32 (u32 (blen v)) ++ concat (map level_entry v).
Proof.
  unfold manifest_bytes. rewrite PutFixed64_spec, PutFixed32_spec. cbn [app].
  assert (forall v buf, fold_left put_level v buf = buf ++ concat (map level_entry v)) as ->; [|by rewrite <- app_assoc].
  clear. induction v as [|l v IH]; intros buf; cbn [fold_left map concat]; [by rewrite app_nil_r|].
  rewrite IH. unfold put_level. rewrite put_files_spec, PutFixed32_spec. unfold level_entry. by rewrite <- !app_assoc.
Qed.

(** The fields of a file fit their widths. *)
Record meta_fits (f : FileMeta) : Prop := {
  mf_number : is_u64 (fm_number f);
  mf_size : is_u64 (fm_file_size f);
  mf_entries : is_u64 (fm_num_entries f);
  mf_smallest : blen (fm_smallest f) < 2 ^ 32;
  mf_largest : blen (fm_largest f) < 2 ^ 32 }.

Lemma parse_file_spec f pre post :
  meta_fits f ->
  parse_file (pre ++ file_bytes f ++ post) (blen pre)
  = Ok (fm_number f, fm_file_size f, fm_num_entries f, fm_smallest f, fm_largest f, blen (pre ++ file_bytes f)).
Proof.
  intros [Hn Hs He Hsm Hla]. destruct f as [n sm la sz ne r]. cbn [fm_number fm_file_size fm_num_entries fm_smallest fm_largest] in *.
  pose proof (blen_nonneg sm). pose proof (blen_nonneg la). pose proof (blen_nonneg pre). pose proof (blen_nonneg post).
  unfold file_bytes, prefixed. cbn [fm_number fm_file_size fm_num_entries fm_smallest fm_largest].
  rewrite !u32_small by lia. rewrite <- !app_assoc. unfold parse_file.
  set (buf := pre ++ _). assert (blen buf = blen pre + 32 + blen sm + blen la + blen post) as Hlen
    by (unfold buf; autorewrite with lsmlen; lia).
  unfold need. rewrite Hlen. zbool.
  assert (forall x l a b, buf = a ++ fixed64 x ++ b -> is_u64 x -> l = blen a -> DecodeFixed64 buf l = Ok x) as H64
    by (intros x l a b -> ? ->; by apply DecodeFixed64_mid).
  assert (forall x l a b, buf = a ++ fixed32 x ++ b -> is_u32 x -> l = blen a -> DecodeFixed32 buf l = Ok x) as H32
    by (intros x l a b -> ? ->; by apply DecodeFixed32_mid).
  rewrite (H64 n _ pre (fixed64 sz ++ fixed64 ne ++ fixed32 (blen sm) ++ sm ++ fixed32 (blen la) ++ la ++ post)) by done.
  cbn [rbind].
  rewrite (H64 sz _ (pre ++ fixed64 n) (fixed64 ne ++ fixed32 (blen sm) ++ sm ++ fixed32 (blen la) ++ la ++ post))
    by (done || (unfold buf; rewrite <- ?app_assoc; (done || len))). cbn [rbind].
  rewrite (H64 ne _ (pre ++ fixed64 n ++ fixed64 sz) (fixed32 (blen sm) ++ sm ++ fixed32 (blen la) ++ la ++ post))
    by (done || (unfold buf; rewrite <- ?app_assoc; (done || len))). cbn [rbind]. zbool.
  rewrite (H32 (blen sm) _ (pre ++ fixed64 n ++ fixed64 sz ++ fixed64 ne) (sm ++ fixed32 (blen la) ++ la ++ post))
    by (unfold is_u32, buf; rewrite <- ?app_assoc; (done || len || lia)). cbn [rbind]. zbool.
  rewrite (slice_eq buf (pre ++ fixed64 n ++ fixed64 sz ++ fixed64 ne ++ fixed32 (blen sm)) sm (fixed32 (blen la) ++ la ++ post))
    by (unfold buf; rewrite <- ?app_assoc; (done || len)). cbn [of_option rbind]. zbool.
  rewrite (H32 (blen la) _ (pre ++ fixed64 n ++ fixed64 sz ++ fixed64 ne ++ fixed32 (blen sm) ++ sm) (la ++ post))
    by (unfold is_u32, buf; rewrite <- ?app_assoc; (done || len || lia)). cbn [rbind]. zbool.
  rewrite (slice_eq buf (pre ++ fixed64 n ++ fixed64 sz ++ fixed64 ne ++ fixed32 (blen sm) ++ sm ++ fixed32 (blen la)) la post)
    by (unfold buf; rewrite <- ?app_assoc; (done || len)). cbn [of_option rbind].
  do 2 f_equal. len.
Qed.

(** ** Loading *)

Section Load.
Context `{Os}.

(** The table of a file opens again as the reader that the metadata holds. *)
Definition reopens (d : DB) (σ : World) (f : FileMeta) : Prop :=
  SSTableReader_Open (FilePath d (fm_number f)) (fm_number f) σ = (Ok (fm_reader f), σ).

Definition max_number (mx : Z) (files : list FileMeta) : Z := fold_left (fun m f => Z.max m (fm_number f)) files mx.

Lemma load_files_spec d σ files pre post mx :
  Forall meta_fits files -> Forall (reopens d σ) files ->
  load_files (length files) d (pre ++ files_bytes files ++ post) (blen pre) mx σ
  = (Ok (files, blen (pre ++ files_bytes files), max_number mx files), σ).
Proof.
  intros Hf. revert pre mx. induction Hf as [|f files Hm Hf IH]; intros pre mx Hr; cbn [length load_files].
  { change (files_bytes []) with (@nil byte). by rewrite app_nil_r. }
  apply Forall_cons in Hr as [Hrf Hr]. unfold files_bytes. cbn [map concat]. fold (files_bytes files). rewrite <- app_assoc.
  rewrite (parse_file_spec f pre _ Hm). cbn [io_bind]. rewrite Hrf. cbn [io_bind].
  rewrite (app_assoc pre (file_bytes f)). rewrite IH by done. cbn [io_bind].
  rewrite <- (app_assoc pre). by destruct f.
Qed.

Lemma load_levels_spec d σ v pre post mx :
  Forall (Forall meta_fits) v -> Forall (Forall (reopens d σ)) v -> Forall (fun l => blen l < 2 ^ 32) v ->
  load_levels (length v) d (pre ++ concat (map level_entry v) ++ post) (blen pre) mx σ
  = (Ok (v, max_number mx (concat v)), σ).
Proof.
  intros Hf. revert pre mx. induction Hf as [|l v Hm Hf IH]; intros pre mx Hr Hc; cbn [length load_levels]; [done|].
  apply Forall_cons in Hr as [Hrl Hr]. apply Forall_cons in Hc as [Hcl Hc]. cbn [map concat].
  change (level_entry l) with (fixed32 (u32 (blen l)) ++ files_bytes l). pose proof (blen_nonneg l). rewrite (u32_small (blen l)) by lia. rewrite <- !app_assoc.
  set (rest := concat (map level_entry v) ++ post).
  unfold need. pose proof (blen_nonneg pre). pose proof (blen_nonneg (files_bytes l ++ rest)).
  assert (blen pre + 4 <= blen (pre ++ fixed32 (blen l) ++ files_bytes l ++ rest)) as Hfit by (autorewrite with lsmlen in *; lia).
  rewrite (proj2 (Z.leb_le _ _) Hfit). cbn [negb].
  rewrite DecodeFixed32_mid by (done || unfold is_u32; lia). cbn [io_bind].
  rewrite (app_assoc pre (fixed32 (blen l))). replace (blen pre + 4) with (blen (pre ++ fixed32 (blen l))) by len.
  replace (Z.to_nat (blen l)) with (length l) by (unfold blen; lia).
  rewrite load_files_spec by done. cbn [io_bind]. rewrite (app_assoc (pre ++ _) (files_bytes l)). unfold rest.
  rewrite IH by done. cbn [io_bind]. unfold max_number. by rewrite fold_left_app.
Qed.

Lemma max_number_lt files mx n : mx < n -> Forall (fun f => fm_number f < n) files -> max_number mx files < n.
Proof.
  intros Hmx Hf. revert mx Hmx. induction Hf as [|f files Hlt _ IH]; intros mx Hmx; [done|]. apply IH. lia.
Qed.

Lemma max_number_ge files mx : mx <= max_number mx files.
Proof.
  revert mx. induction files as [|f files IH]; intros mx; cbn; [lia|]. specialize (IH (Z.max mx (fm_number f))).
  unfold max_number in IH. lia.
Qed.

(** Parsing a manifest gives back what was written. *)
Lemma parse_manifest_spec d σ next v :
  v <> [] -> is_u64 next -> 1 <= next -> blen v < 2 ^ 32 ->
  Forall (Forall meta_fits) v -> Forall (Forall (reopens d σ)) v -> Forall (fun l => blen l < 2 ^ 32) v ->
  Forall (fun f => fm_number f < next) (concat v) ->
  parse_manifest d (manifest_bytes next v) σ = (Ok (v, next), σ).
Proof.
  intros Hne Hnx H1 Hv Hm Hr Hc Hlt. rewrite manifest_bytes_spec. pose proof (blen_nonneg v). rewrite u32_small by lia.
  unfold parse_manifest, need. set (rest := concat (map level_entry v)). pose proof (blen_nonneg rest).
  assert (0 + 12 <= blen (fixed64 next ++ fixed32 (blen v) ++ rest)) as Hfit by (autorewrite with lsmlen in *; lia).
  rewrite (proj2 (Z.leb_le _ _) Hfit). cbn [negb].
  rewrite DecodeFixed64_head by done. cbn [io_bind].
  rewrite (DecodeFixed32_mid (fixed64 next)) by (unfold is_u32; (done || len || lia)). cbn [io_bind].
  replace (Z.to_nat (blen v)) with (length v) by (unfold blen; lia).
  rewrite app_assoc. replace 12 with (blen (fixed64 next ++ fixed32 (blen v))) by len.
  unfold rest. rewrite <- (app_nil_r (concat _)). rewrite load_levels_spec by done. cbn [io_bind].
  pose proof (max_number_lt (concat v) 0 next ltac:(lia) Hlt). pose proof (max_number_ge (concat v) 0).
  assert (1 <= blen v) by (destruct v; [done|]; rewrite blen_cons; pose proof (blen_nonneg v); lia).
  unfold is_u64 in Hnx. rewrite u64_small by lia. rewrite !Z.max_l by lia.
  replace (Z.to_nat (blen v) - length v)%nat with O by (unfold blen; lia). cbn [replicate]. by rewrite app_nil_r.
Qed.

End Load.

(** ** Writing *)

Definition ManifestTmp (d : DB) : bytes := ManifestPath d ++ lit ".tmp".

Lemma manifest_tmp_ne d : ManifestPath d <> ManifestTmp d.
Proof. intros E. apply (f_equal (@length _)) in E. unfold ManifestTmp in E. rewrite length_app in E. simpl in E. lia. Qed.

(** ** Paths *)

Definition wal_of (d : DB) : bytes := wal_path_of (dir_ d).

Lemma path_ne d n name :
  is_u64 n -> ParseFileNumber name = None -> FilePath d n <> dir_ d ++ lit "/" ++ name.
Proof.
  intros Hn Hp E. unfold FilePath in E. apply app_inv_head, app_inv_head in E. rewrite <- E, name_parses in Hp by done. done.
Qed.

Lemma file_ne_wal d n : is_u64 n -> FilePath d n <> wal_of d.
Proof. intros. by apply (path_ne d n (lit "wal.log")). Qed.
Lemma file_ne_manifest d n : is_u64 n -> FilePath d n <> ManifestPath d.
Proof. intros. by apply (path_ne d n (lit "MANIFEST")). Qed.
Lemma file_ne_tmp d n : is_u64 n -> FilePath d n <> ManifestTmp d.
Proof.
  intros. unfold ManifestTmp, ManifestPath. rewrite <- app_assoc. by apply (path_ne d n (lit "MANIFEST.tmp")).
Qed.
Lemma wal_ne_manifest d : wal_of d <> ManifestPath d.
Proof. unfold wal_of, wal_path_of, ManifestPath. by intros E%app_inv_head. Qed.
Lemma wal_ne_tmp d : wal_of d <> ManifestTmp d.
Proof. unfold wal_of, wal_path_of, ManifestTmp, ManifestPath. rewrite <- app_assoc. by intros E%app_inv_head. Qed.

(** Whatever the system calls do, the manifest is the old one or, exactly when
    the call reports success, the new one, durable. *)
Lemma WriteManifest_spec d v σ s σ' :
  WriteManifest d v σ = (s, σ') ->
  let buf := manifest_bytes (next_file_number_ d) v in
  (forall p, p <> ManifestPath d -> p <> ManifestTmp d -> fs σ' !! p = fs σ !! p) /\
  fs σ' !! ManifestPath d = if ok s then Some (mkFile buf (blen buf)) else fs σ !! ManifestPath d.
Proof.
  unfold WriteManifest. fold (ManifestTmp d). set (buf := manifest_bytes (next_file_number_ d) v). pose proof (manifest_tmp_ne d) as Hne.
  destruct (open_trunc (ManifestTmp d) σ) as [[e|] σ1] eqn:E1; apply sys_spec in E1.
  { intros [= <- <-]. rewrite E1. done. }
  assert (fs σ1 !! ManifestTmp d = Some (truncated (fs σ !! ManifestTmp d))) as Hf1 by (by rewrite E1, lookup_insert_eq).
  assert (forall p, p <> ManifestTmp d -> fs σ1 !! p = fs σ !! p) as Ho1 by (intros; by rewrite E1, lookup_insert_ne).
  destruct (write_fully (ManifestTmp d) buf σ1) as [r2 σ2] eqn:E2.
  destruct (write_fully_spec _ _ _ _ _ _ Hf1 E2) as (t & u & Ebuf & Hf2 & Hu & Ho2).
  destruct r2 as [e|]; [intros [= <- <-]; rewrite close_fs; split; intros; rewrite Ho2, Ho1; done|].
  rewrite (Hu eq_refl), app_nil_r in Ebuf. subst t. rewrite truncated_data in Hf2. cbn [app] in Hf2.
  destruct (fsync (ManifestTmp d) σ2) as [r3 σ3] eqn:E3.
  destruct (fsync_spec _ _ _ _ _ Hf2 E3) as [(f3 & Hf3 & Hd3 & Hs3) Ho3].
  destruct r3 as [e|]; [intros [= <- <-]; rewrite close_fs; split; intros; rewrite Ho3, Ho2, Ho1; done|].
  destruct (rename (ManifestTmp d) (ManifestPath d) (close σ3).2) as [r4 σ4] eqn:E4. apply sys_spec in E4.
  rewrite close_fs in E4. destruct r4 as [e|]; intros [= <- <-]; rewrite E4.
  { split; intros; rewrite Ho3, Ho2, Ho1; done. }
  rewrite Hf3. cbn [ok Status_OK code_]. split.
  - intros p Hp1 Hp2. rewrite lookup_insert_ne, lookup_delete_ne, Ho3, Ho2, Ho1 by done. done.
  - rewrite lookup_insert_eq. f_equal. destruct f3 as [dat syn bef], Hs3. cbn in *. by subst.
Qed.

(** Loading a manifest without faults. *)
Lemma LoadManifest_spec `{Os} d σ next v :
  io σ = [] -> fs σ !! ManifestPath d = Some (mkFile (manifest_bytes next v) (blen (manifest_bytes next v))) ->
  v <> [] -> is_u64 next -> 1 <= next -> blen v < 2 ^ 32 ->
  Forall (Forall meta_fits) v -> Forall (Forall (reopens d σ)) v -> Forall (fun l => blen l < 2 ^ 32) v ->
  Forall (fun f => fm_number f < next) (concat v) ->
  LoadManifest d σ = (Ok (set_next (set_current d (Some v)) next), σ).
Proof.
  intros Hio Hf. intros. destruct σ as [m os]. cbn [io fs] in *. subst os.
  unfold LoadManifest, open_rdonly, next_io. cbn [io fs]. rewrite Hf. cbn [f_data io fs].
  assert (read_some [] (manifest_bytes next v) [] = (manifest_bytes next v, [])) as ->.
  { by destruct (manifest_bytes next v). }
  unfold close. rewrite sys_ok. cbn [snd]. by rewrite parse_manifest_spec.
Qed.

(** ** What the client's writes leave alone *)

(** Every file but those at [ps] is as it was. *)
Definition kept_but (ps : list bytes) (σ σ' : World) : Prop := forall p, p ∉ ps -> fs σ' !! p = fs σ !! p.

Lemma kept_but_one p σ σ' : others_kept p σ σ' -> kept_but [p] σ σ'.
Proof. intros Ho p' Hp. apply Ho. set_solver. Qed.

Lemma kept_but_trans ps ps' qs σ σ' σ'' :
  kept_but ps σ σ' -> kept_but ps' σ' σ'' -> ps ⊆ qs -> ps' ⊆ qs -> kept_but qs σ σ''.
Proof. intros H1 H2 Hs1 Hs2 p Hp. rewrite H2, H1; [done|set_solver..]. Qed.

(** The log is written at its own path. *)
Definition wal_home (d : DB) : Prop := forall p, wal_fd_ (wal_ d) = Some p -> p = wal_of d.

Lemma close_wal_fs `{Os} w σ : fs (WalWriter_Close w σ).2 = fs σ.
Proof.
  unfold WalWriter_Close. pose proof (close_fs σ) as Fc. destruct (close σ) as [[e|] σx]; cbn [snd] in Fc; by destruct (wal_fd_ w).
Qed.

(** Truncating the log, as the flush does between closing and reopening it. *)
Definition reset_log (path : bytes) (σ : World) : World :=
  match open_trunc path σ with (None, σ) => (close σ).2 | (Some _, σ) => σ end.

Lemma reset_log_fs path σ : fs (reset_log path σ) = fs σ \/ fs (reset_log path σ) = <[path := truncated (fs σ !! path)]> (fs σ).
Proof.
  unfold reset_log. destruct (open_trunc path σ) as [[e|] σx] eqn:E3; apply sys_spec in E3; rewrite ?close_fs; auto.
Qed.

Lemma open_wal_spec `{Os} path σ s w σ' :
  WalWriter_Open path σ = (s, w, σ') ->
  others_kept path σ σ' /\ (forall f, fs σ !! path = Some f -> fs σ' !! path = Some f) /\
  (forall p, wal_fd_ w = Some p -> p = path) /\ (ok s = true -> w = mkWalWriter (Some path) path) /\
  (ok s = false -> wal_fd_ w = None).
Proof.
  unfold WalWriter_Open. destruct (open_append path σ) as [[e|] σ1] eqn:E; apply sys_spec in E; intros [= <- <- <-].
  - split; [intros p _; by rewrite E|]. split; [by rewrite E|]. by split_and!.
  - split; [intros p Hp; rewrite E; destruct (fs σ !! path); [done|by rewrite lookup_insert_ne]|].
    split; [intros f Hf; by rewrite E, Hf|]. split_and!; try done. by intros p [= ->].
Qed.

(** The publication touches the manifest and the log. *)
Lemma publish_frame `{Os} `{MemEnv} d fm w σ s d' σ' :
  publish_table d fm w σ = Ok (s, d', σ') -> wal_home d ->
  kept_but [ManifestTmp d; ManifestPath d; wal_of d] σ σ' /\ wal_home d'.
Proof.
  unfold publish_table, install_flush. destruct (current_ d) as [v|]; [|done]. cbn [of_option rbind].
  set (nv := alter _ _ _). destruct (WriteManifest (set_current d (Some nv)) nv σ) as [ms σ1] eqn:E1.
  apply WriteManifest_spec in E1 as [Ho1 _]. change (ManifestPath (set_current d (Some nv))) with (ManifestPath d) in Ho1.
  change (ManifestTmp (set_current d (Some nv))) with (ManifestTmp d) in Ho1.
  assert (forall p, p ∉ [ManifestTmp d; ManifestPath d; wal_of d] -> fs σ1 !! p = fs σ !! p) as Hk1.
  { intros p Hp. apply Ho1; intros ->; apply Hp; set_solver. }
  destruct (ok ms); cbn [negb rbind].
  2: { intros [= <- <- <-] Hh. split; [|exact Hh]. intros p Hp. rewrite destroy_fs. by apply Hk1. }
  pose proof (close_wal_fs (wal_ (set_mem (set_current d (Some nv)) SkipList_new)) σ1) as F2.
  destruct (WalWriter_Close _ σ1) as [[cs cw] σ2]. cbn [snd] in F2.
  change (wal_path_of _) with (wal_of d). fold (reset_log (wal_of d) σ2). pose proof (reset_log_fs (wal_of d) σ2) as F3.
  destruct (WalWriter_Open (wal_of d) (reset_log (wal_of d) σ2)) as [[ws wl] σ4] eqn:E4.
  apply open_wal_spec in E4 as (Ho4 & _ & Hp4 & _ & _). intros E Hh.
  assert (kept_but [ManifestTmp d; ManifestPath d; wal_of d] σ σ4) as Hk.
  { intros p Hp. assert (p <> wal_of d) as Hne by set_solver. rewrite Ho4 by done.
    destruct F3 as [-> | ->]; rewrite ?lookup_insert_ne by done; rewrite F2; by apply Hk1. }
  destruct (negb (ok ws)); injection E as <- <- <-; (split; [|exact Hp4]); intros p Hp; rewrite destroy_fs; by apply Hk.
Qed.

(** The log as a working database keeps it, and as it is left when it could not be
    opened again after a flush. *)
Definition log_open (d : DB) : Prop := wal_ d = mkWalWriter (Some (wal_of d)) (wal_of d).
Definition log_usable (d : DB) : Prop := log_open d \/ wal_fd_ (wal_ d) = None.

(** What a publication does to the disk under any faults: nothing that recovery
    reads, or a manifest that lists the new table, with the log as it was or
    empty. *)
Lemma publish_disk `{Os} `{MemEnv} d fm w σ s d' σ' v wf :
  publish_table d fm w σ = Ok (s, d', σ') -> current_ d = Some v -> v <> [] -> fs σ !! wal_of d = Some wf ->
  (ok s = false /\ kept_but [ManifestTmp d] σ σ' /\ wal_ d' = wal_ d) \/
  (kept_but [ManifestTmp d; ManifestPath d; wal_of d] σ σ' /\
   (let buf := manifest_bytes (next_file_number_ d) (push_file v fm) in fs σ' !! ManifestPath d = Some (mkFile buf (blen buf))) /\
   (fs σ' !! wal_of d = Some wf \/ fs σ' !! wal_of d = Some (truncated (Some wf))) /\
   mem_ d' = SkipList_new /\ log_usable d').
Proof.
  intros E Hcur Hne Hwf. unfold publish_table, install_flush in E. rewrite Hcur in E. cbn [of_option rbind] in E.
  replace (match v with [] => [[]] | _ :: _ => v end) with v in E by (by destruct v). fold (push_file v fm) in E.
  set (d1 := set_current d (Some (push_file v fm))) in E.
  destruct (WriteManifest d1 (push_file v fm) σ) as [ms σ1] eqn:E1. apply WriteManifest_spec in E1 as [Ho1 Hm1].
  change (ManifestPath d1) with (ManifestPath d) in *. change (ManifestTmp d1) with (ManifestTmp d) in *.
  change (next_file_number_ d1) with (next_file_number_ d) in *.
  destruct (ok ms) eqn:Ems; cbn [negb rbind] in E.
  2: { injection E as <- <- <-. left. split; [done|]. split; [|done]. intros p Hp. rewrite destroy_fs.
       destruct (decide (p = ManifestPath d)) as [->|Hnp]; [done|]. apply Ho1; [done|set_solver]. }
  right. pose proof (close_wal_fs (wal_ (set_mem d1 SkipList_new)) σ1) as F2.
  destruct (WalWriter_Close _ σ1) as [[cs cw] σ2]. cbn [snd] in F2.
  change (wal_path_of (dir_ (set_mem d1 SkipList_new))) with (wal_of d) in E. fold (reset_log (wal_of d) σ2) in E.
  pose proof (reset_log_fs (wal_of d) σ2) as F3.
  assert (exists wf', fs (reset_log (wal_of d) σ2) !! wal_of d = Some wf' /\ (wf' = wf \/ wf' = truncated (Some wf))) as (wf' & Hwf' & Hor).
  { assert (fs σ2 !! wal_of d = Some wf) as Hw2 by (rewrite F2, Ho1; [done|apply wal_ne_manifest|apply wal_ne_tmp]).
    destruct F3 as [-> | ->]; [eauto|]. rewrite lookup_insert_eq, Hw2. eauto. }
  destruct (WalWriter_Open (wal_of d) (reset_log (wal_of d) σ2)) as [[ws wl] σ4] eqn:E4.
  apply open_wal_spec in E4 as (Ho4 & Hkeep & _ & Hopen & Hshut).
  assert (forall p, p <> wal_of d -> fs σ4 !! p = fs σ1 !! p) as Hk.
  { intros p Hp. rewrite Ho4 by done. destruct F3 as [-> | ->]; rewrite ?lookup_insert_ne, F2 by done; done. }
  assert (fs σ' = fs σ4 /\ mem_ d' = SkipList_new /\ log_usable d') as (Fσ & Hmem & Hlog).
  { destruct (ok ws) eqn:Ews; cbn [negb rbind] in E; injection E as <- <- <-; rewrite destroy_fs; split_and!; try done.
    - left. unfold log_open. by rewrite (Hopen eq_refl).
    - right. by apply Hshut. }
  split_and!; try done.
  - intros p Hp. rewrite Fσ, Hk by set_solver. apply Ho1; set_solver.
  - cbn zeta. rewrite Fσ, Hk by (by apply not_eq_sym, wal_ne_manifest). done.
  - rewrite Fσ, (Hkeep _ Hwf'). destruct Hor as [-> | ->]; [by left|by right].
Qed.
