(* ===== verification/Merging.v ===== *)
(** A compaction in flight (src/db.cpp): what holds between the turns of the loop
    of [DB::DoCompaction], and between its last turn and the installation, while
    the client's thread goes on writing: the version still has the parts that the
    compaction was planned for, and the outputs are written under numbers that
    nobody else has. *)
From S2P Require Import Prelude Types Bloom SkipList Cache Posix Wal TableFormat TableWriter.
From S2P Require Import TableReader Iterator TableIter Merge Version Db DbInvariant Compaction Leveling Manifest.

(** The local variables of [DoCompaction] between two turns of its loop. *)
Record MergeVars := mkMergeVars {
  mv_iter : MergingIterator SSTIter; mv_w : option SSTableWriter; mv_number : Z; mv_path : bytes;
  mv_outputs : list FileMeta }.

(** The run continues from the database and the world as they are now. *)
Definition resume (d : DB) (mv : MergeVars) (σ : World) : CompactState :=
  mkCompactState d (mv_w mv) (mv_number mv) (mv_path mv) (mv_outputs mv) σ.

Definition suspend (m : MergingIterator SSTIter) (st : CompactState) : MergeVars :=
  mkMergeVars m (cs_w st) (cs_number st) (cs_path st) (cs_outputs st).

(** The file numbers of a merge in flight. *)
Definition mv_taken (mv : MergeVars) : list Z :=
  map fm_number (mv_outputs mv) ++ match mv_w mv with Some _ => [mv_number mv] | None => [] end.

Lemma resume_suspend m st : resume (cs_db st) (suspend m st) (cs_world st) = st.
Proof. by destruct st. Qed.

(** ** Plans *)

(** The records that the files of a version count. *)
Definition entries (v : Version) : Z := foldr (fun f n => fm_num_entries f + n) 0 (concat v).

(** The version [v], with contents [ess], has the parts of the plan [p] for [c]. *)
Definition planned (v : Version) (ess : contents) (c : Compaction) (p : Plan) : Prop :=
  exists cs, v = files_of cs /\ ess = records_of cs /\ cs <> [] /\ plan_ok p c /\ plan_levels p = padded c cs.

Definition input_runs (p : Plan) : list (list entry) := map snd (p_taken p ++ p_mid p).

Lemma padded_concat {A} c (cs : list (list A)) : concat (padded c cs) = concat cs.
Proof.
  unfold padded. rewrite concat_app.
  generalize (Nat.max (source_level c) (target_level c) + 1 - length cs)%nat as n. intros n.
  induction n as [|n IH]; cbn [replicate concat]; [apply app_nil_r|exact IH].
Qed.

(** Empty levels at the end change nothing. *)
Lemma padded_ok c cs next :
  cs <> [] -> version_ok (files_of cs) (records_of cs) -> numbers_ok next (files_of cs) ->
  version_ok (files_of (padded c cs)) (records_of (padded c cs)) /\ numbers_ok next (files_of (padded c cs)) /\
  version_records (records_of (padded c cs)) = version_records (records_of cs).
Proof.
  intros Hne Hv Hn. split_and!.
  - apply version_ok_cells in Hv as (Hf & Hs & Hc). apply version_ok_cells. unfold padded.
    destruct cs as [|l0 deeper]; [done|]. cbn [app tail] in *. rewrite !app_comm_cons.
    split_and!; apply Forall_app; (split; [done|]); apply Forall_replicate; [constructor|constructor|vm_compute; discriminate].
  - destruct Hn as [Hu Ho Hl]. rewrite !concat_files in *. split; rewrite ?concat_files, ?padded_concat; try done.
    destruct cs; [done|exact Hl].
  - destruct cs as [|l0 deeper]; [done|]. unfold padded. cbn [app]. rewrite !version_records_levels. f_equal.
    rewrite map_app, concat_app.
    generalize (Nat.max (source_level c) (target_level c) + 1 - length (l0 :: deeper))%nat as n. intros n.
    induction n as [|n IH]; cbn [replicate map concat]; [apply app_nil_r|exact IH].
Qed.

(** A file pushed to level 0 joins the part of the plan that stays. *)
Definition push_plan (p : Plan) (x : cell) : Plan :=
  match p_pre p with
  | [] => mkPlan [] (p_taken p) (p_keep p ++ [x]) (p_low p) (p_mid p) (p_high p) (p_more p)
  | l0 :: pre => mkPlan ((l0 ++ [x]) :: pre) (p_taken p) (p_keep p) (p_low p) (p_mid p) (p_high p) (p_more p)
  end.

Lemma push_plan_ok p c x : plan_ok p c -> plan_ok (push_plan p x) c.
Proof.
  intros [Hs Ht Hi Hsm Ho Hl Hh Hb]. unfold push_plan. destruct (p_pre p) as [|l0 pre] eqn:E.
  - split; plan_cbn; try done.
  - split; plan_cbn; try done. destruct Ho as [?|?]; [done|by right].
Qed.

Lemma push_plan_levels p x : plan_levels (push_plan p x) = alter (fun l0 => l0 ++ [x]) 0%nat (plan_levels p).
Proof.
  unfold push_plan, plan_levels. destruct (p_pre p) as [|l0 pre]; cbn; [|done]. by rewrite <- app_assoc.
Qed.

Lemma planned_push v ess c p fm es :
  planned v ess c p ->
  planned (push_file v fm) (push_records ess es) c (push_plan p (fm, es)) /\ input_runs (push_plan p (fm, es)) = input_runs p.
Proof.
  intros (cs & -> & -> & Hne & Hp & Hl). split; [|unfold input_runs, push_plan; by destruct (p_pre p)].
  exists (alter (fun l0 => l0 ++ [(fm, es)]) 0%nat cs).
  destruct cs as [|l0 deeper]; [done|]. split_and!; try done.
  - cbn. by rewrite map_app.
  - cbn. by rewrite map_app.
  - by apply push_plan_ok.
  - rewrite push_plan_levels, Hl. done.
Qed.

Lemma entries_cells cs :
  Forall (Forall cell_ok) cs -> entries (files_of cs) = blen (recs (concat cs)).
Proof.
  intros Hok. unfold entries. rewrite concat_files. apply Forall_concat in Hok. unfold recs.
  induction Hok as [|x l Hx _ IH]; [done|]. cbn [map foldr concat]. rewrite blen_app, IH, (fo_entries _ _ Hx). done.
Qed.

Lemma recs_perm l l' : l ≡ₚ l' -> blen (recs l) = blen (recs l').
Proof.
  induction 1 as [|x l l' _ IH|x y l|l l' l'' _ IH1 _ IH2]; [done| | |congruence];
    unfold recs in *; cbn [map concat]; rewrite !blen_app; lia.
Qed.

(** The work left to compactions: every record counts the levels below it, out of
    [height]. *)
Fixpoint work (height : Z) (v : Version) : Z :=
  match v with
  | [] => 0
  | l :: v' => height * entries [l] + work (height - 1) v'
  end.

Fixpoint cell_work (height : Z) (cs : list (list cell)) : Z :=
  match cs with
  | [] => 0
  | l :: cs' => height * blen (recs l) + cell_work (height - 1) cs'
  end.

Lemma work_cells h cs : Forall (Forall cell_ok) cs -> work h (files_of cs) = cell_work h cs.
Proof.
  intros Hok. revert h. induction Hok as [|l cs Hl _ IH]; intros h; [done|]. cbn [files_of map work cell_work].
  change (map (map fst) cs) with (files_of cs). rewrite IH. change [map fst l] with (files_of [l]).
  rewrite entries_cells by (by constructor). cbn [concat]. by rewrite app_nil_r.
Qed.

Lemma cell_work_app h cs cs' : cell_work h (cs ++ cs') = cell_work h cs + cell_work (h - blen cs) cs'.
Proof.
  revert h. induction cs as [|l cs IH]; intros h; cbn [app cell_work]; [by rewrite Z.sub_0_r|].
  rewrite IH, blen_cons. replace (h - 1 - blen cs) with (h - (1 + blen cs)) by lia. lia.
Qed.

Lemma cell_work_padded c h cs : cell_work h (padded c cs) = cell_work h cs.
Proof.
  unfold padded. rewrite cell_work_app.
  enough (forall n k, cell_work k (replicate n []) = 0) as -> by lia.
  induction n as [|n IH]; intros k; [done|]. cbn [replicate cell_work]. rewrite IH. change (blen (recs [])) with 0. lia.
Qed.

Lemma cell_work_nonneg h cs : blen cs <= h -> 0 <= cell_work h cs.
Proof.
  revert h. induction cs as [|l cs IH]; intros h; [done|]. rewrite blen_cons. intros Hh. cbn [cell_work].
  specialize (IH (h - 1) ltac:(lia)). pose proof (blen_nonneg (recs l)). pose proof (blen_nonneg cs). nia.
Qed.

(** A compaction that does not write more records than it reads does work. *)
Lemma cell_work_compacted p outs h :
  blen (p_pre p) + 2 <= h -> blen (recs outs) <= blen (recs (p_taken p)) + blen (recs (p_mid p)) -> 1 <= blen (recs (p_taken p)) ->
  cell_work h (compacted_levels p outs) < cell_work h (plan_levels p).
Proof.
  intros Hh Ho Ht. unfold compacted_levels, plan_levels. rewrite !cell_work_app. cbn [cell_work].
  rewrite !recs_app, !blen_app, (recs_perm (rev (p_taken p)) (p_taken p)) by (symmetry; apply Permutation_rev). nia.
Qed.

(** The files taken from the source level hold a record. *)
Lemma taken_some p c : plan_ok p c -> Forall cell_ok (p_taken p) -> 1 <= blen (recs (p_taken p)).
Proof.
  intros Hp Htk. pose proof (po_some _ _ Hp) as Hsome. destruct Htk as [|x l Hx _]; [done|].
  unfold recs. cbn [map concat]. rewrite blen_app. pose proof (fo_nonempty _ _ Hx) as Hne. destruct x.2 as [|e es]; [done|].
  rewrite blen_cons. pose proof (blen_nonneg es). pose proof (blen_nonneg (concat (map snd l))). lia.
Qed.

(** The files of a plan, in the version. *)
Lemma planned_cells v ess c p :
  planned v ess c p -> version_ok v ess -> Forall cell_ok (p_taken p ++ p_mid p).
Proof.
  intros (cs & -> & -> & _ & _ & Hl) (Hok & _)%version_ok_cells. apply Forall_concat in Hok.
  rewrite <- (padded_concat c), <- Hl, plan_perm in Hok. by apply Forall_app in Hok as [? _].
Qed.

Lemma planned_inputs v ess c p :
  planned v ess c p -> version_ok v ess -> Forall2 file_ok (c_inputs c) (input_runs p).
Proof.
  intros Hp Hv. pose proof (planned_cells _ _ _ _ Hp Hv) as Hc. destruct Hp as (_ & _ & _ & _ & Hp & _).
  rewrite (po_inputs _ _ Hp). by apply cells_Forall2.
Qed.

(** The inputs of a plan hold at most the records of the version. *)
Lemma inputs_bound v ess c p :
  planned v ess c p -> version_ok v ess -> blen (concat (input_runs p)) <= entries v.
Proof.
  intros (cs & -> & -> & _ & _ & Hl) (Hok & _)%version_ok_cells. change (concat (input_runs p)) with (recs (p_taken p ++ p_mid p)). rewrite (entries_cells _ Hok).
  pose proof (padded_concat c cs) as Hp. rewrite <- Hl in Hp.
  rewrite <- Hp, (recs_perm _ _ (plan_perm p)), (recs_app (_ ++ _)), blen_app.
  pose proof (blen_nonneg (recs (p_others p))). lia.
Qed.

(** ** Outputs in flight *)

(** A merge whose outputs are complete but not yet installed. *)
Record pending (d : DB) (σ : World) (R : list SSTableReader) (v : Version) (ess : contents) (c : Compaction)
    (outputs : list FileMeta) : Prop := {
  pe_plan : exists p outs, planned v ess c p /\ outputs = map fst outs /\ Forall cell_ok outs /\
    recs outs = written (bottommost c) (Runs.merge (input_runs p));
  pe_unique : NoDup (map fm_number outputs);
  pe_range : Forall (fun k => 0 <= k < next_file_number_ d) (map fm_number outputs);
  pe_fresh : Forall (fun k => k ∉ live_numbers v) (map fm_number outputs);
  pe_disk : Forall (stored d σ) outputs;
  pe_known : map fm_reader outputs ⊆ R }.

(** A merge between two turns of its loop, with [left] records to go. *)
Record merging (d : DB) (σ : World) (R : list SSTableReader) (v : Version) (ess : contents) (c : Compaction)
    (mv : MergeVars) (left : nat) : Prop := {
  mg_plan : exists p outs cur out, planned v ess c p /\ merging_at (mv_iter mv) out /\ length out = left /\ Z.of_nat left <= 2 ^ 25 /\
    run_inv (bloom_bits_per_key (options_ d)) outs cur (resume d mv σ) /\ (mv_w mv <> None -> cur <> []) /\
    run_fits (2 ^ 25) outs cur (written (bottommost c) out) /\
    concat outs ++ cur ++ written (bottommost c) out = written (bottommost c) (Runs.merge (input_runs p)) /\
    out `suffix_of` Runs.merge (input_runs p);
  mg_fresh : Forall (fun k => k ∉ live_numbers v) (mv_taken mv);
  mg_known : map fm_reader (mv_outputs mv) ⊆ R;
  mg_open : mv_w mv <> None -> mv_number mv ∉ map file_number_ R }.

(** The client leaves the version and the known readers alone, or pushes a file
    whose number is not in [ks]. *)
Definition grown (ks : list Z) (v : Version) (ess : contents) (R : list SSTableReader)
    (v' : Version) (ess' : contents) (R' : list SSTableReader) : Prop :=
  (v' = v /\ ess' = ess /\ R' = R) \/
  exists fm es, file_ok fm es /\ v <> [] /\ fm_number fm ∉ ks /\
    v' = push_file v fm /\ ess' = push_records ess es /\ R' = fm_reader fm :: R.

Lemma live_push v fm : v <> [] -> live_numbers (push_file v fm) ≡ₚ fm_number fm :: live_numbers v.
Proof. intros Hne. unfold live_numbers. by rewrite concat_push. Qed.

Lemma grown_planned ks v ess R v' ess' R' c p :
  grown ks v ess R v' ess' R' -> planned v ess c p -> exists p', planned v' ess' c p' /\ input_runs p' = input_runs p.
Proof.
  intros [(-> & -> & _)|(fm & es & _ & _ & _ & -> & -> & _)] Hp; [by exists p|]. eexists. by apply planned_push.
Qed.

Lemma grown_fresh ks v ess R v' ess' R' :
  grown ks v ess R v' ess' R' -> Forall (fun k => k ∉ live_numbers v) ks -> Forall (fun k => k ∉ live_numbers v') ks.
Proof.
  intros [(-> & _)|(fm & es & _ & Hne & Hk & -> & _)] Hf; [done|]. rewrite Forall_forall in *. intros k Hin.
  rewrite live_push, not_elem_of_cons by done. split; [by intros ->|by apply Hf].
Qed.

Lemma grown_readers ks v ess R v' ess' R' : grown ks v ess R v' ess' R' -> R ⊆ R'.
Proof. intros [(_ & _ & ->)|(fm & es & _ & _ & _ & _ & _ & ->)]; [done|by apply list_subseteq_cons]. Qed.

(** A step of the client leaves a complete merge pending. *)
Lemma pending_moved d σ R v ess c outputs d' σ' R' v' ess' :
  pending d σ R v ess c outputs -> grown (map fm_number outputs) v ess R v' ess' R' ->
  dir_ d' = dir_ d -> next_file_number_ d <= next_file_number_ d' ->
  (forall k, k ∈ map fm_number outputs -> fs σ' !! FilePath d k = fs σ !! FilePath d k) ->
  pending d' σ' R' v' ess' c outputs.
Proof.
  intros [(p & outs & Hp & Ho & Hc & Hr) Hu Hb Hf Hd Hk] Hg Hdir Hn Hfs.
  destruct (grown_planned _ _ _ _ _ _ _ _ _ Hg Hp) as (p' & Hp' & Ep). split; try done.
  - exists p', outs. by rewrite Ep.
  - eapply Forall_impl; [exact Hb|]. simpl. lia.
  - by eapply grown_fresh.
  - rewrite Forall_forall in *. intros f Hin. eapply stored_kept; [done| |by apply Hd]. apply Hfs.
    by apply list_elem_of_In, in_map, list_elem_of_In.
  - etransitivity; [exact Hk|by eapply grown_readers].
Qed.

(** A step of the client leaves a merge at the same turn. *)
Lemma merging_moved d σ R v ess c mv left d' σ' R' v' ess' :
  merging d σ R v ess c mv left -> grown (mv_taken mv) v ess R v' ess' R' ->
  dir_ d' = dir_ d -> options_ d' = options_ d -> next_file_number_ d <= next_file_number_ d' ->
  (forall k, k ∈ mv_taken mv -> fs σ' !! FilePath d k = fs σ !! FilePath d k) ->
  merging d' σ' R' v' ess' c mv left.
Proof.
  intros [(p & outs & cur & out & Hp & Hm & Hl & Hl25 & Hi & Hne & Hfit & Hcat & Hsuf) Hf Hk Hop] Hg Hdir Ho Hn Hfs.
  destruct (grown_planned _ _ _ _ _ _ _ _ _ Hg Hp) as (p' & Hp' & Ep). split.
  - exists p', outs, cur, out. rewrite Ep, Ho. split_and!; try done.
    by apply (run_inv_moved _ _ _ (resume d mv σ) d' σ').
  - by eapply (grown_fresh (mv_taken mv)).
  - etransitivity; [exact Hk|by eapply grown_readers].
  - intros Hw. destruct Hg as [(_ & _ & ->)|(fm & es & Hfm & _ & Hks & _ & _ & ->)]; [by apply Hop|].
    cbn [map]. rewrite not_elem_of_cons. split; [|by apply Hop]. rewrite (fo_number _ _ Hfm). intros E. apply Hks. rewrite <- E.
    destruct (mv_w mv) as [w|] eqn:Ew; [|done]. by apply (open_number (resume d mv σ) w).
Qed.

(** ** The steps of a compaction *)

Section Steps.
Context `{Os} `{MemEnv}.

(** A picked compaction has a plan. *)
Lemma pick_planned o next v ess c :
  version_ok v ess -> numbers_ok next v -> v <> [] -> PickCompaction o (Some v) = Ok (Some c) -> exists p, planned v ess c p.
Proof.
  intros Hv Hno Hne Hpick. destruct (version_cells _ _ Hv) as (cs & -> & ->).
  destruct (pick_plan _ _ _ _ Hv Hno Hpick) as (p & Hp & Hl). exists p, cs. split_and!; try done. by destruct cs.
Qed.

(** The start of a picked compaction. *)
Lemma merging_start d v R mes ess c σ :
  db_ok d v R mes ess -> PickCompaction (options_ d) (Some v) = Ok (Some c) -> entries v <= 2 ^ 25 ->
  exists m left, compact_start c = Ok m /\ merging d σ R v ess c (mkMergeVars m None 0 [] []) left /\
    (left < compact_fuel c)%nat.
Proof.
  intros Hd Hpick Hent. pose proof (do_version _ _ _ _ _ Hd) as Hv. pose proof (do_levels _ _ _ _ _ Hd) as Hne.
  destruct (pick_planned _ _ _ _ _ Hv (do_numbers _ _ _ _ _ Hd) Hne Hpick) as [p Hp].
  pose proof (planned_inputs _ _ _ _ Hp Hv) as Hin. pose proof (inputs_bound _ _ _ _ Hp Hv) as Hb.
  destruct (compact_start_spec c _ Hin) as (m & E & Hm & Hfuel). exists m, (length (Runs.merge (input_runs p))). split; [done|]. split; [|done]. split; cbn; try done; [|set_solver].
  exists p, [], [], (Runs.merge (input_runs p)). split_and!; try done; [pose proof (merge_length (input_runs p)); unfold blen in *; lia|apply run_inv_start|].
  destruct (merged_fits (bottommost c) _ _ Hin) as (? & ? & ?). unfold run_fits in *. split_and!; try done. lia.
Qed.

(** A merge in flight has work to do: its inputs are in the version, one of them
    above the target level. *)
Lemma planned_work v ess c p h :
  planned v ess c p -> version_ok v ess -> blen v <= h -> Z.of_nat (target_level c) < h -> 1 <= work h v.
Proof.
  intros Hpl Hv Hh Ht. pose proof (planned_cells _ _ _ _ Hpl Hv) as [Htk _]%Forall_app. destruct Hpl as (cs & -> & -> & _ & Hp & Hl).
  pose proof Hv as (Hok & _)%version_ok_cells. rewrite (work_cells _ _ Hok), <- (cell_work_padded c h cs), <- Hl.
  assert (blen (p_pre p) + 2 <= h) as Hh2 by (rewrite (po_target _ _ Hp) in Ht; unfold blen; lia).
  assert (blen (compacted_levels p []) <= h) as Hlen.
  { replace (blen (compacted_levels p [])) with (blen (padded c cs)) by (rewrite <- Hl; unfold compacted_levels, plan_levels, blen; by rewrite !length_app).
    unfold padded, files_of in *. rewrite blen_map in Hh. rewrite (po_source _ _ Hp), (po_target _ _ Hp) in *. unfold blen in *.
    rewrite length_app, length_replicate. lia. }
  pose proof (cell_work_compacted p [] h Hh2) as Hlt. pose proof (cell_work_nonneg h (compacted_levels p []) Hlen) as Hnn.
  change (blen (recs [])) with 0 in Hlt. pose proof (blen_nonneg (recs (p_taken p))). pose proof (blen_nonneg (recs (p_mid p))).
  pose proof (taken_some p c Hp Htk). lia.
Qed.

Lemma left_bound d σ R v ess c mv left :
  merging d σ R v ess c mv left -> version_ok v ess -> Z.of_nat left <= entries v.
Proof.
  intros [(p & outs & cur & out & Hp & _ & <- & _ & _ & _ & _ & _ & Hsuf) _ _ _] Hv. pose proof (inputs_bound _ _ _ _ Hp Hv).
  pose proof (merge_length (input_runs p)). apply suffix_length in Hsuf. unfold blen in *. lia.
Qed.

(** What a turn can have added to the readers that the cache may know. *)
Lemma turn_known d v R mes ess outputs taken' :
  db_ok d v R mes ess -> Forall (fun f => exists es, file_ok f es) outputs ->
  NoDup (map fm_number outputs) -> Forall (fun k => 0 <= k < next_file_number_ d) taken' ->
  map fm_number outputs ⊆ taken' ->
  (forall f, f ∈ outputs -> fm_reader f ∈ R \/ fm_number f ∉ map file_number_ R) ->
  exists R', db_ok d v R' mes ess /\ R ⊆ R' /\ map fm_reader outputs ⊆ R' /\
    forall r, r ∈ R' -> r ∈ R \/ file_number_ r ∈ map fm_number outputs.
Proof.
  intros Hd Hok. revert R Hd. induction Hok as [|f outputs [es Hf] _ IH]; intros R Hd Hnd Hr Hsub Hnew.
  { exists R. split; [done|]. split; [done|]. split; [set_solver|by left]. }
  cbn [map] in *. apply NoDup_cons in Hnd as [Hnot Hnd].
  destruct (IH R Hd Hnd Hr) as (R' & Hd' & HR & Hk & Hin); [set_solver|intros g Hg; apply Hnew; set_solver|].
  destruct (Hnew f ltac:(left)) as [Hin'|Hni].
  - exists R'. split; [done|]. split; [done|]. split; [set_solver|]. intros r Hr'. destruct (Hin r Hr'); [by left|right; set_solver].
  - exists (fm_reader f :: R'). destruct (fo_serves _ _ Hf) as (bs & Ht & _). split; [|split; [set_solver|split; [set_solver|]]].
    + destruct Hd' as [? ? ? ? ? ? ? HR' Hkn Hca]. split; try done; [|set_solver|by apply cache_true_more].
      eapply readers_push; try done; rewrite (fo_number _ _ Hf).
      * intros (r & E & Hr'%list_elem_of_In)%list_elem_of_In%in_map_iff. destruct (Hin r Hr') as [Hr0|Hr0]; [|congruence].
        apply Hni. rewrite <- E. by apply list_elem_of_In, in_map, list_elem_of_In.
      * rewrite Forall_forall in Hr. apply Hr, Hsub. by left.
    + intros r [->|Hr']%elem_of_cons; [right; rewrite (fo_number _ _ Hf); left|]. destruct (Hin r Hr'); [by left|right; set_solver].
Qed.

(** The numbers that are still to be drawn are nobody's. *)
Lemma undrawn d v R mes ess n k :
  db_ok d v R mes ess -> k ∈ seqZ (next_file_number_ d) n -> k ∉ live_numbers v /\ k ∉ map file_number_ R.
Proof.
  intros Hd Hks%elem_of_seqZ. split; intros Hin.
  - pose proof (no_old _ _ (do_numbers _ _ _ _ _ Hd)) as Hold. unfold live_numbers in Hin.
    apply list_elem_of_In, in_map_iff in Hin as (f & <- & Hin%list_elem_of_In). rewrite Forall_forall in Hold. specialize (Hold f Hin). lia.
  - pose proof (ro_old _ _ (do_readers _ _ _ _ _ Hd)) as Hold.
    apply list_elem_of_In, in_map_iff in Hin as (r & <- & Hin%list_elem_of_In). rewrite Forall_forall in Hold. specialize (Hold r Hin). lia.
Qed.

(** The readers that may be known after a turn from [mv] to [st]: those of the
    outputs finished so far, but not that of the open one. *)
Lemma turn_readers v R mes ess bpk outs cur mv st fresh :
  db_ok (cs_db st) v R mes ess -> run_inv bpk outs cur st -> mv_outputs mv `prefix_of` cs_outputs st ->
  taken st = mv_taken mv ++ fresh -> (forall k, k ∈ fresh -> k ∉ map file_number_ R) ->
  map fm_reader (mv_outputs mv) ⊆ R -> (mv_w mv <> None -> mv_number mv ∉ map file_number_ R) ->
  exists R', R ⊆ R' /\ (forall r, r ∈ R' -> r ∈ R \/ file_number_ r ∈ taken st) /\ db_ok (cs_db st) v R' mes ess /\
    map fm_reader (cs_outputs st) ⊆ R' /\ (cs_w st <> None -> cs_number st ∉ map file_number_ R').
Proof.
  intros Hd [Hout Hu Hr _ _] [l Hl] Htk Hfresh Hk Hop.
  assert (map fm_number (cs_outputs st) ⊆ taken st) as Hsub by (unfold taken; set_solver).
  assert (forall k, k ∈ taken st -> k ∉ map fm_number (mv_outputs mv) -> k ∉ map file_number_ R) as Hnew.
  { intros k. rewrite Htk. unfold mv_taken. rewrite !elem_of_app. intros [[?|Hk0]|Hk0] Hno; [done| |by apply Hfresh].
    destruct (mv_w mv) as [w|]; [|by apply elem_of_nil in Hk0]. apply list_elem_of_singleton in Hk0 as ->. by apply Hop. }
  assert (NoDup (map fm_number (cs_outputs st))) as Hnd by (unfold taken in Hu; by apply NoDup_app in Hu as [? _]).
  assert (forall f, f ∈ l -> fm_number f ∉ map fm_number (mv_outputs mv)) as Hlnew.
  { intros f Hin Hin'. rewrite Hl, map_app in Hnd. apply NoDup_app in Hnd as (_ & Hdis & _). apply (Hdis _ Hin').
    by apply list_elem_of_In, in_map, list_elem_of_In. }
  destruct (turn_known (cs_db st) v R mes ess (cs_outputs st) (taken st) Hd) as (R' & HdR & HRR & HkR & HinR); try done.
  - apply Forall_forall. intros f Hin. apply list_elem_of_lookup in Hin as [i Hi'].
    destruct (Forall2_lookup_l _ _ _ _ _ Hout Hi') as (es & _ & ?). by exists es.
  - intros f. rewrite Hl at 1. intros [Hin|Hin]%elem_of_app; [left; apply Hk; by apply list_elem_of_In, in_map, list_elem_of_In|right].
    apply Hnew; [|by apply Hlnew]. apply Hsub. rewrite Hl, map_app. apply elem_of_app. right. by apply list_elem_of_In, in_map, list_elem_of_In.
  - exists R'. split; [done|]. split; [intros r Hr'; destruct (HinR r Hr'); [by left|right; by apply Hsub]|]. split; [done|]. split; [done|].
    intros Hw Hin. destruct (cs_w st) as [w|] eqn:Ew; [|done]. pose proof (open_ne _ _ Ew Hu) as Hnot.
    apply list_elem_of_In, in_map_iff in Hin as (r & Er & Hr'%list_elem_of_In). destruct (HinR r Hr') as [Hr0|Hr0]; [|congruence].
    apply (Hnew (cs_number st)); [by eapply open_number| |rewrite <- Er; by apply list_elem_of_In, in_map, list_elem_of_In].
    intros Hin. apply Hnot. rewrite Hl, map_app. apply elem_of_app. by left.
Qed.

(** One turn of the loop, under every pattern of faults. *)
Lemma merging_turn d v R mes ess c mv left σ :
  db_ok d v R mes ess -> merging d σ R v ess c mv left -> next_file_number_ d < 2 ^ 30 ->
  0 <= bloom_bits_per_key (options_ d) <= 100 ->
  exists next s st, compact_turn c (mv_iter mv) (resume d mv σ) = Ok (next, s, st) /\
    run_frame (resume d mv σ) st /\ next_file_number_ d <= cs_next st <= next_file_number_ d + 1 /\
    exists R', R ⊆ R' /\ (forall r, r ∈ R' -> r ∈ R \/ file_number_ r ∈ taken st) /\ db_ok (cs_db st) v R' mes ess /\
      match next with
      | Some m' => exists left', left = S left' /\ merging (cs_db st) (cs_world st) R' v ess c (suspend m' st) left'
      | None => ok s = true -> pending (cs_db st) (cs_world st) R' v ess c (cs_outputs st)
      end.
Proof.
  intros Hd [(p & outs & cur & out & Hp & Hm & Hl & Hl25 & Hi & Hne & Hfit & Hcat & Hsuf) Hf Hk Hop] Hlim Hb.
  pose proof (do_next _ _ _ _ _ Hd) as Hnx. set (bpk := bloom_bits_per_key (options_ d)) in *.
  destruct (compact_turn_spec bpk (2 ^ 25) ltac:(lia) Hb c (mv_iter mv) out outs cur (resume d mv σ) Hm Hi Hne ltac:(cbn; lia) eq_refl Hfit)
    as (next & s & st & E & Hfr & Hn & Hres).
  exists next, s, st. split; [done|]. split; [done|]. split; [done|].
  pose proof (db_ok_frame _ (cs_db st) _ _ _ _ Hd (rf_db _ _ Hfr) ltac:(cbn in Hn; lia)) as Hd'.
  pose proof Hfr as [(Ho & Hdir & _) Hpre (n & Hn0 & Htk & Hnx') _]. cbn [resume cs_db] in Ho, Hdir, Hnx', Htk.
  assert (forall k, k ∈ seqZ (next_file_number_ d) n -> k ∉ live_numbers v /\ k ∉ map file_number_ R) as Hseq by (intros k; by eapply undrawn).
  assert (Forall (fun k => k ∉ live_numbers v) (taken st)) as Hf'.
  { rewrite Htk. apply Forall_app. split; [done|]. apply Forall_forall. intros k Hks. by apply Hseq. }
  assert (forall outs' cur', run_inv bpk outs' cur' st -> exists R', R ⊆ R' /\ (forall r, r ∈ R' -> r ∈ R \/ file_number_ r ∈ taken st) /\
    db_ok (cs_db st) v R' mes ess /\ map fm_reader (cs_outputs st) ⊆ R' /\ (cs_w st <> None -> cs_number st ∉ map file_number_ R')) as Hknown.
  { intros outs' cur' Hi'. apply (turn_readers v R mes ess bpk outs' cur' mv st (seqZ (next_file_number_ d) n)); try done.
    intros k Hks. by apply Hseq. }
  destruct next as [m'|].
  - destruct Hres as (e & out' & outs' & cur' & -> & Hm' & Hi' & Hne' & Hcat').
    destruct (Hknown _ _ Hi') as (R' & HR & Hin & HdR & HkR & HopR). exists R'. split; [done|]. split; [done|]. split; [done|].
    exists (length out'). split; [by rewrite <- Hl|]. split; rewrite ?resume_suspend; try done.
    exists p, outs', cur', out'. rewrite Ho, Hcat'. split_and!; try done; [simpl in Hl; lia| |].
    + unfold run_fits in *. by rewrite Hcat'.
    + etransitivity; [|exact Hsuf]. by apply suffix_cons_r.
  - destruct (ok s) eqn:Es; [|exists R; split_and!; try done; by left].
    destruct (Hres eq_refl) as (outs' & Hi' & Hw' & Hcat'). destruct (Hknown _ _ Hi') as (R' & HR & Hin & HdR & HkR & HopR).
    exists R'. split; [done|]. split; [done|]. split; [done|]. intros _. pose proof Hi' as [Hout Hu Hr Hdk _].
    unfold taken in Hu, Hr, Hf'. rewrite Hw', app_nil_r in Hu, Hr, Hf'. split; try done.
    destruct (Forall2_cells _ _ Hout) as (oc & Eo & Ee). exists p, oc. split_and!; try done.
    + rewrite Eo, Ee in Hout. by apply cells_Forall2.
    + unfold recs. rewrite <- Ee, Hcat'. done.
Qed.

(** The version that an installation publishes: the outputs in place of the
    inputs, the rest as it was. *)
Record installed (next : Z) (v : Version) (ess : contents) (c : Compaction) (outputs : list FileMeta)
    (nv : Version) (ess' : contents) : Prop := {
  in_version : version_ok nv ess';
  in_numbers : numbers_ok next nv;
  in_levels : nv <> [];
  in_forgets : forall k, forgets (assoc (version_records ess) k) (assoc (version_records ess') k);
  in_files : exists rest, concat v ≡ₚ c_inputs c ++ rest /\ concat nv ≡ₚ outputs ++ rest;
  in_l0 : default [] (head nv) ⊆ default [] (head v);
  in_length : (length nv <= Nat.max (length v) (S (target_level c)))%nat;
  in_entries : entries nv <= entries v;
  in_work : forall h, Z.of_nat (target_level c) < h -> work h nv < work h v }.

Lemma install_version d σ R v ess c outputs :
  version_ok v ess -> numbers_ok (next_file_number_ d) v -> next_file_number_ d <= 2 ^ 30 ->
  pending d σ R v ess c outputs ->
  exists ess', installed (next_file_number_ d) v ess c outputs (InstallCompaction v c outputs) ess'.
Proof.
  intros Hv Hno Hlim [(p & outs & (cs & -> & -> & Hne & Hp & Hl) & -> & Hc & Hr) Hu Hb Hf _ _].
  destruct (padded_ok c cs _ Hne Hv Hno) as (Hv1 & Hno1 & Hrec). rewrite <- Hl in Hv1, Hno1, Hrec.
  destruct (install_ok p c outs (next_file_number_ d) Hp Hv1 Hno1 Hlim Hc Hr Hu) as (E & Hv2 & Hno2 & Hview).
  { rewrite !Forall_map, !Forall_forall in *. intros x Hx. split; [by apply Hb|]. rewrite concat_files, Hl, padded_concat, <- concat_files. by apply Hf. }
  rewrite Hl, <- padded_files, install_padded in E. rewrite E.
  assert (Forall cell_ok (p_taken p ++ p_mid p)) as Hcells by (eapply planned_cells; [by exists cs|done]).
  pose proof Hv as (Hok & _)%version_ok_cells. pose proof Hv2 as (Hok2 & _)%version_ok_cells.
  assert (blen (recs outs) <= blen (recs (p_taken p)) + blen (recs (p_mid p))) as Hfew.
  { rewrite Hr. pose proof (written_length (bottommost c) (Runs.merge (input_runs p))). pose proof (merge_length (input_runs p)) as Hml.
    rewrite <- blen_app, <- recs_app. change (recs (p_taken p ++ p_mid p)) with (concat (input_runs p)). unfold blen. lia. }
  exists (records_of (compacted_levels p outs)). split; try done.
  - unfold compacted_levels. by destruct (p_pre p).
  - intros k. by rewrite <- Hrec.
  - exists (map fst (p_others p)). rewrite (po_inputs _ _ Hp), <- !map_app, !concat_files. split.
    + by rewrite <- (padded_concat c cs), <- Hl, plan_perm.
    + by rewrite compacted_perm.
  - destruct cs as [|l0 deeper]; [done|]. unfold plan_levels, padded, compacted_levels in *.
    destruct (p_pre p) as [|l pre]; cbn [app files_of map head default id] in *; injection Hl as <- _; [|done].
    rewrite map_app. set_solver.
  - assert (length (compacted_levels p outs) = length (plan_levels p)) as El.
    { unfold compacted_levels, plan_levels. rewrite !length_app. done. }
    unfold files_of. rewrite !length_map, El, Hl. unfold padded. rewrite length_app, length_replicate.
    rewrite (po_source _ _ Hp), (po_target _ _ Hp). lia.
  - rewrite (entries_cells _ Hok2), (entries_cells _ Hok). pose proof (padded_concat c cs) as Hpc. rewrite <- Hl in Hpc.
    rewrite <- Hpc, (recs_perm _ _ (plan_perm p)), (recs_perm _ _ (compacted_perm p outs)), !recs_app, !blen_app. lia.
  - intros h Hh. rewrite (work_cells _ _ Hok2), (work_cells _ _ Hok), <- (cell_work_padded c h cs), <- Hl.
    apply cell_work_compacted; [rewrite (po_target _ _ Hp) in Hh; unfold blen; lia|done|].
    apply Forall_app in Hcells as [Htk _]. by apply (taken_some p c).
Qed.

Lemma unlink_fs p σ : fs (unlink p σ) = delete p (fs σ) \/ fs (unlink p σ) = fs σ.
Proof. unfold unlink, sys, next_io. destruct (io σ) as [|[| |] os]; cbn [snd fs]; auto. Qed.

Lemma unlinks_kept d files σ p :
  p ∉ map (fun f => FilePath d (fm_number f)) files ->
  fs (fold_left (fun σ f => unlink (FilePath d (fm_number f)) σ) files σ) !! p = fs σ !! p.
Proof.
  revert σ. induction files as [|f files IH]; intros σ Hp; [done|]. cbn [fold_left map] in *. apply not_elem_of_cons in Hp as [Hne Hp].
  rewrite IH by done. destruct (unlink_fs (FilePath d (fm_number f)) σ) as [-> | ->]; [by rewrite lookup_delete_ne|done].
Qed.

(** The installation: whatever the system calls do, the new version is
    published; the manifest lists it exactly when the call reports success, and
    only then the inputs may go. *)
Lemma install_pending d v R mes ess c outputs σ :
  db_ok d v R mes ess -> pending d σ R v ess c outputs -> next_file_number_ d <= 2 ^ 30 ->
  let nv := InstallCompaction v c outputs in
  exists s d' σ' ess', compact_install d c outputs σ = Ok (s, d', σ') /\ d' = set_current d (Some nv) /\
    installed (next_file_number_ d) v ess c outputs nv ess' /\ db_ok d' nv R mes ess' /\
    kept_but (ManifestTmp d :: ManifestPath d :: if ok s then map (fun f => FilePath d (fm_number f)) (c_inputs c) else []) σ σ' /\
    fs σ' !! ManifestPath d = if ok s then let buf := manifest_bytes (next_file_number_ d) nv in Some (mkFile buf (blen buf))
                              else fs σ !! ManifestPath d.
Proof.
  intros Hd Hpe Hlim nv. pose proof Hd as [Hm Hf Hcur Hv Hlv Hno Hnx Hrd Hk Hca].
  destruct (install_version d σ R v ess c outputs Hv Hno Hlim Hpe) as (ess' & Hin). fold nv in Hin. pose proof Hin as [Hv' Hno' Hl' _ (rest & Hold & Hnew) _ _].
  assert (db_ok (set_current d (Some nv)) nv R mes ess') as Hd'.
  { split; try done. unfold readers in *. rewrite Hnew, map_app. rewrite Hold, map_app in Hk.
    apply list_subseteq_app_iff_l. split; [apply (pe_known _ _ _ _ _ _ _ Hpe)|set_solver]. }
  unfold compact_install. rewrite Hcur. cbn [of_option rbind]. fold nv.
  destruct (WriteManifest (set_current d (Some nv)) nv σ) as [ms σ1] eqn:E1.
  apply WriteManifest_spec in E1 as [Ho1 Hm1]. change (ManifestPath (set_current d (Some nv))) with (ManifestPath d) in *.
  change (ManifestTmp (set_current d (Some nv))) with (ManifestTmp d) in *.
  change (next_file_number_ (set_current d (Some nv))) with (next_file_number_ d) in *.
  destruct (ok ms) eqn:Ems; cbn [negb].
  - eexists _, _, _, ess'. split; [done|]. split; [done|]. split; [done|]. split; [done|]. cbn [ok Status_OK code_].
    split.
    + intros p Hp. rewrite !not_elem_of_cons in Hp. destruct Hp as (Ht & Hman & Hi).
      rewrite (unlinks_kept (set_current d (Some nv))) by exact Hi. by apply Ho1.
    + rewrite (unlinks_kept (set_current d (Some nv))); [done|]. intros (f & E & Hfi%list_elem_of_In)%list_elem_of_In%in_map_iff.
      revert E. apply (file_ne_manifest d). pose proof (no_old _ _ Hno) as Ho. rewrite Hold in Ho. apply Forall_app in Ho as [Ho _].
      rewrite Forall_forall in Ho. specialize (Ho f Hfi). unfold is_u64. lia.
  - eexists _, _, _, ess'. split; [done|]. split; [done|]. split; [done|]. split; [done|]. rewrite Ems. split; [|done].
    intros p Hp. apply Ho1; set_solver.
Qed.

End Steps.
