(* ===== verification/Recovery.v ===== *)
(** Crash recovery (src/db.cpp): what [DB::Recover] reads from the disk, what a
    crash leaves of it, and that [DB::Open] rebuilds the database from it.

    A crash is modelled by two things: the system calls of the last operation may
    stop having effect at any point (its oracle may fail from there on), and then
    every file loses any part of the bytes that were not made durable, or is back
    at what it held before a truncation that was not made durable. *)
From S2P Require Import Prelude Types Coding Bloom SkipList Cache Posix Wal TableFormat.
From S2P Require Import TableWriter TableReader Iterator TableIter Merge Version Db DbInvariant Compaction Manifest Merging.

(** ** Tables on disk *)

Lemma stored_reopens `{Os} d σ f : io σ = [] -> stored d σ f -> reopens d σ f.
Proof.
  intros Hio [Hd Hs Ho]. unfold reopens. erewrite open_file; [|exact Hd|done|done]. cbn [f_data]. by rewrite Ho.
Qed.

Lemma file_meta_fits f es : file_ok f es -> is_u64 (fm_number f) -> meta_fits f.
Proof.
  intros Hf Hn. pose proof (file_fits f es Hf) as Hr. destruct Hf as [(bs & Ht & <-) Hne Hsm Hla _ He Hs].
  assert (blen (base_ (fm_reader f)) < 2 ^ 63) as Hsz by apply (to_size _ _ Ht).
  assert (forall e, e ∈ concat bs -> blen (e_key e) < 2 ^ 32) as Hk.
  { intros e Hin. rewrite Forall_forall in Hr. specialize (Hr e Hin). unfold rec_fits in Hr.
    pose proof (blen_nonneg (e_value e)). lia. }
  split; [done|..].
  - rewrite Hs. unfold is_u64. pose proof (blen_nonneg (base_ (fm_reader f))). lia.
  - rewrite He. unfold is_u64. destruct (to_data _ _ Ht) as [tl E]. pose proof (data_len_ge bs). rewrite E, blen_app in Hsz.
    pose proof (blen_nonneg tl). pose proof (blen_nonneg (concat bs)). lia.
  - rewrite Hsm. destruct (concat bs) as [|e es]; [done|]. apply Hk. left.
  - rewrite Hla. unfold last_key. destruct (last (concat bs)) as [e|] eqn:El; [|by apply last_None in El].
    by apply Hk, last_Some_elem_of.
Qed.

(** ** What recovery reads *)

(** The manifest lists [v] (or there is none and [v] is empty), every file it
    lists is stored, and [nx] is the next file number it records. *)
Record disk_state (d : DB) (σ : World) (nx : Z) (v : Version) (ess : contents) : Prop := {
  ds_manifest :
    (v = [[]] /\ nx = 1 /\ fs σ !! ManifestPath d = None) \/
    fs σ !! ManifestPath d = Some (mkFile (manifest_bytes nx v) (blen (manifest_bytes nx v)));
  ds_next : 1 <= nx <= 2 ^ 30;
  ds_version : version_ok v ess;
  ds_numbers : numbers_ok nx v;
  ds_levels : v <> [] /\ blen v < 2 ^ 32;
  ds_files : Forall (stored d σ) (concat v) }.

(** The disk shows [recs]: the manifest's tables, with the records that replay of
    the log delivers on top. *)
Definition recoverable (d : DB) (σ : World) (recs : list entry) : Prop :=
  exists nx v ess f log, disk_state d σ nx v ess /\ fs σ !! wal_of d = Some f /\ replay_buffer (f_data f) = Ok log /\
    Forall rec_fits log /\ forall k, assoc (apply_ops log [] ++ version_records ess) k = assoc recs k.

(** What a crash leaves of each file: its durable bytes and any part of the others,
    or the same of what it held before a truncation that no [fsync] covered. *)
Definition crash_world (σ σ' : World) : Prop :=
  io σ' = [] /\ forall p,
    match fs σ !! p, fs σ' !! p with
    | Some f, Some f' => (crash_file f f' \/ crash_undoes f f') /\ f_synced f' = blen (f_data f') /\ f_before f' = []
    | None, None => True
    | _, _ => False
    end.

Lemma rec_wal_fits e : rec_fits e -> wal_fits e.
Proof. unfold rec_fits, wal_fits. lia. Qed.

Lemma replay_log log : Forall rec_fits log -> replay_buffer (wal_frames log) = Ok log.
Proof.
  intros Hf. assert (Forall wal_fits log) as Hw by (eapply Forall_impl; [exact Hf|apply rec_wal_fits]).
  pose proof (replay_frames log [] Hw) as E. rewrite app_nil_r in E. rewrite E.
  change (replay_buffer []) with (Ok (@nil entry)). cbn [rbind]. by rewrite app_nil_r.
Qed.

Lemma wal_frames_cons e log : wal_frames (e :: log) = wal_frame e ++ wal_frames log.
Proof. done. Qed.

(** Any cut of a log replays to its first records, as many as the cut holds. *)
Lemma replay_cut log n :
  Forall rec_fits log ->
  exists j, (j <= length log)%nat /\ replay_buffer (take n (wal_frames log)) = Ok (take j log) /\
    forall m, (m <= length log)%nat -> blen (wal_frames (take m log)) <= Z.of_nat n -> (m <= j)%nat.
Proof.
  intros Hf. revert n. induction Hf as [|e log He Hf IH]; intros n.
  { exists O. split; [done|]. split; [by destruct n|]. cbn [length]. lia. }
  rewrite wal_frames_cons. destruct (decide (length (wal_frame e) <= n)%nat) as [Hle|Hlt].
  - destruct (IH (n - length (wal_frame e))%nat) as (j & Hj & E & Hm). exists (S j). cbn [length take]. split; [lia|]. split.
    + rewrite take_app_ge by done. replace (wal_frame e) with (wal_frames [e]) at 1 by (unfold wal_frames; cbn; by rewrite app_nil_r).
      rewrite replay_frames by (repeat constructor; by apply rec_wal_fits). rewrite E. done.
    + intros [|m] Hlen; [lia|]. cbn [take]. rewrite wal_frames_cons, blen_app. intros Hn. specialize (Hm m ltac:(lia)). unfold blen in *. lia.
  - exists O. split; [lia|]. split.
    + rewrite take_app_le by lia. rewrite (replay_torn e (take n (wal_frame e)) (drop n (wal_frame e))); [done|by apply rec_wal_fits|by rewrite take_drop|].
      intros Ed%(f_equal (@length _)). rewrite length_drop in Ed. cbn [length] in Ed. lia.
    + intros [|m] _; [lia|]. cbn [take]. rewrite wal_frames_cons, blen_app. pose proof (blen_nonneg (wal_frames (take m log))). unfold blen in *. lia.
Qed.

(** A file that is durable is not cut. *)
Lemma durable_cut x f' :
  crash_file (mkFile x (blen x)) f' -> f_synced f' = blen (f_data f') /\ f_before f' = [] -> f' = mkFile x (blen x).
Proof.
  intros (n & Hn & E) [Hs Hb]. cbn [f_data f_synced] in *. rewrite take_ge in E by (unfold blen in Hn; lia).
  destruct f'. cbn in *. by subst.
Qed.

Lemma crash_durable σ σ' p x :
  crash_world σ σ' -> fs σ !! p = Some (mkFile x (blen x)) -> fs σ' !! p = Some (mkFile x (blen x)).
Proof.
  intros [_ Hc] Hp. specialize (Hc p). rewrite Hp in Hc. destruct (fs σ' !! p) as [f'|]; [|done].
  destruct Hc as [[Hc|(y & s & Hin%elem_of_nil & _)] Hs]; [|done]. by rewrite (durable_cut x f').
Qed.

Lemma crash_none σ σ' p : crash_world σ σ' -> fs σ !! p = None -> fs σ' !! p = None.
Proof. intros [_ Hc] Hp. specialize (Hc p). rewrite Hp in Hc. by destruct (fs σ' !! p). Qed.

Lemma crash_state d σ σ' nx v ess : disk_state d σ nx v ess -> crash_world σ σ' -> disk_state d σ' nx v ess.
Proof.
  intros [Hm Hn Hv Hno Hl Hf] Hc. split; try done.
  - destruct Hm as [(-> & -> & Hm)|Hm]; [left|right]; [|by eapply crash_durable].
    split_and!; try done. by eapply crash_none.
  - eapply Forall_impl; [exact Hf|]. intros f [Hd Hs Ho]. split; [|done..]. by eapply crash_durable.
Qed.

(** Only the directory matters. *)
Lemma state_dir d d' σ nx v ess : dir_ d' = dir_ d -> disk_state d σ nx v ess -> disk_state d' σ nx v ess.
Proof.
  intros Hdir [Hm Hn Hv Hno Hl Hf]. split; try done.
  - unfold ManifestPath in *. by rewrite Hdir.
  - eapply Forall_impl; [exact Hf|]. intros g [Hd ? Ho]. unfold on_disk, FilePath in *.
    split; [unfold on_disk|done|]; unfold FilePath; by rewrite Hdir.
Qed.

(** Only the manifest and the files it lists matter. *)
Lemma state_kept d σ σ' nx v ess :
  disk_state d σ nx v ess -> fs σ' !! ManifestPath d = fs σ !! ManifestPath d ->
  (forall f, f ∈ concat v -> fs σ' !! FilePath d (fm_number f) = fs σ !! FilePath d (fm_number f)) ->
  disk_state d σ' nx v ess.
Proof.
  intros [Hm Hn Hv Hno Hl Hf] Hmp Hfp. split; try done; [by rewrite Hmp|].
  rewrite Forall_forall in *. intros f Hin. eapply stored_kept; [done|by apply Hfp|by apply Hf].
Qed.

Lemma recoverable_ext d d' σ recs recs' :
  dir_ d' = dir_ d -> (forall k, assoc recs k = assoc recs' k) -> recoverable d σ recs -> recoverable d' σ recs'.
Proof.
  intros Hdir Hr (nx & v & ess & f & log & Hst & Hw & Hrep & Hfit & Hview).
  exists nx, v, ess, f, log. split_and!; try done; [by eapply state_dir|unfold wal_of; by rewrite Hdir|].
  intros k. by rewrite Hview.
Qed.

Section Operations.
Context `{Os} `{MemEnv}.

(** ** Opening *)

Lemma Forall2_elem {A B} (P : A -> B -> Prop) l k x : Forall2 P l k -> x ∈ l -> exists y, y ∈ k /\ P x y.
Proof.
  intros Hf [i Hi]%list_elem_of_lookup. destruct (Forall2_lookup_l _ _ _ _ _ Hf Hi) as (y & Hy & HP).
  exists y. split; [by eapply list_elem_of_lookup_2|done].
Qed.

Lemma version_files v ess f : version_ok v ess -> f ∈ concat v -> exists es, file_ok f es.
Proof.
  intros [Hf _ _] Hin. apply list_elem_of_In, in_concat in Hin as (l & Hl%list_elem_of_In & Hin%list_elem_of_In).
  destruct (Forall2_elem _ _ _ _ Hf Hl) as (el & _ & Hl2). destruct (Forall2_elem _ _ _ _ Hl2 Hin) as (es & _ & ?). by exists es.
Qed.

Lemma readers_of_version nx v ess : version_ok v ess -> numbers_ok nx v -> readers_ok nx (readers v).
Proof.
  intros Hv [Hu Ho _].
  assert (map file_number_ (readers v) = map fm_number (concat v)) as E.
  { unfold readers. rewrite map_map. apply map_ext_in. intros f Hin%list_elem_of_In.
    destruct (version_files v ess f Hv Hin) as [es Hf]. apply Hf. }
  split.
  - intros r Hr. apply list_elem_of_In, in_map_iff in Hr as (f & <- & Hin%list_elem_of_In).
    destruct (version_files v ess f Hv Hin) as [es Hf]. destruct (fo_serves _ _ Hf) as (bs & ? & _). by exists bs.
  - by rewrite E.
  - apply Forall_map. rewrite Forall_forall in *. intros f Hin. destruct (version_files v ess f Hv Hin) as [es Hf].
    rewrite (fo_number _ _ Hf). by apply Ho.
Qed.

Lemma WalReplay_file path σ f :
  io σ = [] -> fs σ !! path = Some f -> WalReplay path σ = (replay_buffer (f_data f), σ).
Proof.
  intros Hio Hf. destruct σ as [m os]. cbn [io fs] in *. subst os.
  unfold WalReplay, open_rdonly, next_io. cbn [io fs]. rewrite Hf. cbn [io fs].
  assert (read_loop [] (f_data f) [] = ((None, f_data f), [])) as -> by (by destruct (f_data f)). done.
Qed.

Lemma load_state o dir σ nx v ess :
  io σ = [] -> disk_state (DB_new o dir) σ nx v ess ->
  exists d, LoadManifest (DB_new o dir) σ = (Ok d, σ) /\ set_current d (Some (match current_ d with Some v => v | None => [[]] end))
    = set_next (set_current (DB_new o dir) (Some v)) nx /\ match current_ d with Some v => v | None => [[]] end = v.
Proof.
  intros Hio [Hm Hn Hv Hno [Hne Hlv] Hf]. destruct Hm as [(-> & -> & Hm)|Hm].
  - exists (DB_new o dir). split; [|done]. destruct σ as [m os]. cbn [io fs] in *. subst os.
    unfold LoadManifest, open_rdonly, next_io. cbn [io fs]. by rewrite Hm.
  - exists (set_next (set_current (DB_new o dir) (Some v)) nx). split; [|done].
    pose proof (no_old _ _ Hno) as Ho.
    assert (forall P, Forall P (concat v) -> Forall (Forall P) v) as Hcat.
    { clear. intros P. induction v as [|l v IH]; [constructor|]. cbn [concat]. intros [? ?]%Forall_app. constructor; [done|by apply IH]. }
    apply LoadManifest_spec; try done; [unfold is_u64; lia|lia| | | |].
    + apply Hcat. rewrite Forall_forall in *. intros f Hin. destruct (version_files v ess f Hv Hin) as [es Hfo].
      eapply file_meta_fits; [done|]. specialize (Ho f Hin). unfold is_u64. lia.
    + apply Hcat. eapply Forall_impl; [exact Hf|]. intros f. by apply stored_reopens.
    + eapply Forall_impl; [apply Hv|]. simpl. lia.
    + eapply Forall_impl; [exact Ho|]. simpl. lia.
Qed.

(** The log replays to [log]; a missing one is empty. *)
Definition log_replays (d : DB) (σ : World) (log : list entry) : Prop :=
  match fs σ !! wal_of d with Some f => replay_buffer (f_data f) = Ok log | None => log = [] end.

Lemma WalReplay_log d σ log : io σ = [] -> log_replays d σ log -> WalReplay (wal_of d) σ = (Ok log, σ).
Proof.
  unfold log_replays. intros Hio. destruct (fs σ !! wal_of d) as [f|] eqn:Ef.
  - intros E. by rewrite (WalReplay_file _ _ _ Hio Ef), E.
  - intros ->. destruct σ as [m os]. cbn [io fs] in *. subst os. unfold WalReplay, open_rdonly, next_io. cbn [io fs]. by rewrite Ef.
Qed.

(** The disk shows [recs]: the tables of the manifest with the records of the log
    on top, of which the memtable holds all. The log may have a torn tail. *)
Definition disk_shows (o : Options) (dir : bytes) (σ : World) (recs : list entry) : Prop :=
  io σ = [] /\ exists nx v ess log, disk_state (DB_new o dir) σ nx v ess /\ log_replays (DB_new o dir) σ log /\
    Forall rec_fits log /\ blen log <= 2 ^ 25 /\ forall k, assoc (apply_ops log [] ++ version_records ess) k = assoc recs k.

(** A directory without a manifest. *)
Lemma no_manifest d σ : fs σ !! ManifestPath d = None -> disk_state d σ 1 [[]] [[]].
Proof.
  intros Hm. split; [by left|done| | |done|constructor].
  - split; repeat constructor; vm_compute; discriminate.
  - split; [apply NoDup_nil_2|done|constructor].
Qed.

(** An empty directory shows nothing. *)
Lemma empty_shows o dir : disk_shows o dir (mkWorld ∅ []) [].
Proof.
  split; [done|]. exists 1, [[]], [[]], []. split; [by apply no_manifest|]. unfold log_replays. cbn [fs]. rewrite lookup_empty.
  by split_and!.
Qed.

(** The database that [Recover] builds. *)
Definition reopened (o : Options) (dir : bytes) (v : Version) (nx : Z) (mem : SkipList) : DB :=
  set_wal (set_mem (set_next (set_current (DB_new o dir) (Some v)) nx) mem) (mkWalWriter (Some (wal_path_of dir)) (wal_path_of dir)).

Lemma open_rebuilds o dir σ nx v ess log :
  io σ = [] -> block_cache_bytes o < 2 ^ 63 -> disk_state (DB_new o dir) σ nx v ess -> log_replays (DB_new o dir) σ log ->
  Forall rec_fits log ->
  exists mem, let d := reopened o dir v nx mem in
    DB_Open o dir σ = (Ok d, RemoveOrphanFiles d v (open_append (wal_path_of dir) σ).2) /\
    db_ok d v (readers v) (apply_ops log []) ess.
Proof.
  intros Hio Hca Hst Hrep Hfit. destruct (load_state o dir σ nx v ess Hio Hst) as (d & El & Ed & Ev).
  destruct (run_ops_contents log _ _ new_contents) as (mem & Em & Hm). exists mem.
  unfold DB_Open, sys, next_io. rewrite Hio. replace (mkWorld (fs σ) (io σ)) with σ by (by destruct σ).
  unfold Recover. rewrite El. cbn [io_bind]. rewrite Ed, Ev.
  change (wal_path_of (dir_ (set_next (set_current (DB_new o dir) (Some v)) nx))) with (wal_of (DB_new o dir)).
  rewrite (WalReplay_log _ _ _ Hio Hrep). cbn [io_bind].
  change (mem_ (set_next _ _)) with SkipList_new. rewrite Em. cbn [io_bind].
  change (wal_path_of (dir_ (set_mem _ mem))) with (wal_path_of dir). unfold WalWriter_Open.
  assert (open_append (wal_path_of dir) σ = (None, (open_append (wal_path_of dir) σ).2)) as ->.
  { unfold open_append, sys, next_io. by rewrite Hio. }
  split; [done|]. destruct Hst as [_ Hn Hv Hno [Hne _] _]. split; try done; cbn.
  - clear -Hfit. assert (forall es, Forall rec_fits es -> Forall rec_fits (apply_ops log es)) as Hg; [|by apply Hg].
    induction Hfit as [|e log He _ IH]; intros es Hes; [done|]. apply IH. apply Forall_forall.
    intros x [->|Hx]%upsert_elem; [|rewrite Forall_forall in Hes; by apply Hes]. revert He. unfold op_entry, rec_fits.
    pose proof (blen_nonneg (e_value e)). destruct (is_tombstone_type _); simpl; [change (blen (@nil byte)) with 0|]; lia.
  - lia.
  - by eapply readers_of_version.
  - destruct (Z.ltb_spec 0 (block_cache_bytes o)); [|done]. apply cache_inv_new. lia.
Qed.

(** Opening what a crash left. *)
Lemma open_recovers o dir σ recs :
  io σ = [] -> block_cache_bytes o < 2 ^ 63 -> recoverable (DB_new o dir) σ recs ->
  exists d σ' n, DB_Open o dir σ = (Ok d, σ') /\ db_shows d n recs.
Proof.
  intros Hio Hca (nx & v & ess & f & log & Hst & Hw & Hrep & Hfit & Hview).
  destruct (open_rebuilds o dir σ nx v ess log Hio Hca Hst) as (mem & E & Hd); [unfold log_replays; by rewrite Hw|done|].
  eexists _, _, (blen (apply_ops log [])). split; [exact E|]. exists v, (readers v), (apply_ops log []), ess. by split_and!.
Qed.

(** ** Orphans *)

Lemma parse_digits_range ds n m : is_u64 n -> parse_digits ds n = Some m -> is_u64 m.
Proof.
  revert n. induction ds as [|c ds IH]; intros n Hn; cbn [parse_digits]; [by intros [= <-]|].
  destruct (_ || _); [done|]. apply IH, u64_range.
Qed.

Lemma ParseFileNumber_range name n : ParseFileNumber name = Some n -> is_u64 n.
Proof.
  unfold ParseFileNumber. destruct (find_dot name); [|done]. destruct (negb _); [done|]. destruct (_ =? _)%nat; [done|].
  by apply parse_digits_range.
Qed.

Lemma name_no_slash n : existsb (fun c => Byte.eqb c Byte.x2f) (NumberToName n) = false.
Proof.
  apply not_true_iff_false. rewrite existsb_exists. intros (c & Hin%list_elem_of_In & E%Byte.byte_dec_bl).
  unfold NumberToName in Hin. rewrite !elem_of_app in Hin. destruct Hin as [Hin|[Hin|Hin]].
  - apply elem_of_replicate in Hin as [-> _]. done.
  - pose proof (decimal_digits 20 n [] (Forall_nil_2 _)) as Hd. rewrite Forall_forall in Hd. specialize (Hd c Hin). by subst c; destruct Hd.
  - subst c. apply list_elem_of_In in Hin. by destruct Hin as [?|[?|[?|[?|?]]]].
Qed.

Lemma remove_orphan_fs d v σ name :
  fs (remove_orphan d v σ name) = fs σ \/
  exists n, is_u64 n /\ n ∉ live_numbers v /\ fs (remove_orphan d v σ name) = delete (FilePath d n) (fs σ).
Proof.
  unfold remove_orphan. destruct (ParseFileNumber name) as [n|] eqn:E; [|auto].
  destruct (existsb (Z.eqb n) (live_numbers v)) eqn:El; [auto|]. destruct (unlink_fs (FilePath d n) σ) as [Hd|Hs]; [|auto].
  right. exists n. split; [by eapply ParseFileNumber_range|]. split; [|done]. intros Hin.
  apply not_true_iff_false in El. apply El, existsb_exists. exists n. split; [by apply list_elem_of_In|lia].
Qed.

Lemma remove_orphans_kept d v names σ p :
  (forall n, is_u64 n -> n ∉ live_numbers v -> p <> FilePath d n) -> fs (readdir_loop d v names σ) !! p = fs σ !! p.
Proof.
  intros Hp. revert σ. induction names as [|q names IH]; intros σ; cbn [readdir_loop]; destruct (next_io σ) as [o σ1] eqn:E;
    apply next_io_fs in E; rewrite <- E; [by destruct o|]. destruct o; try done; rewrite IH;
    (destruct (remove_orphan_fs d v σ1 q) as [-> |(k & Hk & Hl & ->)]; [done|]); rewrite lookup_delete_ne; try done; by apply not_eq_sym, Hp.
Qed.

Lemma orphans_kept d v σ p :
  (forall n, is_u64 n -> n ∉ live_numbers v -> p <> FilePath d n) -> fs (RemoveOrphanFiles d v σ) !! p = fs σ !! p.
Proof.
  intros Hp. unfold RemoveOrphanFiles. destruct (next_io σ) as [o σ1] eqn:E. apply next_io_fs in E. rewrite <- E.
  destruct o; rewrite ?close_fs; [by apply remove_orphans_kept..|done].
Qed.

Lemma remove_orphans_gone d v n names σ :
  is_u64 n -> n ∉ live_numbers v -> io σ = [] -> fs σ !! FilePath d n = None \/ NumberToName n ∈ names ->
  fs (readdir_loop d v names σ) !! FilePath d n = None.
Proof.
  intros Hn Hl. revert σ. induction names as [|q names IH]; intros σ Hio Hor; cbn [readdir_loop]; unfold next_io; rewrite Hio.
  { destruct Hor as [?|?%elem_of_nil]; done. }
  assert (io (remove_orphan d v σ q) = []) as Hio'.
  { unfold remove_orphan. repeat case_match; try done. unfold unlink, sys, next_io. by rewrite Hio. }
  apply IH; [done|]. destruct Hor as [Hnone|Hin].
  - left. destruct (remove_orphan_fs d v σ q) as [-> |(m & _ & _ & ->)]; [done|]. by rewrite lookup_delete_None; right.
  - apply elem_of_cons in Hin as [<-|Hin]; [left|by right]. unfold remove_orphan.
    rewrite name_parses by done. destruct (existsb (Z.eqb n) (live_numbers v)) eqn:El.
    + apply existsb_exists in El as (m & Hm%list_elem_of_In & ?). assert (m = n) as -> by lia. done.
    + unfold unlink, sys, next_io. rewrite Hio. cbn [snd fs]. by rewrite lookup_delete_eq.
Qed.

Lemma orphans_gone d v σ n :
  io σ = [] -> is_u64 n -> n ∉ live_numbers v -> fs (RemoveOrphanFiles d v σ) !! FilePath d n = None.
Proof.
  intros Hio Hn Hl. unfold RemoveOrphanFiles, next_io. rewrite Hio, close_fs. apply remove_orphans_gone; try done.
  destruct (fs σ !! FilePath d n) as [f|] eqn:Ef; [right|by left].
  apply list_elem_of_omap. exists (FilePath d n). split.
  - apply list_elem_of_In, in_map_iff. exists (FilePath d n, f). split; [done|]. by apply list_elem_of_In, elem_of_map_to_list.
  - apply (entry_name_app (dir_ d) (NumberToName n)), name_no_slash.
Qed.

(** ** Properties *)

(** C15 (roundtrip). The manifest round trip: whatever the system calls do, a
    call of [WriteManifest] that reports success leaves a manifest from which,
    even after a crash, [LoadManifest] rebuilds the same version, with the tables
    reopened as the same readers and the same next file number; a call that
    reports failure leaves the previous manifest in place. *)
Theorem manifest_roundtrip d σ v ess s σ' :
  version_ok v ess -> numbers_ok (next_file_number_ d) v -> v <> [] -> blen v < 2 ^ 32 ->
  1 <= next_file_number_ d <= 2 ^ 30 -> Forall (stored d σ) (concat v) ->
  WriteManifest d v σ = (s, σ') ->
  (ok s = true -> forall σc, crash_world σ' σc -> exists d', LoadManifest (DB_new (options_ d) (dir_ d)) σc = (Ok d', σc) /\
     default [[]] (current_ d') = v /\ next_file_number_ d' = next_file_number_ d) /\
  (ok s = false -> fs σ' !! ManifestPath d = fs σ !! ManifestPath d).
Proof.
  intros Hv Hno Hne Hlv Hnx Hsto E. apply WriteManifest_spec in E as [Hoth Hman]. 
  split; [|intros Hs; by rewrite Hs in Hman].
  intros Hs σc Hc. rewrite Hs in Hman.
  assert (disk_state (DB_new (options_ d) (dir_ d)) σ' (next_file_number_ d) v ess) as Hst.
  { apply (state_dir d); [done|]. split; try done; [by right|]. pose proof (no_old _ _ Hno) as Ho.
    rewrite Forall_forall in *. intros f Hin. specialize (Ho f Hin). eapply stored_kept; [done| |by apply Hsto].
    assert (is_u64 (fm_number f)) by (unfold is_u64; lia). apply Hoth; [by apply file_ne_manifest|by apply file_ne_tmp]. }
  destruct (load_state _ _ σc _ v ess (proj1 Hc) (crash_state _ _ _ _ _ _ Hst Hc)) as (d' & E & Ed & Ev).
  exists d'. split; [done|]. split; [by destruct (current_ d')|]. by apply (f_equal next_file_number_) in Ed.
Qed.

(** C21 (safety). Removing orphans at open touches no file that the database
    needs: under any faults, the tables of the version, the manifest and the log
    are left alone, whatever names the directory holds (also names whose digits
    overflow 64 bits); and without faults no table file under another number is
    left. *)
Theorem orphans_only_are_removed d v σ :
  Forall is_u64 (live_numbers v) ->
  (forall p, (exists n, n ∈ live_numbers v /\ p = FilePath d n) \/ p = ManifestPath d \/ p = wal_of d ->
     fs (RemoveOrphanFiles d v σ) !! p = fs σ !! p) /\
  (io σ = [] -> forall n, is_u64 n -> n ∉ live_numbers v -> fs (RemoveOrphanFiles d v σ) !! FilePath d n = None).
Proof.
  intros Hu. split.
  - intros p Hp. apply orphans_kept. intros n Hn Hl. destruct Hp as [(m & Hm & ->)|[-> | ->]].
    + intros Ep. apply FilePath_inj in Ep as ->; [done| |done]. rewrite Forall_forall in Hu. by apply Hu.
    + by apply not_eq_sym, file_ne_manifest.
    + by apply not_eq_sym, file_ne_wal.
  - intros Hio n Hn Hl. by apply orphans_gone.
Qed.

End Operations.

(** ** A concrete crash *)

(** The crash that loses every byte not made durable. *)
Definition hard_crash (σ : World) : World :=
  mkWorld ((fun f => let x := take (Z.to_nat (f_synced f)) (f_data f) in mkFile x (blen x)) <$> fs σ) [].

Lemma hard_crash_ok σ : crash_world σ (hard_crash σ).
Proof.
  split; [done|]. intros p. cbn [hard_crash fs]. rewrite lookup_fmap. destruct (fs σ !! p) as [f|]; [|done]. cbn.
  split; [|done]. left. exists (Z.to_nat (f_synced f)). split; [lia|done].
Qed.

(** The crash that loses nothing. *)
Definition soft_crash (σ : World) : World := mkWorld ((fun f => mkFile (f_data f) (blen (f_data f))) <$> fs σ) [].

Lemma soft_crash_ok σ : crash_world σ (soft_crash σ).
Proof.
  split; [done|]. intros p. cbn [soft_crash fs]. rewrite lookup_fmap. destruct (fs σ !! p) as [f|]; [|done]. cbn.
  split; [|done]. left. exists (Z.to_nat (Z.max (f_synced f) (blen (f_data f)))). split; [lia|].
  rewrite take_ge; [done|]. unfold blen. lia.
Qed.

Definition crash_start : DB := fresh Options_default (lit "db").

(** A version with one table, by its number. *)
Definition one_table (n : Z) : Version :=
  [[mkFileMeta n (lit "a") (lit "z") 0 0 (mkReader [] [] (mkBloomFilter [] 0 0) n 0 (lit "a") (lit "z") true)]].

Lemma orphans_only_are_removed_witness :
  let d := crash_start in let v := one_table 3 in
  let σ := mkWorld {[ FilePath d 3 := mkFile (lit "x") 0; FilePath d 7 := mkFile [] 0; wal_of d := mkFile [] 0 ]} [] in
  Forall is_u64 (live_numbers v) /\
  fs (RemoveOrphanFiles d v σ) !! FilePath d 3 = fs σ !! FilePath d 3 /\
  fs (RemoveOrphanFiles d v σ) !! wal_of d = fs σ !! wal_of d /\
  fs (RemoveOrphanFiles d v σ) !! FilePath d 7 = None.
Proof.
  intros d v σ. assert (Forall is_u64 (live_numbers v)) as Hu by (repeat constructor; discriminate). split; [exact Hu|].
  destruct (orphans_only_are_removed d v σ Hu) as [Hk Hg]. split; [|split].
  - apply Hk. left. exists 3. split; [left|reflexivity].
  - apply Hk. right. right. reflexivity.
  - apply Hg; [reflexivity|split; [discriminate|reflexivity]|]. cbn. rewrite list_elem_of_singleton. discriminate.
Defined.

(** Reopening the directory and one more call. *)
Definition reopen_exec (σ : World) (op : client_op) : option (reply * World) :=
  match @DB_Open plain_os alternating_env Options_default (lit "db") σ with
  | (Ok d, σ) => match @exec alternating_env plain_os d op σ with Ok (r, _, σ) => Some (r, σ) | _ => None end
  | _ => None
  end.


(** The crash that keeps [n] bytes of one file and every byte of the others. *)
Definition tear (p : bytes) (n : nat) (σ : World) : World :=
  mkWorld (map_imap (fun q f => let x := if str_eqb q p then take n (f_data f) else f_data f in Some (mkFile x (blen x))) (fs σ)) [].

Lemma tear_ok p n σ : (forall f, fs σ !! p = Some f -> f_synced f <= Z.of_nat n) -> crash_world σ (tear p n σ).
Proof.
  intros Hp. split; [done|]. intros q. cbn [tear fs]. rewrite map_lookup_imap. destruct (fs σ !! q) as [f|] eqn:Ef; [|done]. cbn.
  split; [|done]. left. destruct (str_eqb_spec q p) as [->|_].
  - exists n. split; [by apply Hp|done].
  - exists (Z.to_nat (Z.max (f_synced f) (blen (f_data f)))). split; [lia|]. rewrite take_ge; [done|]. unfold blen. lia.
Qed.

Definition async_options : Options := mkOptions false 1000000 4 1000000 10 1000000 7 10 1000000.

(** Two puts of [a], a put of [b], and a flush. *)
Definition async_session : list client_op :=
  [CPut (lit "a") (lit "1"); CPut (lit "a") (lit "2"); CPut (lit "b") (lit "1"); CFlush].

(** The system calls of the session work up to the rename of the manifest. *)
Definition async_run : result (list reply * DB * World) :=
  @exec_all alternating_env plain_os (fresh async_options (lit "db")) async_session
    (mkWorld {[ wal_path_of (lit "db") := mkFile [] 0 ]} (replicate 22 IoOk ++ replicate 4 (IoErr 5))).

(** C35 (error). Without synchronous writes, a crash between a flush and the
    truncation of the log costs more than redundant work: when the crash keeps the
    flushed table and the manifest that lists it, but only the first record of the
    log, which was never synced, replay puts the older value of [a] over the newer
    one in the table; the database then shows the old [a] beside [b], which was
    written after the new [a]: no state that it ever had. *)
Theorem async_crash_revives_old_value :
  match async_run with
  | Ok (rs, _, σ) =>
      let σc := tear (wal_path_of (lit "db")) 19 σ in
      take 3 rs = replicate 3 (Status_OK, None) /\ crash_world σ σc /\
      match reopen_exec σc (CGet (lit "a")), reopen_exec σc (CGet (lit "b")) with
      | Some (ra, _), Some (rb, _) =>
          ra = (Status_OK, Some (LookupResult.kFound, Some (lit "1"))) /\
          rb = (Status_OK, Some (LookupResult.kFound, Some (lit "1")))
      | _, _ => False
      end
  | _ => False
  end.
Proof.
  assert (match async_run with
          | Ok (rs, _, σ) =>
              let σc := tear (wal_path_of (lit "db")) 19 σ in
              take 3 rs = replicate 3 (Status_OK, None) /\
              (match fs σ !! wal_path_of (lit "db") with Some f => f_synced f <=? 19 | None => true end) = true /\
              match reopen_exec σc (CGet (lit "a")), reopen_exec σc (CGet (lit "b")) with
              | Some (ra, _), Some (rb, _) =>
                  ra = (Status_OK, Some (LookupResult.kFound, Some (lit "1"))) /\
                  rb = (Status_OK, Some (LookupResult.kFound, Some (lit "1")))
              | _, _ => False
              end
          | _ => False
          end) as Hc by (vm_compute; repeat split).
  destruct async_run as [[[rs d] σ]| |]; [|destruct Hc..]. destruct Hc as (Hr & Hs & Hg). split; [exact Hr|]. split; [|exact Hg].
  apply tear_ok. intros f Hf. rewrite Hf in Hs. lia.
Qed.

(** Two synchronous puts; the first writes nine bytes of its record and fails. *)
Definition poisoned_run : result (list reply * DB * World) :=
  @exec_all alternating_env plain_os crash_start [CPut (lit "a") (lit "1"); CPut (lit "b") (lit "2")]
    (mkWorld {[ wal_path_of (lit "db") := mkFile [] 0 ]} [IoShort 9; IoErr 28]).

