(* ===== verification/Background.v ===== *)
(** The background thread (src/db.cpp): [DB::BackgroundLoop] beside the caller's
    thread, as a transition system whose steps are the sections between which the
    threads can interleave.

    [mu_] is held by the loop except inside [DoCompaction] and while waiting on
    [bg_cv_]. A merge reads immutable inputs and writes files that nobody else
    names; it takes the lock to draw a file number, at most once in a turn of its
    loop, and to install its outputs. A call of the client takes the lock when it
    flushes: to draw a file number and to publish the table. So the steps are: a
    turn of [BackgroundLoop], a turn of the loop of [DoCompaction], the
    installation, a call of the client up to the publication of a flushed table,
    and the publication. *)
From S2P Require Import Prelude Types Bloom SkipList Cache Posix Wal TableFormat TableWriter.
From S2P Require Import TableReader Iterator TableIter Merge Version Db DbInvariant DbScan Compaction Leveling.
From S2P Require Import Manifest Merging Recovery.

(** Where the caller's thread is. *)
Inductive ClientPhase :=
| ClIdle                                                  (* between calls *)
| ClPublish (fm : FileMeta) (w : SSTableWriter).          (* in [FlushMemTable], before its second lock *)

(** Where the background thread is. *)
Inductive BgPhase :=
| BgLoop                                                  (* at the head of the loop, holding [mu_] *)
| BgWaiting                                               (* in [bg_cv_.wait] *)
| BgMerging (c : Compaction) (mv : MergeVars)             (* at the head of the loop of [DoCompaction] *)
| BgMerged (c : Compaction) (outputs : list FileMeta)     (* before the lock of the installation *)
| BgStopped.                                              (* after the loop *)

Record Sys := mkSys {
  s_db : DB; s_world : World; s_client : ClientPhase; s_bg : BgPhase; bg_busy_ : bool; shutting_down_ : bool }.

(** What can happen: a call of the client, the publication of its flushed table, a
    wake-up of the waiting thread (by [notify_all] or spuriously), a turn of the
    loop, a turn of a merge, the installation of a merge, and the start of the
    destructor. *)
Inductive event :=
| EvClient (op : client_op)
| EvPublish
| EvWake
| EvLoop
| EvMerge
| EvInstall
| EvShutdown.

Section Loop.
Context `{Os} `{MemEnv}.

(** A call up to the publication: its reply if it ends there. *)
Definition flush_begin (d : DB) (σ : World) : result (option reply * ClientPhase * DB * World) :=
  let* (s, table, d, σ) := flush_table d σ in
  match table with
  | None => Ok (Some (s, None), ClIdle, d, σ)
  | Some (fm, w) => Ok (None, ClPublish fm w, d, σ)
  end.

Definition maybe_begin (d : DB) (σ : World) : result (option reply * ClientPhase * DB * World) :=
  if memtable_flush_threshold (options_ d) <=? ApproximateMemoryUsage (mem_ d)
  then flush_begin d σ else Ok (Some (Status_OK, None), ClIdle, d, σ).

Definition client_begin (d : DB) (op : client_op) (σ : World) : result (option reply * ClientPhase * DB * World) :=
  match op with
  | CPut k v =>
      let* (s, d, σ) := put_record d k v σ in
      if negb (ok s) then Ok (Some (s, None), ClIdle, d, σ) else maybe_begin d σ
  | CDelete k =>
      let* (s, d, σ) := delete_record d k σ in
      if negb (ok s) then Ok (Some (s, None), ClIdle, d, σ) else maybe_begin d σ
  | CGet k => let* (a, d) := DB_Get d k in Ok (Some (Status_OK, Some a), ClIdle, d, σ)
  | CFlush => flush_begin d σ
  end.

(** One turn of [BackgroundLoop] from its head, up to the loop of [DoCompaction]. *)
Definition loop_turn (s : Sys) : result Sys :=
  let d := s_db s in
  if shutting_down_ s then Ok (mkSys d (s_world s) (s_client s) BgStopped false true)
  else if negb (NeedsCompaction (options_ d) (current_ d)) then
    Ok (mkSys d (s_world s) (s_client s) BgWaiting false false)
  else
    let* picked := PickCompaction (options_ d) (current_ d) in
    match picked with
    | None => Ok (mkSys d (s_world s) (s_client s) BgWaiting false false)
    | Some c =>
        let* m := compact_start c in
        Ok (mkSys d (s_world s) (s_client s) (BgMerging c (mkMergeVars m None 0 [] [])) true false)
    end.

(** One turn of a merge; the status of a failed merge is dropped and
    [BackgroundLoop] goes on. *)
Definition merge_turn (s : Sys) (c : Compaction) (mv : MergeVars) : result Sys :=
  let* (next, st, cs) := compact_turn c (mv_iter mv) (resume (s_db s) mv (s_world s)) in
  let after := fun σ ph => mkSys (cs_db cs) σ (s_client s) ph (bg_busy_ s) (shutting_down_ s) in
  Ok (match next with
      | Some m => after (cs_world cs) (BgMerging c (suspend m cs))
      | None =>
          if negb (ok st) then after (destroy_output cs) BgLoop
          else after (cs_world cs) (BgMerged c (cs_outputs cs))
      end).

(** The events that a state allows; the client destroys the database only between
    its calls. *)
Definition enabled (s : Sys) (ev : event) : bool :=
  match ev, s_client s, s_bg s with
  | EvClient _, ClIdle, _ | EvShutdown, ClIdle, _ | EvPublish, ClPublish _ _, _ => true
  | EvWake, _, BgWaiting | EvLoop, _, BgLoop | EvMerge, _, BgMerging _ _ | EvInstall, _, BgMerged _ _ => true
  | _, _, _ => false
  end.

(** One event; an event that the state does not allow changes nothing. *)
Definition sys_exec (s : Sys) (ev : event) : result (option reply * Sys) :=
  match ev, s_client s, s_bg s with
  | EvClient op, ClIdle, _ =>
      let* (r, ph, d, σ) := client_begin (s_db s) op (s_world s) in
      Ok (r, mkSys d σ ph (s_bg s) (bg_busy_ s) (shutting_down_ s))
  | EvPublish, ClPublish fm w, _ =>
      let* (st, d, σ) := publish_table (s_db s) fm w (s_world s) in
      Ok (Some (st, None), mkSys d σ ClIdle (s_bg s) (bg_busy_ s) (shutting_down_ s))
  | EvWake, _, BgWaiting =>
      Ok (None, mkSys (s_db s) (s_world s) (s_client s) BgLoop (bg_busy_ s) (shutting_down_ s))
  | EvLoop, _, BgLoop => let* s := loop_turn s in Ok (None, s)
  | EvMerge, _, BgMerging c mv => let* s := merge_turn s c mv in Ok (None, s)
  | EvInstall, _, BgMerged c outputs =>
      let* (_, d, σ) := compact_install (s_db s) c outputs (s_world s) in
      Ok (None, mkSys d σ (s_client s) BgLoop (bg_busy_ s) (shutting_down_ s))
  | EvShutdown, ClIdle, _ => Ok (None, mkSys (s_db s) (s_world s) ClIdle (s_bg s) (bg_busy_ s) true)
  | _, _, _ => Ok (None, s)
  end.

(** ** Calls of the client *)

(** A call and its publication make up the call. *)
Definition client_end (m : result (option reply * ClientPhase * DB * World)) : result (reply * DB * World) :=
  let* (r, ph, d, σ) := m in
  match ph, r with
  | ClPublish fm w, _ => let* (s, d, σ) := publish_table d fm w σ in Ok ((s, None), d, σ)
  | ClIdle, Some r => Ok (r, d, σ)
  | ClIdle, None => UB
  end.

Lemma flush_begin_end d σ : client_end (flush_begin d σ) = let* (s, d, σ) := FlushMemTable d σ in Ok ((s, None), d, σ).
Proof. unfold client_end, flush_begin, FlushMemTable. by destruct (flush_table d σ) as [[[[s [[fm w]|]] d1] σ1]| |]. Qed.

Lemma maybe_begin_end d σ : client_end (maybe_begin d σ) = let* (s, d, σ) := maybe_flush d σ in Ok ((s, None), d, σ).
Proof. unfold maybe_begin, maybe_flush. destruct (_ <=? _); [apply flush_begin_end|done]. Qed.

(** What the part before the publication does: under any faults it touches the
    log and the file of the next number, and the table it wrote holds the
    memtable's records. *)
Definition begun (next : Z) (mes : list entry) (r : option reply) (ph : ClientPhase) (d' : DB) (σ' : World) : Prop :=
  match ph with
  | ClIdle => is_Some r
  | ClPublish fm w => r = None /\ mes <> [] /\ file_ok fm mes /\ fm_number fm = next /\
      next_file_number_ d' = next + 1 /\ w_fd_ w = None /\ stored d' σ' fm
  end.

Lemma flush_begin_spec d v R mes ess σ :
  db_ok d v R mes ess -> mem_limits d mes ->
  exists r ph d' σ', flush_begin d σ = Ok (r, ph, d', σ') /\ same_db d d' /\
    next_file_number_ d <= next_file_number_ d' <= next_file_number_ d + 1 /\
    others_kept (FilePath d (next_file_number_ d)) σ σ' /\ begun (next_file_number_ d) mes r ph d' σ' /\
    (forall rep, r = Some rep -> exists s, rep = (s, None)).
Proof.
  intros Hd Hlim. destruct (flush_table_spec d v R mes ess σ Hd Hlim) as (s & t & d' & σ' & E & Hs & Hn & Ho & Ht).
  unfold flush_begin. rewrite E. cbn [rbind]. destruct t as [[fm w]|]; eexists _, _, _, _; (split; [done|]); (split; [done|]); (split; [done|]); (split; [done|]).
  - destruct Ht as (Hfo & ? & ? & ? & Hst). split; [|done]. split; [done|]. split; [apply (fo_nonempty _ _ Hfo)|].
    split_and!; try done. eapply stored_kept; [apply Hs|done|done].
  - split; [by eexists|]. intros rep [= <-]. by eexists.
Qed.

Lemma maybe_begin_spec d v R mes ess σ :
  db_ok d v R mes ess -> mem_limits d mes ->
  exists r ph d' σ', maybe_begin d σ = Ok (r, ph, d', σ') /\ same_db d d' /\
    next_file_number_ d <= next_file_number_ d' <= next_file_number_ d + 1 /\
    others_kept (FilePath d (next_file_number_ d)) σ σ' /\ begun (next_file_number_ d) mes r ph d' σ' /\
    (forall rep, r = Some rep -> exists s, rep = (s, None)).
Proof.
  intros Hd Hlim. unfold maybe_begin. destruct (_ <=? _); [by eapply flush_begin_spec|].
  eexists _, _, _, _. split; [done|]. split; [done|]. split; [lia|]. split; [done|]. split; [by eexists|]. intros rep [= <-]. by eexists.
Qed.

(** The part of a mutation before the test of the threshold. *)
Definition record_begin (d : DB) (op : client_op) (σ : World) : result (Status * DB * World) :=
  match op with
  | CPut k v => put_record d k v σ
  | CDelete k => delete_record d k σ
  | _ => Ok (Status_OK, d, σ)
  end.

(** The record of a mutation. *)
Definition op_record (op : client_op) : option entry :=
  match op with
  | CPut k v => Some (Entry k v kValue)
  | CDelete k => Some (Entry k [] kTombstone)
  | _ => None
  end.

Lemma record_begin_spec d v R mes ess op e σ :
  db_ok d v R mes ess -> op_record op = Some e -> rec_fits e ->
  exists s1 σ1 mem' user, AddRecord (wal_ d) (e_type e) (e_key e) (e_value e) (sync (options_ d)) σ = (s1, σ1) /\
    record_begin d op σ = Ok (s1, if ok s1 then add_user_bytes (set_mem d mem') user else d, σ1) /\
    sl_contents mem' (upsert e mes).
Proof.
  intros Hd Hop He. destruct op as [key value|key|key|]; cbn [op_record record_begin] in *; injection Hop as <- || done;
    cbn [e_type e_key e_value]; unfold put_record, delete_record.
  - destruct (AddRecord (wal_ d) kValue key value (sync (options_ d)) σ) as [s1 σ1] eqn:E1.
    destruct (sl_insert_contents _ _ key value false (do_mem _ _ _ _ _ Hd)) as (mem' & E & Hm').
    exists s1, σ1, mem', (blen key + blen value). split; [done|]. split; [|done]. destruct (ok s1); [|done].
    cbn [negb]. unfold SkipList_Put. by rewrite E.
  - destruct (AddRecord (wal_ d) kTombstone key [] (sync (options_ d)) σ) as [s1 σ1] eqn:E1.
    destruct (sl_insert_contents _ _ key [] true (do_mem _ _ _ _ _ Hd)) as (mem' & E & Hm').
    exists s1, σ1, mem', (blen key). split; [done|]. split; [|done]. destruct (ok s1); [|done].
    cbn [negb]. unfold SkipList_Delete. by rewrite E.
Qed.

Lemma client_begin_record d op e σ :
  op_record op = Some e ->
  client_begin d op σ = let* (s, d, σ) := record_begin d op σ in
                        if negb (ok s) then Ok (Some (s, None), ClIdle, d, σ) else maybe_begin d σ.
Proof. by destruct op. Qed.

(** What a call up to the publication leaves: the version as it was, the memtable
    [mes'], and the records [recs'] in view. *)
Record begins (d : DB) (v : Version) (R : list SSTableReader) (mes : list entry) (ess : contents) (σ : World)
    (d' : DB) (mes' : list entry) (σ' : World) : Prop := {
  be_ok : db_ok d' v R mes' ess;
  be_len : blen mes' <= blen mes + 1;
  be_options : options_ d' = options_ d;
  be_dir : dir_ d' = dir_ d;
  be_wal : wal_ d' = wal_ d;
  be_next : next_file_number_ d <= next_file_number_ d' <= next_file_number_ d + 1;
  be_kept : kept_but [wal_of d; FilePath d (next_file_number_ d)] σ σ' }.

(** What a call up to the publication does to the log: the record of a mutation is
    appended first, and the memtable takes it exactly if that succeeded. *)
Definition logged (d : DB) (op : client_op) (mes : list entry) (σ : World) (r : option reply) (mes' : list entry) (σ' : World) : Prop :=
  match op_record op with
  | None => mes' = mes /\ others_kept (FilePath d (next_file_number_ d)) σ σ'
  | Some e => exists s1 σ1, AddRecord (wal_ d) (e_type e) (e_key e) (e_value e) (sync (options_ d)) σ = (s1, σ1) /\
      others_kept (FilePath d (next_file_number_ d)) σ1 σ' /\
      if ok s1 then mes' = upsert e mes else mes' = mes /\ r = Some (s1, None) /\ σ' = σ1
  end.

Lemma client_begin_spec d v R mes ess recs op σ :
  db_ok d v R mes ess -> (forall k, assoc (db_records mes ess) k = assoc recs k) -> op_fits op -> wal_home d ->
  blen mes < 2 ^ 25 -> 0 <= bloom_bits_per_key (options_ d) <= 100 -> next_file_number_ d < 2 ^ 30 ->
  exists r ph d' σ' mes' recs', client_begin d op σ = Ok (r, ph, d', σ') /\ begins d v R mes ess σ d' mes' σ' /\
    (forall k, assoc (db_records mes' ess) k = assoc recs' k) /\ begun (next_file_number_ d) mes' r ph d' σ' /\
    logged d op mes σ r mes' σ' /\
    match r with
    | Some rep => spec_step recs op rep recs'
    | None => recs' = applied recs op /\ forall k, op <> CGet k
    end.
Proof.
  intros Hd Hview Hfit Hwal Hn Hb Hlim. unfold logged.
  destruct (op_record op) as [e|] eqn:Eop.
  - assert (rec_fits e) as He by (destruct op; cbn in *; injection Eop as <- || done; done).
    assert (forall d', dir_ d' = dir_ d -> next_file_number_ d' = next_file_number_ d ->
      FilePath d' (next_file_number_ d') = FilePath d (next_file_number_ d)) as Hfp by (intros d' E1 E2; unfold FilePath; by rewrite E1, E2).
    destruct (record_begin_spec d v R mes ess op e σ Hd Eop He) as (s1 & σ1 & mem' & user & E1 & E2 & Hm').
    assert (kept_but [wal_of d; FilePath d (next_file_number_ d)] σ σ1) as Hk1.
    { intros p Hp. eapply AddRecord_others; [exact E1|]. intros E%Hwal. subst p. apply Hp. by left. }
    rewrite (client_begin_record _ _ e) by done. rewrite E2. cbn [rbind]. destruct (ok s1) eqn:Es1; cbn [negb].
    + set (d1 := add_user_bytes (set_mem d mem') user).
      pose proof (db_ok_mem d v R mes ess mem' e user Hd He Hm') as Hd1. fold d1 in Hd1.
      assert (blen (upsert e mes) <= blen mes + 1) as Hup by (pose proof (upsert_length e mes); unfold blen; lia).
      destruct (maybe_begin_spec d1 v R (upsert e mes) ess σ1 Hd1) as (r & ph & d' & σ' & -> & Hsame & Hnx & Ho & Hbg & Hrep);
        [split_and!; cbn; lia|].
      pose proof (db_ok_frame _ _ _ _ _ _ Hd1 Hsame ltac:(lia)) as Hd'. destruct Hsame as (Hopt & Hdir & _ & _ & Hwl & _).
      exists r, ph, d', σ', (upsert e mes), (e :: recs). split; [done|]. split; [split; try done|split; [|split; [|split]]].
      * intros p Hp. rewrite Ho; [by apply Hk1|]. intros ->. apply Hp. rewrite (Hfp d1) by done. right. left.
      * intros k. rewrite (records_upsert d v R) by done. by rewrite !assoc_cons, Hview.
      * exact Hbg.
      * exists s1, σ1. split; [done|]. rewrite Es1. by rewrite <- (Hfp d1).
      * destruct r as [rep|].
        -- destruct (Hrep rep eq_refl) as [s ->]. destruct op; cbn in Eop; injection Eop as <- || done; constructor.
        -- destruct op; cbn in Eop; injection Eop as <- || done; split; done.
    + exists (Some (s1, None)), ClIdle, d, σ1, mes, recs. split; [done|]. split; [split; try done; lia|].
      split; [done|]. split; [by eexists|]. split; [exists s1, σ1; by rewrite Es1|]. destruct op; cbn in Eop; done || by constructor.
  - assert (forall d', same_db d d' \/ (exists c, d' = set_cache d c) -> next_file_number_ d <= next_file_number_ d' <= next_file_number_ d + 1 ->
      db_ok d' v R mes ess -> forall σ', kept_but [wal_of d; FilePath d (next_file_number_ d)] σ σ' -> begins d v R mes ess σ d' mes σ') as Hbe.
    { intros d' Hor Hnx Hd' σ' Hk. destruct Hor as [(? & ? & _ & _ & ? & _)|[c ->]]; split; try done; lia. }
    destruct op as [| |key|]; try done; cbn [client_begin].
    + destruct (db_get d v R mes ess key Hd) as (c & -> & Hd'). cbn [rbind].
      eexists _, _, _, _, mes, recs. split; [done|]. split; [apply Hbe; try done; [right; by exists c|cbn; lia]|]. split; [done|].
      split; [by eexists|]. split; [done|]. rewrite Hview. apply spec_get.
    + destruct (flush_begin_spec d v R mes ess σ Hd) as (r & ph & d' & σ' & E & Hsame & Hnx & Ho & Hbg & Hrep); [split_and!; lia|].
      rewrite E. exists r, ph, d', σ', mes, recs. split; [done|]. split.
      { apply Hbe; [by left|done|eapply db_ok_frame; [done|done|lia]|]. intros p Hp. apply Ho. intros ->. apply Hp. right. left. }
      split; [done|]. split; [done|]. split; [done|]. destruct r as [rep|]; [|done]. destruct (Hrep rep eq_refl) as [s ->]. apply spec_flush.
Qed.

End Loop.

(** [DB::TEST_WaitForCompactions] returns in the states where its loop ends. *)
Definition wait_done (s : Sys) : bool :=
  negb (bg_busy_ s || NeedsCompaction (options_ (s_db s)) (current_ (s_db s))).

(** ** Every interleaving *)

(** The state is far from the limits of the table format and the file numbers. *)
Definition capacity (d : DB) : bool :=
  match current_ d with
  | Some v => (SkipList_Size (mem_ d) + entries v <? 2 ^ 25) && (next_file_number_ d <? 2 ^ 29)
  | None => false
  end.

Definition event_fits (ev : event) : Prop := match ev with EvClient op => op_fits op | _ => True end.

Abbreviation trace := (list (event * option reply)).

(** A call that reported failure. *)
Definition failed (r : option reply) : bool := match r with Some (s, _) => negb (ok s) | None => false end.

(** The abstract database: the history of mutations after [recs0] and whether a
    call is under way. A call appends to the history, at once or, when it goes on to flush,
    before its reply; an installation may forget deletes. *)
Inductive spec_trace (recs0 : list entry) : trace -> bool -> list entry -> Prop :=
| trace_start : spec_trace recs0 [] false recs0
| trace_call tr recs op r recs' :
    spec_trace recs0 tr false recs -> spec_step recs op r recs' -> spec_trace recs0 (tr ++ [(EvClient op, Some r)]) false recs'
| trace_begin tr recs op :
    spec_trace recs0 tr false recs -> (forall k, op <> CGet k) ->
    spec_trace recs0 (tr ++ [(EvClient op, None)]) true (applied recs op)
| trace_publish tr recs s :
    spec_trace recs0 tr true recs -> spec_trace recs0 (tr ++ [(EvPublish, Some (s, None))]) false recs
| trace_install tr busy recs recs' :
    spec_trace recs0 tr busy recs -> (forall k, forgets (assoc recs k) (assoc recs' k)) ->
    spec_trace recs0 (tr ++ [(EvInstall, None)]) busy recs'
| trace_background tr busy recs ev :
    spec_trace recs0 tr busy recs -> ev ∈ [EvWake; EvLoop; EvMerge; EvShutdown] -> spec_trace recs0 (tr ++ [(ev, None)]) busy recs.

(** ** The history of a trace *)

Definition history_step (hist : list entry) (x : event * option reply) : list entry :=
  match x.1 with EvClient op => applied hist op | _ => hist end.

(** The mutations of a trace, newest first, after the history [hist]. *)
Definition history (hist : list entry) (tr : trace) : list entry := fold_left history_step tr hist.

(** A put or delete that reported failure. *)
Definition lost (x : event * option reply) : bool :=
  match x.1 with EvClient (CPut _ _ | CDelete _) => failed x.2 | _ => false end.

Lemma failed_lost x : failed x.2 = false -> lost x = false.
Proof. unfold lost. destruct x.1 as [[]| | | | | |]; done. Qed.

Lemma history_snoc hist tr x : history hist (tr ++ [x]) = history_step (history hist tr) x.
Proof. unfold history. by rewrite fold_left_app. Qed.

Lemma forgets_applied recs recs' op k :
  forgets (assoc recs k) (assoc recs' k) -> forgets (assoc (applied recs op) k) (assoc (applied recs' op) k).
Proof. intros Hf. destruct op as [key value|key|key|]; [apply (forgets_app [_]), Hf..|exact Hf|exact Hf]. Qed.

(** What a caller sees of a record that may have been forgotten. *)
Lemma forgets_lookup x y :
  forgets x y ->
  match x with
  | Some e => if is_tombstone_type (e_type e) then lookup_of y = (LookupResult.kDeleted, None) \/ lookup_of y = (LookupResult.kNotFound, None)
              else lookup_of y = (LookupResult.kFound, Some (e_value e))
  | None => lookup_of y = (LookupResult.kNotFound, None)
  end.
Proof.
  intros [E|[(e & -> & He) ->]]; [|rewrite He; by right]. rewrite E. destruct x as [e|]; [|done]. cbn [lookup_of].
  destruct (is_tombstone_type (e_type e)); [by left|done].
Qed.

(** The abstract database is the history, when no mutation reported failure. *)
Lemma trace_history recs0 tr busy recs :
  spec_trace recs0 tr busy recs -> Forall (fun x => lost x = false) tr ->
  forall k, forgets (assoc (history recs0 tr) k) (assoc recs k).
Proof.
  intros Htr Hl k. revert Hl. induction Htr as [|tr recs op r recs' _ IH Hs|tr recs op _ IH _|tr recs st _ IH|tr busy recs recs' _ IH Hf|tr busy recs ev _ IH Hev].
  { intros _. apply forgets_refl. }
  all: intros [Hl Hx]%Forall_app; rewrite Forall_singleton in Hx; specialize (IH Hl); rewrite history_snoc; cbn [history_step fst].
  - destruct Hs as [key value st|key value st Hst|key st|key st Hst|key|st]; try exact IH; try (apply (forgets_app [_]), IH).
    all: unfold lost, failed in Hx; cbn [fst snd] in Hx; rewrite Hst in Hx; done.
  - by apply forgets_applied.
  - exact IH.
  - by eapply forgets_trans.
  - destruct ev; (exact IH || set_solver).
Qed.

(** A lookup of the trace answers from the history before it. *)
Lemma trace_reads recs0 tr busy recs i k r :
  spec_trace recs0 tr busy recs -> Forall (fun x => lost x = false) tr -> tr !! i = Some (EvClient (CGet k), Some r) ->
  exists recs', forgets (assoc (history recs0 (take i tr)) k) (assoc recs' k) /\ r = (Status_OK, Some (lookup_of (assoc recs' k))).
Proof.
  intros Htr. revert i.
  assert (forall tr x, (forall i, Forall (fun x => lost x = false) tr -> tr !! i = Some (EvClient (CGet k), Some r) ->
      exists recs', forgets (assoc (history recs0 (take i tr)) k) (assoc recs' k) /\ r = (Status_OK, Some (lookup_of (assoc recs' k)))) ->
    (Forall (fun x => lost x = false) tr -> x = (EvClient (CGet k), Some r) ->
      exists recs', forgets (assoc (history recs0 tr) k) (assoc recs' k) /\ r = (Status_OK, Some (lookup_of (assoc recs' k)))) ->
    forall i, Forall (fun x => lost x = false) (tr ++ [x]) -> (tr ++ [x]) !! i = Some (EvClient (CGet k), Some r) ->
      exists recs', forgets (assoc (history recs0 (take i (tr ++ [x]))) k) (assoc recs' k) /\ r = (Status_OK, Some (lookup_of (assoc recs' k)))) as Hsnoc.
  { intros tr0 x IH Hx i [Hl _]%Forall_app Hi. destruct (decide (i < length tr0)%nat) as [Hlt|Hge].
    - rewrite lookup_app_l in Hi by done. rewrite take_app_le by lia. by apply IH.
    - rewrite lookup_app_r in Hi by lia. apply list_lookup_singleton_Some in Hi as [Hi Hx']. replace i with (length tr0) by lia.
      rewrite take_app_length. by apply Hx. }
  induction Htr as [|tr recs op r' recs' Htr IH Hs|tr recs op Htr IH Hop|tr recs st _ IH|tr busy recs recs' _ IH Hf|tr busy recs ev _ IH Hev];
    intros i; try (apply Hsnoc; [exact IH|]; intros _ [= ]; done).
  - done.
  - apply Hsnoc; [exact IH|]. intros Hl [= -> <-]. exists recs. split; [by eapply trace_history|]. by inversion Hs.
Qed.

Lemma pick_total o v next ess :
  version_ok v ess -> numbers_ok next v -> 1 <= l0_compaction_trigger o -> NeedsCompaction o (Some v) = true ->
  exists c, PickCompaction o (Some v) = Ok (Some c).
Proof.
  intros [_ _ Hc] [_ _ Hn] Ht. destruct v as [|l0 deeper]; [done|]. cbn [head default id] in Hn.
  unfold NeedsCompaction, PickCompaction. destruct (l0_triggered o l0) eqn:E.
  - intros _. rewrite (sort_newer _ Hn). destruct (rev l0) as [|f tl] eqn:Er; [|by eexists].
    apply (f_equal (@length _)) in Er. rewrite length_rev in Er. destruct l0; [|done].
    unfold l0_triggered in E. change (to_int (blen (@nil FileMeta))) with 0 in E. lia.
  - generalize (l0 :: deeper) as v. intros v Hneed. enough (exists c, pick_level o v 1 deeper = Some c) as [c ->] by eauto.
    clear -Hneed. revert Hneed. generalize 1%nat as i. induction deeper as [|l deeper IH]; intros i; cbn [needs_level pick_level]; [done|].
    destruct (below_max o i); [|done]. unfold over_budget. destruct l as [|f l]; [by apply IH|]. rewrite bool_decide_eq_false_2 by done. cbn [negb andb].
    destruct (Z.ltb_spec (level_budget o i) (level_bytes (f :: l))).
    + intros _. zbool. by eexists.
    + zbool. apply IH.
Qed.


(** The file numbers that the background thread holds. *)
Definition bg_numbers (ph : BgPhase) : list Z :=
  match ph with
  | BgMerging _ mv => mv_taken mv
  | BgMerged _ outputs => map fm_number outputs
  | _ => []
  end.

Section Interleaving.
Context `{Os} `{MemEnv}.

(** The runs of the system, each event taken in a state that allows it and is
    within [capacity]. *)
Inductive sys_run (s0 : Sys) : trace -> Sys -> Prop :=
| run_start : sys_run s0 [] s0
| run_event tr s ev r s' :
    sys_run s0 tr s -> enabled s ev = true -> capacity (s_db s) = true -> event_fits ev -> sys_exec s ev = Ok (r, s') ->
    sys_run s0 (tr ++ [(ev, r)]) s'.

(** The system at its start after [DB::Open]; system calls go on as [os] says. *)
Definition opened (d : DB) (σ : World) (os : list io_outcome) : Sys := mkSys d (mkWorld (fs σ) os) ClIdle BgLoop false false.

(** The states in which [DB::Open] leaves the system over a disk that shows [recs]. *)
Inductive starts (o : Options) (dir : bytes) (recs : list entry) : Sys -> Prop :=
| starts_open σ0 d σ1 os :
    disk_shows o dir σ0 recs -> DB_Open o dir σ0 = (Ok d, σ1) -> capacity d = true -> starts o dir recs (opened d σ1 os).

(** Options within the limits of the table format, with a trigger for level 0. *)
Record usable (o : Options) : Prop := {
  us_bits : 0 <= bloom_bits_per_key o <= 100;
  us_trigger : 1 <= l0_compaction_trigger o;
  us_cache : block_cache_bytes o < 2 ^ 63 }.

(** What holds of a client in the middle of a flush. *)
Definition client_ok (d : DB) (σ : World) (v : Version) (R : list SSTableReader) (mes : list entry) (ks : list Z)
    (ph : ClientPhase) (busy : bool) : Prop :=
  match ph with
  | ClIdle => busy = false
  | ClPublish fm w => busy = true /\ unpublished d v R mes fm /\ stored d σ fm /\ w_fd_ w = None /\ fm_number fm ∉ ks
  end.

(** What holds of the background thread, which has [left] records to merge. *)
Definition bg_ok (d : DB) (σ : World) (v : Version) (R : list SSTableReader) (ess : contents) (ph : BgPhase) (busy : bool) (left : nat) : Prop :=
  match ph with
  | BgMerging c mv => busy = true /\ merging d σ R v ess c mv left /\ (left < compact_fuel c)%nat
  | BgMerged c outputs => busy = true /\ pending d σ R v ess c outputs
  | BgWaiting | BgStopped => busy = false
  | BgLoop => True
  end.

(** The invariant of the system, with the version, the known readers and the
    records that it is about; [lim] bounds the file numbers handed out. *)
Record sys_at (o : Options) (lim : Z) (left : nat) (s : Sys) (busy : bool)
    (v : Version) (R : list SSTableReader) (mes : list entry) (ess : contents) : Prop := {
  sa_db : db_ok (s_db s) v R mes ess;
  sa_options : options_ (s_db s) = o;
  sa_wal : wal_home (s_db s);
  sa_mem : blen mes <= 2 ^ 25;
  sa_next : next_file_number_ (s_db s) <= lim;
  sa_client : client_ok (s_db s) (s_world s) v R mes (bg_numbers (s_bg s)) (s_client s) busy;
  sa_bg : bg_ok (s_db s) (s_world s) v R ess (s_bg s) (bg_busy_ s) left }.

Definition sys_inv (o : Options) (lim : Z) (left : nat) (s : Sys) (busy : bool) (recs : list entry) : Prop :=
  exists v R mes ess, sys_at o lim left s busy v R mes ess /\ (forall k, assoc (db_records mes ess) k = assoc recs k).

Lemma bg_range d σ v R ess ph busy left : bg_ok d σ v R ess ph busy left -> Forall (fun k => 0 <= k < next_file_number_ d) (bg_numbers ph).
Proof.
  destruct ph as [| |c mv|c outputs|]; cbn [bg_ok bg_numbers]; try (intros; constructor).
  - intros [_ ([(p & outs & cur & out & _ & _ & _ & _ & [_ _ Hr _ _] & _) _ _ _] & _)]. exact Hr.
  - by intros [_ [_ _ Hr _ _ _]].
Qed.

(** A step of the client leaves the background thread where it is. *)
Lemma bg_moved d σ v R ess ph busy left d' σ' v' R' ess' :
  bg_ok d σ v R ess ph busy left -> grown (bg_numbers ph) v ess R v' ess' R' ->
  dir_ d' = dir_ d -> options_ d' = options_ d -> next_file_number_ d <= next_file_number_ d' ->
  (forall k, 0 <= k < next_file_number_ d -> fs σ' !! FilePath d k = fs σ !! FilePath d k) ->
  bg_ok d' σ' v' R' ess' ph busy left.
Proof.
  intros Hbg Hg Hdir Ho Hn Hfs. pose proof (bg_range _ _ _ _ _ _ _ _ Hbg) as Hr. rewrite Forall_forall in Hr.
  destruct ph as [| |c mv|c outputs|]; cbn [bg_ok bg_numbers] in *; try done.
  - destruct Hbg as [Hb (Hm & Hl)]. split; [done|]. split; [|done].
    eapply merging_moved; try done. intros k Hk. by apply Hfs, Hr.
  - destruct Hbg as [Hb Hp]. split; [done|]. eapply pending_moved; try done. intros k Hk. by apply Hfs, Hr.
Qed.

(** A step of the background thread, which holds the numbers [ks] before and
    [ks'] after it, leaves the flushed table unpublished. *)
Lemma client_moved d σ v R mes ks ph busy d' σ' v' R' ks' :
  client_ok d σ v R mes ks ph busy -> dir_ d' = dir_ d -> next_file_number_ d <= next_file_number_ d' ->
  default [] (head v') ⊆ default [] (head v) ->
  (forall n, n ∈ live_numbers v' -> n ∈ live_numbers v \/ n ∈ ks) ->
  (forall r, r ∈ R' -> r ∈ R \/ file_number_ r ∈ ks \/ next_file_number_ d <= file_number_ r) ->
  (forall k, k ∈ ks' -> k ∈ ks \/ next_file_number_ d <= k) ->
  (forall k, 0 <= k < next_file_number_ d -> k ∉ ks -> k ∉ live_numbers v -> fs σ' !! FilePath d k = fs σ !! FilePath d k) ->
  client_ok d' σ' v' R' mes ks' ph busy.
Proof.
  destruct ph as [|fm w]; [done|]. intros (Hb & [Hfm [Hold Hnew Hl0] Hrd] & Hst & Hfd & Hks) Hdir Hn Hhead Hlive HR Hks' Hfs.
  split_and!; try done.
  - split; [done| |].
    + split; [lia| |].
      * intros Hin. destruct (Hlive _ Hin); [by apply Hnew|done].
      * rewrite Forall_forall in *. intros f Hf. by apply Hl0, Hhead.
    + intros (r & E & Hin%list_elem_of_In)%list_elem_of_In%in_map_iff. rewrite <- E in *. destruct (HR r Hin) as [Hr|[Hr|Hr]]; [|done|lia].
      apply Hrd. by apply list_elem_of_In, in_map, list_elem_of_In.
  - eapply stored_kept; [done| |exact Hst]. by apply Hfs.
  - intros Hin. destruct (Hks' _ Hin); [done|lia].
Qed.

Section WithOptions.
Variable o : Options.
Hypothesis Hbits : 0 <= bloom_bits_per_key o <= 100.
Hypothesis Htrigger : 1 <= l0_compaction_trigger o.

Lemma capacity_spec d v R mes ess :
  db_ok d v R mes ess -> blen mes <= 2 ^ 25 -> capacity d = true ->
  blen mes < 2 ^ 25 /\ entries v <= 2 ^ 25 /\ next_file_number_ d < 2 ^ 29.
Proof.
  intros Hd Hm. unfold capacity. rewrite (do_current _ _ _ _ _ Hd), (sl_size _ _ (do_mem _ _ _ _ _ Hd)).
  pose proof (blen_nonneg mes). rewrite u64_small by lia. intros [Ha Hb]%andb_prop.
  destruct (version_cells _ _ (do_version _ _ _ _ _ Hd)) as (cs & -> & ->).
  pose proof (do_version _ _ _ _ _ Hd) as (Hok & _)%version_ok_cells. rewrite (entries_cells _ Hok) in *.
  pose proof (blen_nonneg (recs (concat cs))). lia.
Qed.

(** A turn of [BackgroundLoop]. *)
Lemma loop_step lim n s busy v R mes ess :
  sys_at o lim n s busy v R mes ess -> s_bg s = BgLoop -> entries v <= 2 ^ 25 ->
  exists s' left, loop_turn s = Ok s' /\ sys_at o lim left s' busy v R mes ess /\
    s_db s' = s_db s /\ s_world s' = s_world s /\ s_client s' = s_client s /\
    match s_bg s' with
    | BgStopped => shutting_down_ s = true
    | BgWaiting => NeedsCompaction o (Some v) = false
    | BgMerging c mv => PickCompaction o (Some v) = Ok (Some c) /\ mv_taken mv = [] /\ shutting_down_ s' = shutting_down_ s
    | _ => False
    end.
Proof.
  intros [Hd Ho Hw Hm Hn Hcl _] Hph Hent. unfold loop_turn. rewrite Hph in Hcl.
  assert (forall ph q, bg_numbers ph = [] -> (forall c mv, ph <> BgMerging c mv) -> (forall c os, ph <> BgMerged c os) ->
    sys_at o lim 0 (mkSys (s_db s) (s_world s) (s_client s) ph false q) busy v R mes ess) as Hsame.
  { intros ph q Hks H1 H2. split; cbn [s_db s_world s_bg s_client bg_busy_]; rewrite ?Hks; try done.
    destruct ph; cbn; try done; [by destruct (H1 c mv)|by destruct (H2 c outputs)]. }
  destruct (shutting_down_ s) eqn:Esd; [by eexists _, 0%nat; split; [|split; [apply Hsame|]]|].
  rewrite Ho, (do_current _ _ _ _ _ Hd) in *.
  destruct (NeedsCompaction o (Some v)) eqn:En; cbn [negb]; [|by eexists _, 0%nat; split; [|split; [apply Hsame|]]].
  destruct (pick_total o v _ ess (do_version _ _ _ _ _ Hd) (do_numbers _ _ _ _ _ Hd) Htrigger En) as [c Hc].
  rewrite Hc. cbn [rbind].
  destruct (merging_start (s_db s) v R mes ess c (s_world s) Hd) as (m & left & -> & Hmg & Hl); [by rewrite Ho|done|]. cbn [rbind].
  eexists _, left. split; [done|]. split; [|done]. by split.
Qed.

Lemma destroy_output_fs st : fs (destroy_output st) = fs (cs_world st).
Proof. unfold destroy_output. destruct (cs_w st); [apply destroy_fs|done]. Qed.

(** A turn of a merge touches only the files of the numbers that the merge has
    or draws. *)
Lemma merge_step lim left s busy v R mes ess c mv :
  sys_at o lim left s busy v R mes ess -> s_bg s = BgMerging c mv -> lim < 2 ^ 30 ->
  exists s' left' R', merge_turn s c mv = Ok s' /\ sys_at o (lim + 1) left' s' busy v R' mes ess /\
    same_db (s_db s) (s_db s') /\ next_file_number_ (s_db s) <= next_file_number_ (s_db s') /\
    shutting_down_ s' = shutting_down_ s /\ s_client s' = s_client s /\
    (forall k, k ∈ bg_numbers (s_bg s') -> k ∈ mv_taken mv \/ next_file_number_ (s_db s) <= k) /\
    (forall p, (forall k, is_u64 k -> k ∈ mv_taken mv \/ next_file_number_ (s_db s) <= k -> p <> FilePath (s_db s) k) ->
       fs (s_world s') !! p = fs (s_world s) !! p) /\
    match s_bg s' with
    | BgMerging c' _ => c' = c /\ left = S left'
    | BgMerged c' _ => c' = c
    | BgLoop => True
    | _ => False
    end.
Proof.
  intros [Hd Ho Hw Hm Hn Hcl Hbg] Hph Hlim. rewrite Hph in *. cbn [bg_numbers] in *.
  pose proof (bg_range _ _ _ _ _ _ _ _ Hbg) as Hrng. destruct Hbg as [Hb (Hmg & Hl)]. cbn [bg_numbers] in Hrng. unfold merge_turn.
  destruct (merging_turn (s_db s) v R mes ess c mv left (s_world s) Hd Hmg) as (next & st & cs & -> & Hfr & Hnx & R' & HR & Hnew & Hd' & Hres);
    [lia|by rewrite Ho|]. cbn [rbind].
  pose proof Hfr as [Hsame _ (n & Hn0 & Htk & Hnn) Hfs]. cbn [resume cs_db cs_world] in *.
  assert (forall k, k ∈ taken cs -> is_u64 k /\ (k ∈ mv_taken mv \/ next_file_number_ (s_db s) <= k)) as Htk'.
  { intros k. rewrite Htk. pose proof (do_next _ _ _ _ _ Hd). rewrite Forall_forall in Hrng. unfold is_u64.
    intros [Hk|Hk%elem_of_seqZ]%elem_of_app; [|split; [lia|right; lia]]. specialize (Hrng k Hk). simpl in Hrng. split; [lia|by left]. }
  assert (forall p, (forall k, is_u64 k -> k ∈ mv_taken mv \/ next_file_number_ (s_db s) <= k -> p <> FilePath (s_db s) k) ->
    fs (cs_world cs) !! p = fs (s_world s) !! p) as Hfs'.
  { intros p Hp. apply Hfs. intros k Hk. destruct (Htk' k Hk). by apply Hp. }
  assert (forall σ' ph left', fs σ' = fs (cs_world cs) -> (forall k, k ∈ bg_numbers ph -> k ∈ taken cs) ->
    bg_ok (cs_db cs) σ' v R' ess ph true left' ->
    sys_at o (lim + 1) left' (mkSys (cs_db cs) σ' (s_client s) ph (bg_busy_ s) (shutting_down_ s)) busy v R' mes ess) as Hgo.
  { intros σ' ph left' Eσ Hks Hbg. destruct Hsame as (Hopt & Hdir & _ & _ & Hwl & _).
    split; cbn [s_db s_world s_client s_bg bg_busy_]; rewrite ?Hb; try done; [congruence|unfold wal_home, wal_of in *; rewrite Hwl, Hdir; done|lia|].
    eapply client_moved; [exact Hcl|done|lia|done|by left| | |].
    - intros r Hr. destruct (Hnew r Hr) as [?|Hk]; [by left|right; by apply Htk'].
    - intros k Hk. by apply Htk', Hks.
    - intros k Hk Hnot _. rewrite Eσ. apply Hfs'. intros k' Hu' Hk' E. apply FilePath_inj in E; [|unfold is_u64; lia|done].
      subst k'. destruct Hk'; [done|lia]. }
  destruct next as [m'|].
  - destruct Hres as (left' & -> & Hmg'). eexists _, left', R'. split; [done|]. split; [|split_and!; try done; [cbn; lia|]].
    + apply Hgo; [done|done|]. split; [done|]. split; [done|lia].
    + intros k Hk. by apply Htk'.
  - eexists _, 0%nat, R'. split; [done|]. destruct (ok st) eqn:Es; cbn [negb s_db s_world s_client s_bg bg_numbers shutting_down_].
    + split; [|split_and!; try done; [lia|]].
      * apply Hgo; [done| |by split; [|apply Hres]]. intros k Hk. unfold taken. apply elem_of_app. by left.
      * intros k Hk. apply Htk'. unfold taken. apply elem_of_app. by left.
    + split; [|split_and!; try done; [lia|by intros k ?%elem_of_nil|by rewrite destroy_output_fs]].
      apply Hgo; [apply destroy_output_fs|by intros k ?%elem_of_nil|done].
Qed.

(** The installation of a merge. *)
Lemma install_step lim left s busy v R mes ess c outputs :
  sys_at o lim left s busy v R mes ess -> s_bg s = BgMerged c outputs -> lim <= 2 ^ 30 ->
  let nv := InstallCompaction v c outputs in
  exists st d' σ' ess', compact_install (s_db s) c outputs (s_world s) = Ok (st, d', σ') /\ d' = set_current (s_db s) (Some nv) /\
    installed (next_file_number_ (s_db s)) v ess c outputs nv ess' /\
    sys_at o lim 0 (mkSys d' σ' (s_client s) BgLoop (bg_busy_ s) (shutting_down_ s)) busy nv R mes ess' /\
    kept_but (ManifestTmp (s_db s) :: ManifestPath (s_db s) ::
              if ok st then map (fun f => FilePath (s_db s) (fm_number f)) (c_inputs c) else []) (s_world s) σ' /\
    fs σ' !! ManifestPath (s_db s) =
      if ok st then let buf := manifest_bytes (next_file_number_ (s_db s)) nv in Some (mkFile buf (blen buf))
      else fs (s_world s) !! ManifestPath (s_db s).
Proof.
  intros [Hd Ho Hw Hm Hn Hcl Hbg] Hph Hlim nv. rewrite Hph in *. cbn [bg_ok bg_numbers] in *.
  destruct Hbg as [Hb Hp]. destruct (install_pending (s_db s) v R mes ess c outputs (s_world s) Hd Hp ltac:(lia))
    as (st & d' & σ' & ess' & -> & -> & Hin & Hd' & Hkept & Hman). fold nv in Hin, Hd', Hman.
  pose proof Hin as [Hv' Hno' Hl' Hfg (rest & Hold & Hnew) Hl0 Hlen].
  eexists st, _, _, ess'. split; [done|]. split; [done|]. split; [done|]. split; [|done].
  split; try done. cbn [s_db s_world s_client s_bg bg_numbers].
  eapply client_moved; [exact Hcl|done|done|done| |by left|by intros k ?%elem_of_nil|].
  - unfold live_numbers. intros n. rewrite Hnew, Hold, !map_app, !elem_of_app. tauto.
  - intros k Hk _ Hlive. apply Hkept. assert (is_u64 k) by (unfold is_u64; lia). rewrite !not_elem_of_cons.
    split_and!; [by apply file_ne_tmp|by apply file_ne_manifest|]. destruct (ok st); [|apply not_elem_of_nil].
    intros (f & E & Hi%list_elem_of_In)%list_elem_of_In%in_map_iff. apply Hlive. unfold live_numbers. rewrite Hold, map_app.
    apply elem_of_app. left. pose proof (no_old _ _ (do_numbers _ _ _ _ _ Hd)) as Hno. rewrite Hold in Hno.
    apply Forall_app in Hno as [Hno _]. rewrite Forall_forall in Hno. specialize (Hno f Hi).
    apply FilePath_inj in E as <-; [|unfold is_u64; lia|done]. by apply list_elem_of_In, in_map, list_elem_of_In.
Qed.

(** A call of the client up to its publication. *)
Lemma begin_step lim left s busy v R mes ess recs op :
  sys_at o lim left s busy v R mes ess -> s_client s = ClIdle -> op_fits op ->
  (forall k, assoc (db_records mes ess) k = assoc recs k) -> blen mes < 2 ^ 25 -> lim < 2 ^ 30 ->
  exists r ph d' σ' mes' recs', client_begin (s_db s) op (s_world s) = Ok (r, ph, d', σ') /\
    sys_at o (lim + 1) left (mkSys d' σ' ph (s_bg s) (bg_busy_ s) (shutting_down_ s)) (if r then false else true) v R mes' ess /\
    (forall k, assoc (db_records mes' ess) k = assoc recs' k) /\
    begins (s_db s) v R mes ess (s_world s) d' mes' σ' /\ begun (next_file_number_ (s_db s)) mes' r ph d' σ' /\
    logged (s_db s) op mes (s_world s) r mes' σ' /\
    match r with
    | Some rep => spec_step recs op rep recs'
    | None => recs' = applied recs op /\ forall k, op <> CGet k
    end.
Proof.
  intros [Hd Ho Hw Hm Hn Hcl Hbg] Hph Hfit Hview Hsize Hlim.
  destruct (client_begin_spec (s_db s) v R mes ess recs op (s_world s) Hd Hview Hfit Hw)
    as (r & ph & d' & σ' & mes' & recs' & -> & Hbe & Hview' & Hbegun & Hlog & Hspec); [lia|by rewrite Ho|lia|].
  exists r, ph, d', σ', mes', recs'. split; [done|]. split; [|done]. pose proof (do_next _ _ _ _ _ Hd) as Hn1.
  destruct Hbe as [Hd' Hlen Hopt Hdir Hwl Hnx Hk].
  split; cbn [s_db s_world s_client s_bg bg_busy_]; try done; try lia.
  - congruence.
  - unfold wal_home, wal_of in *. by rewrite Hwl, Hdir.
  - destruct ph as [|fm w]; cbn [client_ok begun] in *; [by destruct Hbegun as [? ->]|].
    destruct Hbegun as (-> & _ & Hfm & Hnum & Hnx' & Hfd & Hst). split; [done|]. split; [by eapply (next_unpublished (s_db s) d' v R mes ess)|].
    split_and!; try done. intros Hin. pose proof (bg_range _ _ _ _ _ _ _ _ Hbg) as Hr. rewrite Forall_forall in Hr. specialize (Hr _ Hin). lia.
  - eapply bg_moved; [exact Hbg|by left|done|done|lia|]. intros k Hkn. apply Hk. assert (is_u64 k) by (unfold is_u64; lia).
    rewrite !not_elem_of_cons. split_and!; [by apply file_ne_wal| |apply not_elem_of_nil].
    intros E. apply FilePath_inj in E; [lia|done|unfold is_u64; lia].
Qed.

(** The publication of a flushed table. *)
Lemma publish_step lim left s busy v R mes ess fm w :
  sys_at o lim left s busy v R mes ess -> s_client s = ClPublish fm w -> lim <= 2 ^ 30 ->
  exists st d' σ' mes', publish_table (s_db s) fm w (s_world s) = Ok (st, d', σ') /\
    sys_at o lim left (mkSys d' σ' ClIdle (s_bg s) (bg_busy_ s) (shutting_down_ s)) false
      (push_file v fm) (fm_reader fm :: R) mes' (push_records ess mes) /\
    (mes' = mes \/ mes' = []) /\ dir_ d' = dir_ (s_db s) /\ next_file_number_ d' = next_file_number_ (s_db s) /\
    (forall k, assoc (db_records mes' (push_records ess mes)) k = assoc (db_records mes ess) k).
Proof.
  intros [Hd Ho Hw Hm Hn Hcl Hbg] Hph Hlim. rewrite Hph in Hcl.
  destruct Hcl as (_ & Hup & Hst & Hfd & Hnot).
  destruct (publish_shows (s_db s) v R mes ess fm w (s_world s) Hd Hup ltac:(lia))
    as (st & d' & σ' & mes' & E & Hd' & Hor & Hview' & Hopt & Hdir & Hnx). exists st, d', σ', mes'. split; [done|]. split; [|done].
  destruct (publish_frame _ _ _ _ _ _ _ E Hw) as [Hk Hw'].
  split; cbn [s_db s_world s_client s_bg bg_busy_]; try done; try lia.
  - congruence.
  - destruct Hor as [-> | ->]; [done|change (blen (@nil entry)) with 0; lia].
  - eapply bg_moved; [exact Hbg| |done|done|lia|].
    + right. exists fm, mes. split_and!; try done; [apply Hup|apply Hd].
    + intros k Hkn. apply Hk. assert (is_u64 k) by (unfold is_u64; lia).
      rewrite !not_elem_of_cons. split_and!; [by apply file_ne_tmp|by apply file_ne_manifest|by apply file_ne_wal|apply not_elem_of_nil].
Qed.

Lemma sys_at_lim lim lim' left s busy v R mes ess :
  sys_at o lim left s busy v R mes ess -> next_file_number_ (s_db s) <= lim' -> sys_at o lim' left s busy v R mes ess.
Proof. intros [? ? ? ? ? ? ?] Hl. by split. Qed.

(** Setting the flag of the destructor, and waking up. *)
Lemma wake_step lim left s busy v R mes ess down :
  sys_at o lim left s busy v R mes ess ->
  sys_at o lim left (mkSys (s_db s) (s_world s) (s_client s) (match s_bg s with BgWaiting => BgLoop | ph => ph end) (bg_busy_ s) down)
    busy v R mes ess.
Proof. intros [? ? ? ? ? Hcl Hbg]. split; try done; by destruct (s_bg s). Qed.

Lemma down_step lim left s busy v R mes ess :
  sys_at o lim left s busy v R mes ess ->
  sys_at o lim left (mkSys (s_db s) (s_world s) (s_client s) (s_bg s) (bg_busy_ s) true) busy v R mes ess.
Proof. intros [? ? ? ? ? Hcl Hbg]. by split. Qed.

(** Every event keeps the invariant, never faults, and is one of the abstract
    database. *)
Lemma sys_step recs0 left s busy recs tr ev :
  sys_inv o (2 ^ 29) left s busy recs -> spec_trace recs0 tr busy recs -> enabled s ev = true -> capacity (s_db s) = true -> event_fits ev ->
  exists r s' left' busy' recs', sys_exec s ev = Ok (r, s') /\ spec_trace recs0 (tr ++ [(ev, r)]) busy' recs' /\
    sys_inv o (2 ^ 29) left' s' busy' recs'.
Proof.
  intros (v & R & mes & ess & Hat & Hview) Htr Hen Hcap Hfit.
  destruct (capacity_spec _ _ _ _ _ (sa_db _ _ _ _ _ _ _ _ _ Hat) (sa_mem _ _ _ _ _ _ _ _ _ Hat) Hcap) as (Hsize & Hent & Hnx).
  pose proof (sys_at_lim _ (2 ^ 29 - 1) _ _ _ _ _ _ _ Hat ltac:(lia)) as Hat'.
  assert (forall ev', ev' ∈ [EvWake; EvLoop; EvMerge; EvShutdown] -> spec_trace recs0 (tr ++ [(ev', None)]) busy recs) as Hback
    by (intros; by constructor).
  pose proof (sa_client _ _ _ _ _ _ _ _ _ Hat) as Hcl. unfold sys_inv.
  destruct ev as [op| | | | | |]; cbn [sys_exec enabled] in *.
  - destruct (s_client s) as [|fm w] eqn:Ecl; [|done]. cbn [client_ok] in Hcl. subst busy.
    destruct (begin_step (2 ^ 29 - 1) left s false v R mes ess recs op Hat' Ecl Hfit Hview Hsize ltac:(lia))
      as (r & ph & d' & σ' & mes' & recs' & -> & Hs & Hv' & _ & _ & _ & Hsp).
    cbn [rbind]. eexists r, _, left, _, recs'. split; [done|]. split; [|by eexists _, _, _, _].
    destruct r as [rep|]; [by eapply trace_call|]. destruct Hsp as [-> Hop]. by apply trace_begin.
  - destruct (s_client s) as [|fm w] eqn:Ecl; [done|]. assert (busy = true) as -> by apply Hcl.
    destruct (publish_step (2 ^ 29) left s true v R mes ess fm w Hat Ecl ltac:(lia)) as (st & d' & σ' & mes' & -> & Hs & _ & _ & _ & Hv').
    cbn [rbind]. eexists _, _, left, false, recs. split; [done|]. split; [by apply trace_publish|].
    eexists _, _, _, _. split; [exact Hs|]. intros k. by rewrite Hv'.
  - destruct (s_bg s) eqn:Eb; try by destruct (s_client s).
    pose proof (wake_step _ _ _ _ _ _ _ _ (shutting_down_ s) Hat) as Hs. rewrite Eb in Hs.
    destruct (s_client s) eqn:Ecl; eexists None, _, left, busy, recs; (split; [done|]); (split; [apply Hback; set_solver|by eexists _, _, _, _]).
  - destruct (s_bg s) eqn:Eb; try by destruct (s_client s).
    destruct (loop_step _ left s busy v R mes ess Hat Eb Hent) as (s' & left' & E & Hs & _). rewrite E. cbn [rbind].
    destruct (s_client s) eqn:Ecl; (eexists None, s', left', busy, recs; split; [done|]; split; [apply Hback; set_solver|by eexists _, _, _, _]).
  - destruct (s_bg s) eqn:Eb; try by destruct (s_client s).
    destruct (merge_step _ left s busy v R mes ess c mv Hat' Eb ltac:(lia)) as (s' & left' & R' & E & Hs & _). rewrite E. cbn [rbind].
    destruct (s_client s) eqn:Ecl; (eexists None, s', left', busy, recs; split; [done|]; split; [apply Hback; set_solver|by eexists _, _, _, _]).
  - destruct (s_bg s) eqn:Eb; try by destruct (s_client s).
    destruct (install_step _ left s busy v R mes ess c outputs Hat Eb ltac:(lia)) as (st & d' & σ' & ess' & E & -> & Hin & Hs & _).
    rewrite E. cbn [rbind].
    assert (spec_trace recs0 (tr ++ [(EvInstall, None)]) busy (db_records mes ess')) as Htr'.
    { eapply trace_install; [done|]. intros k. rewrite <- Hview. apply forgets_app, Hin. }
    destruct (s_client s) eqn:Ecl; (eexists None, _, 0%nat, busy, _; split; [done|]; split; [exact Htr'|by eexists _, _, _, _]).
  - destruct (s_client s) as [|fm w] eqn:Ecl; [|done]. eexists None, _, left, busy, recs. split; [done|].
    split; [apply Hback; set_solver|]. pose proof (down_step _ _ _ _ _ _ _ _ Hat) as Hs. rewrite Ecl in Hs. by eexists _, _, _, _.
Qed.

(** What [DB::Open] rebuilds satisfies the invariant. *)
Lemma open_at dir σ nx v ess log d σ1 os :
  io σ = [] -> block_cache_bytes o < 2 ^ 63 -> disk_state (DB_new o dir) σ nx v ess -> log_replays (DB_new o dir) σ log ->
  Forall rec_fits log -> blen log <= 2 ^ 25 -> DB_Open o dir σ = (Ok d, σ1) -> capacity d = true ->
  sys_at o (2 ^ 29) 0 (opened d σ1 os) false v (readers v) (apply_ops log []) ess /\
  exists mem, d = reopened o dir v nx mem /\ σ1 = RemoveOrphanFiles d v (open_append (wal_path_of dir) σ).2.
Proof.
  intros Hio Hc Hst Hrep Hfit Hlen E Hcap. destruct (open_rebuilds o dir σ nx v ess log Hio Hc Hst Hrep Hfit) as (mem & E' & Hd).
  rewrite E in E'. injection E' as -> ->. split; [|by exists mem].
  assert (blen (apply_ops log []) <= 2 ^ 25) as Hmes by (pose proof (apply_ops_length log); unfold blen in *; lia).
  destruct (capacity_spec _ _ _ _ _ Hd Hmes Hcap) as (_ & _ & Hnx).
  split; try done; [by intros p [= <-]|cbn in *; lia].
Qed.

Lemma sys_run_inv dir recs0 s0 tr s :
  block_cache_bytes o < 2 ^ 63 -> starts o dir recs0 s0 -> sys_run s0 tr s ->
  exists left busy recs, spec_trace recs0 tr busy recs /\ sys_inv o (2 ^ 29) left s busy recs.
Proof.
  intros Hc Hst. induction 1 as [|tr s ev r s' _ (left & busy & recs & Htr & Hinv) Hen Hcap Hfit E].
  - exists 0%nat, false, recs0. split; [constructor|].
    destruct Hst as [σ0 d σ1 os (Hio & nx & v & ess & log & Hst & Hrep & Hfit & Hlen & Hview) E Hcap].
    destruct (open_at dir σ0 nx v ess log d σ1 os) as [Hat _]; try done. by exists v, (readers v), (apply_ops log []), ess.
  - destruct (sys_step recs0 left s busy recs tr ev Hinv Htr Hen Hcap Hfit) as (r' & s1 & left' & busy' & recs' & E' & Htr' & Hinv').
    rewrite E in E'. injection E' as -> ->. by exists left', busy', recs'.
Qed.

End WithOptions.

(** Running a list of events; [None] when a state does not allow one or is out of
    capacity, or a step faults. *)
Fixpoint sys_exec_all (s : Sys) (evs : list event) : option (trace * Sys) :=
  match evs with
  | [] => Some ([], s)
  | ev :: evs' =>
      if enabled s ev && capacity (s_db s) then
        match sys_exec s ev with
        | Ok (r, s') => match sys_exec_all s' evs' with Some (tr, s'') => Some ((ev, r) :: tr, s'') | None => None end
        | _ => None
        end
      else None
  end.

Lemma sys_exec_all_run s0 tr0 s evs tr s' :
  sys_run s0 tr0 s -> Forall event_fits evs -> sys_exec_all s evs = Some (tr, s') -> sys_run s0 (tr0 ++ tr) s'.
Proof.
  intros Hrun Hf. revert tr0 s tr Hrun. induction Hf as [|ev evs Hev _ IH]; intros tr0 s tr Hrun; cbn [sys_exec_all].
  { intros [= <- <-]. by rewrite app_nil_r. }
  destruct (enabled s ev) eqn:En; [|done]. destruct (capacity (s_db s)) eqn:Ec; [|done]. cbn [andb].
  destruct (sys_exec s ev) as [[r s1]| |] eqn:Ee; [|done..].
  destruct (sys_exec_all s1 evs) as [[tr1 s2]|] eqn:Ea; [|done]. intros [= <- <-].
  change ((ev, r) :: tr1) with ([(ev, r)] ++ tr1). rewrite app_assoc. apply (IH _ s1); [|done]. by econstructor.
Qed.

End Interleaving.
