(* ===== verification/Refinement.v ===== *)
(** What the running system promises (src/db.cpp): the theorems about every
    interleaving of the client's calls with the background thread, the destructor
    [DB::~DB], and a sample run on which they are instantiated. *)
From S2P Require Import Prelude Types Bloom SkipList Cache Posix Wal TableFormat TableWriter.
From S2P Require Import TableReader Iterator TableIter Merge Version Db DbInvariant DbScan Compaction Leveling.
From S2P Require Import Manifest Merging Recovery.
From S2P Require Import Background.

(** ** Properties *)

(** C1 (refinement). A database that [DB::Open] opened on a disk that shows the
    records [recs0] goes on from them. For every interleaving of the caller's puts,
    deletes, lookups and flushes with the background thread, down to the single turns of
    its merge loops and the two locked sections of a flush, under every pattern of
    failing system calls: the replies are those of the history of mutations, where
    an installation may only turn a deleted key into an unknown one; in particular
    compaction never loses, revives or changes a value, also when files are
    numbered, written and flushed to level 0 in the middle of a merge. From every
    state so reached that is within capacity, every event it allows runs without a
    fault. *)
Theorem background_refines_history `{Os} `{MemEnv} o dir recs0 s0 tr s :
  usable o -> starts o dir recs0 s0 -> sys_run s0 tr s ->
  (exists busy recs, spec_trace recs0 tr busy recs) /\
  forall ev, enabled s ev = true -> capacity (s_db s) = true -> event_fits ev -> exists r s', sys_exec s ev = Ok (r, s').
Proof.
  intros [Hb Ht Hc] Hst Hrun. destruct (sys_run_inv o Hb Ht dir recs0 s0 tr s Hc Hst Hrun) as (left & busy & recs & Htr & Hinv).
  split; [by exists busy, recs|]. intros ev Hen Hcap Hfit.
  destruct (sys_step o Hb Ht recs0 left s busy recs tr ev Hinv Htr Hen Hcap Hfit) as (r & s' & _ & _ & _ & E & _). by exists r, s'.
Qed.

(** C3 (functional). The database is a map to its caller: from any state in which
    [DB::Open] leaves it and in every interleaving with the background thread, as
    long as no put or delete reported failure, each lookup of the session returned
    the value of the last put of its key before it, nothing if it was deleted since
    or never put, whatever flushes and merges came between. *)
Theorem reads_see_acknowledged_writes `{Os} `{MemEnv} o dir recs0 s0 tr s i k r :
  usable o -> starts o dir recs0 s0 -> sys_run s0 tr s -> Forall (fun x => lost x = false) tr ->
  tr !! i = Some (EvClient (CGet k), Some r) ->
  r.1 = Status_OK /\ exists a, r.2 = Some a /\
    match assoc (history recs0 (take i tr)) k with
    | Some e => if is_tombstone_type (e_type e) then a = (LookupResult.kDeleted, None) \/ a = (LookupResult.kNotFound, None)
                else a = (LookupResult.kFound, Some (e_value e))
    | None => a = (LookupResult.kNotFound, None)
    end.
Proof.
  intros [Hb Ht Hc] Hst Hrun Hl Hi. destruct (sys_run_inv o Hb Ht dir recs0 s0 tr s Hc Hst Hrun) as (left & busy & recs & Htr & _).
  destruct (trace_reads _ _ _ _ _ _ _ Htr Hl Hi) as (recs' & Hf & ->). split; [done|]. eexists. split; [done|]. by apply forgets_lookup.
Qed.

(** The arrangement of a call in two steps agrees with the sequential one. *)
Lemma split_call_is_call `{Os} `{MemEnv} d op σ : client_end (client_begin d op σ) = exec d op σ.
Proof.
  destruct op as [key value|key|key|]; cbn [client_begin exec].
  - unfold DB_Put. destruct (put_record d key value σ) as [[[s d1] σ1]| |]; [|done..]. cbn [rbind].
    destruct (negb (ok s)); [done|]. apply maybe_begin_end.
  - unfold DB_Delete. destruct (delete_record d key σ) as [[[s d1] σ1]| |]; [|done..]. cbn [rbind].
    destruct (negb (ok s)); [done|]. apply maybe_begin_end.
  - by destruct (DB_Get d key) as [[a d1]| |].
  - apply flush_begin_end.
Qed.

(** C5 (functional). A range scan, in every state that the client and the
    background thread reach, returns with an OK status exactly the live pairs of
    the range: keys strictly ascending; a pair is in the result if and only if its
    key is in [start, bound) (an empty bound is no bound) and the history of
    mutations last gave the key that value and did not delete it since. *)
Theorem scan_returns_live_range `{Os} `{MemEnv} o dir recs0 s0 tr s start bound :
  usable o -> starts o dir recs0 s0 -> sys_run s0 tr s ->
  exists busy recs out, spec_trace recs0 tr busy recs /\ DB_Scan (s_db s) start bound = Ok (Status_OK, out) /\
    StronglySorted str_lt (map fst out) /\
    forall k val, (k, val) ∈ out <->
      str_le start k /\ (bound = [] \/ str_lt k bound) /\
      exists e, assoc recs k = Some e /\ is_tombstone_type (e_type e) = false /\ e_value e = val.
Proof.
  intros [Hb Ht Hc] Hst Hrun.
  destruct (sys_run_inv o Hb Ht dir recs0 s0 tr s Hc Hst Hrun) as (left & busy & recs & Htr & v & R & mes & ess & [Hd _ _ _ _ _ _] & Hview).
  destruct (scan_live_range _ _ _ _ _ start bound Hd) as (out & E & Hs & Hin). exists busy, recs, out. split_and!; try done.
  intros k val. by rewrite Hin, Hview.
Qed.

(** C9 (invariant). In every reachable state the levels below 0 hold files with
    disjoint key ranges in ascending order (so that a lookup consults at most one
    file of each), file numbers are distinct and were handed out, and the files of
    level 0 are in the order in which they were written. *)
Theorem levels_stay_sorted `{Os} `{MemEnv} o dir recs0 s0 tr s :
  usable o -> starts o dir recs0 s0 -> sys_run s0 tr s ->
  exists v, current_ (s_db s) = Some v /\ Forall (StronglySorted precedes) (tail v) /\
    NoDup (live_numbers v) /\ Forall (fun n => 0 <= n < next_file_number_ (s_db s)) (live_numbers v) /\
    StronglySorted Z.lt (map fm_number (default [] (head v))).
Proof.
  intros [Hb Ht Hc] Hst Hrun. destruct (sys_run_inv o Hb Ht dir recs0 s0 tr s Hc Hst Hrun) as (left & busy & recs & _ & v & R & mes & ess & [Hd _ _ _ _ _ _] & _).
  exists v. destruct Hd as [_ _ Hcur [Hf Hs _] _ [Hu Ho Hl0] _ _ _ _]. unfold live_numbers.
  split_and!; try done; [|by apply Forall_map].
  destruct Hf as [|l0 e0 deeper ess Hl Hd]; [constructor|]. cbn [tail] in *. clear -Hd Hs.
  induction Hd as [|l es deeper ess Hl _ IH]; [constructor|]. apply Forall_cons in Hs as [Hs1 Hs].
  constructor; [by eapply level_sorted|by apply IH].
Qed.

(** C24 (type). Every field that the formats store with a fixed width holds its value
    in every reachable state: of each table of the version the number, size and
    entry count fit 64 bits and the lengths of its bounds 32 bits, as the manifest
    writes them, and so do the offset and length of each entry of its block index;
    the next file number fits 64 bits. *)
Theorem metadata_fits_width `{Os} `{MemEnv} o dir recs0 s0 tr s :
  usable o -> starts o dir recs0 s0 -> sys_run s0 tr s ->
  exists v, current_ (s_db s) = Some v /\ is_u64 (next_file_number_ (s_db s)) /\
    Forall (fun f => meta_fits f /\ Forall index_fits (r_index_ (fm_reader f))) (concat v).
Proof.
  intros [Hb Ht Hc] Hst Hrun. destruct (sys_run_inv o Hb Ht dir recs0 s0 tr s Hc Hst Hrun) as (left & busy & recs & _ & v & R & mes & ess & [Hd _ _ _ Hn _ _] & _).
  exists v. pose proof (do_next _ _ _ _ _ Hd) as Hn1. split; [apply Hd|]. split; [unfold is_u64; lia|].
  apply Forall_forall. intros f Hin. destruct (version_files v ess f (do_version _ _ _ _ _ Hd) Hin) as [es Hf].
  pose proof (no_old _ _ (do_numbers _ _ _ _ _ Hd)) as Ho. rewrite Forall_forall in Ho. specialize (Ho f Hin).
  split; [eapply file_meta_fits; [exact Hf|unfold is_u64; lia]|]. destruct (fo_serves _ _ Hf) as (bs & Htb & _).
  rewrite (to_index _ _ Htb). apply index_from_fits, Htb.
Qed.

(** [TEST_WaitForCompactions] returns only when the background
    thread has no merge in flight and the current version needs none. *)
Theorem wait_returns_idle `{Os} `{MemEnv} o dir recs0 s0 tr s :
  usable o -> starts o dir recs0 s0 -> sys_run s0 tr s -> wait_done s = true ->
  (forall c mv, s_bg s <> BgMerging c mv) /\ (forall c outputs, s_bg s <> BgMerged c outputs) /\
  NeedsCompaction o (current_ (s_db s)) = false.
Proof.
  intros [Hb Ht Hc] Hst Hrun [Hbusy Hneed]%negb_true_iff%orb_false_iff.
  destruct (sys_run_inv o Hb Ht dir recs0 s0 tr s Hc Hst Hrun) as (left & busy & recs & _ & v & R & mes & ess & [_ <- _ _ _ _ Hbg] & _).
  split_and!; [| |done]; intros c x E; rewrite E in Hbg; destruct Hbg; congruence.
Qed.

(** Two flushes of overlapping tables, a delete, a merge in the middle of which
    another flush draws a number and publishes its table, and the installation. *)
Definition sample_events : list event :=
  [EvClient (CPut (lit "a") (lit "1")); EvClient (CPut (lit "b") (lit "2")); EvClient CFlush; EvPublish; EvLoop;
   EvClient (CDelete (lit "a")); EvClient CFlush; EvPublish; EvWake; EvLoop; EvMerge; EvClient (CPut (lit "b") (lit "3"));
   EvClient CFlush; EvMerge; EvPublish; EvMerge; EvInstall; EvClient (CGet (lit "a")); EvClient (CGet (lit "b")); EvLoop].

Definition sample_options : Options := mkOptions true 1000000 2 1000000 10 1000000 7 10 1000000.

Lemma sample_usable : usable sample_options.
Proof. split; cbn; lia. Qed.

(** A directory whose log holds one record. *)
Definition sample_log : list entry := [Entry (lit "b") (lit "0") kValue].
Definition sample_disk : World := mkWorld {[ wal_path_of (lit "db") := mkFile (wal_frames sample_log) 0 ]} [].

(** The directory opened, with the outcomes [os] of the next system calls. *)
Definition sample_opened (os : list io_outcome) : Sys :=
  match @DB_Open plain_os alternating_env sample_options (lit "db") sample_disk with
  | (Ok d, σ) => opened d σ os
  | _ => opened (fresh sample_options (lit "db")) sample_disk os
  end.

Definition sample_start : Sys := sample_opened [].

Lemma sample_opened_starts os : @starts plain_os alternating_env sample_options (lit "db") sample_log (sample_opened os).
Proof.
  assert (match @DB_Open plain_os alternating_env sample_options (lit "db") sample_disk with
          | (Ok d, _) => capacity d = true | _ => False end) as Hs by (vm_compute; reflexivity).
  unfold sample_opened. destruct (@DB_Open plain_os alternating_env sample_options (lit "db") sample_disk) as [[d| |] σ1] eqn:E; [|destruct Hs..].
  apply (starts_open _ _ _ sample_disk); [|exact E|exact Hs]. split; [reflexivity|]. exists 1, [[]], [[]], sample_log.
  split; [by apply no_manifest|]. split; [vm_compute; reflexivity|].
  split; [repeat constructor; vm_compute; discriminate|]. split; [vm_compute; discriminate|reflexivity].
Qed.

Lemma sample_starts : @starts plain_os alternating_env sample_options (lit "db") sample_log sample_start.
Proof. apply sample_opened_starts. Qed.

(** The reachable state of the sample. *)
Lemma sample_run :
  match @sys_exec_all plain_os alternating_env sample_start sample_events with
  | Some (tr, s) => @sys_run plain_os alternating_env sample_start tr s
  | None => False
  end.
Proof.
  assert (match @sys_exec_all plain_os alternating_env sample_start sample_events with
          | Some _ => True | None => False end) as Hs by (vm_compute; exact I).
  destruct (@sys_exec_all plain_os alternating_env sample_start sample_events) as [[tr s]|] eqn:E; [|done].
  apply (@sys_exec_all_run plain_os alternating_env sample_start [] sample_start sample_events); [constructor| |exact E].
  repeat apply Forall_cons_2; try apply Forall_nil_2; vm_compute; try exact I; discriminate.
Qed.

Lemma background_refines_history_witness :
  match @sys_exec_all plain_os alternating_env sample_start sample_events with
  | Some (tr, s) => (exists busy recs, spec_trace sample_log tr busy recs) /\
      forall ev, enabled s ev = true -> capacity (s_db s) = true -> event_fits ev ->
        exists r s', @sys_exec plain_os alternating_env s ev = Ok (r, s')
  | None => False
  end.
Proof.
  pose proof sample_run as Hrun.
  destruct (@sys_exec_all plain_os alternating_env sample_start sample_events) as [[tr s]|]; [|exact Hrun].
  apply (@background_refines_history plain_os alternating_env sample_options (lit "db") sample_log sample_start tr s);
    [exact sample_usable|exact sample_starts|exact Hrun].
Defined.

Lemma reads_see_acknowledged_writes_witness :
  match @sys_exec_all plain_os alternating_env sample_start sample_events with
  | Some (tr, _) =>
      match tr !! 18%nat with
      | Some (EvClient (CGet k), Some r) => k = lit "b" /\ r.1 = Status_OK /\ exists a, r.2 = Some a /\ a = (LookupResult.kFound, Some (lit "3"))
      | _ => False
      end
  | None => False
  end.
Proof.
  pose proof sample_run as Hrun.
  assert (match @sys_exec_all plain_os alternating_env sample_start sample_events with
          | Some (tr, _) => forallb (fun x => negb (lost x)) tr = true /\
              match tr !! 18%nat with
              | Some (EvClient (CGet k), Some _) => k = lit "b" /\ assoc (history sample_log (take 18 tr)) k = Some (Entry (lit "b") (lit "3") kValue)
              | _ => False
              end
          | None => False end) as Hs by (vm_compute; repeat split).
  destruct (@sys_exec_all plain_os alternating_env sample_start sample_events) as [[tr s]|]; [|exact Hrun]. destruct Hs as [Hl Hs].
  destruct (tr !! 18%nat) as [[[[| |k|]| | | | | |] [r|]]|] eqn:Ei; try (destruct Hs; fail). destruct Hs as [Hk He]. split; [exact Hk|].
  pose proof (@reads_see_acknowledged_writes plain_os alternating_env sample_options (lit "db") sample_log sample_start tr s 18 k r
    sample_usable sample_starts Hrun) as Hr. rewrite He in Hr. apply Hr; [|exact Ei].
  apply Forall_forall. intros x Hx%list_elem_of_In. rewrite forallb_forall in Hl. by apply negb_true_iff, Hl.
Defined.

Lemma scan_returns_live_range_witness :
  match @sys_exec_all plain_os alternating_env sample_start sample_events with
  | Some (tr, s) =>
      exists busy recs out, spec_trace sample_log tr busy recs /\ DB_Scan (s_db s) (lit "a") (lit "c") = Ok (Status_OK, out) /\
        StronglySorted str_lt (map fst out) /\
        forall k val, (k, val) ∈ out <->
          str_le (lit "a") k /\ (lit "c" = [] \/ str_lt k (lit "c")) /\
          exists e, assoc recs k = Some e /\ is_tombstone_type (e_type e) = false /\ e_value e = val
  | None => False
  end.
Proof.
  pose proof sample_run as Hrun.
  destruct (@sys_exec_all plain_os alternating_env sample_start sample_events) as [[tr s]|]; [|exact Hrun].
  apply (@scan_returns_live_range plain_os alternating_env sample_options (lit "db") sample_log sample_start tr s (lit "a") (lit "c"));
    [exact sample_usable|exact sample_starts|exact Hrun].
Defined.

Lemma levels_stay_sorted_witness :
  match @sys_exec_all plain_os alternating_env sample_start sample_events with
  | Some (tr, s) =>
      exists v, current_ (s_db s) = Some v /\ Forall (StronglySorted precedes) (tail v) /\
        NoDup (live_numbers v) /\ Forall (fun n => 0 <= n < next_file_number_ (s_db s)) (live_numbers v) /\
        StronglySorted Z.lt (map fm_number (default [] (head v)))
  | None => False
  end.
Proof.
  pose proof sample_run as Hrun.
  destruct (@sys_exec_all plain_os alternating_env sample_start sample_events) as [[tr s]|]; [|exact Hrun].
  apply (@levels_stay_sorted plain_os alternating_env sample_options (lit "db") sample_log sample_start tr s);
    [exact sample_usable|exact sample_starts|exact Hrun].
Defined.

Lemma metadata_fits_width_witness :
  match @sys_exec_all plain_os alternating_env sample_start sample_events with
  | Some (_, s) =>
      exists v, current_ (s_db s) = Some v /\ is_u64 (next_file_number_ (s_db s)) /\
        Forall (fun f => meta_fits f /\ Forall index_fits (r_index_ (fm_reader f))) (concat v)
  | None => False
  end.
Proof.
  pose proof sample_run as Hrun.
  destruct (@sys_exec_all plain_os alternating_env sample_start sample_events) as [[tr s]|]; [|exact Hrun].
  apply (@metadata_fits_width plain_os alternating_env sample_options (lit "db") sample_log sample_start tr s);
    [exact sample_usable|exact sample_starts|exact Hrun].
Defined.

Lemma wait_returns_idle_witness :
  match @sys_exec_all plain_os alternating_env sample_start sample_events with
  | Some (tr, s) => wait_done s = true /\
      (forall c mv, s_bg s <> BgMerging c mv) /\ (forall c outputs, s_bg s <> BgMerged c outputs) /\
      NeedsCompaction sample_options (current_ (s_db s)) = false
  | None => False
  end.
Proof.
  pose proof sample_run as Hrun.
  assert (match @sys_exec_all plain_os alternating_env sample_start sample_events with
          | Some (tr, s) => wait_done s = true | None => True end) as Hw by (vm_compute; reflexivity).
  destruct (@sys_exec_all plain_os alternating_env sample_start sample_events) as [[tr s]|]; [|exact Hrun].
  split; [exact Hw|].
  apply (@wait_returns_idle plain_os alternating_env sample_options (lit "db") sample_log sample_start tr s);
    [exact sample_usable|exact sample_starts|exact Hrun|exact Hw].
Defined.

(** ** The destructor *)

(** The steps that the background thread needs at most once the destructor runs:
    the rest of a merge, its installation and one turn of its loop. *)
Definition stop_events (s : Sys) : list event :=
  [EvShutdown; EvWake] ++ replicate (match s_bg s with BgMerging c _ => compact_fuel c | _ => O end) EvMerge ++ [EvInstall; EvLoop].

Definition run_events `{Os} `{MemEnv} (evs : list event) (s : Sys) : result Sys :=
  fold_left (fun (m : result Sys) ev => let* s := m in let* (_, s) := sys_exec s ev in Ok s) evs (Ok s).

(** [DB::~DB]: stop and join the background thread and close the log; then the
    log's own destructor runs. *)
Definition DB_destroy `{Os} `{MemEnv} (s : Sys) : result Sys :=
  let* s := run_events (stop_events s) s in
  let '(_, w, σ) := WalWriter_Close (wal_ (s_db s)) (s_world s) in
  let σ := WalWriter_destroy w σ in
  Ok (mkSys (set_wal (s_db s) w) σ (s_client s) (s_bg s) (bg_busy_ s) (shutting_down_ s)).

Section Stopping.
Context `{Os} `{MemEnv}.

Lemma run_events_cons ev evs s r s' :
  sys_exec s ev = Ok (r, s') -> run_events (ev :: evs) s = run_events evs s'.
Proof. intros E. unfold run_events. cbn [fold_left rbind]. by rewrite E. Qed.

Lemma run_events_app evs evs' s s' : run_events evs s = Ok s' -> run_events (evs ++ evs') s = run_events evs' s'.
Proof. unfold run_events. rewrite fold_left_app. by intros ->. Qed.

Lemma idle_merges n s : (forall c mv, s_bg s <> BgMerging c mv) -> run_events (replicate n EvMerge) s = Ok s.
Proof.
  intros Hb. induction n as [|n IH]; [done|]. cbn [replicate]. erewrite run_events_cons; [exact IH|].
  unfold sys_exec. destruct (s_client s), (s_bg s); done || by edestruct Hb.
Qed.

(** A merge runs to its end in as many turns as it has records, and one more. *)
Lemma merges_end o n lim left s busy v R mes ess c mv :
  0 <= bloom_bits_per_key o <= 100 -> sys_at o lim left s busy v R mes ess -> s_bg s = BgMerging c mv -> (left < n)%nat ->
  lim + Z.of_nat n <= 2 ^ 30 ->
  exists s' R', run_events (replicate n EvMerge) s = Ok s' /\ sys_at o (lim + Z.of_nat n) 0 s' busy v R' mes ess /\
    shutting_down_ s' = shutting_down_ s /\ s_client s' = s_client s /\ current_ (s_db s') = current_ (s_db s) /\
    (s_bg s' = BgLoop \/ exists outputs, s_bg s' = BgMerged c outputs).
Proof.
  intros Hb. revert lim left s R mv. induction n as [|n IH]; intros lim left s R mv Hinv Hph Hl Hlim; [lia|].
  destruct (merge_step o Hb lim left s busy v R mes ess c mv Hinv Hph ltac:(lia))
    as (s1 & left' & R1 & E & Hinv1 & Hsame & _ & Hsd & Hcl & _ & _ & Hph1).
  cbn [replicate]. assert (sys_exec s EvMerge = Ok (None, s1)) as E1.
  { unfold sys_exec. rewrite Hph. destruct (s_client s); by rewrite E. }
  rewrite (run_events_cons _ _ _ _ _ E1). assert (current_ (s_db s1) = current_ (s_db s)) as Hcur by apply Hsame.
  assert ((forall c mv, s_bg s1 <> BgMerging c mv) -> (s_bg s1 = BgLoop \/ exists outputs, s_bg s1 = BgMerged c outputs) ->
    exists s' R', run_events (replicate n EvMerge) s1 = Ok s' /\ sys_at o (lim + Z.of_nat (S n)) 0 s' busy v R' mes ess /\
    shutting_down_ s' = shutting_down_ s /\ s_client s' = s_client s /\ current_ (s_db s') = current_ (s_db s) /\
    (s_bg s' = BgLoop \/ exists outputs, s_bg s' = BgMerged c outputs)) as Hdone.
  { intros Hno Hor. exists s1, R1. rewrite idle_merges by done. split_and!; try done.
    destruct Hinv1 as [? ? ? ? ? ? Hbg]. split; try done; [lia|]. destruct (s_bg s1); try done. by edestruct Hno. }
  destruct (s_bg s1) as [| |c1 mv1|c1 outputs|] eqn:Eb1; try done.
  - apply Hdone; [done|by left].
  - destruct Hph1 as [-> ->]. destruct (IH (lim + 1) left' s1 R1 mv1 Hinv1 Eb1) as (s' & R' & E' & Hinv' & Hsd' & Hcl' & Hcur' & Hor); [lia|lia|].
    exists s', R'. split; [done|]. replace (lim + Z.of_nat (S n)) with (lim + 1 + Z.of_nat n) by lia. split_and!; try congruence; done.
  - subst c1. apply Hdone; [done|right; by eexists].
Qed.

Lemma close_wal_total w σ : exists st w' σ', WalWriter_Close w σ = (st, w', σ') /\ wal_fd_ w' = None.
Proof. unfold WalWriter_Close. destruct (wal_fd_ w) eqn:Ew; [|eauto 10]. destruct (close σ) as [[e|] σ2]; eauto 10. Qed.

(** The end of the thread from any state where no merge is under way. *)
Lemma stop_ends o lim s busy v R mes ess :
  0 <= bloom_bits_per_key o <= 100 -> sys_at o lim 0 s busy v R mes ess -> lim <= 2 ^ 30 -> shutting_down_ s = true ->
  (s_bg s = BgLoop \/ s_bg s = BgStopped \/ exists c outputs, s_bg s = BgMerged c outputs) ->
  exists s', run_events [EvInstall; EvLoop] s = Ok s' /\ s_bg s' = BgStopped /\ bg_busy_ s' = false.
Proof.
  intros Hb Hinv Hlim Hsd Hor. destruct s as [d σ ph bg bz sd]. cbn [shutting_down_ s_bg] in *. subst sd.
  destruct Hor as [-> |[-> |(c & outputs & ->)]].
  - unfold run_events. destruct ph; cbn [fold_left rbind sys_exec s_client s_bg loop_turn shutting_down_ s_db s_world]; by eexists.
  - destruct Hinv as [_ _ _ _ _ _ Hbg]. cbn [bg_ok s_bg bg_busy_] in Hbg. subst bz.
    unfold run_events. destruct ph; cbn [fold_left rbind sys_exec s_client s_bg]; by eexists.
  - destruct (install_step o Hb lim 0%nat _ busy v R mes ess c outputs Hinv eq_refl Hlim) as (st & d' & σ' & ess' & E & _).
    unfold run_events. destruct ph; cbn [fold_left rbind sys_exec s_client s_bg]; rewrite E;
      cbn [rbind s_client s_bg loop_turn shutting_down_ s_db s_world]; by eexists.
Qed.

(** C23 (liveness). The destructor does not hang: wherever the background thread
    is (at the head of its loop, asleep, in the middle of a merge or about to
    install one), once [shutting_down_] is set and it was notified it needs at
    most the rest of the merge, whose number of turns is bounded by the inputs,
    one installation and one turn of its loop to stop, whatever the system calls
    do; so the join returns, and the thread is then idle and the log closed. *)
Theorem destructor_stops_thread o dir recs0 s0 tr s :
  usable o -> starts o dir recs0 s0 -> sys_run s0 tr s -> s_client s = ClIdle ->
  exists s', DB_destroy s = Ok s' /\ s_bg s' = BgStopped /\ bg_busy_ s' = false /\
    wal_fd_ (wal_ (s_db s')) = None.
Proof.
  intros [Hb Ht Hc] Hst Hrun Hcl. destruct (sys_run_inv o Hb Ht dir recs0 s0 tr s Hc Hst Hrun) as (left & busy & recs & _ & Hinv).
  enough (exists s', run_events (stop_events s) s = Ok s' /\ s_bg s' = BgStopped /\ bg_busy_ s' = false) as (s' & E & Hstop & Hbz).
  { unfold DB_destroy. rewrite E. cbn [rbind]. destruct (close_wal_total (wal_ (s_db s')) (s_world s')) as (st & w' & σ' & -> & Hw). by eexists. }
  destruct s as [d σs ph bg bz sd]. cbn [s_client] in Hcl. subst ph. unfold stop_events. cbn [app s_bg].
  destruct Hinv as (v & R & mes & ess & Hat & _).
  set (s1 := mkSys d σs ClIdle (match bg with BgWaiting => BgLoop | _ => bg end) bz true).
  pose proof (wake_step _ _ _ _ _ _ _ _ _ true Hat) as Hat1. cbn [s_db s_world s_client s_bg bg_busy_] in Hat1. fold s1 in Hat1.
  erewrite run_events_cons; [|reflexivity]. erewrite (run_events_cons _ _ _ _ s1); [|by destruct bg].
  assert ((forall c mv, bg <> BgMerging c mv) -> exists s', run_events [EvInstall; EvLoop] s1 = Ok s' /\ s_bg s' = BgStopped /\ bg_busy_ s' = false) as Hidle.
  { intros Hno. apply (stop_ends o (2 ^ 29) s1 busy v R mes ess); try done; try lia.
    - destruct Hat1. split; try done. destruct bg; try done. by edestruct Hno.
    - destruct bg as [| |c mv|c outputs|]; [by left..|by edestruct Hno|right; right; by exists c, outputs|right; by left]. }
  destruct bg as [| |c mv|c outputs|]; cbn [replicate app]; try (apply Hidle; done).
  destruct (sa_bg _ _ _ _ _ _ _ _ _ Hat1) as [_ [[(p & outs & cur & out & _ & _ & _ & Hl25 & _) _ _ _] Hfuel]].
  replace (compact_fuel c) with (S left + (compact_fuel c - S left))%nat by lia. rewrite replicate_add, <- app_assoc.
  destruct (merges_end o (S left) (2 ^ 29) left s1 busy v R mes ess c mv Hb Hat1 eq_refl) as (s2 & R2 & E2 & Hinv2 & Hsd & _ & _ & Hor); [lia|lia|].
  rewrite (run_events_app _ _ _ _ E2), (run_events_app _ _ s2 s2).
  2: { apply idle_merges. intros c' mv' E. rewrite E in Hor. destruct Hor as [?|[? ?]]; done. }
  apply (stop_ends o _ s2 busy v R2 mes ess Hb Hinv2); [lia|done|]. destruct Hor as [?|[os ?]]; [by left|right; right; by exists c, os].
Qed.

End Stopping.

(** The sample in the middle of its merge. *)
Definition merging_events : list event := take 12 sample_events.

Lemma destructor_stops_thread_witness :
  match @sys_exec_all plain_os alternating_env sample_start merging_events with
  | Some (tr, s) => (exists c mv, s_bg s = BgMerging c mv) /\
      exists s', @DB_destroy plain_os alternating_env s = Ok s' /\ s_bg s' = BgStopped /\
      bg_busy_ s' = false /\ wal_fd_ (wal_ (s_db s')) = None
  | None => False
  end.
Proof.
  assert (match @sys_exec_all plain_os alternating_env sample_start merging_events with
          | Some (_, s) => s_client s = ClIdle /\ match s_bg s with BgMerging _ _ => True | _ => False end
          | None => False end) as Hs by (vm_compute; split; [reflexivity|exact I]).
  destruct (@sys_exec_all plain_os alternating_env sample_start merging_events) as [[tr s]|] eqn:E; [|destruct Hs].
  destruct Hs as [Hcl Hbg]. apply (@sys_exec_all_run plain_os alternating_env sample_start [] sample_start merging_events) in E; [|constructor|].
  2: { repeat apply Forall_cons_2; try apply Forall_nil_2; vm_compute; try exact I; discriminate. }
  split.
  - destruct (s_bg s) as [| |c mv| |]; [destruct Hbg|destruct Hbg|exists c, mv; reflexivity|destruct Hbg..].
  - apply (@destructor_stops_thread plain_os alternating_env sample_options (lit "db") sample_log sample_start tr s);
      [exact sample_usable|exact sample_starts|exact E|exact Hcl].
Defined.

(** On a well-formed version and with a positive trigger, the
    two tests of the loop agree: [PickCompaction] never faults, and it returns a
    compaction exactly when [NeedsCompaction] holds, so the loop neither spins nor
    sleeps through work. *)
Theorem needs_compaction_iff_picked o v next ess :
  version_ok v ess -> numbers_ok next v -> 1 <= l0_compaction_trigger o ->
  exists picked, PickCompaction o (Some v) = Ok picked /\
    (NeedsCompaction o (Some v) = true <-> exists c, picked = Some c).
Proof.
  intros Hv Hn Ht. destruct (NeedsCompaction o (Some v)) eqn:E.
  - destruct (pick_total o v next ess Hv Hn Ht E) as [c ->]. eexists. split; [done|]. split; [by eexists|done].
  - exists None. split; [|split; [done|by intros [? ?]]]. destruct v as [|l0 deeper]; [done|].
    unfold NeedsCompaction in E. unfold PickCompaction. destruct (l0_triggered o l0); [done|]. f_equal.
    generalize (l0 :: deeper) as v. intros v. clear -E. revert E. generalize 1%nat as i.
    induction deeper as [|l deeper IH]; intros i; cbn [needs_level pick_level]; [done|].
    destruct (below_max o i); [|done]. unfold over_budget. destruct l as [|f l]; [apply IH|].
    rewrite bool_decide_eq_false_2 by done. cbn [negb andb].
    destruct (Z.ltb_spec (level_budget o i) (level_bytes (f :: l))); [done|]. zbool. apply IH.
Qed.

Lemma needs_compaction_iff_picked_witness :
  exists v next ess, version_ok v ess /\ numbers_ok next v /\ length (concat v) = 2%nat /\
    exists picked, PickCompaction sample_options (Some v) = Ok picked /\
      (NeedsCompaction sample_options (Some v) = true <-> exists c, picked = Some c).
Proof.
  pose proof sample_run as Hrun.
  assert (match @sys_exec_all plain_os alternating_env sample_start sample_events with
          | Some (tr, s) => length (concat (default [] (current_ (s_db s)))) = 2%nat | None => True end) as Hw
    by (vm_compute; reflexivity).
  destruct (@sys_exec_all plain_os alternating_env sample_start sample_events) as [[tr s]|]; [|destruct Hrun].
  destruct (@sys_run_inv plain_os alternating_env sample_options ltac:(cbn; lia) ltac:(cbn; lia) (lit "db") sample_log sample_start tr s
    ltac:(reflexivity) sample_starts Hrun) as (left & busy & recs & _ & v & R & mes & ess & [Hd _ _ _ _ _ _] & _).
  exists v, (next_file_number_ (s_db s)), ess. destruct Hd as [_ _ Hcur Hv _ Hn _ _ _ _]. rewrite Hcur in Hw.
  split; [exact Hv|]. split; [exact Hn|]. split; [exact Hw|].
  apply (@needs_compaction_iff_picked sample_options v (next_file_number_ (s_db s)) ess Hv Hn). cbn. lia.
Defined.

(** With a trigger of zero or less the loop picks a compaction of an
    empty level 0 and dereferences the front of an empty vector: a database just
    opened on an empty directory faults in the first turn of its background
    thread. *)
Theorem empty_level0_pick_faults o dir σ os :
  l0_compaction_trigger o <= 0 -> loop_turn (opened (fresh o dir) σ os) = UB.
Proof.
  intros Ht. unfold loop_turn, opened. cbn [shutting_down_ s_db fresh options_ current_ set_wal set_current DB_new].
  assert (l0_triggered o [] = true) as E.
  { unfold l0_triggered. change (to_int (blen (@nil FileMeta))) with 0. zbool. done. }
  unfold NeedsCompaction, PickCompaction. rewrite E. done.
Qed.

Lemma empty_level0_pick_faults_witness :
  loop_turn (opened (fresh (mkOptions true 1000000 0 1000000 10 1000000 7 10 1000000) (lit "db")) (mkWorld ∅ []) []) = UB.
Proof. apply empty_level0_pick_faults. cbn. lia. Defined.

(** C6 (functional). A merge of well-formed tables, under every pattern of
    failing system calls: it never faults, touches no file but the new ones it
    numbers, and leaves the rest of the database as it was. When it succeeds, the
    new tables are durable and open again as the readers that serve them, are well
    formed under consecutive fresh numbers, are disjoint and in key order, and hold
    for every key the newest record of the inputs, except tombstones when no deeper
    level has data. *)
Theorem compaction_merges_inputs `{Os} d c σ runs :
  Forall2 file_ok (c_inputs c) runs ->
  blen (concat runs) <= 2 ^ 25 -> 0 <= bloom_bits_per_key (options_ d) <= 100 ->
  0 <= next_file_number_ d -> next_file_number_ d + blen (concat runs) < 2 ^ 30 ->
  exists s st, compact_run d c σ = Ok (s, st) /\ same_db d (cs_db st) /\
    (forall path, (forall n, next_file_number_ d <= n < next_file_number_ (cs_db st) -> path <> FilePath d n) ->
       fs (cs_world st) !! path = fs σ !! path) /\
    (ok s = true -> exists outs, Forall2 file_ok (cs_outputs st) outs /\
       map fm_number (cs_outputs st) = seqZ (next_file_number_ d) (blen outs) /\
       Forall (stored (cs_db st) (cs_world st)) (cs_outputs st) /\
       StronglySorted precedes (cs_outputs st) /\
       forall k, assoc (concat outs) k = kept_record (bottommost c) (assoc (concat runs) k)).
Proof.
  intros Hin Hn Hb Hn1 Hlim.
  destruct (compact_run_spec d c σ runs Hin Hn Hb (conj Hn1 Hlim)) as (s & st & E & [Hdb _ (n & Hn0 & Htk & Hnx) Hfs] & Hok).
  cbn [cs_db cs_world] in *. change (taken (mkCompactState d None 0 [] [] σ)) with (@nil Z) in Htk. cbn [app] in Htk.
  exists s, st. split; [done|]. split; [done|]. split.
  { intros path Hp. apply Hfs. intros k Hk. rewrite Htk in Hk. apply elem_of_seqZ in Hk. apply Hp. lia. }
  intros Hs. destruct (Hok Hs) as (outs & [Hout _ _ Hdisk _] & Hw & Hcat). exists outs.
  assert (Forall sorted_keys runs) as Hsr.
  { clear -Hin. induction Hin as [|f es fs ess Hf _ IH]; constructor; [eapply serves_sorted; apply Hf|done]. }
  destruct (merge_spec _ Hsr) as (Hms & Hma & _). split_and!; try done.
  - unfold taken in Htk. rewrite Hw, app_nil_r in Htk. rewrite Htk. f_equal. apply (f_equal length) in Htk.
    rewrite length_map, length_seqZ in Htk. pose proof (Forall2_length _ _ _ Hout). unfold blen. lia.
  - apply (level_sorted _ _ Hout). rewrite Hcat. by apply written_sorted.
  - intros k. by rewrite Hcat, assoc_written, Hma.
Qed.

(** The sample before its first merge: two tables in level 0. *)
Definition sample_prefix : list event := take 8 sample_events.

Lemma sample_inputs :
  match @sys_exec_all plain_os alternating_env sample_start sample_prefix with
  | Some (_, s) =>
      exists c runs, PickCompaction sample_options (current_ (s_db s)) = Ok (Some c) /\
        Forall2 file_ok (c_inputs c) runs /\ blen (concat runs) <= 3 /\
        options_ (s_db s) = sample_options /\ next_file_number_ (s_db s) = 3
  | None => False
  end.
Proof.
  assert (match @sys_exec_all plain_os alternating_env sample_start sample_prefix with
          | Some (_, s) => match PickCompaction sample_options (current_ (s_db s)) with Ok (Some _) => True | _ => False end /\
              entries (default [] (current_ (s_db s))) = 3 /\ next_file_number_ (s_db s) = 3
          | None => False end) as Hs by (vm_compute; split; [exact I|split; reflexivity]).
  destruct (@sys_exec_all plain_os alternating_env sample_start sample_prefix) as [[tr s]|] eqn:E; [|done].
  destruct Hs as (Hc & He & Hn). destruct (PickCompaction sample_options (current_ (s_db s))) as [[c|]| |] eqn:Ec; [|destruct Hc..].
  apply (@sys_exec_all_run plain_os alternating_env sample_start [] sample_start sample_prefix) in E; [|constructor|].
  2: { repeat apply Forall_cons_2; try apply Forall_nil_2; vm_compute; try exact I; discriminate. }
  destruct (@sys_run_inv plain_os alternating_env sample_options ltac:(cbn; lia) ltac:(cbn; lia) (lit "db") sample_log sample_start tr s
    ltac:(reflexivity) sample_starts E) as (left & busy & recs & _ & v & R & mes & ess & [Hd Ho _ _ _ _ _] & _).
  pose proof Hd as [_ _ Hcur Hv Hlv Hno _ _ _ _]. rewrite Hcur in *. cbn [default] in He.
  assert (exists p, planned v ess c p) as [p Hp] by (by eapply pick_planned).
  exists c, (input_runs p). split; [done|]. split; [by eapply planned_inputs|]. split; [|done].
  rewrite <- He. by eapply inputs_bound.
Qed.

Lemma compaction_merges_inputs_witness :
  exists d c σ runs, Forall2 file_ok (c_inputs c) runs /\
    exists s st, @compact_run plain_os d c σ = Ok (s, st) /\ same_db d (cs_db st) /\
    (forall path, (forall n, next_file_number_ d <= n < next_file_number_ (cs_db st) -> path <> FilePath d n) ->
       fs (cs_world st) !! path = fs σ !! path) /\
    (ok s = true -> exists outs, Forall2 file_ok (cs_outputs st) outs /\
       map fm_number (cs_outputs st) = seqZ (next_file_number_ d) (blen outs) /\
       Forall (stored (cs_db st) (cs_world st)) (cs_outputs st) /\
       StronglySorted precedes (cs_outputs st) /\
       forall k, assoc (concat outs) k = kept_record (bottommost c) (assoc (concat runs) k)).
Proof.
  pose proof sample_inputs as Hs.
  destruct (@sys_exec_all plain_os alternating_env sample_start sample_prefix) as [[tr s]|]; [|destruct Hs].
  destruct Hs as (c & runs & _ & Hin & Hn & Ho & Hnx). exists (s_db s), c, (s_world s), runs. split; [exact Hin|].
  apply (@compaction_merges_inputs plain_os (s_db s) c (s_world s) runs Hin);
    [lia|rewrite Ho; cbn; lia|lia|lia].
Defined.

(** C37 (error). A compaction that fails changes the version all the same. In every
    state that the client and the background thread reach, under any faults, when a
    merge is about to be installed and its manifest cannot be written,
    [DoCompaction] reports the error with the new version in place: [current_] is
    the version without the inputs and with the outputs, another one than before,
    while the manifest on disk and every other file but the temporary one are as
    they were. *)
Theorem failed_compaction_installs_version `{Os} `{MemEnv} o dir recs0 s0 tr s c outputs v :
  usable o -> starts o dir recs0 s0 -> sys_run s0 tr s -> s_bg s = BgMerged c outputs -> current_ (s_db s) = Some v ->
  let nv := InstallCompaction v c outputs in
  ok (WriteManifest (set_current (s_db s) (Some nv)) nv (s_world s)).1 = false ->
  exists st s', compact_install (s_db s) c outputs (s_world s) = Ok (st, s_db s', s_world s') /\ ok st = false /\
    sys_exec s EvInstall = Ok (None, s') /\ current_ (s_db s') = Some nv /\ nv <> v /\
    (exists rest, concat v ≡ₚ c_inputs c ++ rest /\ concat nv ≡ₚ outputs ++ rest) /\
    Forall (fun f => fm_number f ∉ live_numbers nv) (c_inputs c) /\ kept_but [ManifestTmp (s_db s)] (s_world s) (s_world s').
Proof.
  intros [Hb Ht Hc] Hst Hrun Hph Hcur nv Hms.
  destruct (sys_run_inv o Hb Ht dir recs0 s0 tr s Hc Hst Hrun) as (left & busy & recs & _ & v0 & R & mes & ess & Hat & _).
  pose proof (do_current _ _ _ _ _ (sa_db _ _ _ _ _ _ _ _ _ Hat)) as Hcur0. rewrite Hcur in Hcur0. injection Hcur0 as <-.
  destruct (install_step o Hb (2 ^ 29) left s busy v R mes ess c outputs Hat Hph ltac:(lia))
    as (st & d' & σ' & ess' & E & Hd' & Hin & _ & Hkept & Hman). fold nv in Hd', Hin.
  assert (ok st = false) as Hs.
  { unfold compact_install in E. rewrite Hcur in E. cbn [of_option rbind] in E. fold nv in E.
    destruct (WriteManifest _ nv (s_world s)) as [ms σ1]. cbn [fst] in Hms. rewrite Hms in E. by injection E as <- _ _. }
  rewrite Hs in Hkept, Hman. pose proof Hin as [_ _ _ _ (rest & Hold & Hnew) _ _ _ Hwork].
  exists st, (mkSys d' σ' (s_client s) BgLoop (bg_busy_ s) (shutting_down_ s)). cbn [s_db s_world].
  split_and!; [done|done| |by rewrite Hd'| |by exists rest| |].
  - unfold sys_exec. rewrite Hph. by destruct (s_client s); rewrite E.
  - intros En. specialize (Hwork (Z.of_nat (target_level c) + 1) ltac:(lia)). rewrite En in Hwork. lia.
  - pose proof (sa_bg _ _ _ _ _ _ _ _ _ Hat) as Hbg. rewrite Hph in Hbg.
    pose proof (pe_fresh _ _ _ _ _ _ _ (proj2 Hbg)) as Hfr. pose proof (no_unique _ _ (do_numbers _ _ _ _ _ (sa_db _ _ _ _ _ _ _ _ _ Hat))) as Hu.
    apply Forall_forall. intros f Hf. unfold live_numbers in *. rewrite Hold, map_app in Hu. apply NoDup_app in Hu as (_ & Hdis & _).
    assert (fm_number f ∈ map fm_number (c_inputs c)) as Hfi by (by apply list_elem_of_In, in_map, list_elem_of_In).
    rewrite Hnew, map_app, elem_of_app. intros [Ho|Hr]; [|by apply (Hdis _ Hfi)]. rewrite Forall_forall in Hfr. apply (Hfr _ Ho).
    rewrite Hold, map_app, elem_of_app. by left.
  - intros p Hp. destruct (decide (p = ManifestPath (s_db s))) as [->|Hne]; [done|]. apply Hkept. set_solver.
Qed.

(** The sample with a disk that is full when the manifest of the merge is to be
    written. *)
Definition full_disk : list io_outcome := replicate 91 IoOk ++ [IoErr 28].

Lemma failed_compaction_installs_version_witness :
  match @sys_exec_all plain_os alternating_env (sample_opened full_disk) (take 16 sample_events) with
  | Some (_, s) =>
      match s_bg s, current_ (s_db s) with
      | BgMerged c outputs, Some v =>
          let nv := InstallCompaction v c outputs in
          map (map fm_number) v = [[1; 2; 3]] /\ map (map fm_number) nv = [[3]; [4]] /\
          exists st s', compact_install (s_db s) c outputs (s_world s) = Ok (st, s_db s', s_world s') /\ ok st = false /\
            @sys_exec plain_os alternating_env s EvInstall = Ok (None, s') /\ current_ (s_db s') = Some nv /\ nv <> v /\
            (exists rest, concat v ≡ₚ c_inputs c ++ rest /\ concat nv ≡ₚ outputs ++ rest) /\
            Forall (fun f => fm_number f ∉ live_numbers nv) (c_inputs c) /\ kept_but [ManifestTmp (s_db s)] (s_world s) (s_world s')
      | _, _ => False
      end
  | None => False
  end.
Proof.
  assert (match @sys_exec_all plain_os alternating_env (sample_opened full_disk) (take 16 sample_events) with
          | Some (_, s) =>
              match s_bg s, current_ (s_db s) with
              | BgMerged c outputs, Some v =>
                  let nv := InstallCompaction v c outputs in
                  (map (map fm_number) v = [[1; 2; 3]] /\ map (map fm_number) nv = [[3]; [4]]) /\
                  ok (WriteManifest (set_current (s_db s) (Some nv)) nv (s_world s)).1 = false
              | _, _ => False
              end
          | None => False
          end) as Hs by (vm_compute; repeat split).
  destruct (@sys_exec_all plain_os alternating_env (sample_opened full_disk) (take 16 sample_events)) as [[tr s]|] eqn:E; [|destruct Hs].
  destruct (s_bg s) as [| |c mv|c outputs|] eqn:Eb; try (destruct Hs; fail). destruct (current_ (s_db s)) as [v|] eqn:Ev; [|destruct Hs].
  destruct Hs as [[Hv Hn] Hms]. split; [exact Hv|]. split; [exact Hn|].
  apply (@sys_exec_all_run plain_os alternating_env (sample_opened full_disk) [] _ (take 16 sample_events)) in E; [|constructor|].
  - exact (@failed_compaction_installs_version plain_os alternating_env sample_options (lit "db") sample_log (sample_opened full_disk) tr s c outputs v
      sample_usable (sample_opened_starts full_disk) E Eb Ev Hms).
  - repeat apply Forall_cons_2; try apply Forall_nil_2; vm_compute; try exact I; discriminate.
Defined.
