(* ===== verification/Stats.v ===== *)
(** Statistics and test hooks of the database (src/db.cpp). *)
From Stdlib Require Import SpecFloat.
From S2P Require Import Prelude Types Bloom SkipList Cache Posix Wal TableFormat TableWriter.
From S2P Require Import TableReader Iterator TableIter Merge Version Db DbInvariant Compaction.
From S2P Require Import Leveling Manifest Merging Recovery Background Refinement.

(** [struct DB::Stats]; [double] is binary64. *)
Record Stats := mkStats {
  user_bytes : Z; flush_bytes : Z; compaction_bytes : Z; sstable_bytes_written : Z;
  write_amplification : spec_float; files_per_level : list Z; bytes_per_level : list Z;
  cache_hits : Z; cache_misses : Z; cache_hit_rate : spec_float }.

(** [DB::GetStats]; [current_] is dereferenced. *)
Definition GetStats (d : DB) : result Stats :=
  let written := flush_bytes_ d +u64 compaction_bytes_ d in
  let amplification :=
    if user_bytes_ d =? 0 then S754_zero false
    else SFdiv 53 1024 (int_to_double written) (int_to_double (user_bytes_ d)) in
  let '(hits, misses, rate) :=
    match block_cache_ d with
    | Some c => (BlockCache_hits c, BlockCache_misses c, HitRate c)
    | None => (0, 0, S754_zero false)
    end in
  let* v := of_option (current_ d) in
  Ok (mkStats (user_bytes_ d) (flush_bytes_ d) (compaction_bytes_ d) written amplification
        (map (fun l => to_int (blen l)) v) (map level_bytes v) hits misses rate).

(** [DB::TEST_NumLevelsWithData]. *)
Definition TEST_NumLevelsWithData (d : DB) : result Z :=
  let* v := of_option (current_ d) in
  fold_left (fun (n : result Z) l => let* n := n in if bool_decide (l = []) then Ok n else int32 (n + 1)) v (Ok 0).

(** ** Lemmas *)

Definition table_size (f : FileMeta) : Z := blen (base_ (fm_reader f)).

Lemma level_bytes_sum files ess :
  Forall2 file_ok files ess -> level_bytes files = u64 (foldr Z.add 0 (map table_size files)).
Proof.
  intros Hf. unfold level_bytes.
  assert (forall acc, fold_left (fun b f => b +u64 fm_file_size f) files (u64 acc)
    = u64 (acc + foldr Z.add 0 (map table_size files))) as Hg; [|exact (Hg 0)].
  induction Hf as [|f es files ess Hf _ IH]; intros acc; cbn [fold_left map foldr]; [by rewrite Z.add_0_r|].
  rewrite (fo_size _ _ Hf). fold (table_size f). rewrite u64_add_l, IH. f_equal. lia.
Qed.

Lemma count_levels (v : Version) n :
  0 <= n -> n + blen v < 2 ^ 31 ->
  fold_left (fun (m : result Z) l => let* m := m in if bool_decide (l = []) then Ok m else int32 (m + 1)) v (Ok n)
  = Ok (n + blen (List.filter (fun l => negb (bool_decide (l = []))) v)).
Proof.
  revert n. induction v as [|l v IH]; intros n Hn Hv; cbn [fold_left List.filter]; [by rewrite blen_nil, Z.add_0_r|].
  rewrite blen_cons in Hv. pose proof (blen_nonneg v). cbn [rbind]. destruct (bool_decide (l = [])); cbn [negb].
  - apply IH; lia.
  - unfold int32. zbool. cbn [andb]. rewrite IH, blen_cons by lia. f_equal. lia.
Qed.

(** ** Lemmas: the counters *)

(** Case analysis on a computation that succeeded. *)
Ltac ok_cases E :=
  repeat match type of E with
  | context [match ?x with _ => _ end] => destruct x eqn:?; try discriminate E
  | context [let '(_, _) := ?x in _] => destruct x eqn:?
  end.

(** What writing a table or a version leaves alone. *)
Definition untouched (d d' : DB) : Prop := block_cache_ d' = block_cache_ d /\ user_bytes_ d' = user_bytes_ d.

#[global] Instance untouched_preorder : PreOrder untouched.
Proof. split; [by intros ?|]. intros x y z [] []. split; congruence. Qed.

Section Counters.
Context `{Os} `{MemEnv}.

Lemma flush_counts d σ s t d' σ' : flush_table d σ = Ok (s, t, d', σ') -> untouched d d'.
Proof. unfold flush_table, rbind. intros E. ok_cases E; by injection E as <- <- <- <-. Qed.

Lemma flush_begin_counts d σ r ph d' σ' : flush_begin d σ = Ok (r, ph, d', σ') -> untouched d d'.
Proof.
  unfold flush_begin. intros ([[[s t] d1] σ1] & Hf%flush_counts & E)%rbind_Ok. destruct t as [[fm w]|]; by injection E as <- <- <- <-.
Qed.

Lemma maybe_begin_counts d σ r ph d' σ' : maybe_begin d σ = Ok (r, ph, d', σ') -> untouched d d'.
Proof. unfold maybe_begin. destruct (_ <=? _); [apply flush_begin_counts|by intros [= _ _ <- _]]. Qed.

Lemma publish_counts d fm w σ s d' σ' : publish_table d fm w σ = Ok (s, d', σ') -> untouched d d'.
Proof.
  unfold publish_table. intros ([[s1 d1] σ1] & E & [= _ <- _])%rbind_Ok. revert E. unfold install_flush.
  intros (nv & _ & E)%rbind_Ok. ok_cases E; by injection E as <- <- <-.
Qed.

Lemma finish_counts st s st' : finish_output st = Ok (s, st') -> untouched (cs_db st) (cs_db st').
Proof. unfold finish_output. intros E. ok_cases E; by injection E as <- <-. Qed.

Lemma body_counts c m st s st' : compact_body c m st = Ok (s, st') -> untouched (cs_db st) (cs_db st').
Proof.
  unfold compact_body. destruct (_ && _); [by intros [= _ <-]|].
  assert (untouched (cs_db st) (cs_db (open_output st).2)) as Ho.
  { unfold open_output. destruct (cs_w st); [done|]. by destruct (SSTableWriter_Open _ _) as [[? ?] ?]. }
  destruct (open_output st) as [s1 st1]. cbn [snd] in Ho. rewrite Ho. destruct (negb (ok s1)); [by intros [= _ <-]|].
  intros (w & _ & E)%rbind_Ok. destruct (SSTableWriter_Add _ _ _ _ _) as [[s2 w2] σ2]. destruct (negb (ok s2)); [by injection E as _ <-|].
  destruct (_ <=? _); [by apply finish_counts in E|by injection E as _ <-].
Qed.

Lemma turn_counts c m st next s st' : compact_turn c m st = Ok (next, s, st') -> untouched (cs_db st) (cs_db st').
Proof.
  unfold compact_turn. destruct (m_valid_ m).
  - intros ([s1 st1] & Hb%body_counts & E)%rbind_Ok. destruct (negb (ok s1)); [by injection E as _ _ <-|].
    revert E. by intros (m' & _ & [= _ _ <-])%rbind_Ok.
  - destruct (negb _); [by intros [= _ _ <-]|]. by intros ([s1 st1] & Hb%finish_counts & [= _ _ <-])%rbind_Ok.
Qed.

Lemma install_counts d c outs σ s d' σ' : compact_install d c outs σ = Ok (s, d', σ') -> untouched d d'.
Proof. unfold compact_install. intros (v & _ & E)%rbind_Ok. ok_cases E; by injection E as <- <- <-. Qed.

(** The bytes of the record of a mutation. *)
Definition record_bytes (e : entry) : Z := blen (e_key e) + blen (e_value e).
Definition event_record (ev : event) : option entry := match ev with EvClient op => op_record op | _ => None end.

(** A mutation that was logged counts its bytes. *)
Lemma record_counts d op e σ r ph d' σ' :
  op_record op = Some e -> client_begin d op σ = Ok (r, ph, d', σ') ->
  block_cache_ d' = block_cache_ d /\ (failed r = false -> user_bytes_ d' = user_bytes_ d +u64 record_bytes e).
Proof.
  intros Hop. rewrite (client_begin_record _ _ e) by done. intros ([[s1 d1] σ1] & Hp & E)%rbind_Ok.
  assert (block_cache_ d1 = block_cache_ d /\ (ok s1 = true -> user_bytes_ d1 = user_bytes_ d +u64 record_bytes e)) as [Hc Hu].
  { destruct op as [k v|k|k|]; injection Hop as <- || done; revert Hp; cbn [record_begin]; unfold put_record, delete_record.
    - destruct (AddRecord _ _ _ _ _ _) as [s2 σ2]. destruct (ok s2) eqn:Es; cbn [negb]; [|intros [= <- <- <-]; by rewrite Es].
      by intros (mem & _ & [= <- <- <-])%rbind_Ok.
    - destruct (AddRecord _ _ _ _ _ _) as [s2 σ2]. destruct (ok s2) eqn:Es; cbn [negb]; [|intros [= <- <- <-]; by rewrite Es].
      intros (mem & _ & [= <- <- <-])%rbind_Ok. unfold record_bytes. cbn [e_key e_value]. by rewrite blen_nil, Z.add_0_r. }
  destruct (ok s1) eqn:Es; cbn [negb] in E.
  - apply maybe_begin_counts in E as [-> ->]. split; [done|]. intros _. by apply Hu.
  - injection E as <- <- <- <-. split; [done|]. cbn. by rewrite Es.
Qed.

(** A call of the client. *)
Lemma client_counts d op σ r ph d' σ' :
  client_begin d op σ = Ok (r, ph, d', σ') ->
  ((forall k, op <> CGet k) -> block_cache_ d' = block_cache_ d) /\
  (lost (EvClient op, r) = false ->
   user_bytes_ d' = match op_record op with Some e => user_bytes_ d +u64 record_bytes e | None => user_bytes_ d end).
Proof.
  intros E. destruct (op_record op) as [e|] eqn:Eop.
  - destruct (record_counts _ _ _ _ _ _ _ _ Eop E) as [Hc Hu]. split; [done|]. intros Hl. apply Hu. by destruct op.
  - destruct op as [| |k|]; try done; cbn [client_begin] in E; [|by apply flush_begin_counts in E as [? ?]].
    split; [intros Hk; by destruct (Hk k)|intros _]. revert E. intros ([a d2] & Hg & [= _ _ <- _])%rbind_Ok.
    revert Hg. unfold DB_Get. intros (x & _ & Hg)%rbind_Ok.
    destruct x.1; try (by injection Hg as _ <-); revert Hg; by intros ([f c] & _ & [= _ <-])%rbind_Ok.
Qed.

(** What each event does to the cache and to the bytes of the user. *)
Lemma event_counts s ev r s' :
  enabled s ev = true -> sys_exec s ev = Ok (r, s') ->
  ((forall k, ev <> EvClient (CGet k)) -> block_cache_ (s_db s') = block_cache_ (s_db s)) /\
  (lost (ev, r) = false -> user_bytes_ (s_db s')
     = match event_record ev with Some e => user_bytes_ (s_db s) +u64 record_bytes e | None => user_bytes_ (s_db s) end).
Proof.
  intros Hen E. destruct ev as [op| | | | | |].
  { unfold sys_exec, enabled in *. destruct (s_client s); [|done]. revert E. intros ([[[r1 ph] d1] σ1] & Hb & [= <- <-])%rbind_Ok.
    destruct (client_counts _ _ _ _ _ _ _ Hb) as [Hc Hu]. split; [|done]. intros Hk. apply Hc. intros k ->. by apply (Hk k). }
  all: enough (untouched (s_db s) (s_db s')) as [Hc Hu] by (by split); unfold sys_exec, enabled in *.
  - destruct (s_client s); [done|]. revert E. by intros ([[st d1] σ1] & Hb%publish_counts & [= _ <-])%rbind_Ok.
  - destruct (s_bg s); try done; by injection E as _ <-.
  - destruct (s_bg s); try done. revert E. intros (s1 & Ht & [= _ <-])%rbind_Ok. unfold loop_turn, rbind in Ht.
    ok_cases Ht; by injection Ht as <-.
  - destruct (s_bg s); try done. revert E. intros (s1 & Ht & [= _ <-])%rbind_Ok. revert Ht. unfold merge_turn.
    intros ([[next st] cs] & Ht%turn_counts & [= <-])%rbind_Ok. destruct next; [|destruct (negb _)]; exact Ht.
  - destruct (s_bg s); try done. revert E. by intros ([[st d1] σ1] & Hb%install_counts & [= _ <-])%rbind_Ok.
  - destruct (s_client s); [|done]. by injection E as _ <-.
Qed.

(** The bytes of the user are those of the mutations since the database was
    opened. *)
Lemma open_user_bytes o dir recs s0 : block_cache_bytes o < 2 ^ 63 -> starts o dir recs s0 -> user_bytes_ (s_db s0) = 0.
Proof.
  intros Hc [σ0 d σ1 os (Hio & nx & v & ess & log & Hst & Hrep & Hfit & _) E _].
  destruct (open_rebuilds o dir σ0 nx v ess log) as (mem & Eo & _); try done. rewrite E in Eo. by injection Eo as -> _.
Qed.

Definition history_bytes (hist : list entry) : Z := foldr Z.add 0 (map record_bytes hist).

Lemma run_user_bytes s0 tr s :
  sys_run s0 tr s -> user_bytes_ (s_db s0) = 0 -> Forall (fun x => lost x = false) tr ->
  user_bytes_ (s_db s) = u64 (history_bytes (history [] tr)).
Proof.
  intros Hrun H0'. induction Hrun as [|tr s ev r s' _ IH Hen _ _ E]; [done|]. intros [Hl Hr]%Forall_app. rewrite Forall_singleton in Hr.
  rewrite history_snoc, (proj2 (event_counts s ev r s' Hen E) Hr), IH by done.
  destruct ev as [[k v|k|k|]| | | | | |]; try done; cbn [history_step fst event_record op_record option_list app].
  - unfold history_bytes. cbn [map foldr]. by rewrite u64_add_l, Z.add_comm.
  - unfold history_bytes. cbn [map foldr]. by rewrite u64_add_l, Z.add_comm.
Qed.

End Counters.

(** ** Properties *)

(** C32 (functional). The statistics describe the state: for every database
    reached by the client and the background thread, [GetStats] reports for each
    level the number of its tables and the sum of their file sizes in bytes, and
    the bytes written as the sum of flushes and compactions; if no put or delete
    reported failure, the user's bytes are the lengths of the keys and values of
    all mutations since the database was opened. All sums are modulo 2^64. *)
Theorem stats_describe_levels `{Os} `{MemEnv} o dir recs0 s0 tr s :
  usable o -> starts o dir recs0 s0 -> sys_run s0 tr s ->
  exists v st, current_ (s_db s) = Some v /\ GetStats (s_db s) = Ok st /\
    files_per_level st = map blen v /\
    bytes_per_level st = map (fun l => u64 (foldr Z.add 0 (map table_size l))) v /\
    sstable_bytes_written st = u64 (flush_bytes st + compaction_bytes st) /\
    (Forall (fun x => lost x = false) tr -> user_bytes st = u64 (history_bytes (history [] tr))).
Proof.
  intros [Hb Ht Hc] Hst Hrun. destruct (sys_run_inv o Hb Ht dir recs0 s0 tr s Hc Hst Hrun) as (left & busy & recs & _ & v & R & mes & ess & [Hd _ _ _ _ _ _] & _).
  destruct Hd as [_ _ Hcur [Hf _ Hn] _ _ _ _ _ _]. unfold GetStats. rewrite Hcur. cbn [of_option rbind].
  destruct (match block_cache_ (s_db s) with Some c => _ | None => _ end) as [[hits misses] rate].
  eexists v, _. split; [done|]. split; [done|]. cbn [files_per_level bytes_per_level sstable_bytes_written flush_bytes compaction_bytes user_bytes].
  split_and!; try done.
  - apply map_ext_in. intros l Hl%list_elem_of_In. rewrite Forall_forall in Hn. specialize (Hn l Hl). simpl in Hn.
    pose proof (blen_nonneg l). by rewrite to_int_small by lia.
  - clear -Hf. induction Hf as [|l es v ess Hl _ IH]; [done|]. cbn [map]. by rewrite IH, (level_bytes_sum _ _ Hl).
  - apply (run_user_bytes s0); [done|]. by eapply open_user_bytes.
Qed.

(** [TEST_NumLevelsWithData] counts the levels that hold a table, without
    overflow for any number of levels below 2^31. *)
Lemma levels_with_data_counted d v :
  current_ d = Some v -> blen v < 2 ^ 31 ->
  TEST_NumLevelsWithData d = Ok (blen (List.filter (fun l => negb (bool_decide (l = []))) v)).
Proof. intros Hc Hv. unfold TEST_NumLevelsWithData. rewrite Hc. cbn [of_option rbind]. rewrite count_levels by lia. done. Qed.

Lemma stats_describe_levels_witness :
  match @sys_exec_all plain_os alternating_env sample_start sample_events with
  | Some (tr, s) =>
      exists v st, current_ (s_db s) = Some v /\ GetStats (s_db s) = Ok st /\
        files_per_level st = map blen v /\
        bytes_per_level st = map (fun l => u64 (foldr Z.add 0 (map table_size l))) v /\
        sstable_bytes_written st = u64 (flush_bytes st + compaction_bytes st) /\
        (Forall (fun x => lost x = false) tr -> user_bytes st = u64 (history_bytes (history [] tr)))
  | None => False
  end.
Proof.
  pose proof sample_run as Hrun.
  destruct (@sys_exec_all plain_os alternating_env sample_start sample_events) as [[tr s]|]; [|exact Hrun].
  apply (@stats_describe_levels plain_os alternating_env sample_options (lit "db") sample_log sample_start tr s);
    [exact sample_usable|exact sample_starts|exact Hrun].
Defined.
