(* ===== verification/Faultless.v ===== *)
(** The system when no system call fails: every call of the client reports
    success, no merge fails, and the compactions come to an end, so that
    [DB::TEST_WaitForCompactions] returns. An oracle that is used up ([io] empty)
    stands for system calls that succeed from then on. *)
From S2P Require Import Prelude Types Bloom SkipList Cache Posix Wal TableFormat TableWriter.
From S2P Require Import TableReader Iterator TableIter Merge Version Db DbInvariant Compaction Leveling Manifest.
From S2P Require Import Merging Background Refinement.

Section Calls.
Context `{Os}.

(** ** System calls *)

Lemma sys_calm σ k : io σ = [] -> sys σ k = (None, mkWorld (k (fs σ)) []).
Proof. intros Hio. destruct σ as [m os]. cbn [io] in Hio. by subst os. Qed.

Lemma fd_write_calm p data σ : io σ = [] -> exists σ', fd_write (Some p) data σ = (None, σ') /\ io σ' = [].
Proof.
  intros Hio. destruct σ as [m os]. cbn [io] in Hio. subst os. cbn [fd_write]. rewrite write_fully_ok. by eexists.
Qed.

Lemma close_calm σ : io σ = [] -> close σ = (None, σ).
Proof. intros Hio. unfold close. rewrite sys_calm by done. destruct σ as [m os]. cbn [io] in Hio. by subst os. Qed.

(** ** The table writer *)

Lemma WriteRaw_calm w p data σ : w_fd_ w = Some p -> io σ = [] -> exists σ', WriteRaw w data σ = (Status_OK, σ') /\ io σ' = [].
Proof. intros Hfd Hio. unfold WriteRaw. rewrite Hfd. destruct (fd_write_calm p data σ Hio) as (σ' & -> & ?). by exists σ'. Qed.

Lemma WriteSealed_calm w p data σ :
  w_fd_ w = Some p -> io σ = [] -> exists σ', WriteSealed w data σ = (Status_OK, σ') /\ io σ' = [].
Proof.
  intros Hfd Hio. unfold WriteSealed. destruct (WriteRaw_calm w p data σ Hfd Hio) as (σ1 & -> & Hio1).
  cbn [ok Status_OK code_ negb]. by apply (WriteRaw_calm w p).
Qed.

Lemma FlushBlock_calm w p σ :
  w_fd_ w = Some p -> io σ = [] -> exists w' σ', FlushBlock w σ = (Status_OK, w', σ') /\ w_fd_ w' = Some p /\ io σ' = [].
Proof.
  intros Hfd Hio. unfold FlushBlock. destruct (w_block_buf_ w) as [|b buf]; [by eexists _, _|].
  destruct (WriteSealed_calm w p (b :: buf) σ Hfd Hio) as (σ1 & -> & Hio1). cbn [ok Status_OK code_ negb]. by eexists _, _.
Qed.

Lemma Add_calm w p k v t σ :
  w_fd_ w = Some p -> io σ = [] ->
  exists w' σ', SSTableWriter_Add w k v t σ = (Status_OK, w', σ') /\ w_fd_ w' = Some p /\ io σ' = [].
Proof.
  intros Hfd Hio. unfold SSTableWriter_Add. destruct (_ <=? _); [by apply FlushBlock_calm|]. by eexists _, _.
Qed.

Lemma add_all_calm es w p σ :
  w_fd_ w = Some p -> io σ = [] -> exists w' σ', add_all w es σ = (Status_OK, w', σ') /\ w_fd_ w' = Some p /\ io σ' = [].
Proof.
  revert w σ. induction es as [|e es IH]; intros w σ Hfd Hio; cbn [add_all]; [by eexists _, _|].
  destruct (Add_calm w p (e_key e) (e_value e) (e_type e) σ Hfd Hio) as (w1 & σ1 & -> & Hfd1 & Hio1).
  cbn [ok Status_OK code_ negb]. by apply IH.
Qed.

Lemma write_metadata_calm w p σ :
  w_fd_ w = Some p -> io σ = [] -> exists w' σ', write_metadata w σ = (Status_OK, w', σ') /\ w_fd_ w' = Some p /\ io σ' = [].
Proof.
  intros Hfd Hio. unfold write_metadata. destruct (BloomBuilder_Finish (w_bloom_ w)) as [flt bl].
  destruct (WriteSealed_calm (set_bloom w bl) p flt σ Hfd Hio) as (σ1 & -> & Hio1). cbn [ok Status_OK code_ negb].
  match goal with |- context [WriteSealed ?w' ?x σ1] => destruct (WriteSealed_calm w' p x σ1 Hfd Hio1) as (σ2 & -> & Hio2) end.
  cbn [ok Status_OK code_ negb].
  match goal with |- context [WriteRaw ?w' ?x σ2] => destruct (WriteRaw_calm w' p x σ2 Hfd Hio2) as (σ3 & -> & Hio3) end.
  cbn [ok Status_OK code_ negb]. by eexists _, _.
Qed.

Lemma Finish_calm w p σ :
  w_fd_ w = Some p -> io σ = [] -> exists w' σ', SSTableWriter_Finish w σ = (Status_OK, w', σ') /\ io σ' = [].
Proof.
  intros Hfd Hio. unfold SSTableWriter_Finish. destruct (w_finished_ w); [by eexists _, _|].
  destruct (FlushBlock_calm (set_finished w) p σ Hfd Hio) as (w1 & σ1 & -> & Hfd1 & Hio1). cbn [ok Status_OK code_ negb].
  destruct (write_metadata_calm w1 p σ1 Hfd1 Hio1) as (w2 & σ2 & -> & Hfd2 & Hio2). cbn [ok Status_OK code_ negb].
  unfold sync_close, fsync. rewrite Hfd2, sys_calm, close_calm by done. by eexists _, _.
Qed.

Lemma Open_calm path bs bpk σ :
  io σ = [] -> exists w' σ', SSTableWriter_Open (SSTableWriter_new path bs bpk) σ = (Status_OK, w', σ') /\ w_fd_ w' = Some path /\ io σ' = [].
Proof. intros Hio. unfold SSTableWriter_Open, open_trunc. rewrite sys_calm by done. by eexists _, _. Qed.

(** A finished table opens. *)
Lemma reopen_calm path bs bpk es w σ fn :
  table_fits bs bpk es -> writer_has path bs bpk es w σ -> io σ = [] ->
  exists w3 σ3 r, SSTableWriter_Finish w σ = (Status_OK, w3, σ3) /\ SSTableReader_Open path fn σ3 = (Ok r, σ3) /\ io σ3 = [].
Proof.
  intros Hfit Hw Hio. destruct (Finish_calm w path σ) as (w3 & σ3 & E3 & Hio3); [apply Hw|done|].
  destruct Hw as (Hw & Hc & Hfin).
  destruct (Finish_spec _ _ _ _ _ _ _ _ _ (tf_block _ _ _ Hfit) Hw Hc Hfin E3) as [_ (Hf3 & _)%(fun x => x eq_refl)].
  assert (chunk_all (fold_left (chunk_add bs) es ([], [])) = es) as Ha.
  { rewrite <- (chunks_concat bs es) at 2. unfold chunks. by rewrite chunk_close_all. }
  rewrite Ha in Hf3. fold (chunks bs es) in Hf3.
  destruct (session_open path _ _ _ fn Hfit) as (r & Hopen & _). exists w3, σ3, r. split; [done|]. split; [|done].
  rewrite (open_file path _ fn σ3 Hf3 Hio3); [cbn [f_data]; by rewrite Hopen|].
  unfold table_bytes. cbn [f_data]. rewrite !blen_app, blen_footer. len.
Qed.

(** ** The turns of a merge *)

Lemma finish_output_calm bpk st cur :
  io (cs_world st) = [] -> table_fits kOutputBlockSize bpk cur ->
  (forall w, cs_w st = Some w -> writer_has (cs_path st) kOutputBlockSize bpk cur w (cs_world st)) ->
  exists st', finish_output st = Ok (Status_OK, st') /\ io (cs_world st') = [].
Proof.
  intros Hio Hfit Hw. unfold finish_output. destruct (cs_w st) as [w|]; [|by eexists].
  destruct (reopen_calm _ kOutputBlockSize bpk cur w _ (cs_number st) Hfit (Hw w eq_refl) Hio) as (w3 & σ3 & r & -> & E & Hio3).
  cbn [ok Status_OK code_ negb]. rewrite E. eexists. split; [done|]. cbn [cs_world]. unfold SSTableWriter_destroy.
  destruct (w_fd_ w3); [by rewrite close_calm|done].
Qed.

Section Run.
Variables (bpk total : Z).
Hypothesis Htotal : total <= 2 ^ 25.
Hypothesis Hbits : 0 <= bpk <= 100.

Lemma compact_body_calm c m outs cur st e rest :
  (cur_key_ m, cur_value_ m, cur_is_tombstone_ m) = view e ->
  run_inv bpk outs cur st -> 0 <= cs_next st < 2 ^ 30 -> bloom_bits_per_key (options_ (cs_db st)) = bpk ->
  run_fits total outs cur (emitted (bottommost c) e ++ rest) -> io (cs_world st) = [] ->
  exists st', compact_body c m st = Ok (Status_OK, st') /\ io (cs_world st') = [].
Proof.
  intros Hv Hi Hlim Hbpk Hfit Hio. injection Hv as Hk Hval Ht. unfold compact_body. rewrite Hk, Hval, Ht. unfold emitted in Hfit.
  destruct (bottommost c && is_tombstone_type (e_type e)) eqn:Eb; [by eexists|].
  set (e' := Entry (e_key e) (e_value e) (if is_tombstone_type (e_type e) then kTombstone else kValue)) in *.
  assert (exists st1, open_output st = (Status_OK, st1) /\ io (cs_world st1) = []) as (st1 & E1 & Hio1).
  { unfold open_output. destruct (cs_w st); [by eexists|]. cbn [set_next options_].
    destruct (Open_calm (FilePath (set_next (cs_db st) (cs_next st +u64 1)) (cs_next st)) kOutputBlockSize
      (bloom_bits_per_key (options_ (cs_db st))) (cs_world st) Hio) as (w & σ1 & -> & _ & ?). by eexists. }
  rewrite E1. cbn [ok Status_OK code_ negb].
  destruct (open_output_spec bpk outs cur st _ st1 Hi Hlim Hbpk E1) as (_ & _ & [Hi1 [w Ew]]%(fun x => x eq_refl)).
  rewrite Ew. cbn [of_option rbind]. pose proof (ri_open _ _ _ _ Hi1) as Hop. rewrite Ew in Hop. destruct Hop as [_ Hw].
  assert (rec_fits e') as He'.
  { destruct Hfit as (_ & Hf & _). do 2 (apply Forall_app in Hf as [_ Hf]). by apply Forall_cons in Hf as [? _]. }
  destruct (Add_calm w (cs_path st1) (e_key e') (e_value e') (e_type e') (cs_world st1)) as (w2 & σ2 & E2 & _ & Hio2); [apply Hw|done|].
  assert (0 <= kOutputBlockSize <= 2 ^ 30) as Hbs by (unfold kOutputBlockSize; lia).
  destruct (add_writer_has _ _ _ _ _ _ _ _ _ _ Hbs He' Hw E2) as [_ Hw2%(fun x => x eq_refl)].
  cbn [e' e_key e_value e_type] in E2. rewrite E2. cbn [ok Status_OK code_ negb]. destruct (_ <=? _); [|by eexists].
  apply run_fits_app in Hfit. apply (finish_output_calm bpk _ (cur ++ [e'])); [done|by eapply output_fits|]. by intros ? [= <-].
Qed.

Lemma compact_turn_calm c m out outs cur st :
  merging_at m out -> run_inv bpk outs cur st -> 0 <= cs_next st < 2 ^ 30 -> bloom_bits_per_key (options_ (cs_db st)) = bpk ->
  run_fits total outs cur (written (bottommost c) out) -> io (cs_world st) = [] ->
  exists next st', compact_turn c m st = Ok (next, Status_OK, st') /\ io (cs_world st') = [].
Proof.
  intros Hm Hi Hlim Hbpk Hfit Hio. unfold compact_turn. destruct out as [|e out]; pose proof Hm as [Hst Hm'].
  - rewrite Hm', Hst. cbn [ok Status_OK code_ negb].
    destruct (finish_output_calm bpk st cur Hio) as (st' & -> & ?); [by eapply output_fits| |by eexists _, _].
    intros w Ew. pose proof (ri_open _ _ _ _ Hi) as Hop. rewrite Ew in Hop. apply Hop.
  - destruct Hm' as (-> & Hv & _). cbn [written flat_map] in Hfit.
    destruct (compact_body_calm c m outs cur st e (written (bottommost c) out) Hv Hi Hlim Hbpk Hfit Hio) as (st1 & -> & Hio1).
    cbn [rbind ok Status_OK code_ negb]. destruct (Merge_Next_at _ _ _ Hm) as (m' & -> & _). by eexists _, _.
Qed.

End Run.

(** ** Calls of the client *)

Lemma AddRecord_calm w p t k v b σ :
  wal_fd_ w = Some p -> io σ = [] -> exists σ', AddRecord w t k v b σ = (Status_OK, σ') /\ io σ' = [].
Proof.
  intros Hfd Hio. unfold AddRecord, WriteFully. rewrite Hfd.
  match goal with |- context [fd_write (Some p) ?x σ] => destruct (fd_write_calm p x σ Hio) as (σ1 & -> & Hio1) end.
  cbn [ok Status_OK code_ negb]. destruct b; [|by eexists]. unfold fsync. rewrite sys_calm by done. by eexists.
Qed.

Lemma WriteManifest_calm d v σ : io σ = [] -> exists σ', WriteManifest d v σ = (Status_OK, σ') /\ io σ' = [].
Proof.
  intros Hio. unfold WriteManifest, open_trunc, fsync, rename. rewrite sys_calm by done.
  rewrite write_fully_ok, sys_calm, close_calm, sys_calm by done. by eexists.
Qed.

Lemma destroy_calm w σ : io σ = [] -> io (SSTableWriter_destroy w σ) = [].
Proof. intros Hio. unfold SSTableWriter_destroy. destruct (w_fd_ w); [by rewrite close_calm|done]. Qed.

Lemma unlinks_calm d files σ :
  io σ = [] -> io (fold_left (fun σ f => unlink (FilePath d (fm_number f)) σ) files σ) = [].
Proof.
  revert σ. induction files as [|f files IH]; intros σ Hio; [done|]. cbn [fold_left]. apply IH. unfold unlink. by rewrite sys_calm.
Qed.

Lemma compact_install_calm d c outputs σ s d' σ' :
  io σ = [] -> compact_install d c outputs σ = Ok (s, d', σ') -> io σ' = [].
Proof.
  intros Hio. unfold compact_install. destruct (current_ d) as [v|]; [|done]. cbn [of_option rbind].
  match goal with |- context [WriteManifest ?d0 ?v0 σ] => destruct (WriteManifest_calm d0 v0 σ Hio) as (σ1 & -> & Hio1) end.
  cbn [ok Status_OK code_ negb]. intros [= _ <- <-]. by apply unlinks_calm.
Qed.

Context `{MemEnv}.

Lemma publish_calm d fm w σ s d' σ' :
  io σ = [] -> publish_table d fm w σ = Ok (s, d', σ') -> s = Status_OK /\ is_Some (wal_fd_ (wal_ d')) /\ io σ' = [].
Proof.
  intros Hio. unfold publish_table, install_flush. destruct (current_ d) as [v|]; [|done]. cbn [of_option rbind].
  match goal with |- context [WriteManifest ?d0 ?v0 σ] => destruct (WriteManifest_calm d0 v0 σ Hio) as (σ1 & -> & Hio1) end.
  cbn [ok Status_OK code_ negb].
  assert (exists st w' σ2, WalWriter_Close (wal_ d) σ1 = (st, w', σ2) /\ io σ2 = []) as (st & w' & σ2 & Ec & Hio2).
  { unfold WalWriter_Close. destruct (wal_fd_ _); [rewrite close_calm by done|]; by eexists _, _, _. }
  cbn [wal_ set_mem set_current]. rewrite Ec. unfold open_trunc, WalWriter_Open, open_append.
  rewrite (sys_calm σ2) by done. rewrite close_calm by done. rewrite sys_calm by done. cbn [ok Status_OK code_ negb rbind]. intros [= <- <- <-].
  split; [done|]. split; [by eexists|]. by apply destroy_calm.
Qed.

Lemma flush_table_calm d v R mes ess σ :
  db_ok d v R mes ess -> mem_limits d mes -> io σ = [] ->
  exists t d' σ', flush_table d σ = Ok (Status_OK, t, d', σ') /\ io σ' = [].
Proof.
  intros Hd (Hn & Hb & Hlim) Hio. pose proof (do_mem _ _ _ _ _ Hd) as Hm. unfold flush_table.
  destruct (_ =? 0); [by eexists _, _, _|]. cbn [set_next options_ mem_ next_file_number_].
  match goal with |- context [SSTableWriter_Open (SSTableWriter_new ?p ?b ?k) σ] => destruct (Open_calm p b k σ Hio) as (w1 & σ1 & E1 & Hfd1 & Hio1) end.
  rewrite E1. cbn [ok Status_OK code_ negb]. destruct (drain_contents _ _ Hm) as (it & -> & Hdr). cbn [rbind]. rewrite Hdr. cbn [rbind].
  destruct (add_all_calm mes w1 _ σ1 Hfd1 Hio1) as (w2 & σ2 & E2 & _ & Hio2). rewrite E2. cbn [ok Status_OK code_ negb].
  set (bpk := bloom_bits_per_key (options_ d)) in *.
  assert (table_fits kOutputBlockSize bpk mes) as Hfit.
  { apply table_fits_intro; [unfold kOutputBlockSize; lia|apply Hd|by eapply sl_contents_sorted|lia|].
    pose proof (blen_nonneg mes). nia. }
  destruct (open_writer_has _ _ _ _ _ _ _ E1) as [_ Hw1%(fun x => x eq_refl)].
  destruct (add_all_writer_has _ _ _ _ _ _ _ _ _ _ (tf_block _ _ _ Hfit) (tf_recs _ _ _ Hfit) Hw1 E2) as [_ Hw2%(fun x => x eq_refl)].
  destruct (reopen_calm _ kOutputBlockSize bpk mes w2 σ2 (next_file_number_ d) Hfit Hw2 Hio2) as (w3 & σ3 & r & -> & E4 & Hio3).
  cbn [ok Status_OK code_ negb]. rewrite E4. by eexists _, _, _.
Qed.

Lemma maybe_begin_calm d v R mes ess σ r ph d' σ' :
  db_ok d v R mes ess -> mem_limits d mes -> io σ = [] ->
  maybe_begin d σ = Ok (r, ph, d', σ') -> failed r = false /\ io σ' = [].
Proof.
  intros Hd Hl Hio. unfold maybe_begin, flush_begin. destruct (_ <=? _); [|by intros [= <- <- <- <-]].
  destruct (flush_table_calm d v R mes ess σ Hd Hl Hio) as ([[fm w]|] & d1 & σ1 & -> & Hio1); by intros [= <- <- <- <-].
Qed.

(** A call reports no failure. *)
Lemma client_begin_calm d v R mes ess op p σ r ph d' σ' :
  db_ok d v R mes ess -> op_fits op -> wal_fd_ (wal_ d) = Some p -> blen mes < 2 ^ 25 ->
  0 <= bloom_bits_per_key (options_ d) <= 100 -> next_file_number_ d < 2 ^ 30 -> io σ = [] ->
  client_begin d op σ = Ok (r, ph, d', σ') -> failed r = false /\ io σ' = [].
Proof.
  intros Hd Hfit Hfd Hn Hb Hlim Hio. destruct (op_record op) as [e|] eqn:Eop.
  - assert (rec_fits e) as He by (destruct op; cbn in *; injection Eop as <- || done; done).
    destruct (record_begin_spec d v R mes ess op e σ Hd Eop He) as (s1 & σ1 & mem' & user & E1 & E2 & Hm').
    destruct (AddRecord_calm (wal_ d) p (e_type e) (e_key e) (e_value e) (sync (options_ d)) σ Hfd Hio) as (σ2 & E3 & Hio2).
    rewrite E1 in E3. injection E3 as -> ->. rewrite (client_begin_record _ _ e) by done. rewrite E2. cbn [rbind ok Status_OK code_ negb].
    intros E. refine (maybe_begin_calm _ v R (upsert e mes) ess σ2 r ph d' σ' (db_ok_mem d v R mes ess mem' e user Hd He Hm') _ Hio2 E).
    assert (blen (upsert e mes) <= blen mes + 1) by (pose proof (upsert_length e mes); unfold blen; lia). split_and!; cbn; lia.
  - destruct op as [| |key|]; try done; cbn [client_begin].
    + destruct (db_get d v R mes ess key Hd) as (c & -> & _). by intros [= <- <- <- <-].
    + unfold flush_begin. destruct (flush_table_calm d v R mes ess σ Hd ltac:(split_and!; lia) Hio) as ([[fm w]|] & d1 & σ1 & -> & Hio1);
        by intros [= <- <- <- <-].
Qed.

End Calls.

(** ** The system *)

Section System.
Context `{Os} `{MemEnv}.
Variable o : Options.
Hypothesis Hbits : 0 <= bloom_bits_per_key o <= 100.
Hypothesis Htrigger : 1 <= l0_compaction_trigger o.

(** A turn of a merge does not fail. *)
Lemma merge_calm lim left s busy v R mes ess c mv s' :
  sys_at o lim left s busy v R mes ess -> s_bg s = BgMerging c mv -> lim < 2 ^ 30 -> io (s_world s) = [] ->
  merge_turn s c mv = Ok s' -> io (s_world s') = [] /\ s_bg s' <> BgLoop.
Proof.
  intros [Hd Ho _ _ Hn _ Hbg] Hph Hlim Hio. rewrite Hph in Hbg.
  destruct Hbg as [_ ([(p & outs & cur & out & _ & Hm & _ & _ & Hi & _ & Hfit & _) _ _ _] & _)].
  pose proof (do_next _ _ _ _ _ Hd) as Hn1. assert (0 <= bloom_bits_per_key (options_ (s_db s)) <= 100) as Hb by (by rewrite Ho).
  destruct (compact_turn_calm _ (2 ^ 25) ltac:(lia) Hb c (mv_iter mv) out outs cur (resume (s_db s) mv (s_world s)) Hm Hi ltac:(cbn; lia) eq_refl Hfit Hio)
    as (next & cs & E & Hio'). unfold merge_turn. rewrite E. cbn [rbind ok Status_OK code_ negb].
  destruct next; intros [= <-]; by split.
Qed.

(** No event fails, and the log stays open. *)
Lemma event_calm left s busy recs ev r s' :
  sys_inv o (2 ^ 29) left s busy recs -> enabled s ev = true -> capacity (s_db s) = true -> event_fits ev ->
  io (s_world s) = [] -> is_Some (wal_fd_ (wal_ (s_db s))) -> sys_exec s ev = Ok (r, s') ->
  failed r = false /\ io (s_world s') = [] /\ is_Some (wal_fd_ (wal_ (s_db s'))).
Proof.
  intros (v & R & mes & ess & Hat & _) Hen Hcap Hfit Hio Hw E. pose proof Hat as [Hd Ho Hwal Hm Hn _ _].
  destruct (capacity_spec _ _ _ _ _ Hd Hm Hcap) as (Hsize & Hent & Hnx).
  destruct ev as [op| | | | | |]; cbn [sys_exec enabled] in *.
  - destruct (s_client s) as [|fm w] eqn:Ecl; [|done]. destruct Hw as [p Hp].
    destruct (client_begin_spec (s_db s) v R mes ess (db_records mes ess) op (s_world s) Hd (fun _ => eq_refl) Hfit Hwal)
      as (r' & ph & d' & σ' & mes' & recs' & E' & [_ _ _ _ Hwl _ _] & _); [lia|by rewrite Ho|lia|].
    pose proof (client_begin_calm (s_db s) v R mes ess op p (s_world s) r' ph d' σ' Hd Hfit Hp Hsize ltac:(by rewrite Ho) ltac:(lia) Hio E') as [? ?].
    rewrite E' in E. injection E as <- <-. cbn [s_db s_world]. rewrite Hwl, Hp. by split_and!.
  - destruct (s_client s) as [|fm w] eqn:Ecl; [done|].
    destruct (publish_table (s_db s) fm w (s_world s)) as [[[st d'] σ']| |] eqn:E'; [|done..]. injection E as <- <-.
    destruct (publish_calm _ _ _ _ _ _ _ Hio E') as (-> & ? & ?). done.
  - destruct (s_bg s) eqn:Eb; try by destruct (s_client s). destruct (s_client s); by injection E as <- <-.
  - destruct (s_bg s) eqn:Eb; try by destruct (s_client s).
    destruct (loop_step o Htrigger _ left s busy v R mes ess Hat Eb Hent) as (s1 & left1 & E1 & _ & Hdb & Hwd & _).
    destruct (s_client s); rewrite E1 in E; injection E as <- <-; by rewrite Hdb, Hwd.
  - destruct (s_bg s) as [| |c mv| |] eqn:Eb; try by destruct (s_client s).
    destruct (merge_step o Hbits (2 ^ 29) left s busy v R mes ess c mv Hat Eb ltac:(lia)) as (s1 & left1 & R1 & E1 & _ & (_ & _ & _ & _ & Hwl & _) & _).
    destruct (merge_calm _ _ _ _ _ _ _ _ _ _ _ Hat Eb ltac:(lia) Hio E1) as [Hio1 _].
    destruct (s_client s); rewrite E1 in E; injection E as <- <-; by rewrite Hwl.
  - destruct (s_bg s) as [| | |c outputs|] eqn:Eb; try by destruct (s_client s).
    destruct (install_step o Hbits _ left s busy v R mes ess c outputs Hat Eb ltac:(lia)) as (st & d' & σ' & ess' & E1 & -> & _).
    pose proof (compact_install_calm _ _ _ _ _ _ _ Hio E1) as Hio1.
    destruct (s_client s); rewrite E1 in E; by injection E as <- <-.
  - destruct (s_client s) as [|fm w]; [|done]. by injection E as <- <-.
Qed.

End System.

(** ** Waiting for the compactions *)

(** The next step of the background thread; a sleeping one is woken by the caller
    that waits. *)
Definition bg_event (s : Sys) : option event :=
  match s_bg s with
  | BgLoop => Some EvLoop
  | BgMerging _ _ => Some EvMerge
  | BgMerged _ _ => Some EvInstall
  | BgWaiting => if NeedsCompaction (options_ (s_db s)) (current_ (s_db s)) then Some EvWake else None
  | BgStopped => None
  end.

(** [DB::TEST_WaitForCompactions] with the steps of the background thread that it
    waits for; [UB] stands for a wait without end. *)
Fixpoint TEST_WaitForCompactions `{Os} `{MemEnv} (fuel : nat) (s : Sys) : result Sys :=
  if wait_done s then Ok s
  else
    match fuel, bg_event s with
    | S fuel', Some ev => let* (_, s) := sys_exec s ev in TEST_WaitForCompactions fuel' s
    | _, _ => UB
    end.

(** The level that a merge in flight writes to. *)
Definition bg_target (ph : BgPhase) : Z :=
  match ph with BgMerging c _ | BgMerged c _ => Z.of_nat (target_level c) | _ => 0 end.

(** The levels that compactions can reach. *)
Definition wait_height (s : Sys) : Z :=
  Z.max (Z.max (blen (default [] (current_ (s_db s)))) (max_levels (options_ (s_db s)))) (Z.max 2 (bg_target (s_bg s) + 1)).

(** A bound on the steps to wait for. *)
Definition wait_fuel (s : Sys) : nat :=
  let v := default [] (current_ (s_db s)) in Z.to_nat (work (wait_height s) v * (entries v + 4) + 2).

(** The steps left, when merges take at most [n] turns and reach [h] levels. *)
Definition steps_left (n h : Z) (v : Version) (ph : BgPhase) (left : nat) : Z :=
  match ph with
  | BgWaiting => work h v * (n + 4) + 2
  | BgLoop => work h v * (n + 4) + 1
  | BgMerging _ _ => (work h v - 1) * (n + 4) + Z.of_nat left + 3
  | BgMerged _ _ => (work h v - 1) * (n + 4) + 2
  | BgStopped => 0
  end.

Section Waiting.
Context `{Os} `{MemEnv}.
Variable o : Options.
Hypothesis Hbits : 0 <= bloom_bits_per_key o <= 100.
Hypothesis Htrigger : 1 <= l0_compaction_trigger o.
Hypothesis Hlevels : 1 <= max_levels o < 2 ^ 31.
Variables n h : Z.
Hypothesis Hn : n <= 2 ^ 25.
Hypothesis Hh : Z.max 2 (max_levels o) <= h.

(** What the wait relies on. *)
Record waits (lim : Z) (left : nat) (s : Sys) (v : Version) : Prop := {
  wt_at : exists busy R mes ess, sys_at o lim left s busy v R mes ess;
  wt_io : io (s_world s) = [];
  wt_up : shutting_down_ s = false /\ s_bg s <> BgStopped;
  wt_entries : entries v <= n;
  wt_height : blen v <= h /\ bg_target (s_bg s) < h }.

Lemma waits_work lim left s v :
  waits lim left s v -> match s_bg s with BgMerging _ _ | BgMerged _ _ => 1 | _ => 0 end <= work h v.
Proof.
  intros [(busy & R & mes & ess & [Hd _ _ _ _ _ Hbg]) _ _ _ [Hv Ht]]. pose proof (do_version _ _ _ _ _ Hd) as Hok.
  assert (0 <= work h v) as Hnn.
  { destruct (version_cells _ _ Hok) as (cs & -> & ->). pose proof Hok as (Hc & _)%version_ok_cells. rewrite (work_cells _ _ Hc).
    apply cell_work_nonneg. unfold files_of in Hv. by rewrite blen_map in Hv. }
  destruct (s_bg s) as [| |c mv|c outputs|]; cbn [bg_ok bg_target] in *; try done.
  - destruct Hbg as [_ ([(p & _ & _ & _ & Hp & _) _ _ _] & _)]. by eapply planned_work.
  - destruct Hbg as [_ [(p & _ & Hp & _) _ _ _ _ _]]. by eapply planned_work.
Qed.

Lemma waits_nonneg lim left s v : waits lim left s v -> 0 <= n.
Proof.
  intros [(busy & R & mes & ess & Hat) _ _ Hent _]. pose proof (do_version _ _ _ _ _ (sa_db _ _ _ _ _ _ _ _ _ Hat)) as Hv.
  destruct (version_cells _ _ Hv) as (cs & -> & ->). pose proof Hv as (Hok & _)%version_ok_cells. rewrite (entries_cells _ Hok) in Hent.
  pose proof (blen_nonneg (recs (concat cs))). lia.
Qed.

(** One step brings the end of the wait closer. *)
Lemma wait_step lim left s v :
  waits lim left s v -> wait_done s = false -> lim < 2 ^ 30 ->
  exists ev s', bg_event s = Some ev /\ sys_exec s ev = Ok (None, s') /\
    (wait_done s' = true \/ exists left' v', waits (lim + 1) left' s' v' /\
       steps_left n h v' (s_bg s') left' < steps_left n h v (s_bg s) left).
Proof.
  intros Hw Hwd Hlim. pose proof (waits_work _ _ _ _ Hw) as Hwork. pose proof (waits_nonneg _ _ _ _ Hw) as Hnn.
  pose proof Hw as [(busy & R & mes & ess & Hat) Hio [Hup Hst] Hent [Hlv Htg]].
  pose proof Hat as [Hd Ho _ _ Hnx _ Hbg]. pose proof (do_current _ _ _ _ _ Hd) as Hcur.
  unfold bg_event, steps_left in *. destruct (s_bg s) as [| |c mv|c outputs|] eqn:Eb; cbn [bg_ok bg_target] in *; [| | | |done].
  - destruct (loop_step o Htrigger lim left s busy v R mes ess Hat Eb ltac:(lia)) as (s' & left' & E & Hat' & Hdb & Hwld & _ & Hph).
    exists EvLoop, s'. split; [done|]. split; [cbn [sys_exec]; rewrite Eb; destruct (s_client s); by rewrite E|].
    destruct (s_bg s') as [| |c mv|c outputs|] eqn:Eb'; try done; [left|right|congruence].
    + unfold wait_done. rewrite Hdb, Ho, Hcur, Hph. pose proof (sa_bg _ _ _ _ _ _ _ _ _ Hat') as Hz. rewrite Eb' in Hz. cbn in Hz. by rewrite Hz.
    + destruct Hph as (Hpick & _ & Hsd). exists left', v. split.
      * split; rewrite ?Eb', ?Hwld, ?Hsd; try done; [exists busy, R, mes, ess; eapply sys_at_lim; [exact Hat'|rewrite Hdb; lia]|].
        split; [done|]. cbn. pose proof (pick_target o v c Hlevels Hpick). lia.
      * pose proof (sa_bg _ _ _ _ _ _ _ _ _ Hat') as Hz. rewrite Eb' in Hz. destruct Hz as [_ [Hm _]].
        pose proof (left_bound _ _ _ _ _ _ _ _ Hm (do_version _ _ _ _ _ Hd)). nia.
  - unfold wait_done in Hwd. rewrite Hbg in Hwd. cbn [orb negb] in Hwd. apply negb_false_iff in Hwd. rewrite Hwd.
    exists EvWake, (mkSys (s_db s) (s_world s) (s_client s) BgLoop (bg_busy_ s) (shutting_down_ s)). split; [done|]. split; [cbn [sys_exec]; rewrite Eb; by destruct (s_client s)|]. right. exists left, v. split; [|cbn; lia].
    pose proof (wake_step o lim left s busy v R mes ess (shutting_down_ s) Hat) as Hs. rewrite Eb in Hs.
    split; try done. exists busy, R, mes, ess. eapply sys_at_lim; [exact Hs|cbn; lia].
  - destruct (merge_step o Hbits lim left s busy v R mes ess c mv Hat Eb Hlim) as (s' & left' & R' & E & Hat' & _ & _ & Hsd & _ & _ & _ & Hph).
    destruct (merge_calm o Hbits lim left s busy v R mes ess c mv s' Hat Eb Hlim Hio E) as [Hio' Hne].
    exists EvMerge, s'. split; [done|]. split; [cbn [sys_exec]; rewrite Eb; destruct (s_client s); by rewrite E|]. right. exists left', v.
    destruct (s_bg s') as [| |c' mv'|c' outputs'|] eqn:Eb'; try done; [destruct Hph as [-> ->]|subst c'];
      (split; [split; rewrite ?Eb', ?Hsd; try done; by exists busy, R', mes, ess|lia]).
  - destruct (install_step o Hbits lim left s busy v R mes ess c outputs Hat Eb ltac:(lia)) as (st & d' & σ' & ess' & E & -> & Hin & Hat' & _).
    pose proof (compact_install_calm _ _ _ _ _ _ _ Hio E) as Hio'. pose proof (in_work _ _ _ _ _ _ _ Hin h Htg) as Hwk.
    pose proof (in_length _ _ _ _ _ _ _ Hin) as Hlen. pose proof (in_entries _ _ _ _ _ _ _ Hin) as Hen.
    exists EvInstall, (mkSys (set_current (s_db s) (Some (InstallCompaction v c outputs))) σ' (s_client s) BgLoop (bg_busy_ s) (shutting_down_ s)). split; [done|]. split; [cbn [sys_exec]; rewrite Eb; destruct (s_client s); by rewrite E|]. right.
    exists 0%nat, (InstallCompaction v c outputs). split; [split; cbn; try done|cbn; nia].
    + exists busy, R, mes, ess'. eapply sys_at_lim; [exact Hat'|cbn; lia].
    + lia.
    + unfold blen in *. lia.
Qed.

Lemma wait_ends fuel lim left s v :
  waits lim left s v -> steps_left n h v (s_bg s) left <= Z.of_nat fuel -> lim + Z.of_nat fuel <= 2 ^ 30 ->
  exists s', TEST_WaitForCompactions fuel s = Ok s' /\ wait_done s' = true.
Proof.
  revert lim left s v. induction fuel as [|fuel IH]; intros lim left s v Hw Hs Hlim.
  - exfalso. pose proof (waits_work _ _ _ _ Hw). pose proof (waits_nonneg _ _ _ _ Hw). destruct Hw as [_ _ [_ Hst] _ _].
    unfold steps_left in Hs. destruct (s_bg s); [nia..|done].
  - cbn [TEST_WaitForCompactions]. destruct (wait_done s) eqn:Ewd; [by exists s|].
    destruct (wait_step lim left s v Hw Ewd ltac:(lia)) as (ev & s1 & -> & -> & [Hd|(left' & v' & Hw' & Hlt)]); cbn [rbind].
    + exists s1. split; [|done]. destruct fuel; cbn [TEST_WaitForCompactions]; by rewrite Hd.
    + apply (IH (lim + 1) left' s1 v' Hw'); lia.
Qed.

End Waiting.

(** The thread stops only when told to. *)
Lemma stopped_down `{Os} `{MemEnv} o dir recs0 s0 tr s :
  starts o dir recs0 s0 -> sys_run s0 tr s -> s_bg s = BgStopped -> shutting_down_ s = true.
Proof.
  intros Hst. induction 1 as [|tr s ev r s' _ IH _ _ _ E]; [by destruct Hst|].
  destruct ev as [op| | | | | |]; cbn [sys_exec] in E.
  - destruct (s_client s); [|by injection E as <- <-]. destruct (client_begin _ _ _) as [[[[? ?] ?] ?]| |]; [|done..]. by injection E as <- <-.
  - destruct (s_client s); [by injection E as <- <-|]. destruct (publish_table _ _ _ _) as [[[? ?] ?]| |]; [|done..]. by injection E as <- <-.
  - destruct (s_client s), (s_bg s) eqn:Eb; injection E as <- <-; try done; by rewrite Eb.
  - destruct (s_bg s) eqn:Eb; try (destruct (s_client s); injection E as <- <-; by rewrite Eb).
    assert (exists s1, loop_turn s = Ok s1 /\ s1 = s') as (s1 & E1 & ->)
      by (destruct (s_client s), (loop_turn s); try done; injection E as <- <-; by eexists).
    revert E1. unfold loop_turn. destruct (shutting_down_ s); [by intros [= <-]|]. destruct (negb _); [by intros [= <-]|].
    destruct (PickCompaction _ _) as [[c|]| |]; cbn [rbind]; [|by intros [= <-]|done..].
    destruct (compact_start c); [|done..]. by intros [= <-].
  - destruct (s_bg s) as [| |c mv| |] eqn:Eb; try (destruct (s_client s); injection E as <- <-; by rewrite Eb).
    assert (exists s1, merge_turn s c mv = Ok s1 /\ s1 = s') as (s1 & E1 & ->)
      by (destruct (s_client s), (merge_turn s c mv); try done; injection E as <- <-; by eexists).
    revert E1. unfold merge_turn. destruct (compact_turn _ _ _) as [[[[m|] st] cs]| |]; [| |done..]; cbn [rbind]; [by intros [= <-]|].
    destruct (negb _); by intros [= <-].
  - destruct (s_bg s) as [| | |c outputs|] eqn:Eb; try (destruct (s_client s); injection E as <- <-; by rewrite Eb).
    destruct (s_client s), (compact_install _ _ _ _) as [[[? ?] ?]| |]; try done; by injection E as <- <-.
  - destruct (s_client s); injection E as <- <-; done.
Qed.

(** The log is open after [DB::Open]. *)
Lemma starts_log `{Os} `{MemEnv} o dir recs0 s0 :
  block_cache_bytes o < 2 ^ 63 -> starts o dir recs0 s0 -> is_Some (wal_fd_ (wal_ (s_db s0))).
Proof.
  intros Hc [σ0 d σ1 os (Hio & nx & v & ess & log & Hst & Hrep & Hfit & Hlen & _) E Hcap].
  destruct (open_at o dir σ0 nx v ess log d σ1 os Hio Hc Hst Hrep Hfit Hlen E Hcap) as (_ & mem & -> & _). by eexists.
Qed.

(** A system without faults stays so, and its calls succeed. *)
Lemma run_calm `{Os} `{MemEnv} o dir recs0 s0 tr s :
  usable o -> starts o dir recs0 s0 -> io (s_world s0) = [] -> sys_run s0 tr s ->
  Forall (fun x => failed x.2 = false) tr /\ io (s_world s) = [] /\ is_Some (wal_fd_ (wal_ (s_db s))).
Proof.
  intros [Hb Ht Hc] Hst Hio0 Hrun.
  induction Hrun as [|tr s ev r s' Hrun (Htr & Hio & Hw) Hen Hcap Hfit E]; [split_and!; [done..|by apply (starts_log o dir recs0)]|].
  destruct (sys_run_inv o Hb Ht dir recs0 s0 tr s Hc Hst Hrun) as (left & busy & recs & _ & Hinv).
  destruct (event_calm o Hb Ht left s busy recs ev r s' Hinv Hen Hcap Hfit Hio Hw E) as (Hr & Hio' & Hw').
  split; [|done]. apply Forall_app. split; [done|]. by apply Forall_singleton.
Qed.

(** ** Properties *)

(** C7 (termination). Compactions come to an end: from every reachable state of a
    running database, also in the middle of a merge or of a flush and whatever
    failed before, once system calls stop failing [TEST_WaitForCompactions]
    returns, within a number of steps of the background thread that is bounded by
    the records of the version: every compaction moves at least one record a level
    down, and none up. *)
Theorem compactions_settle `{Os} `{MemEnv} o dir recs0 s0 tr s :
  usable o -> 1 <= max_levels o < 2 ^ 31 -> starts o dir recs0 s0 -> sys_run s0 tr s -> capacity (s_db s) = true -> io (s_world s) = [] -> shutting_down_ s = false ->
  Z.of_nat (wait_fuel s) <= 2 ^ 29 ->
  exists s', TEST_WaitForCompactions (wait_fuel s) s = Ok s' /\ wait_done s' = true.
Proof.
  intros [Hb Ht Hc] Hl Hst Hrun Hcap Hio Hup Hfuel.
  destruct (sys_run_inv o Hb Ht dir recs0 s0 tr s Hc Hst Hrun) as (left & busy & recs & _ & v & R & mes & ess & Hat & _).
  pose proof (sa_db _ _ _ _ _ _ _ _ _ Hat) as Hd. pose proof (sa_options _ _ _ _ _ _ _ _ _ Hat) as Ho.
  destruct (capacity_spec _ _ _ _ _ Hd (sa_mem _ _ _ _ _ _ _ _ _ Hat) Hcap) as (_ & Hent & Hnx).
  assert (waits o (entries v) (wait_height s) (2 ^ 29) left s v) as Hw.
  { unfold wait_height. rewrite Ho, (do_current _ _ _ _ _ Hd). split; try done; [by exists busy, R, mes, ess| |cbn [default id]; lia].
    split; [done|]. intros Es. pose proof (stopped_down _ _ _ _ _ _ Hst Hrun Es). congruence. }
  apply (wait_ends o Hb Ht Hl (entries v) (wait_height s) Hent) with (2 ^ 29) left v; [unfold wait_height; rewrite Ho; lia|done| |lia].
  pose proof (waits_work _ _ _ _ _ _ _ Hw) as Hwk. pose proof (waits_nonneg _ _ _ _ _ _ _ Hw) as Hnn. unfold wait_fuel. rewrite (do_current _ _ _ _ _ Hd). cbn [default id].
  pose proof (sa_bg _ _ _ _ _ _ _ _ _ Hat) as Hbg. unfold steps_left. destruct (s_bg s) as [| |c mv|c outputs|]; [nia|nia| |nia|nia].
  destruct Hbg as [_ [Hm _]]. pose proof (left_bound _ _ _ _ _ _ _ _ Hm (do_version _ _ _ _ _ Hd)). nia.
Qed.

Lemma compactions_settle_witness :
  match @sys_exec_all plain_os alternating_env sample_start sample_prefix with
  | Some (tr, s) => wait_done s = false /\
      exists s', @TEST_WaitForCompactions plain_os alternating_env (wait_fuel s) s = Ok s' /\ wait_done s' = true
  | None => False
  end.
Proof.
  assert (match @sys_exec_all plain_os alternating_env sample_start sample_prefix with
          | Some (_, s) => wait_done s = false /\ capacity (s_db s) = true /\ io (s_world s) = [] /\ shutting_down_ s = false /\
              (Z.of_nat (wait_fuel s) <=? 2 ^ 29) = true
          | None => False end) as Hs by (vm_compute; repeat split).
  destruct (@sys_exec_all plain_os alternating_env sample_start sample_prefix) as [[tr s]|] eqn:E; [|destruct Hs].
  destruct Hs as (Hw & Hcap & Hio & Hup & Hf). split; [exact Hw|].
  apply (@sys_exec_all_run plain_os alternating_env sample_start [] sample_start sample_prefix) in E; [|constructor|].
  2: { repeat apply Forall_cons_2; try apply Forall_nil_2; vm_compute; try exact I; discriminate. }
  apply (@compactions_settle plain_os alternating_env sample_options (lit "db") sample_log sample_start tr s);
    [exact sample_usable|cbn; lia|exact sample_starts|exact E|exact Hcap|exact Hio|exact Hup|apply Z.leb_le, Hf].
Defined.

(** C10 (functional). When no system call fails, no call of the client does: in
    every interleaving with the background thread, every put, delete and flush of
    a database just opened reports success. *)
Theorem faultless_calls_succeed `{Os} `{MemEnv} o dir recs0 s0 tr s :
  usable o -> starts o dir recs0 s0 -> io (s_world s0) = [] -> sys_run s0 tr s -> Forall (fun x => failed x.2 = false) tr.
Proof.
  intros Ho Hst Hio Hrun. by apply (run_calm o dir recs0 s0 tr s).
Qed.

Lemma faultless_calls_succeed_witness :
  match @sys_exec_all plain_os alternating_env sample_start sample_events with
  | Some (tr, s) => length tr = 20%nat /\ Forall (fun x => failed x.2 = false) tr
  | None => False
  end.
Proof.
  pose proof sample_run as Hrun.
  assert (match @sys_exec_all plain_os alternating_env sample_start sample_events with
          | Some (tr, s) => length tr = 20%nat | None => True end) as Hl by (vm_compute; reflexivity).
  destruct (@sys_exec_all plain_os alternating_env sample_start sample_events) as [[tr s]|]; [|exact Hrun].
  split; [exact Hl|].
  apply (@faultless_calls_succeed plain_os alternating_env sample_options (lit "db") sample_log sample_start tr s);
    [exact sample_usable|exact sample_starts|vm_compute; reflexivity|exact Hrun].
Defined.
