(* ===== verification/Durability.v ===== *)
(** Durability of the running system (src/db.cpp): what the disk holds while the
    client's calls and the background thread interleave, kept by every step, and
    what a crash in the middle of any step recovers.

    The version in memory and the one that the manifest lists can differ: a flush
    or a compaction whose manifest could not be written is installed all the same.
    Both show the history of mutations, up to forgotten deletes. With synchronous
    writes this survives a crash of the machine, without them the end of the
    process; what asynchronous writes keep of a crash of the machine is the state
    of a recent past. *)
From S2P Require Import Prelude Types Coding Bloom SkipList Cache Posix Wal TableFormat.
From S2P Require Import TableWriter TableReader Iterator TableIter Merge Version Db DbInvariant Compaction.
From S2P Require Import Leveling Manifest Merging Recovery Background Refinement Faultless.

(** ** The disk of the running system *)

(** What the end of a session may lose: with synchronous writes any part of the
    bytes, and any truncation, that no [fsync] covered, without them nothing that was
    written. *)
Definition loses (synced : bool) (σ σc : World) : Prop :=
  crash_world σ σc /\ (synced = false -> forall p, f_data <$> fs σc !! p = f_data <$> fs σ !! p).

(** The tables [ess] with the first records of the log on top show the history as
    it was when the log held just those; the first [m] are not in question. *)
Definition past (m : nat) (log hist : list entry) (ess : contents) : Prop :=
  forall n, (m <= n <= length log)%nat -> forall k,
    forgets (assoc (drop (length log - n) hist) k) (assoc (apply_ops (take n log) [] ++ version_records ess) k).

Definition shows (log hist : list entry) (old : option nat) (ess : contents) : Prop :=
  (forall k, forgets (assoc hist k) (assoc (apply_ops log [] ++ version_records ess) k)) /\
  forall m, old = Some m -> past m log hist ess.

(** What the log held before a truncation shows the history, too. *)
Definition undone (hist : list entry) (ess : contents) (x : bytes * Z) : Prop :=
  exists l, x = (wal_frames l, blen (wal_frames l)) /\ Forall rec_fits l /\
    forall k, forgets (assoc hist k) (assoc (apply_ops l [] ++ version_records ess) k).

(** The manifest's version [vd] with the log [log] on top shows the history
    [hist]; so does the version [v] in memory, whose tables are all stored, with
    the memtable [mes]. The numbers [ks] belong to tables that are being written.
    With synchronous writes the log is durable, except that its last truncation may
    not be; then it is still empty, and what it held before shows the history, too.
    When [old] is [Some m], the records of the log were all written after the
    tables, and the first [m] are durable. *)
Record durable (synced : bool) (d : DB) (σ : World) (ks : list Z) (mes : list entry) (v : Version) (ess : contents)
    (log hist : list entry) (old : option nat) : Prop := {
  du_open : log_usable d;
  du_disk : exists nx vd essd, nx <= next_file_number_ d /\ disk_state d σ nx vd essd /\
    Forall (fun k => k ∉ live_numbers vd) ks /\ shows log hist old essd /\
    (synced = true -> forall f, fs σ !! wal_of d = Some f -> Forall (undone hist essd) (f_before f));
  du_files : Forall (stored d σ) (concat v);
  du_levels : blen v < 2 ^ 32;
  du_log : exists n bef, fs σ !! wal_of d = Some (mkFileAt (wal_frames log) n bef) /\
    (synced = true -> n = blen (wal_frames log) /\ (log = [] \/ bef = [])) /\
    forall m, old = Some m -> (m <= length log)%nat /\ blen (wal_frames (take m log)) <= n;
  du_fits : Forall rec_fits log;
  du_covers : forall k, assoc (apply_ops log []) k = None -> assoc mes k = None;
  du_view : forall k, forgets (assoc hist k) (assoc (db_records mes ess) k);
  du_past : forall m, old = Some m -> past m log hist ess }.

(** A crash leaves a disk from which [DB::Open] shows [hist]. *)
Definition crash_shows (d : DB) (σc : World) (hist : list entry) : Prop :=
  exists recs, recoverable d σc recs /\ forall k, forgets (assoc hist k) (assoc recs k).

(** What the end of a session leaves of a file that is durable up to truncations. *)
Lemma loses_log b σ σc p x n bef :
  loses b σ σc -> fs σ !! p = Some (mkFileAt x n bef) -> (b = true -> n = blen x /\ Forall (fun y => y.2 = blen y.1) bef) ->
  exists y, fs σc !! p = Some (mkFile y (blen y)) /\ (y = x \/ b = true /\ (y, blen y) ∈ bef).
Proof.
  intros [[_ Hc] Hd] Hp Hn. specialize (Hc p). rewrite Hp in Hc. destruct (fs σc !! p) as [f|] eqn:Ef; [|done]. destruct b.
  - destruct (Hn eq_refl) as [-> Hb], Hc as [[Hc|(y & s & Hin & Hc)] Hf].
    + exists x. split; [|by left]. by rewrite (durable_cut x f).
    + rewrite Forall_forall in Hb. pose proof (Hb _ Hin) as E. cbn in E. subst s. exists y. split; [|by right]. by rewrite (durable_cut y f).
  - specialize (Hd eq_refl p). rewrite Hp, Ef in Hd. destruct f as [y sy by'], Hc as [_ [Hs Hb]]. cbn in *. injection Hd as ->. subst.
    exists x. split; [done|by left].
Qed.

Lemma shown_by d σc nx vd essd f log hist :
  disk_state d σc nx vd essd -> fs σc !! wal_of d = Some f -> replay_buffer (f_data f) = Ok log -> Forall rec_fits log ->
  (forall k, forgets (assoc hist k) (assoc (apply_ops log [] ++ version_records essd) k)) -> crash_shows d σc hist.
Proof. intros. eexists. split; [|done]. by exists nx, vd, essd, f, log. Qed.

(** The disk that the end of a session leaves: the manifest as it was, with a log
    of whole records on top. *)
Lemma durable_disk b d σ ks mes v ess log hist old σc :
  durable b d σ ks mes v ess log hist old -> loses b σ σc ->
  exists nx vd essd l, disk_state d σc nx vd essd /\ fs σc !! wal_of d = Some (mkFile (wal_frames l) (blen (wal_frames l))) /\
    Forall rec_fits l /\ forall k, forgets (assoc hist k) (assoc (apply_ops l [] ++ version_records essd) k).
Proof.
  intros [_ (nx & vd & essd & _ & Hst & _ & [Hview _] & Hund) _ _ (n & bef & Hlog & Hn & _) Hfit _ _ _] Hc.
  assert (b = true -> Forall (undone hist essd) bef) as Hu by (intros Hb; exact (Hund Hb _ Hlog)).
  pose proof (crash_state _ _ _ _ _ _ Hst (proj1 Hc)) as Hstc.
  destruct (loses_log _ _ _ _ _ _ _ Hc Hlog) as (y & Hy & [-> |[Hb Hin]]).
  - intros Hb. split; [apply (Hn Hb)|]. eapply Forall_impl; [exact (Hu Hb)|]. by intros ? (l & -> & _).
  - by exists nx, vd, essd, log.
  - specialize (Hu Hb). rewrite Forall_forall in Hu. destruct (Hu _ Hin) as (l & [= ->] & Hl & Hv). by exists nx, vd, essd, l.
Qed.

Lemma durable_crash b d σ ks mes v ess log hist old σc :
  durable b d σ ks mes v ess log hist old -> loses b σ σc -> crash_shows d σc hist.
Proof.
  intros Hdu Hc. destruct (durable_disk _ _ _ _ _ _ _ _ _ _ _ Hdu Hc) as (nx & vd & essd & l & Hst & Hl & Hfit & Hv).
  eapply shown_by; [done..| |done|done]. by apply replay_log.
Qed.

(** The crash does not undo a truncation of the log. *)
Definition log_cut (dir : bytes) (σ σc : World) : Prop :=
  forall f f', fs σ !! wal_path_of dir = Some f -> fs σc !! wal_path_of dir = Some f' -> crash_file f f'.

(** A crash of the machine that keeps the truncations of the log, whatever the
    writes were, shows the history as it was
    after some of the records that followed the first [m] of the log. *)
Lemma durable_past b d σ ks mes v ess log hist m σc :
  durable b d σ ks mes v ess log hist (Some m) -> crash_world σ σc -> log_cut (dir_ d) σ σc ->
  exists n, (n <= length log - m)%nat /\ crash_shows d σc (drop n hist).
Proof.
  intros [_ (nx & vd & essd & _ & Hst & _ & [_ Hpast] & _) _ _ (n & bef & Hlog & _ & Hm) Hfit _ _ _] Hc Hcut.
  destruct (Hm m eq_refl) as [Hml Hmn]. pose proof Hc as [_ Hp]. specialize (Hp (wal_of d)). rewrite Hlog in Hp.
  destruct (fs σc !! wal_of d) as [fc|] eqn:Ef; [|done]. destruct (Hcut _ _ Hlog Ef) as (c & Hcn & Hdat). cbn [f_data f_synced] in *.
  destruct (replay_cut log c Hfit) as (j & Hj & Hrep & Hge). specialize (Hge m Hml ltac:(lia)).
  exists (length log - j)%nat. split; [lia|]. apply (shown_by d σc nx vd essd fc (take j log)); try done.
  - by eapply crash_state.
  - by rewrite Hdat.
  - by apply Forall_take.
  - by apply (Hpast m eq_refl).
Qed.

Lemma past_forget m log hist ess ess' :
  past m log hist ess -> (forall k, forgets (assoc (version_records ess) k) (assoc (version_records ess') k)) -> past m log hist ess'.
Proof. intros Hp Hf n Hn k. eapply forgets_trans; [by apply Hp|]. apply forgets_app, Hf. Qed.

Lemma view_snoc log hist e r k :
  op_entry e = e -> forgets (assoc hist k) (assoc (apply_ops log [] ++ r) k) ->
  forgets (assoc (e :: hist) k) (assoc (apply_ops (log ++ [e]) [] ++ r) k).
Proof.
  intros Hoe. rewrite assoc_cons, !assoc_app, apply_ops_app. cbn [apply_ops fold_left].
  rewrite Hoe, assoc_upsert by (apply apply_ops_sorted; constructor). destruct (str_eqb (e_key e) k); [|done].
  intros _. apply forgets_refl.
Qed.

Lemma past_snoc m log hist ess e : op_entry e = e -> (m <= length log)%nat -> past m log hist ess -> past m (log ++ [e]) (e :: hist) ess.
Proof.
  intros Hoe Hm Hp n Hn k. rewrite length_app in *. cbn [length] in *. destruct (decide (n <= length log)%nat) as [Hle|Hgt].
  - rewrite take_app_le by done. replace (length log + 1 - n)%nat with (S (length log - n)) by lia. apply Hp. lia.
  - replace n with (length log + 1)%nat by lia. rewrite take_ge by (rewrite length_app; simpl; lia). rewrite Nat.sub_diag. cbn [drop].
    apply view_snoc; [done|]. specialize (Hp (length log) ltac:(lia) k). by rewrite Nat.sub_diag, firstn_all in Hp.
Qed.

(** Writing to files that nobody lists changes nothing. *)
Lemma durable_frame b d σ ks mes v ess log hist old d' σ' ks' :
  durable b d σ ks mes v ess log hist old -> dir_ d' = dir_ d -> wal_ d' = wal_ d -> next_file_number_ d <= next_file_number_ d' ->
  next_file_number_ d <= 2 ^ 30 -> numbers_ok (next_file_number_ d) v -> Forall (fun k => k ∉ live_numbers v) ks ->
  (forall k, k ∈ ks' -> k ∈ ks \/ next_file_number_ d <= k) ->
  (forall p, (forall k, is_u64 k -> k ∈ ks \/ next_file_number_ d <= k -> p <> FilePath d k) -> fs σ' !! p = fs σ !! p) ->
  durable b d' σ' ks' mes v ess log hist old.
Proof.
  intros [Hop (nx & vd & essd & Hnx & Hst & Hks & Hview & Hund) Hf Hl Hlog Hfit Hcov Hmem Hpa] Hdir Hw Hn Hlim Hno Hlive Hks' Hfs.
  assert (forall n u f, numbers_ok n u -> n <= next_file_number_ d -> Forall (fun k => k ∉ live_numbers u) ks -> f ∈ concat u ->
    fs σ' !! FilePath d (fm_number f) = fs σ !! FilePath d (fm_number f)) as Hfile.
  { intros n u f [_ Ho _] Hle Hu Hin. rewrite Forall_forall in Ho. rewrite Forall_forall in Hu. specialize (Ho f Hin). apply Hfs. intros k Huk Hor E.
    apply FilePath_inj in E; [subst k|unfold is_u64; lia|done]. destruct Hor as [Hk|]; [|lia]. apply (Hu _ Hk).
    by apply list_elem_of_In, in_map, list_elem_of_In. }
  assert (forall name, ParseFileNumber name = None -> fs σ' !! (dir_ d ++ lit "/" ++ name) = fs σ !! (dir_ d ++ lit "/" ++ name)) as Hname.
  { intros name Hp. apply Hfs. intros k Huk _ E. symmetry in E. revert E. by apply path_ne. }
  assert (fs σ' !! wal_of d' = fs σ !! wal_of d) as Hwal by (unfold wal_of; rewrite Hdir; by apply (Hname (lit "wal.log"))).
  split; try done.
  - unfold log_usable, log_open, wal_of in *. by rewrite Hw, Hdir.
  - exists nx, vd, essd. split; [lia|]. split; [|split; [|split; [done|by rewrite Hwal]]].
    + eapply state_dir; [done|]. eapply state_kept; [exact Hst|by apply Hname|]. intros f Hin. by apply (Hfile nx vd); [apply Hst|..].
    + rewrite Forall_forall in *. intros k Hk. destruct (Hks' k Hk) as [?|Hge]; [by apply Hks|]. intros Hin.
      apply list_elem_of_In, in_map_iff in Hin as (f & E & Hin%list_elem_of_In). pose proof (no_old _ _ (ds_numbers _ _ _ _ _ Hst)) as Ho.
      rewrite Forall_forall in Ho. specialize (Ho f Hin). lia.
  - rewrite Forall_forall in Hf. apply Forall_forall. intros f Hin. eapply stored_kept; [done|by apply (Hfile (next_file_number_ d) v)|by apply Hf].
  - by rewrite Hwal.
Qed.

Section Steps.
Context `{Os} `{MemEnv}.

(** What the end of a session leaves of a file that was being appended to. *)
Lemma torn_append b σ σc p x t f :
  loses b σ σc -> fs σ !! p = Some f -> f_data f = x ++ t -> (b = true -> blen x <= f_synced f) ->
  exists fc, fs σc !! p = Some fc /\ ((exists m, f_data fc = x ++ take m t) \/ b = true /\ crash_undoes f fc).
Proof.
  intros [[_ Hc] Hd] Hp Hdat Hn. specialize (Hc p). rewrite Hp in Hc. destruct (fs σc !! p) as [fc|] eqn:Ef; [|done].
  exists fc. split; [done|]. destruct b.
  - destruct Hc as [[(n & Hs & E)|Hu] _]; [left|by right]. exists (n - length x)%nat. rewrite E, Hdat. apply take_app_ge.
    specialize (Hn eq_refl). unfold blen in Hn. lia.
  - left. exists (length t). specialize (Hd eq_refl p). rewrite Hp, Ef in Hd. injection Hd as ->. by rewrite Hdat, firstn_all.
Qed.

(** The log takes a record. *)
Lemma append_durable b d σ ks mes v ess log hist old e s1 σ1 :
  durable b d σ ks mes v ess log hist old -> sorted_keys mes -> rec_fits e -> op_entry e = e -> next_file_number_ d <= 2 ^ 30 ->
  numbers_ok (next_file_number_ d) v ->
  AddRecord (wal_ d) (e_type e) (e_key e) (e_value e) b σ = (s1, σ1) ->
  (ok s1 = false -> forall σc, loses b σ1 σc -> crash_shows d σc (e :: hist) \/ crash_shows d σc hist) /\
  (ok s1 = true -> durable b d σ1 ks (upsert e mes) v ess (log ++ [e]) (e :: hist) old).
Proof.
  intros Hdu Hs He Hoe Hlim Hno E. pose proof Hdu as [Hop (nx & vd & essd & Hnx & Hst & Hks & [Hview Hvp] & Hund) Hf Hlv (sy & bef & Hlog & Hsy & Hold) Hfl Hcov Hmem Hpa].
  destruct Hop as [Hop|Hop].
  2: { assert (ok s1 = false /\ forall p, fs σ1 !! p = fs σ !! p) as [Hs1 Hfs].
       { split; [|intros p; eapply AddRecord_others; [exact E|congruence]]. revert E. unfold AddRecord, WriteFully. rewrite Hop.
         match goal with |- context [fd_write None ?x σ] => assert (exists c y, x = c :: y) as (c & y & ->) by (by eexists _, _) end.
         by intros [= <- <-]. }
       split; [|congruence]. intros _ σc Hc. right. eapply durable_crash; [exact Hdu|]. destruct Hc as [[Hio Hc] Hd].
       split; [split; [done|]|]; intros; rewrite <- Hfs; auto. apply Hc. }
  rewrite Hop in E. destruct (AddRecord_log _ _ _ _ _ _ _ Hlog E) as (t & u & f' & Hfr & Hf' & Hdat & Hsyn & Hok & Hoth). cbn [f_data f_synced f_before] in *.
  assert (forall n u' f, numbers_ok n u' -> n <= 2 ^ 30 -> f ∈ concat u' -> fs σ1 !! FilePath d (fm_number f) = fs σ !! FilePath d (fm_number f)) as Hfile.
  { intros n u' f [_ Ho _] Hle Hin. rewrite Forall_forall in Ho. specialize (Ho f Hin). apply Hoth, file_ne_wal. unfold is_u64. lia. }
  assert (disk_state d σ1 nx vd essd) as Hst1.
  { eapply state_kept; [exact Hst|apply Hoth, not_eq_sym, wal_ne_manifest|]. intros f Hin. eapply Hfile; [apply Hst|apply Hst|done]. }
  assert (Forall rec_fits (log ++ [e])) as Hfl' by (apply Forall_app; split; [done|by apply Forall_singleton]).
  split.
  - intros _ σc Hc. pose proof (crash_state _ _ _ _ _ _ Hst1 (proj1 Hc)) as Hstc.
    destruct (torn_append b σ1 σc (wal_of d) (wal_frames log) t f' Hc Hf' Hdat) as (fc & Efc & [(m & Hdc)|(Hb & y & sy' & Hin & n & Hn & Hdc)]).
    + intros ->. destruct (Hsy eq_refl) as [-> _], Hsyn as [[-> _]|[-> _]]; [done|]. rewrite Hdat, blen_app. pose proof (blen_nonneg t). lia.
    + assert (Forall wal_fits log) as Hwf by (eapply Forall_impl; [exact Hfl|apply rec_wal_fits]).
      assert (wal_frame e = take m t ++ (drop m t ++ u)) as Hsplit by (rewrite app_assoc, take_drop; done).
      pose proof (replay_prefix log e _ _ Hwf (rec_wal_fits e He) Hsplit) as Hrep. rewrite <- Hdc in Hrep.
      destruct (decide (drop m t ++ u = [])); [left|right]; eapply shown_by; try done. intros k. by apply view_snoc.
    + right. destruct Hsyn as [[_ Hbf]|[_ Hbf]]; rewrite Hbf in Hin; [|by apply elem_of_nil in Hin].
      pose proof (Hund Hb _ Hlog) as Hu. rewrite Forall_forall in Hu. destruct (Hu _ Hin) as (l & [= -> ->] & Hfit & Hv).
      cbn [f_data f_synced] in *. rewrite take_ge in Hdc by (unfold blen in Hn; lia).
      apply (shown_by d σc nx vd essd fc l); try done. rewrite Hdc. by apply replay_log.
  - intros Hs1. destruct (Hok Hs1) as [-> Hsy1]. rewrite app_nil_r in Hfr. subst t. split; try done.
    + by left.
    + exists nx, vd, essd. do 3 (split; [done|]). split.
      * split; [intros k; by apply view_snoc|]. intros m Em. apply past_snoc; [done|by apply Hold|by apply Hvp].
      * intros Hb f. rewrite Hf'. intros [= <-]. destruct (Hsy1 Hb) as [_ ->]. constructor.
    + rewrite Forall_forall in *. intros f Hin. eapply stored_kept; [done| |by apply Hf]. by eapply Hfile.
    + assert (f_data f' = wal_frames (log ++ [e])) as Hdat'.
      { rewrite Hdat. unfold wal_frames. rewrite map_app, concat_app. cbn [map concat]. by rewrite app_nil_r. }
      exists (f_synced f'), (f_before f'). split; [rewrite Hf', <- Hdat'; by destruct f'|]. rewrite <- Hdat'.
      split; [intros Hb; destruct (Hsy1 Hb); auto|].
      intros m Em. destruct (Hold m Em) as [Hm Hlen]. rewrite length_app, take_app_le by done. split; [lia|].
      destruct Hsyn as [[-> _]|[-> _]]; [done|]. rewrite Hdat, blen_app. pose proof (blen_nonneg (wal_frame e)).
      assert (blen (wal_frames (take m log)) <= blen (wal_frames log)); [|lia].
      rewrite <- (take_drop m log) at 2. unfold wal_frames. rewrite map_app, concat_app, blen_app. pose proof (blen_nonneg (concat (map wal_frame (drop m log)))). lia.
    + intros k. rewrite apply_ops_app. cbn [apply_ops fold_left]. rewrite Hoe, !assoc_upsert by (done || apply apply_ops_sorted; constructor).
      destruct (str_eqb (e_key e) k); [done|apply Hcov].
    + intros k. unfold db_records. rewrite assoc_cons, assoc_app, assoc_upsert by done. specialize (Hmem k). unfold db_records in Hmem.
      rewrite assoc_app in Hmem. destruct (str_eqb (e_key e) k); [apply forgets_refl|done].
    + intros m Em. apply past_snoc; [done|by apply Hold|by apply Hpa].
Qed.

(** Fields that the disk does not depend on. *)
Lemma durable_db b d d' σ ks mes v ess log hist old :
  durable b d σ ks mes v ess log hist old -> dir_ d' = dir_ d -> log_usable d' -> next_file_number_ d <= next_file_number_ d' ->
  durable b d' σ ks mes v ess log hist old.
Proof.
  intros [_ (nx & vd & essd & Hnx & Hst & Hks & Hview) Hf Hlv Hlog Hfl Hcov Hmem Hpa] Hdir Hw Hn.
  assert (wal_of d' = wal_of d) as Ew by (unfold wal_of; by rewrite Hdir). split; try done.
  - exists nx, vd, essd. rewrite Ew. split; [lia|]. split; [by eapply state_dir|done].
  - eapply Forall_impl; [exact Hf|]. intros f. by apply stored_kept.
  - by rewrite Ew.
Qed.

Lemma usable_same d d' : dir_ d' = dir_ d -> wal_ d' = wal_ d -> log_usable d -> log_usable d'.
Proof. unfold log_usable, log_open, wal_of. by intros -> ->. Qed.

(** The numbers of the tables that either thread is writing. *)
Definition reserved (s : Sys) : list Z :=
  match s_client s with ClPublish fm _ => [fm_number fm] | ClIdle => [] end ++ bg_numbers (s_bg s).

Definition target_ok (ph : BgPhase) : Prop :=
  match ph with BgMerging c _ | BgMerged c _ => Z.of_nat (target_level c) < 2 ^ 31 | _ => True end.

Lemma bg_fresh d σ v R ess ph busy left :
  bg_ok d σ v R ess ph busy left -> Forall (fun k => k ∉ live_numbers v) (bg_numbers ph).
Proof.
  destruct ph as [| |c mv|c outputs|]; cbn [bg_ok bg_numbers]; try (intros; constructor).
  - by intros [_ [[_ Hf _ _] _]].
  - by intros [_ [_ _ _ Hf _ _]].
Qed.

Lemma reserved_fresh o lim left s busy v R mes ess :
  sys_at o lim left s busy v R mes ess -> Forall (fun k => k ∉ live_numbers v) (reserved s).
Proof.
  intros [_ _ _ _ _ Hcl Hbg]. unfold reserved. apply Forall_app. split; [|by eapply bg_fresh].
  destruct (s_client s) as [|fm w]; [constructor|]. apply Forall_singleton. destruct Hcl as (_ & [_ [_ Hu _] _] & _). exact Hu.
Qed.

Section WithOptions.
Variable o : Options.
Hypothesis Hbits : 0 <= bloom_bits_per_key o <= 100.
Hypothesis Htrigger : 1 <= l0_compaction_trigger o.
Hypothesis Hlevels : 1 <= max_levels o < 2 ^ 31.

(** A call up to its publication: a crash in the middle shows the history with
    it, or without it if it is a mutation that reported failure; otherwise the
    system runs on durably. *)
Lemma begin_durable lim left s busy v R mes ess log hist old op :
  sys_at o lim left s busy v R mes ess -> durable (sync o) (s_db s) (s_world s) (reserved s) mes v ess log hist old ->
  s_client s = ClIdle -> op_fits op -> blen mes < 2 ^ 25 -> lim < 2 ^ 30 ->
  exists r ph d' σ' mes', client_begin (s_db s) op (s_world s) = Ok (r, ph, d', σ') /\ dir_ d' = dir_ (s_db s) /\
    let s' := mkSys d' σ' ph (s_bg s) (bg_busy_ s) (shutting_down_ s) in
    sys_at o (lim + 1) left s' (if r then false else true) v R mes' ess /\
    (forall σc, loses (sync o) σ' σc ->
       crash_shows (s_db s) σc (applied hist op) \/ lost (EvClient op, r) = true /\ crash_shows (s_db s) σc hist) /\
    (lost (EvClient op, r) = false ->
     durable (sync o) d' σ' (reserved s') mes' v ess (log ++ option_list (op_record op)) (applied hist op) old).
Proof.
  intros Hat Hdu Hcl Hfit Hm Hlim. pose proof Hat as [Hd Ho _ _ Hn _ Hbg].
  destruct (begin_step o Hbits lim left s busy v R mes ess (db_records mes ess) op Hat Hcl Hfit (fun _ => eq_refl) Hm Hlim)
    as (r & ph & d' & σ' & mes' & recs' & E & Hat' & _ & [_ _ _ Hdir Hwl Hnx _] & Hbegun & Hlog & _).
  pose proof (do_numbers _ _ _ _ _ Hd) as Hno. pose proof (reserved_fresh _ _ _ _ _ _ _ _ _ Hat) as Hfresh.
  set (s' := mkSys d' σ' ph (s_bg s) (bg_busy_ s) (shutting_down_ s)) in *.
  assert (forall k, k ∈ reserved s' -> k ∈ reserved s \/ next_file_number_ (s_db s) <= k) as Hks.
  { intros k. unfold reserved. rewrite Hcl. cbn [s_client s_bg s' app]. destruct ph as [|fm w]; [by left|].
    intros [->%list_elem_of_singleton|?]%elem_of_app; [right|by left]. destruct Hbegun as (_ & _ & _ & -> & _). lia. }
  assert (forall σ0 mes0 log0 hist0, durable (sync o) (s_db s) σ0 (reserved s) mes0 v ess log0 hist0 old ->
    others_kept (FilePath (s_db s) (next_file_number_ (s_db s))) σ0 σ' ->
    durable (sync o) d' σ' (reserved s') mes0 v ess log0 hist0 old) as Hframe.
  { intros σ0 mes0 log0 hist0 Hdu0 Hoth. apply (durable_frame _ _ _ _ _ _ _ _ _ _ d' σ' (reserved s') Hdu0); try done; try lia.
    intros p Hp. apply Hoth, Hp; [|right; lia]. pose proof (do_next _ _ _ _ _ Hd). unfold is_u64. lia. }
  assert (forall σc h, crash_shows d' σc h -> crash_shows (s_db s) σc h) as Hshow.
  { intros σc h (recs & Hr & Hv). exists recs. split; [|done]. by apply (recoverable_ext d' _ _ recs). }
  unfold logged in Hlog. destruct (op_record op) as [e|] eqn:Eop; cbn [option_list].
  - destruct Hlog as (s1 & σ1 & E1 & Hoth & Hres). rewrite Ho in E1.
    assert (applied hist op = e :: hist /\ rec_fits e /\ op_entry e = e /\ lost (EvClient op, r) = failed r) as (Happ & He & Hoe & Hlost).
    { destruct op; cbn in *; injection Eop as <- || done; done. }
    destruct (append_durable (sync o) (s_db s) _ _ mes v ess log hist old e s1 σ1 Hdu) as [Hbad Hgood]; try done; try lia.
    { eapply sl_contents_sorted, Hd. }
    exists r, ph, d', σ', mes'. split; [done|]. split; [done|]. split; [done|]. rewrite Happ, Hlost. destruct (ok s1) eqn:Es1.
    + subst mes'. pose proof (Hframe _ _ _ _ (Hgood eq_refl) Hoth) as Hdu'. split; [|done].
      intros σc Hc. left. by eapply Hshow, durable_crash.
    + destruct Hres as (-> & -> & ->). cbn [failed]. rewrite Es1. split; [|done]. intros σc Hc. destruct (Hbad eq_refl σc Hc); auto.
  - destruct Hlog as [-> Hoth]. assert (applied hist op = hist) as -> by (by destruct op). rewrite app_nil_r.
    exists r, ph, d', σ', mes. split; [done|]. split; [done|]. split; [done|]. pose proof (Hframe _ _ _ _ Hdu Hoth) as Hdu'.
    split; [|done]. intros σc Hc. left. by eapply Hshow, durable_crash.
Qed.

(** A turn of a merge. *)
Lemma merge_durable lim left s busy v R mes ess log hist old c mv :
  sys_at o lim left s busy v R mes ess -> durable (sync o) (s_db s) (s_world s) (reserved s) mes v ess log hist old ->
  s_bg s = BgMerging c mv -> target_ok (s_bg s) -> lim < 2 ^ 30 ->
  exists s' left' R', merge_turn s c mv = Ok s' /\ sys_at o (lim + 1) left' s' busy v R' mes ess /\ dir_ (s_db s') = dir_ (s_db s) /\
    durable (sync o) (s_db s') (s_world s') (reserved s') mes v ess log hist old /\ target_ok (s_bg s').
Proof.
  intros Hat Hdu Hph Htg Hlim. pose proof Hat as [Hd _ _ _ Hn _ _].
  destruct (merge_step o Hbits lim left s busy v R mes ess c mv Hat Hph Hlim)
    as (s' & left' & R' & E & Hat' & (_ & Hdir & _ & _ & Hwl & _) & Hnx & _ & Hcl & Hks & Hfs & Hph').
  exists s', left', R'. split; [done|]. split; [done|]. split; [done|]. rewrite Hph in Htg. cbn [target_ok] in Htg. split.
  - eapply durable_frame; [exact Hdu|done|done|lia|lia|apply Hd|by eapply reserved_fresh| |].
    + unfold reserved. rewrite Hcl, Hph. cbn [bg_numbers]. intros k. rewrite !elem_of_app. intros [?|Hk]; [auto|]. destruct (Hks k Hk); auto.
    + intros p Hp. apply Hfs. intros k Hu Hk. apply Hp; [done|]. unfold reserved. rewrite Hph. cbn [bg_numbers]. rewrite elem_of_app. tauto.
  - destruct (s_bg s') as [| |c' mv'|c' os'|]; cbn [target_ok]; try done; [by destruct Hph' as [-> _]|by subst c'].
Qed.

(** What the disk shows once the manifest lists the version in memory. *)
Lemma durable_view log mes ess hist ess' essd k :
  forgets (assoc hist k) (assoc (apply_ops log [] ++ version_records essd) k) ->
  (assoc (apply_ops log []) k = None -> assoc mes k = None) ->
  forgets (assoc hist k) (assoc (db_records mes ess) k) ->
  forgets (assoc (version_records ess) k) (assoc (version_records ess') k) ->
  forgets (assoc hist k) (assoc (apply_ops log [] ++ version_records ess') k).
Proof.
  intros Hdisk Hcov Hmem Hfg. unfold db_records in Hmem. rewrite assoc_app in *. destruct (assoc (apply_ops log []) k); [done|].
  rewrite (Hcov eq_refl) in Hmem. by eapply forgets_trans.
Qed.

Lemma undone_view b d σ ks mes v ess log hist old ess' f :
  durable b d σ ks mes v ess log hist old -> b = true -> fs σ !! wal_of d = Some f ->
  (forall k, forgets (assoc (version_records ess) k) (assoc (version_records ess') k)) -> Forall (undone hist ess') (f_before f).
Proof.
  intros [_ (nx & vd & essd & _ & _ & _ & _ & Hund) _ _ (n & bef & Hlog & Hn & _) _ Hcov Hmem _] Hb Hf Hfg.
  rewrite Hlog in Hf. injection Hf as <-. destruct (proj2 (Hn Hb)) as [-> | ->]; [|constructor].
  eapply Forall_impl; [exact (Hund Hb _ Hlog)|]. intros x (l & -> & Hl & Hv). exists l. split_and!; try done.
  intros k. eapply durable_view; [apply Hv|intros _; by apply Hcov|apply Hmem|apply Hfg].
Qed.

(** The installation of a merge: the disk shows the history whether or not the
    manifest could be written. *)
Lemma install_durable lim left s busy v R mes ess log hist old c outputs :
  sys_at o lim left s busy v R mes ess -> durable (sync o) (s_db s) (s_world s) (reserved s) mes v ess log hist old ->
  s_bg s = BgMerged c outputs -> target_ok (s_bg s) -> lim <= 2 ^ 30 ->
  exists st d' σ' nv ess', compact_install (s_db s) c outputs (s_world s) = Ok (st, d', σ') /\ dir_ d' = dir_ (s_db s) /\
    let s' := mkSys d' σ' (s_client s) BgLoop (bg_busy_ s) (shutting_down_ s) in
    sys_at o lim 0 s' busy nv R mes ess' /\ durable (sync o) d' σ' (reserved s') mes nv ess' log hist old.
Proof.
  intros Hat Hdu Hph Htg Hlim. pose proof Hat as [Hd _ _ _ Hn _ Hbg]. rewrite Hph in Hbg, Htg. cbn [bg_ok target_ok] in Hbg, Htg.
  destruct Hbg as [_ Hpe]. destruct (install_step o Hbits lim left s busy v R mes ess c outputs Hat Hph Hlim)
    as (st & d' & σ' & ess' & E & -> & Hin & Hat' & Hkept & Hman). set (nv := InstallCompaction v c outputs) in *.
  eexists st, _, σ', nv, ess'. split; [done|]. split; [done|]. split; [done|].
  pose proof Hdu as [Hop (nx & vd & essd & Hnx & Hst & Hks & [Hview Hvp] & Hund) Hf Hlv Hlog Hfl Hcov Hmem Hpa].
  destruct Hin as [Hv' Hno' Hl' Hfg (rest & Hold & Hnew) _ Hlen]. pose proof (do_numbers _ _ _ _ _ Hd) as [Hu Hr _].
  set (d' := set_current (s_db s) (Some nv)) in *. set (s' := mkSys d' σ' (s_client s) BgLoop (bg_busy_ s) (shutting_down_ s)) in *.
  assert (forall f, f ∈ concat nv -> stored (s_db s) (s_world s) f /\ (fm_number f ∉ map fm_number (c_inputs c)) /\ 0 <= fm_number f < 2 ^ 30) as Hnv.
  { intros f Hinf. rewrite Hnew in Hinf. apply elem_of_app in Hinf as [Hinf|Hinf].
    - destruct Hpe as [_ _ Hrg Hfr Hds _]. rewrite !Forall_map in *. rewrite !Forall_forall in *.
      split_and!; [by apply Hds| |specialize (Hrg f Hinf); simpl in Hrg; lia..].
      intros Hi. apply (Hfr f Hinf). unfold live_numbers. rewrite Hold, map_app. apply elem_of_app. by left.
    - rewrite Hold, Forall_app in Hf, Hr. destruct Hf as [_ Hf], Hr as [_ Hr]. rewrite Forall_forall in Hf. rewrite Forall_forall in Hr.
      split_and!; [by apply Hf| |specialize (Hr f Hinf); simpl in Hr; lia..].
      rewrite Hold, map_app in Hu. apply NoDup_app in Hu as (_ & Hdis & _). intros Hi. apply (Hdis _ Hi).
      by apply list_elem_of_In, in_map, list_elem_of_In. }
  assert (forall n, is_u64 n -> n ∉ map fm_number (c_inputs c) -> fs σ' !! FilePath (s_db s) n = fs (s_world s) !! FilePath (s_db s) n) as Hkeep.
  { intros n Hun Hni. apply Hkept. rewrite !not_elem_of_cons. split_and!; [by apply file_ne_tmp|by apply file_ne_manifest|].
    destruct (ok st); [|apply not_elem_of_nil]. intros (f & Ef & Hi%list_elem_of_In)%list_elem_of_In%in_map_iff. apply Hni.
    rewrite Hold, Forall_app in Hr. destruct Hr as [Hr _]. rewrite Forall_forall in Hr. specialize (Hr f Hi).
    apply FilePath_inj in Ef as <-; [|unfold is_u64; lia|done]. by apply list_elem_of_In, in_map, list_elem_of_In. }
  assert (Forall (stored (s_db s) σ') (concat nv)) as Hfiles.
  { apply Forall_forall. intros f Hinf. destruct (Hnv f Hinf) as (Hsf & Hni & Hrf). eapply stored_kept; [done| |exact Hsf].
    apply Hkeep; [unfold is_u64; lia|done]. }
  assert (blen nv < 2 ^ 32) as Hlv' by (unfold blen in *; lia).
  assert (fs σ' !! wal_of (s_db s) = fs (s_world s) !! wal_of (s_db s)) as Hwal.
  { apply Hkept. rewrite !not_elem_of_cons. split_and!; [apply wal_ne_tmp|apply wal_ne_manifest|]. destruct (ok st); [|apply not_elem_of_nil].
    intros (f & Ef & Hi%list_elem_of_In)%list_elem_of_In%in_map_iff. revert Ef. apply file_ne_wal.
    rewrite Hold, Forall_app in Hr. destruct Hr as [Hr _]. rewrite Forall_forall in Hr. specialize (Hr f Hi). unfold is_u64. lia. }
  assert (durable (sync o) (s_db s) σ' (reserved s') mes nv ess' log hist old) as Hdu'; [|by apply (durable_db _ (s_db s))].
  split; try done.
  - destruct (ok st).
    + exists (next_file_number_ (s_db s)), nv, ess'. rewrite Hwal. split; [lia|]. split; [|split; [|split; [|by eauto using undone_view]]].
      * split; try done; [by right|pose proof (do_next _ _ _ _ _ Hd); lia].
      * by eapply reserved_fresh.
      * split; [intros k; eapply durable_view; [apply Hview|apply Hcov|apply Hmem|apply Hfg]|].
        intros m Em. eapply past_forget; [by apply Hpa|exact Hfg].
    + exists nx, vd, essd. rewrite Hwal. split; [done|]. split; [|split; [|done]].
      * eapply state_kept; [exact Hst|done|]. intros f Hinf. apply Hkept. pose proof (no_old _ _ (ds_numbers _ _ _ _ _ Hst)) as Hov.
        rewrite Forall_forall in Hov. specialize (Hov f Hinf). assert (is_u64 (fm_number f)) by (unfold is_u64; lia).
        rewrite !not_elem_of_cons. split_and!; [by apply file_ne_tmp|by apply file_ne_manifest|apply not_elem_of_nil].
      * unfold reserved in *. cbn [s_client s_bg s' bg_numbers]. apply Forall_app in Hks as [Hk _]. by rewrite app_nil_r.
  - by rewrite Hwal.
  - intros k. eapply forgets_trans; [apply Hmem|]. apply forgets_app, Hfg.
  - intros m Em. eapply past_forget; [by apply Hpa|exact Hfg].
Qed.

Lemma frames_long log : blen log <= blen (wal_frames log).
Proof.
  induction log as [|e log IH]; [done|]. rewrite wal_frames_cons, blen_app, blen_cons.
  rewrite wal_frame_len. pose proof (blen_nonneg (e_key e)). pose proof (blen_nonneg (e_value e)). lia.
Qed.

(** A memtable that is not empty is covered by a log that is not empty. *)
Lemma covered_nonempty mes :
  mes <> [] -> (forall k, assoc (apply_ops [] []) k = None -> assoc mes k = None) -> False.
Proof. intros Hne Hc. destruct mes as [|e mes]; [done|]. specialize (Hc (e_key e) eq_refl). by rewrite assoc_cons, str_eqb_refl in Hc. Qed.

(** When no system call fails, a publication empties the log. *)
Lemma publish_resets d fm w σ s d' σ' :
  io σ = [] -> publish_table d fm w σ = Ok (s, d', σ') -> exists f, fs σ' !! wal_of d = Some f /\ f_data f = [].
Proof.
  intros Hio. unfold publish_table, install_flush. destruct (current_ d) as [v|]; [|done]. cbn [of_option rbind].
  match goal with |- context [WriteManifest ?d0 ?v0 σ] => destruct (WriteManifest_calm d0 v0 σ Hio) as (σ1 & -> & Hio1) end.
  cbn [ok Status_OK code_ negb].
  assert (exists st w' σ2, WalWriter_Close (wal_ d) σ1 = (st, w', σ2) /\ io σ2 = []) as (st & w' & σ2 & Ec & Hio2).
  { unfold WalWriter_Close. destruct (wal_fd_ _); [rewrite close_calm by done|]; by eexists _, _, _. }
  cbn [wal_ set_mem set_current dir_]. rewrite Ec. fold (wal_of d). unfold open_trunc, WalWriter_Open, open_append.
  rewrite (sys_calm σ2) by done. rewrite close_calm by done. rewrite sys_calm by done. cbn [snd fs ok Status_OK code_ negb rbind].
  rewrite lookup_insert_eq. intros [= <- <- <-]. rewrite destroy_fs. cbn [fs]. rewrite lookup_insert_eq. eexists. split; [done|]. apply truncated_data.
Qed.

(** The log after a publication that replaced the manifest: as it was, when the
    truncation failed, or empty; both show the history over the new tables [ess'],
    and so does the log that a crash brings back by undoing the truncation. *)
Lemma published_log b d σ ks mes v ess log hist old wf fm w st d' σ' ess' :
  durable b d σ ks mes v ess log hist old -> mes <> [] -> publish_table d fm w σ = Ok (st, d', σ') ->
  fs σ !! wal_of d = Some wf -> fs σ' !! wal_of d = Some wf \/ fs σ' !! wal_of d = Some (truncated (Some wf)) ->
  (forall k, assoc (version_records ess') k = assoc (db_records mes ess) k) ->
  exists log' old', shows log' hist old' ess' /\ Forall rec_fits log' /\
    (exists n bef', fs σ' !! wal_of d = Some (mkFileAt (wal_frames log') n bef') /\
       (b = true -> (n = blen (wal_frames log') /\ (log' = [] \/ bef' = [])) /\ Forall (undone hist ess') bef') /\
       forall m, old' = Some m -> (m <= length log')%nat /\ blen (wal_frames (take m log')) <= n) /\
    (io σ = [] -> log' = [] /\ old' = Some 0%nat).
Proof.
  intros [_ (nx & vd & essd & _ & _ & _ & [Hview _] & _) _ _ (sy & bef & Hlog & Hsy & _) Hfl Hcov Hmem _] Hne E Hwf Hwal Hrec.
  rewrite Hlog in Hwf. injection Hwf as <-.
  assert (log <> []) as Hnil by (intros ->; by apply (covered_nonempty mes)).
  assert (forall k, forgets (assoc hist k) (assoc (apply_ops log [] ++ version_records ess') k)) as Hrep.
  { intros k. rewrite assoc_app, Hrec. specialize (Hview k). rewrite assoc_app in Hview.
    destruct (assoc (apply_ops log []) k); [done|apply Hmem]. }
  assert (b = true -> bef = []) as Hbef by (intros Hb; by destruct (proj2 (Hsy Hb))).
  assert (fs σ' !! wal_of d = Some (truncated (Some (mkFileAt (wal_frames log) sy bef))) \/
    io σ <> [] /\ fs σ' !! wal_of d = Some (mkFileAt (wal_frames log) sy bef)) as [Hw|[Hio Hw]].
  { destruct Hwal as [Hw|Hw]; [|by left]. right. split; [|done]. intros Hio.
    destruct (publish_resets _ _ _ _ _ _ _ Hio E) as (f & Hf0 & Hd0). rewrite Hw in Hf0. injection Hf0 as <-. cbn [f_data] in Hd0.
    apply Hnil, blen_0. pose proof (frames_long log) as Hlen. rewrite Hd0 in Hlen. pose proof (blen_nonneg log). change (blen []) with 0 in Hlen. lia. }
  - assert (forall k, forgets (assoc hist k) (assoc (version_records ess') k)) as Hv0 by (intros k; rewrite Hrec; apply Hmem).
    exists [], (Some 0%nat). split; [|split; [done|split; [|done]]].
    + split; [exact Hv0|]. intros m [= <-] n' Hn' k. cbn [length] in Hn'. replace n' with 0%nat by lia. apply Hv0.
    + eexists 0, _. split; [exact Hw|]. split; [|by intros m [= <-]]. intros Hb. split; [by split; [|left]|]. rewrite (Hbef Hb).
      apply Forall_singleton. exists log. cbn [f_data f_synced]. destruct (Hsy Hb) as [-> _]. done.
  - exists log, None. split; [by split|split; [done|split; [|done]]]. exists sy, bef. split; [done|]. split; [|done].
    intros Hb. split; [by apply Hsy|]. rewrite (Hbef Hb). constructor.
Qed.

(** The publication of a flushed table, whether or not it succeeds: a crash in the
    middle shows the history, and the system runs on durably. *)
Lemma publish_durable lim left s busy v R mes ess log hist old fm w :
  sys_at o lim left s busy v R mes ess -> durable (sync o) (s_db s) (s_world s) (reserved s) mes v ess log hist old ->
  s_client s = ClPublish fm w -> lim <= 2 ^ 30 ->
  exists st d' σ' mes' log' old', publish_table (s_db s) fm w (s_world s) = Ok (st, d', σ') /\ dir_ d' = dir_ (s_db s) /\
    let s' := mkSys d' σ' ClIdle (s_bg s) (bg_busy_ s) (shutting_down_ s) in
    sys_at o lim left s' false (push_file v fm) (fm_reader fm :: R) mes' (push_records ess mes) /\
    durable (sync o) d' σ' (reserved s') mes' (push_file v fm) (push_records ess mes) log' hist old' /\
    (io (s_world s) = [] -> log' = [] /\ old' = Some 0%nat).
Proof.
  intros Hat Hdu Hph Hlim. pose proof Hat as [Hd _ _ _ Hn Hcl _]. rewrite Hph in Hcl. destruct Hcl as (_ & Hup & Hst & _ & _).
  destruct (publish_step o lim left s busy v R mes ess fm w Hat Hph Hlim)
    as (st & d' & σ' & mes' & E & Hat' & Hor & Hdir & Hnx & Hview').
  pose proof Hdu as [Hop (nx & vd & essd & Hnx' & Hsd & Hks & [Hview Hvp] & Hund) Hf Hlv (sy & bef & Hlog & Hsy & Hold) Hfl Hcov Hmem Hpa].
  pose proof (do_numbers _ _ _ _ _ Hd) as Hno. pose proof (do_levels _ _ _ _ _ Hd) as Hne. pose proof (do_next _ _ _ _ _ Hd) as Hn1.
  set (s' := mkSys d' σ' ClIdle (s_bg s) (bg_busy_ s) (shutting_down_ s)) in *.
  assert (forall n, 0 <= n <= 2 ^ 30 -> forall q, FilePath (s_db s) n ∉ [ManifestTmp (s_db s); ManifestPath (s_db s); wal_of (s_db s)]
    /\ (q = ManifestTmp (s_db s) -> FilePath (s_db s) n <> q)) as Hpath.
  { intros n Hnn q. assert (is_u64 n) by (unfold is_u64; lia). split; [|intros ->; by apply file_ne_tmp].
    rewrite !not_elem_of_cons. split_and!; [by apply file_ne_tmp|by apply file_ne_manifest|by apply file_ne_wal|apply not_elem_of_nil]. }
  assert (forall ps, (forall n, 0 <= n <= 2 ^ 30 -> FilePath (s_db s) n ∉ ps) -> kept_but ps (s_world s) σ' ->
    Forall (stored (s_db s) σ') (concat (push_file v fm))) as Hstored.
  { intros ps Hps Hk. rewrite concat_push by done. constructor.
    - eapply stored_kept; [reflexivity| |exact Hst]. apply Hk, Hps. destruct Hup as [_ [Hu _ _] _]. lia.
    - rewrite Forall_forall in *. intros f Hin. eapply stored_kept; [reflexivity| |by apply Hf]. apply Hk, Hps.
      pose proof (no_old _ _ Hno) as Ho. rewrite Forall_forall in Ho. specialize (Ho f Hin). lia. }
  assert (blen (push_file v fm) < 2 ^ 32) as Hlv' by (unfold blen in *; by rewrite push_length).
  assert (forall k, forgets (assoc hist k) (assoc (db_records mes' (push_records ess mes)) k)) as Hmem' by (intros k; rewrite Hview'; apply Hmem).
  exists st, d', σ', mes'.
  destruct (publish_disk _ _ _ _ _ _ _ v _ E (do_current _ _ _ _ _ Hd) Hne Hlog) as [(Hs & Hk & Hw)|(Hk & Hman & Hwal & Hfresh & Hopen)].
  - exists log, None. split; [done|]. split; [done|]. split; [done|]. split.
    2: { intros Hio. pose proof (publish_calm _ _ _ _ _ _ _ Hio E) as [-> _]. done. }
    assert (forall p, p <> ManifestTmp (s_db s) -> fs σ' !! p = fs (s_world s) !! p) as Hk'.
    { intros p Hp. apply Hk. rewrite not_elem_of_cons. split; [done|apply not_elem_of_nil]. }
    apply (durable_db _ (s_db s)); try done; [|by apply (usable_same (s_db s))|lia]. split; try done.
    + exists nx, vd, essd. rewrite Hk' by apply wal_ne_tmp. split; [done|]. split; [|split; [|done]].
      * eapply state_kept; [exact Hsd|by apply Hk', manifest_tmp_ne|]. intros f Hin.
        pose proof (no_old _ _ (ds_numbers _ _ _ _ _ Hsd)) as Ho. rewrite Forall_forall in Ho. specialize (Ho f Hin).
        apply Hk'. by apply (Hpath (fm_number f) ltac:(lia)).
      * unfold reserved in *. cbn [s_client s_bg s' app]. apply Forall_app in Hks as [_ Hks]. done.
    + apply (Hstored _ (fun n Hn => ltac:(rewrite not_elem_of_cons; split; [by apply (Hpath n Hn)|apply not_elem_of_nil])) Hk).
    + exists sy, bef. split; [|done]. rewrite Hk'; [done|apply wal_ne_tmp].
    + intros k Hn0. destruct Hor as [-> | ->]; [by apply Hcov|done].
  - assert (mes' = []) as ->.
    { pose proof (sl_size _ _ (do_mem _ _ _ _ _ (sa_db _ _ _ _ _ _ _ _ _ Hat'))) as Hsz. cbn [s_db s'] in Hsz. rewrite Hfresh in Hsz.
      pose proof (sa_mem _ _ _ _ _ _ _ _ _ Hat'). pose proof (blen_nonneg mes'). rewrite u64_small in Hsz by lia. by apply blen_0. }
    pose proof (sa_db _ _ _ _ _ _ _ _ _ Hat') as Hd'. cbn [s_db s'] in Hd'.
    assert (disk_state (s_db s) σ' (next_file_number_ (s_db s)) (push_file v fm) (push_records ess mes)) as Hsd'.
    { pose proof (do_numbers _ _ _ _ _ Hd') as Hno'. rewrite Hnx in Hno'. split; try done; [by right|lia|apply Hd'|split; [apply Hd'|done]|].
      apply (Hstored _ (fun n Hn => proj1 (Hpath n Hn [])) Hk). }
    assert (forall k, assoc (version_records (push_records ess mes)) k = assoc (db_records mes ess) k) as Hrec.
    { intros k. rewrite records_push; [done|]. eapply contents_nonempty; [apply Hd|done]. }
    destruct (published_log _ _ _ _ _ _ _ _ _ _ _ fm w st d' σ' (push_records ess mes) Hdu (fo_nonempty _ _ (up_file _ _ _ _ _ Hup)) E Hlog Hwal Hrec)
      as (log' & old' & Hsh & Hfl' & (n' & bef' & Hlog' & Hsy' & Hold') & Hcalm).
    exists log', old'. split; [done|]. split; [done|]. split; [done|]. split; [|done].
    apply (durable_db _ (s_db s)); try done; [|lia]. split; try done.
    + exists (next_file_number_ (s_db s)), (push_file v fm), (push_records ess mes). split; [lia|]. split; [done|].
      split; [by eapply reserved_fresh|]. split; [done|]. intros Hb f. rewrite Hlog'. intros [= <-]. by apply Hsy'.
    + apply (Hstored _ (fun n Hn => proj1 (Hpath n Hn [])) Hk).
    + exists n', bef'. split; [done|]. split; [|done]. intros Hb. by apply Hsy'.
    + apply Hsh.
Qed.

(** A turn of [BackgroundLoop] writes nothing. *)
Lemma loop_durable lim n s busy v R mes ess log hist old :
  sys_at o lim n s busy v R mes ess -> durable (sync o) (s_db s) (s_world s) (reserved s) mes v ess log hist old ->
  s_bg s = BgLoop -> entries v <= 2 ^ 25 ->
  exists s' left, loop_turn s = Ok s' /\ sys_at o lim left s' busy v R mes ess /\ s_db s' = s_db s /\
    durable (sync o) (s_db s') (s_world s') (reserved s') mes v ess log hist old /\ target_ok (s_bg s').
Proof.
  intros Hat Hdu Hph Hent. destruct (loop_step o Htrigger lim n s busy v R mes ess Hat Hph Hent) as (s' & left & E & Hat' & Hdb & Hw & Hcl & Hph').
  exists s', left. split; [done|]. split; [done|]. split; [done|]. rewrite Hdb, Hw. split.
  - assert (reserved s' = reserved s) as ->; [|done]. unfold reserved. rewrite Hcl, Hph. f_equal.
    destruct (s_bg s'); try done. by destruct Hph' as (_ & ? & _).
  - destruct (s_bg s') as [| |c mv| |]; cbn [target_ok]; try done. destruct Hph' as [Hp _]. pose proof (pick_target o v c Hlevels Hp). lia.
Qed.

(** ** Runs of the system *)

Definition unflushed_step (n : nat) (x : event * option reply) : nat :=
  match x.1 with
  | EvClient op => (n + length (option_list (op_record op)))%nat
  | EvPublish => O
  | _ => n
  end.

(** The number of mutations of a trace since its last publication. *)
Definition unflushed (tr : trace) : nat := fold_left unflushed_step tr O.

(** The disk shows [hist] at all times. When [since] is [Some n], at most the last
    [n] mutations are in question if the machine crashes. *)
Definition runs_durably (dir : bytes) (s : Sys) (hist : list entry) (since : option nat) : Prop :=
  exists left busy v R mes ess log old, sys_at o (2 ^ 29) left s busy v R mes ess /\ dir_ (s_db s) = dir /\
    durable (sync o) (s_db s) (s_world s) (reserved s) mes v ess log hist old /\ target_ok (s_bg s) /\
    since = (fun m => length log - m)%nat <$> old.

(** What a step does to the mutations in question when no system call fails. *)
Definition in_question (s : Sys) (since since' : option nat) (x : event * option reply) : Prop :=
  io (s_world s) = [] -> forall n, since = Some n -> since' = Some (unflushed_step n x).

(** One event: a crash in the middle of it shows the history with it, or, if it is
    a mutation that reported failure, without it; otherwise the system runs on
    durably. *)
Lemma event_durable dir s hist since ev r s' :
  runs_durably dir s hist since -> enabled s ev = true -> capacity (s_db s) = true -> event_fits ev ->
  sys_exec s ev = Ok (r, s') ->
  (forall σc, loses (sync o) (s_world s') σc ->
     crash_shows (s_db s) σc (history_step hist (ev, r)) \/ lost (ev, r) = true /\ crash_shows (s_db s) σc hist) /\
  (lost (ev, r) = false -> exists since', runs_durably dir s' (history_step hist (ev, r)) since' /\ in_question s since since' (ev, r)).
Proof.
  intros (left & busy & v & R & mes & ess & log & old & Hat & Hdir & Hdu & Htg & ->) Hen Hcap Hfit E.
  destruct (capacity_spec _ _ _ _ _ (sa_db _ _ _ _ _ _ _ _ _ Hat) (sa_mem _ _ _ _ _ _ _ _ _ Hat) Hcap) as (Hsize & Hent & Hnx).
  pose proof (sys_at_lim o _ (2 ^ 29 - 1) _ _ _ _ _ _ _ Hat ltac:(lia)) as Hat'.
  set (since := (fun m => length log - m)%nat <$> old).
  assert (forall s1 left1 busy1 v1 R1 mes1 ess1 log1 old1, s1 = s' -> dir_ (s_db s1) = dir_ (s_db s) -> sys_at o (2 ^ 29) left1 s1 busy1 v1 R1 mes1 ess1 ->
    durable (sync o) (s_db s1) (s_world s1) (reserved s1) mes1 v1 ess1 log1 hist old1 -> target_ok (s_bg s1) ->
    in_question s since ((fun m => length log1 - m)%nat <$> old1) (ev, r) ->
    (forall σc, loses (sync o) (s_world s') σc -> crash_shows (s_db s) σc hist \/ lost (ev, r) = true /\ crash_shows (s_db s) σc hist) /\
    (lost (ev, r) = false -> exists since', runs_durably dir s' hist since' /\ in_question s since since' (ev, r))) as Hback.
  { intros s1 left1 busy1 v1 R1 mes1 ess1 log1 old1 -> Hd1 Hat1 Hdu1 Ht1 Hq. split.
    - intros σc Hc. left. destruct (durable_crash _ _ _ _ _ _ _ _ _ _ _ Hdu1 Hc) as (recs & Hr & Hv). exists recs. split; [|done].
      by apply (recoverable_ext (s_db s') _ _ recs).
    - intros _. eexists. split; [|exact Hq]. exists left1, busy1, v1, R1, mes1, ess1, log1, old1. split_and!; try done. congruence. }
  assert (forall ev, ev ∈ [EvWake; EvLoop; EvMerge; EvInstall; EvShutdown] -> in_question s since since (ev, r)) as Hsame.
  { intros ev' Hev _ n ->. destruct ev'; set_solver. }
  destruct ev as [op| | | | | |]; cbn [sys_exec enabled history_step fst] in *.
  - destruct (s_client s) as [|fm w] eqn:Ecl; [|done].
    destruct (begin_durable (2 ^ 29 - 1) left s busy v R mes ess log hist old op Hat' Hdu Ecl Hfit Hsize ltac:(lia))
      as (r' & ph & d' & σ' & mes' & E' & Hd' & Hat1 & Hcr & Hok). rewrite E' in E. cbn [rbind] in E. injection E as <- <-.
    split; [exact Hcr|]. intros Hf. eexists. split.
    + eexists left, _, v, R, mes', ess, _, old. split; [exact Hat1|]. split; [cbn; congruence|]. split; [by apply Hok|]. done.
    + intros _ n En. destruct old as [m|]; [|done]. injection En as <-. cbn [fmap option_fmap option_map unflushed_step fst]. f_equal.
      destruct (du_log _ _ _ _ _ _ _ _ _ _ Hdu) as (? & ? & _ & _ & Hm). destruct (Hm m eq_refl). rewrite length_app. lia.
  - destruct (s_client s) as [|fm w] eqn:Ecl; [done|].
    destruct (publish_durable (2 ^ 29) left s busy v R mes ess log hist old fm w Hat Hdu Ecl ltac:(lia))
      as (st & d' & σ' & mes' & log' & old' & E' & Hd' & Hat1 & Hdu1 & Hq). rewrite E' in E. cbn [rbind] in E. injection E as <- <-.
    eapply (Hback (mkSys d' σ' ClIdle (s_bg s) (bg_busy_ s) (shutting_down_ s))); [done|done|exact Hat1|exact Hdu1|done|].
    intros Hio n _. by destruct (Hq Hio) as [-> ->].
  - destruct (s_bg s) eqn:Eb; try by destruct (s_client s).
    pose proof (wake_step o _ _ _ _ _ _ _ _ (shutting_down_ s) Hat) as Hs. rewrite Eb in Hs.
    apply (Hback (mkSys (s_db s) (s_world s) (s_client s) BgLoop (bg_busy_ s) (shutting_down_ s)) left busy v R mes ess log old); try done.
    + by destruct (s_client s); injection E as <- <-.
    + unfold reserved in *. by rewrite Eb in Hdu.
    + apply Hsame. set_solver.
  - destruct (s_bg s) eqn:Eb; try by destruct (s_client s).
    destruct (loop_durable _ left s busy v R mes ess log hist old Hat Hdu Eb Hent) as (s1 & left1 & E1 & Hat1 & Hdb & Hdu1 & Ht1).
    eapply (Hback s1 left1 busy v R mes ess log old); [|by rewrite Hdb|done|done|done|apply Hsame; set_solver].
    destruct (s_client s); rewrite E1 in E; by injection E as <- <-.
  - destruct (s_bg s) eqn:Eb; try by destruct (s_client s).
    destruct (merge_durable _ left s busy v R mes ess log hist old c mv Hat' Hdu Eb ltac:(by rewrite Eb) ltac:(lia)) as (s1 & left1 & R1 & E1 & Hat1 & Hd1 & Hdu1 & Ht1).
    eapply (Hback s1 left1 busy v R1 mes ess log old); [|done|exact Hat1|done|done|apply Hsame; set_solver].
    destruct (s_client s); rewrite E1 in E; by injection E as <- <-.
  - destruct (s_bg s) eqn:Eb; try by destruct (s_client s).
    destruct (install_durable _ left s busy v R mes ess log hist old c outputs Hat Hdu Eb ltac:(by rewrite Eb) ltac:(lia))
      as (st & d' & σ' & nv & ess' & E1 & Hd1 & Hat1 & Hdu1).
    apply (Hback (mkSys d' σ' (s_client s) BgLoop (bg_busy_ s) (shutting_down_ s)) 0%nat busy nv R mes ess' log old); try done.
    + destruct (s_client s); rewrite E1 in E; by injection E as <- <-.
    + apply Hsame. set_solver.
  - destruct (s_client s) as [|fm w] eqn:Ecl; [|done]. injection E as <- <-.
    pose proof (down_step o _ _ _ _ _ _ _ _ Hat) as Hs. rewrite Ecl in Hs.
    apply (Hback (mkSys (s_db s) (s_world s) ClIdle (s_bg s) (bg_busy_ s) true) left busy v R mes ess log old); try done; [|apply Hsame; set_solver].
    unfold reserved in *. by rewrite Ecl in Hdu.
Qed.

(** A disk without a torn tail in its log, from which [DB::Open] shows [hist]. *)
Definition clean_disk (dir : bytes) (σ : World) (hist : list entry) : Prop :=
  io σ = [] /\ exists nx v ess log, let d := DB_new o dir in
    disk_state d σ nx v ess /\ Forall rec_fits log /\ blen log <= 2 ^ 25 /\
    match fs σ !! wal_of d with Some f => f = mkFile (wal_frames log) (blen (wal_frames log)) | None => log = [] end /\
    forall k, forgets (assoc hist k) (assoc (apply_ops log [] ++ version_records ess) k).

Lemma empty_clean dir : clean_disk dir (mkWorld ∅ []) [].
Proof.
  split; [done|]. exists 1, [[]], [[]], []. cbn [fs]. rewrite lookup_empty. split; [by apply no_manifest|].
  split_and!; try done. intros k. apply forgets_refl.
Qed.

(** Opening a clean disk starts a durable run. *)
Lemma open_durable dir σ hist d σ1 os :
  block_cache_bytes o < 2 ^ 63 -> clean_disk dir σ hist -> DB_Open o dir σ = (Ok d, σ1) -> capacity d = true ->
  runs_durably dir (opened d σ1 os) hist (Some O).
Proof.
  intros Hc (Hio & nx & v & ess & log & Hst & Hfit & Hlen & Hwal & Hview) E Hcap. change (wal_of (DB_new o dir)) with (wal_path_of dir) in Hwal.
  assert (log_replays (DB_new o dir) σ log) as Hrep.
  { unfold log_replays. change (wal_of (DB_new o dir)) with (wal_path_of dir). destruct (fs σ !! wal_path_of dir); [subst|done].
    cbn [f_data]. by apply replay_log. }
  destruct (open_at o dir σ nx v ess log d σ1 os Hio Hc Hst Hrep Hfit Hlen E Hcap) as (Hat & mem & Ed & ->).
  pose proof (sa_db _ _ _ _ _ _ _ _ _ Hat) as Hd. cbn [opened s_db] in Hd. set (σ0 := (open_append (wal_path_of dir) σ).2) in *.
  assert (dir_ d = dir /\ wal_ d = mkWalWriter (Some (wal_path_of dir)) (wal_path_of dir) /\ next_file_number_ d = nx)
    as (Hdir & Hw & Hnx) by (by rewrite Ed). clear E Ed.
  assert (fs σ0 = match fs σ !! wal_path_of dir with Some _ => fs σ | None => <[wal_path_of dir := mkFile [] 0]> (fs σ) end) as Hσ0.
  { unfold σ0, open_append, sys, next_io. by rewrite Hio. }
  assert (forall p, p <> wal_path_of dir -> fs σ0 !! p = fs σ !! p) as Hoth.
  { intros p Hp. rewrite Hσ0. destruct (fs σ !! wal_path_of dir); [done|by rewrite lookup_insert_ne]. }
  assert (forall p, (forall n, is_u64 n -> n ∉ live_numbers v -> p <> FilePath d n) -> p <> wal_path_of dir ->
    fs (RemoveOrphanFiles d v σ0) !! p = fs σ !! p) as Hkept by (intros p Hp Hpw; rewrite orphans_kept by done; by apply Hoth).
  pose proof (do_numbers _ _ _ _ _ Hd) as Hno. pose proof (sa_next _ _ _ _ _ _ _ _ _ Hat) as Hnx'. cbn [opened s_db] in Hnx'.
  assert (forall f, f ∈ concat v -> is_u64 (fm_number f)) as Hu.
  { intros f Hin. pose proof (no_old _ _ Hno) as Hold. rewrite Forall_forall in Hold. specialize (Hold f Hin). unfold is_u64. lia. }
  assert (disk_state d (mkWorld (fs (RemoveOrphanFiles d v σ0)) os) nx v ess) as Hst'.
  { apply (state_dir (DB_new o dir)); [done|]. eapply state_kept; [exact Hst| |].
    - apply Hkept; [intros n Hn _|apply not_eq_sym, (wal_ne_manifest (DB_new o dir))].
      apply not_eq_sym. unfold FilePath. rewrite Hdir. by apply (file_ne_manifest (DB_new o dir)).
    - intros f Hin. apply Hkept; [|apply (file_ne_wal (DB_new o dir)); by apply Hu].
      intros n Hn Hl Ep. unfold FilePath in Ep. rewrite Hdir in Ep. apply (FilePath_inj (DB_new o dir)) in Ep; [|by apply Hu|done].
      subst n. apply Hl. by apply list_elem_of_In, in_map, list_elem_of_In. }
  assert (forall m, Some (length log) = Some m -> past m log hist ess) as Hpast.
  { intros m [= <-] n Hn k. replace n with (length log) by lia. rewrite Nat.sub_diag, firstn_all. apply Hview. }
  assert (fs (s_world (opened d (RemoveOrphanFiles d v σ0) os)) !! wal_of d = Some (mkFile (wal_frames log) (blen (wal_frames log)))) as Hlog0.
  { cbn [opened s_world s_db fs]. unfold wal_of. rewrite Hdir, orphans_kept.
    - rewrite Hσ0. destruct (fs σ !! wal_path_of dir) as [f|] eqn:Ef; [by rewrite Ef, Hwal|by rewrite lookup_insert_eq, Hwal].
    - intros n Hn _. apply not_eq_sym. unfold FilePath. rewrite Hdir. by apply (file_ne_wal (DB_new o dir)). }
  exists 0%nat, false, v, (readers v), (apply_ops log []), ess, log, (Some (length log)). split; [exact Hat|]. split; [done|].
  split; [|split; [done|cbn; by rewrite Nat.sub_diag]]. split; try done.
  - left. unfold log_open, wal_of. cbn [opened s_db]. by rewrite Hw, Hdir.
  - exists nx, v, ess. split; [cbn; lia|]. split; [exact Hst'|split; [constructor|]].
    split; [by split|]. intros _ f Hf0. assert (f = mkFile _ _) as -> by exact (inj Some _ _ (eq_trans (eq_sym Hf0) Hlog0)). constructor.
  - apply Hst'.
  - apply Hst.
  - exists (blen (wal_frames log)), []. split; [exact Hlog0|split; [by split; [|right]|intros m [= <-]; by rewrite firstn_all]].
Qed.

(** A run in which no mutation reports failure is durable throughout. *)
Lemma run_durable dir s0 hist tr s :
  runs_durably dir s0 hist (Some O) -> sys_run s0 tr s -> Forall (fun x => lost x = false) tr ->
  exists since, runs_durably dir s (history hist tr) since.
Proof.
  intros Hstart. induction 1 as [|tr s ev r s' _ IH Hen Hcap Hfit E]; [by exists (Some O)|].
  intros [Htr Hr]%Forall_app. rewrite Forall_singleton in Hr. destruct (IH Htr) as (since & Hrun).
  destruct (proj2 (event_durable dir s _ since ev r s' Hrun Hen Hcap Hfit E) Hr) as (since' & Hrun' & _).
  exists since'. unfold history. by rewrite fold_left_app.
Qed.

(** Without faults, at most the mutations since the last publication are in
    question. *)
Lemma run_recent dir recs0 s0 hist tr s :
  block_cache_bytes o < 2 ^ 63 -> starts o dir recs0 s0 -> io (s_world s0) = [] ->
  runs_durably dir s0 hist (Some O) -> sys_run s0 tr s -> runs_durably dir s (history hist tr) (Some (unflushed tr)).
Proof.
  intros Hc Hst Hio0 Hstart. induction 1 as [|tr s ev r s' Hrun IH Hen Hcap Hfit E]; [done|].
  assert (usable o) as Ho by done.
  assert (sys_run s0 (tr ++ [(ev, r)]) s') as Hrun' by (by econstructor).
  destruct (run_calm o dir recs0 s0 tr s Ho Hst Hio0 Hrun) as (_ & Hio & _).
  destruct (run_calm o dir recs0 s0 _ s' Ho Hst Hio0 Hrun') as (Hf & _). apply Forall_app in Hf as [_ Hf]. rewrite Forall_singleton in Hf.
  destruct (proj2 (event_durable dir s _ _ ev r s' IH Hen Hcap Hfit E) (failed_lost _ Hf)) as (since' & Hd & Hq).
  unfold history, unflushed. rewrite !fold_left_app. fold (unflushed tr). cbn [fold_left]. by rewrite <- (Hq Hio _ eq_refl).
Qed.

(** The log that a crash left has no torn tail. *)
Definition untorn (dir : bytes) (σ : World) : Prop :=
  exists log f, Forall rec_fits log /\ blen log <= 2 ^ 25 /\ fs σ !! wal_path_of dir = Some f /\ f_data f = wal_frames log.

Lemma shows_clean dir d σ σc hist :
  dir_ d = dir -> crash_world σ σc -> crash_shows d σc hist -> untorn dir σc -> clean_disk dir σc hist.
Proof.
  intros Hdir [Hio Hcr] (recs & (nx & v & ess & f & log & Hst & Hw & Hrep & _ & Hview) & Hfg) (log' & f' & Hfit & Hlen & Hw' & Hdat).
  unfold wal_of in Hw. rewrite Hdir, Hw' in Hw. injection Hw as <-. rewrite Hdat, replay_log in Hrep by done. injection Hrep as <-.
  specialize (Hcr (wal_path_of dir)). rewrite Hw' in Hcr. destruct (fs σ !! wal_path_of dir) as [g|]; [|done]. destruct Hcr as [_ Hsy].
  split; [done|]. exists nx, v, ess, log'. cbn zeta. change (wal_of (DB_new o dir)) with (wal_path_of dir). rewrite Hw'.
  split_and!; try done; [by apply (state_dir d)| |].
  - destruct f' as [dat sy bef], Hsy. cbn in *. by subst.
  - intros k. rewrite Hview. apply Hfg.
Qed.

(** Between two steps the log has no torn tail, so that the end of a session there
    leaves a clean disk; the log is to be short enough to be replayed. *)
Definition short_log (dir : bytes) (σ : World) : Prop :=
  forall f, fs σ !! wal_path_of dir = Some f -> blen (f_data f) <= 2 ^ 25.

Lemma durable_clean dir s hist since σc :
  runs_durably dir s hist since -> loses (sync o) (s_world s) σc -> short_log dir σc -> clean_disk dir σc hist.
Proof.
  intros (left & busy & v & R & mes & ess & log & old & _ & Hdir & Hdu & _) Hl Hs.
  apply (shows_clean dir (s_db s) (s_world s)); [done|apply Hl|by eapply durable_crash|].
  destruct (durable_disk _ _ _ _ _ _ _ _ _ _ _ Hdu Hl) as (nx & vd & essd & l & _ & Hf & Hfit & _).
  unfold wal_of in Hf. rewrite Hdir in Hf. exists l, (mkFile (wal_frames l) (blen (wal_frames l))). split_and!; try done.
  specialize (Hs _ Hf). cbn [f_data] in Hs. pose proof (frames_long l). lia.
Qed.

(** What a disk shows is what a reopened database answers. *)
Lemma shows_reopened dir d σc hist :
  block_cache_bytes o < 2 ^ 63 -> io σc = [] -> dir_ d = dir -> crash_shows d σc hist ->
  exists recs d2 σ2, DB_Open o dir σc = (Ok d2, σ2) /\ (forall k, forgets (assoc hist k) (assoc recs k)) /\
    forall key, exists d3, DB_Get d2 key = Ok (lookup_of (assoc recs key), d3).
Proof.
  intros Hc Hio Hdir (recs & Hr & Hf).
  destruct (open_recovers o dir σc recs Hio Hc) as (d2 & σ2 & n & E & v2 & R2 & mes2 & ess2 & Hd2 & _ & Hview2).
  { by apply (recoverable_ext d _ _ recs). }
  exists recs, d2, σ2. split; [done|]. split; [done|]. intros key.
  destruct (db_get d2 v2 R2 mes2 ess2 key Hd2) as (c & Eg & _). eexists. by rewrite Eg, Hview2.
Qed.

(** A clean disk is one that [DB::Open] opens. *)
Lemma clean_starts dir σ hist d σ1 os :
  clean_disk dir σ hist -> DB_Open o dir σ = (Ok d, σ1) -> capacity d = true ->
  exists recs, (forall k, forgets (assoc hist k) (assoc recs k)) /\ starts o dir recs (opened d σ1 os).
Proof.
  intros (Hio & nx & v & ess & log & Hst & Hfit & Hlen & Hwal & Hview) E Hcap. eexists. split; [exact Hview|].
  eapply (starts_open _ _ _ σ); [|done|done]. split; [done|]. exists nx, v, ess, log. split; [done|]. split; [|by split_and!]. unfold log_replays.
  destruct (fs σ !! wal_of (DB_new o dir)); [subst; by apply replay_log|done].
Qed.

End WithOptions.

(** The options of the next session do not matter. *)
Lemma clean_options o o' dir σ hist : clean_disk o dir σ hist -> clean_disk o' dir σ hist.
Proof.
  intros (Hio & nx & v & ess & log & Hst & Hrest). split; [done|]. exists nx, v, ess, log. split; [|exact Hrest].
  by apply (state_dir (DB_new o dir)).
Qed.

(** ** Properties *)

(** C2 (safety). No acknowledged write of a session is lost, in any interleaving of
    the caller with the background thread. A database opens a disk that shows the
    history [hist] and whose log has no torn record at its end (an empty directory
    does) and runs, through flushes, merges and installations under any pattern of failing system calls,
    and no put or delete reports failure (flushes may); then one more step of
    either thread runs, whose system calls may stop working anywhere, and the
    machine crashes, losing any part of the bytes, and undoing any truncation, that
    no [fsync] covered; or, if writes are not synchronous, the process ends. Opening the directory succeeds
    and answers every lookup from the whole history of mutations, the last step's
    included, except that a deleted key may have become an unknown one; only a
    mutation that itself reported failure may be missing. Only if the crash leaves no
    torn record at the end of the log is the disk again one that the theorem applies
    to, with that history, so that the next session goes on from it;
    [torn_tail_loses_next_session] shows what happens otherwise. *)
Theorem crash_keeps_acknowledged_writes o dir σ0 hist d σ1 os tr s ev r s' σc :
  usable o -> 1 <= max_levels o < 2 ^ 31 ->
  clean_disk o dir σ0 hist -> DB_Open o dir σ0 = (Ok d, σ1) -> capacity d = true ->
  sys_run (opened d σ1 os) tr s -> Forall (fun x => lost x = false) tr ->
  enabled s ev = true -> capacity (s_db s) = true -> event_fits ev -> sys_exec s ev = Ok (r, s') ->
  loses (sync o) (s_world s') σc ->
  exists hist', (hist' = history hist (tr ++ [(ev, r)]) \/ lost (ev, r) = true /\ hist' = history hist tr) /\
    (untorn dir σc -> clean_disk o dir σc hist') /\
    exists recs d2 σ2, DB_Open o dir σc = (Ok d2, σ2) /\ (forall k, forgets (assoc hist' k) (assoc recs k)) /\
      forall key, exists d3, DB_Get d2 key = Ok (lookup_of (assoc recs key), d3).
Proof.
  intros [Hb Ht Hc] Hl Hcl Eo Hcap0 Hrun Htr Hen Hcap Hfit E Hcr.
  destruct (run_durable o Hb Ht Hl dir _ hist tr s (open_durable o dir σ0 hist d σ1 os Hc Hcl Eo Hcap0) Hrun Htr) as (since & Hdu).
  destruct (event_durable o Hb Ht Hl dir s (history hist tr) since ev r s' Hdu Hen Hcap Hfit E) as [Hshow _].
  assert (dir_ (s_db s) = dir) as Hdir by (by destruct Hdu as (? & ? & ? & ? & ? & ? & ? & ? & _ & ? & _)).
  assert (exists hist', (hist' = history hist (tr ++ [(ev, r)]) \/ lost (ev, r) = true /\ hist' = history hist tr) /\ crash_shows (s_db s) σc hist')
    as (hist' & Hor & Hs).
  { destruct (Hshow σc Hcr) as [Hs|[Hr Hs]]; (eexists; split; [|exact Hs]); [left|by right]. unfold history. by rewrite fold_left_app. }
  exists hist'. split; [done|]. split; [apply (shows_clean o dir (s_db s) (s_world s')); [done|apply Hcr|done]|].
  exact (shows_reopened o dir (s_db s) σc hist' Hc (proj1 (proj1 Hcr)) Hdir Hs).
Qed.

(** C8 (safety). What a crash of the machine costs without synchronous writes. A
    database opens a disk that shows the history [hist] and whose log has no torn
    record at its end, no system call fails, and the machine crashes between two
    steps, losing any part of the bytes that no [fsync] covered. Provided that the
    crash does not undo the truncation of the log, which nothing makes durable
    ([log_cut]), the directory opens and shows a state that the database once had
    (up to forgotten deletes), and at most the mutations since the last published
    flush are missing from it. *)
Theorem async_crash_shows_recent_past o dir σ0 hist d σ1 tr s σc :
  usable o -> 1 <= max_levels o < 2 ^ 31 ->
  clean_disk o dir σ0 hist -> DB_Open o dir σ0 = (Ok d, σ1) -> capacity d = true ->
  sys_run (opened d σ1 []) tr s -> crash_world (s_world s) σc -> log_cut dir (s_world s) σc ->
  exists n recs d2 σ2, (n <= unflushed tr)%nat /\ DB_Open o dir σc = (Ok d2, σ2) /\
    (forall k, forgets (assoc (drop n (history hist tr)) k) (assoc recs k)) /\
    forall key, exists d3, DB_Get d2 key = Ok (lookup_of (assoc recs key), d3).
Proof.
  intros Ho Hl Hcl Eo Hcap0 Hrun Hcr Hcut. destruct (clean_starts o dir σ0 hist d σ1 [] Hcl Eo Hcap0) as (recs0 & _ & Hst). pose proof Ho as [Hb Ht Hc].
  pose proof (run_recent o Hb Ht Hl dir recs0 _ hist tr s Hc Hst eq_refl (open_durable o dir σ0 hist d σ1 [] Hc Hcl Eo Hcap0) Hrun)
    as (left & busy & v & R & mes & ess & log & old & _ & Hdir & Hdu & _ & Hold).
  destruct old as [m|]; [|done]. injection Hold as Hold. rewrite <- Hdir in Hcut. destruct (durable_past _ _ _ _ _ _ _ _ _ _ σc Hdu Hcr Hcut) as (n & Hn & Hs).
  destruct (shows_reopened o dir (s_db s) σc _ Hc (proj1 Hcr) Hdir Hs) as (recs & d2 & σ2 & Hres). exists n, recs, d2, σ2. split; [lia|done].
Qed.

(** ** A rename that is not durable *)

(** The disk [σ'] with the directory as it was in [σ] before the last rename onto the
    manifest of [d], which no [fsync] of the directory covered: the new manifest is
    still under its temporary name. *)
Definition undo_rename (d : DB) (σ σ' : World) : World :=
  mkWorld (partial_alter (fun _ => fs σ' !! ManifestPath d) (ManifestTmp d)
            (partial_alter (fun _ => fs σ !! ManifestPath d) (ManifestPath d) (fs σ'))) [].

Lemma undo_rename_manifest d σ σ' : fs (undo_rename d σ σ') !! ManifestPath d = fs σ !! ManifestPath d.
Proof. cbn [undo_rename fs]. by rewrite lookup_partial_alter_ne, lookup_partial_alter_eq by (apply not_eq_sym, manifest_tmp_ne). Qed.

Lemma undo_rename_other d σ σ' p : p <> ManifestPath d -> p <> ManifestTmp d -> fs (undo_rename d σ σ') !! p = fs σ' !! p.
Proof. intros. cbn [undo_rename fs]. by rewrite !lookup_partial_alter_ne by done. Qed.

(** C39 (error). The order of a flush relies on a rename that nothing makes durable:
    [WriteManifest] syncs the new manifest and renames it, but not the directory, and
    the log is truncated right after. Whatever happened since the database was opened
    on a disk without a torn log, in any interleaving and under any faults, so long as
    no mutation failed: when a flush publishes its table and empties the log, and a
    crash keeps the truncation but loses the rename, the directory opens without an
    error and every lookup answers from the tables of the manifest before the flush
    alone. What was acknowledged, and flushed, since is gone, and the flushed table
    is removed as an orphan. *)
Theorem unsynced_rename_loses_flush o dir σ0 hist d σ1 os tr s fm w r s' lf σc :
  usable o -> 1 <= max_levels o < 2 ^ 31 ->
  clean_disk o dir σ0 hist -> DB_Open o dir σ0 = (Ok d, σ1) -> capacity d = true ->
  sys_run (opened d σ1 os) tr s -> Forall (fun x => lost x = false) tr ->
  s_client s = ClPublish fm w -> sys_exec s EvPublish = Ok (r, s') ->
  fs (s_world s') !! wal_path_of dir = Some lf -> f_data lf = [] ->
  crash_world (undo_rename (s_db s) (s_world s) (s_world s')) σc -> log_cut dir (s_world s') σc ->
  exists nx vd essd d2 σ2, disk_state (s_db s) (s_world s) nx vd essd /\ DB_Open o dir σc = (Ok d2, σ2) /\
    (forall key, exists d3, DB_Get d2 key = Ok (lookup_of (assoc (version_records essd) key), d3)) /\
    fs σ2 !! FilePath (s_db s) (fm_number fm) = None.
Proof.
  intros [Hb Ht Hc] Hl Hcl Eo Hcap0 Hrun Htr Hph E Hlf Hempty Hcr Hcut.
  destruct (run_durable o Hb Ht Hl dir _ hist tr s (open_durable o dir σ0 hist d σ1 os Hc Hcl Eo Hcap0) Hrun Htr)
    as (since & left & busy & v & R & mes & ess & log & old & Hat & Hdir & Hdu & _).
  pose proof (sa_client _ _ _ _ _ _ _ _ _ Hat) as Hclient. rewrite Hph in Hclient. destruct Hclient as (_ & Hup & _).
  pose proof (sa_next _ _ _ _ _ _ _ _ _ Hat) as Hnx.
  unfold sys_exec in E. rewrite Hph in E. destruct (publish_table (s_db s) fm w (s_world s)) as [[[st d'] σ']| |] eqn:Ep; [|done..].
  cbn [rbind] in E. injection E as <- <-. cbn [s_world] in *.
  destruct (publish_frame _ _ _ _ _ _ _ Ep (sa_wal _ _ _ _ _ _ _ _ _ Hat)) as [Hk _].
  destruct (du_disk _ _ _ _ _ _ _ _ _ _ Hdu) as (nx & vd & essd & Hle & Hst & Hks & _).
  assert (disk_state (s_db s) (undo_rename (s_db s) (s_world s) σ') nx vd essd) as Hst'.
  { eapply state_kept; [exact Hst|apply undo_rename_manifest|]. intros f Hin. pose proof (no_old _ _ (ds_numbers _ _ _ _ _ Hst)) as Ho.
    rewrite Forall_forall in Ho. specialize (Ho f Hin). assert (is_u64 (fm_number f)) by (unfold is_u64; lia).
    rewrite undo_rename_other by (by apply file_ne_manifest || by apply file_ne_tmp). apply Hk. rewrite !not_elem_of_cons.
    split_and!; [by apply file_ne_tmp|by apply file_ne_manifest|by apply file_ne_wal|apply not_elem_of_nil]. }
  assert (disk_state (DB_new o dir) σc nx vd essd) as Hstc.
  { apply (state_dir (s_db s)); [by rewrite Hdir|]. by eapply crash_state. }
  assert (log_replays (DB_new o dir) σc []) as Hrep.
  { unfold log_replays. change (wal_of (DB_new o dir)) with (wal_path_of dir). destruct (fs σc !! wal_path_of dir) as [fc|] eqn:Ec; [|done].
    destruct (Hcut _ _ Hlf Ec) as (n & _ & Hd). rewrite Hd, Hempty. by destruct n. }
  destruct (open_rebuilds o dir σc nx vd essd [] (proj1 Hcr) Hc Hstc Hrep (Forall_nil_2 _)) as (mem & Eopen & Hd2).
  eexists nx, vd, essd, _, _. split; [exact Hst|]. split; [exact Eopen|]. split.
  - intros key. destruct (db_get _ _ _ _ _ key Hd2) as (ch & Eg & _). by eexists.
  - unfold FilePath. rewrite Hdir. apply (orphans_gone (reopened o dir vd nx mem)).
    + pose proof (proj1 Hcr) as Hio. unfold open_append, sys, next_io. rewrite Hio. exact Hio.
    + destruct Hup as [_ [Hu _ _] _]. unfold is_u64. lia.
    + rewrite Forall_forall in Hks. apply Hks. unfold reserved. rewrite Hph. left.
Qed.

End Steps.

(** ** Two sessions *)

(** A session: open the directory, run the events [evs], and one more. *)
Definition session (σ : World) (os : list io_outcome) (evs : list event) (ev : event)
  : option (DB * World * trace * Sys * option reply * Sys) :=
  match @DB_Open plain_os alternating_env sample_options (lit "db") σ with
  | (Ok d, σ1) =>
      match @sys_exec_all plain_os alternating_env (opened d σ1 os) evs with
      | Some (tr, s) =>
          if capacity d && forallb (fun x => negb (lost x)) tr && enabled s ev && capacity (s_db s) then
            match @sys_exec plain_os alternating_env s ev with
            | Ok (r, s') => Some (d, σ1, tr, s, r, s')
            | _ => None
            end
          else None
      | None => None
      end
  | _ => None
  end.

Lemma session_spec σ os evs ev d σ1 tr s r s' :
  Forall event_fits evs -> session σ os evs ev = Some (d, σ1, tr, s, r, s') ->
  @DB_Open plain_os alternating_env sample_options (lit "db") σ = (Ok d, σ1) /\ capacity d = true /\
  @sys_run plain_os alternating_env (opened d σ1 os) tr s /\ Forall (fun x => lost x = false) tr /\
  enabled s ev = true /\ capacity (s_db s) = true /\ @sys_exec plain_os alternating_env s ev = Ok (r, s').
Proof.
  intros Hf. unfold session. destruct (DB_Open _ _ σ) as [[d0| |] σ0] eqn:Eo; [|done..].
  destruct (sys_exec_all (opened d0 σ0 os) evs) as [[tr0 s0]|] eqn:Er; [|done].
  destruct (capacity d0 && _ && enabled s0 ev && capacity (s_db s0)) eqn:Eb; [|done].
  destruct (sys_exec s0 ev) as [[r0 s1]| |] eqn:Ee; [|done..]. intros [= <- <- <- <- <- <-].
  apply andb_prop in Eb as [[[Hc Htr]%andb_prop Hen]%andb_prop Hc']. split; [done|]. split; [done|]. split.
  { by apply (@sys_exec_all_run plain_os alternating_env _ [] (opened d0 σ0 os) evs tr0 s0); [constructor|..]. }
  split; [|done]. apply Forall_forall. intros x Hx%list_elem_of_In. rewrite forallb_forall in Htr. by apply negb_true_iff, Htr.
Qed.

(** The first session: the sample up to the installation of its merge. *)
Definition first_events : list event := take 16 sample_events.
Definition first_session := session (mkWorld ∅ []) [] first_events EvInstall.

(** The second session: a put, a flush whose table cannot be created, and a delete
    whose record is torn. *)
Definition second_events : list event := [EvClient (CPut (lit "c") (lit "4")); EvClient CFlush].
Definition second_session (σ : World) :=
  session σ [IoOk; IoOk; IoErr 28; IoShort 9; IoErr 5] second_events (EvClient (CDelete (lit "b"))).

Lemma first_fits : Forall event_fits first_events.
Proof. repeat apply Forall_cons_2; try apply Forall_nil_2; vm_compute; try exact I; discriminate. Qed.

Lemma second_fits : Forall event_fits second_events.
Proof. repeat apply Forall_cons_2; try apply Forall_nil_2; vm_compute; [discriminate|exact I]. Qed.

(** The log after the first session. *)
Lemma first_untorn :
  match first_session with
  | Some (_, _, _, _, _, s') => untorn (lit "db") (hard_crash (s_world s'))
  | None => True
  end.
Proof.
  assert (match first_session with
          | Some (_, _, _, _, _, s') => match fs (hard_crash (s_world s')) !! wal_path_of (lit "db") with Some f => f_data f = [] | None => False end
          | None => True end) as Hs by (vm_compute; reflexivity).
  destruct first_session as [[[[[[d σ1] tr] s] r] s']|]; [|done]. destruct (fs (hard_crash (s_world s')) !! _) as [f|] eqn:Ef; [|done].
  exists [], f. by split_and!.
Qed.

Lemma loses_synced σ σc : crash_world σ σc -> loses true σ σc.
Proof. by split. Qed.

Lemma crash_keeps_acknowledged_writes_witness :
  match first_session with
  | Some (_, _, tr1, _, r1, s1) =>
      let hist := history [] (tr1 ++ [(EvInstall, r1)]) in
      match second_session (hard_crash (s_world s1)) with
      | Some (_, _, tr, _, r, s') =>
          map (fun x => failed x.2) tr = [false; true] /\ failed r = true /\ let σc := soft_crash (s_world s') in
          exists hist', (hist' = history hist (tr ++ [(EvClient (CDelete (lit "b")), r)]) \/
                         lost (EvClient (CDelete (lit "b")), r) = true /\ hist' = history hist tr) /\
            (untorn (lit "db") σc -> clean_disk sample_options (lit "db") σc hist') /\
            exists recs d2 σ2, @DB_Open plain_os alternating_env sample_options (lit "db") σc = (Ok d2, σ2) /\
              (forall k, forgets (assoc hist' k) (assoc recs k)) /\
              forall key, exists d3, DB_Get d2 key = Ok (lookup_of (assoc recs key), d3)
      | None => False
      end
  | None => False
  end.
Proof.
  assert (match first_session with
          | Some (_, _, _, _, r1, s1) =>
              match second_session (hard_crash (s_world s1)) with
              | Some (_, _, tr, _, r, _) => map (fun x => failed x.2) tr = [false; true] /\ failed r = true
              | None => False end
          | None => False end) as Hs by (vm_compute; split; reflexivity).
  pose proof first_untorn as Hu. destruct first_session as [[[[[[d1 σ1] tr1] t1] r1] s1]|] eqn:E1; [|destruct Hs].
  destruct (session_spec _ _ _ _ _ _ _ _ _ _ first_fits E1) as (Eo1 & Hc1 & Hrun1 & Hf1 & Hen1 & Hcap1 & Ee1).
  destruct (@crash_keeps_acknowledged_writes plain_os alternating_env sample_options (lit "db") (mkWorld ∅ []) [] d1 σ1 [] tr1 t1 EvInstall r1 s1
    (hard_crash (s_world s1))) as (hist & Hor & Hclean & _);
    [exact sample_usable|cbn; lia|apply empty_clean|exact Eo1|exact Hc1|exact Hrun1|exact Hf1|exact Hen1|exact Hcap1
    |exact I|exact Ee1|apply loses_synced, hard_crash_ok|].
  assert (hist = history [] (tr1 ++ [(EvInstall, r1)])) as -> by (destruct Hor as [?|[? _]]; [assumption|discriminate]).
  destruct (second_session (hard_crash (s_world s1))) as [[[[[[d2 σ2] tr] t] r] s']|] eqn:E2; [|destruct Hs].
  split; [exact (proj1 Hs)|]. split; [exact (proj2 Hs)|].
  destruct (session_spec _ _ _ _ _ _ _ _ _ _ second_fits E2)
    as (Eo2 & Hc2 & Hrun2 & Hf2 & Hen2 & Hcap2 & Ee2).
  apply (@crash_keeps_acknowledged_writes plain_os alternating_env sample_options (lit "db") (hard_crash (s_world s1)) _ d2 σ2
    [IoOk; IoOk; IoErr 28; IoShort 9; IoErr 5] tr t (EvClient (CDelete (lit "b"))) r s' (soft_crash (s_world s')));
    [exact sample_usable|cbn; lia|exact (Hclean Hu)|exact Eo2|exact Hc2|exact Hrun2|exact Hf2|exact Hen2|exact Hcap2
    |vm_compute; discriminate|exact Ee2|apply loses_synced, soft_crash_ok].
Defined.

(** Three puts without synchronous writes, two of them before a published flush;
    the crash of the machine leaves nothing of the log. *)
Definition async_events : list event :=
  [EvClient (CPut (lit "a") (lit "1")); EvClient (CPut (lit "b") (lit "2")); EvClient CFlush; EvPublish;
   EvClient (CPut (lit "a") (lit "3"))].

Lemma hard_crash_cut dir σ : log_cut dir σ (hard_crash σ).
Proof.
  intros f f' Hf. cbn [hard_crash fs]. rewrite lookup_fmap, Hf. intros [= <-]. exists (Z.to_nat (f_synced f)). split; [lia|done].
Qed.

Lemma async_crash_shows_recent_past_witness :
  match @DB_Open plain_os alternating_env async_options (lit "db") (mkWorld ∅ []) with
  | (Ok d, σ1) =>
      match @sys_exec_all plain_os alternating_env (opened d σ1 []) async_events with
      | Some (tr, s) =>
          unflushed tr = 1%nat /\
          exists n recs d2 σ2, (n <= unflushed tr)%nat /\
            @DB_Open plain_os alternating_env async_options (lit "db") (hard_crash (s_world s)) = (Ok d2, σ2) /\
            (forall k, forgets (assoc (drop n (history [] tr)) k) (assoc recs k)) /\
            forall key, exists d3, DB_Get d2 key = Ok (lookup_of (assoc recs key), d3)
      | None => False
      end
  | _ => False
  end.
Proof.
  assert (match @DB_Open plain_os alternating_env async_options (lit "db") (mkWorld ∅ []) with
          | (Ok d, σ1) => capacity d = true /\
              match @sys_exec_all plain_os alternating_env (opened d σ1 []) async_events with Some (tr, s) => unflushed tr = 1%nat | None => False end
          | _ => False end) as Hs by (vm_compute; split; reflexivity).
  destruct (@DB_Open plain_os alternating_env async_options (lit "db") (mkWorld ∅ [])) as [[d| |] σ1] eqn:Eo; [|destruct Hs..].
  destruct Hs as [Hc Hs]. destruct (@sys_exec_all plain_os alternating_env (opened d σ1 []) async_events) as [[tr s]|] eqn:E; [|destruct Hs].
  split; [exact Hs|].
  apply (@sys_exec_all_run plain_os alternating_env (opened d σ1 []) [] (opened d σ1 []) async_events) in E; [|constructor|].
  2: { repeat apply Forall_cons_2; try apply Forall_nil_2; vm_compute; try exact I; discriminate. }
  apply (@async_crash_shows_recent_past plain_os alternating_env async_options (lit "db") (mkWorld ∅ []) [] d σ1 tr s (hard_crash (s_world s)));
    [split; cbn; lia|cbn; lia|apply empty_clean|exact Eo|exact Hc|exact E|apply hard_crash_ok|apply hard_crash_cut].
Defined.

Lemma manifest_roundtrip_witness :
  match first_session with
  | Some (_, _, _, s, _, _) =>
      exists v ess st σ', version_ok v ess /\ WriteManifest (s_db s) v (s_world s) = (st, σ') /\ v <> [[]] /\
        (ok st = true -> forall σc, crash_world σ' σc ->
           exists d', @LoadManifest plain_os (DB_new (options_ (s_db s)) (dir_ (s_db s))) σc = (Ok d', σc) /\
             default [[]] (current_ d') = v /\ next_file_number_ d' = next_file_number_ (s_db s)) /\
        (ok st = false -> fs σ' !! ManifestPath (s_db s) = fs (s_world s) !! ManifestPath (s_db s))
  | None => False
  end.
Proof.
  assert (match first_session with Some (_, _, _, s, _, _) => current_ (s_db s) <> Some [[]] | None => False end) as Hv1 by (vm_compute; discriminate).
  destruct first_session as [[[[[[d1 σ1] tr1] s] r1] s1]|] eqn:E1; [|destruct Hv1].
  destruct (session_spec _ _ _ _ _ _ _ _ _ _ first_fits E1) as (Eo & Hc & Hrun & Hf & _).
  destruct (@run_durable plain_os alternating_env sample_options ltac:(cbn; lia) ltac:(cbn; lia) ltac:(cbn; lia)
    (lit "db") _ [] tr1 s (@open_durable plain_os alternating_env sample_options (lit "db") (mkWorld ∅ []) [] d1 σ1 []
      ltac:(reflexivity) (empty_clean _ _) Eo Hc) Hrun Hf) as (since & left & busy & v & R & mes & ess & log & old & Hat & _ & Hdu & _).
  pose proof (sa_db _ _ _ _ _ _ _ _ _ Hat) as Hd. pose proof (sa_next _ _ _ _ _ _ _ _ _ Hat) as Hn.
  pose proof (du_levels _ _ _ _ _ _ _ _ _ _ Hdu) as Hl. pose proof (do_next _ _ _ _ _ Hd) as Hn1.
  destruct (WriteManifest (s_db s) v (s_world s)) as [st σ'] eqn:E. exists v, ess, st, σ'.
  split; [apply Hd|]. split; [exact E|]. split; [intros ->; by apply Hv1, Hd|].
  apply (@manifest_roundtrip plain_os (s_db s) (s_world s) v ess st σ'); try exact E; try apply Hd; try apply Hdu; lia.
Defined.

(** A put and a flush on an empty directory, up to the publication of the table. *)
Definition flush_events : list event := [EvClient (CPut (lit "a") (lit "1")); EvClient CFlush].
Definition flush_session := session (mkWorld ∅ []) [] flush_events EvPublish.

Lemma flush_fits : Forall event_fits flush_events.
Proof. repeat apply Forall_cons_2; try apply Forall_nil_2; vm_compute; [discriminate|exact I]. Qed.

Lemma undo_rename_cut d σ σ' : log_cut (dir_ d) σ' (hard_crash (undo_rename d σ σ')).
Proof.
  intros f f' Hf Hf'. apply (hard_crash_cut (dir_ d) (undo_rename d σ σ') f f'); [|exact Hf'].
  change (wal_path_of (dir_ d)) with (wal_of d) in *. rewrite undo_rename_other; [exact Hf|apply wal_ne_manifest|apply wal_ne_tmp].
Qed.

Lemma unsynced_rename_loses_flush_witness :
  match flush_session with
  | Some (_, _, tr, s, r, s') =>
      let σc := hard_crash (undo_rename (s_db s) (s_world s) (s_world s')) in
      failed r = false /\ history [] (tr ++ [(EvPublish, r)]) = [Entry (lit "a") (lit "1") kValue] /\
      is_Some (fs σc !! FilePath (s_db s) 1) /\
      exists d2 σ2, @DB_Open plain_os alternating_env sample_options (lit "db") σc = (Ok d2, σ2) /\
        (exists d3, DB_Get d2 (lit "a") = Ok ((LookupResult.kNotFound, None), d3)) /\ fs σ2 !! FilePath (s_db s) 1 = None
  | None => False
  end.
Proof.
  assert (match flush_session with
          | Some (_, _, tr, s, r, s') =>
              (failed r = false /\ history [] (tr ++ [(EvPublish, r)]) = [Entry (lit "a") (lit "1") kValue] /\
               is_Some (fs (hard_crash (undo_rename (s_db s) (s_world s) (s_world s'))) !! FilePath (s_db s) 1)) /\
              (dir_ (s_db s) = lit "db" /\ match s_client s with ClPublish fm _ => fm_number fm = 1 | ClIdle => False end) /\
              match fs (s_world s) !! ManifestPath (s_db s) with None => True | Some _ => False end /\
              match fs (s_world s') !! wal_path_of (lit "db") with Some lf => f_data lf = [] | None => False end
          | None => False
          end) as Hs by (vm_compute; repeat split; by eexists).
  destruct flush_session as [[[[[[d σ1] tr] s] r] s']|] eqn:E; [|destruct Hs].
  destruct Hs as ((H1 & H2 & H3) & (Hdir & Hcl) & Hman & Hlog). split; [exact H1|]. split; [exact H2|]. split; [exact H3|].
  destruct (session_spec _ _ _ _ _ _ _ _ _ _ flush_fits E)
    as (Eo & Hc & Hrun & Hf & _ & _ & Ee).
  destruct (s_client s) as [|fm w] eqn:Ecl; [destruct Hcl|]. destruct (fs (s_world s') !! wal_path_of (lit "db")) as [lf|] eqn:Elf; [|destruct Hlog].
  destruct (@unsynced_rename_loses_flush plain_os alternating_env sample_options (lit "db") (mkWorld ∅ []) [] d σ1 [] tr s fm w r s' lf
    (hard_crash (undo_rename (s_db s) (s_world s) (s_world s')))) as (nx & vd & essd & d2 & σ2 & Hst & Eopen & Hget & Hgone);
    [exact sample_usable|cbn; lia|apply empty_clean|exact Eo|exact Hc|exact Hrun|exact Hf|exact Ecl|exact Ee|exact Elf|exact Hlog
    |apply hard_crash_ok|rewrite <- Hdir; apply undo_rename_cut|].
  exists d2, σ2. split; [exact Eopen|]. rewrite Hcl in Hgone. split; [|exact Hgone].
  destruct (ds_manifest _ _ _ _ _ Hst) as [(-> & _ & _)|Hm]; [|rewrite Hm in Hman; destruct Hman].
  pose proof (vo_files _ _ (ds_version _ _ _ _ _ Hst)) as Hv. inversion Hv as [|? ? ? ? Hl Hn]; subst. inversion Hl; subst. inversion Hn; subst.
  exact (Hget (lit "a")).
Defined.
