(* ===== verification/Foreign.v ===== *)
(** Disks that the program did not write: what [DB::Open] and [DB::Get] do with a
    directory whose manifest, log and tables hold arbitrary bytes. The parsers of
    the manifest and of the log check every bound; the reader of tables trusts a
    block once its checksum fits, and computes extents in 64 bits. *)
From S2P Require Import Prelude Types Coding Crc32 Bloom SkipList Cache Posix Wal.
From S2P Require Import TableFormat TableWriter TableReader Damage Version Db DbInvariant Leveling Manifest Recovery.

(** ** Freedom of faults *)

(** A computation that does not run into undefined behaviour and, if it succeeds,
    has a value with the property. *)
Definition yields {A} (Q : A -> Prop) (m : result A) : Prop :=
  match m with Ok a => Q a | Err _ => True | UB => False end.

Lemma yields_bind {A B} (P : A -> Prop) (Q : B -> Prop) (m : result A) (f : A -> result B) :
  yields P m -> (forall a, P a -> m = Ok a -> yields Q (f a)) -> yields Q (rbind m f).
Proof. destruct m; [|done..]. intros Ha Hf. by apply Hf. Qed.

Lemma yields_mono {A} (P Q : A -> Prop) (m : result A) : yields P m -> (forall a, P a -> Q a) -> yields Q m.
Proof. destruct m; cbn; auto. Qed.

Lemma yields_Ok {A} (Q : A -> Prop) (m : result A) a : yields Q m -> m = Ok a -> Q a.
Proof. by intros H ->. Qed.

Lemma yields_slice {A} (m : list A) off n :
  0 <= off -> 0 <= n -> off + n <= blen m -> yields (fun l => slice m off n = Some l /\ blen l = n) (of_option (slice m off n)).
Proof.
  intros. destruct (slice m off n) eqn:E; [|by apply slice_None in E; lia]. cbn. split; [done|]. apply slice_Some in E. lia.
Qed.

Lemma yields_fixed32 m p : 0 <= p -> p + 4 <= blen m -> yields is_u32 (DecodeFixed32 m p).
Proof.
  intros Hp Hm. destruct (DecodeFixed32_total m p Hp Hm) as [v E]. rewrite E. by eapply DecodeFixed32_range.
Qed.

Lemma yields_fixed64 m p : 0 <= p -> p + 8 <= blen m -> yields is_u64 (DecodeFixed64 m p).
Proof.
  intros Hp Hm. unfold DecodeFixed64. eapply yields_bind; [by apply yields_slice|]. intros s [_ Hl] _. cbn.
  pose proof (le_load_range s) as Hr. rewrite Hl in Hr. exact Hr.
Qed.

(** One step into a computation: a bounds-checked read or a test. *)
Ltac yields_step :=
  match goal with
  | |- yields _ (Err _) => exact I
  | |- yields _ (rbind (DecodeFixed32 _ _) _) => eapply yields_bind; [apply yields_fixed32; lia|let H := fresh "H" in intros ? H ?; unfold is_u32 in H]
  | |- yields _ (rbind (DecodeFixed64 _ _) _) => eapply yields_bind; [apply yields_fixed64; lia|let H := fresh "H" in intros ? H ?; unfold is_u64 in H]
  | |- yields _ (rbind (of_option (slice _ _ _)) _) => eapply yields_bind; [apply yields_slice; lia|intros ? [? ?] _]
  | |- yields _ (if ?a <=? ?b then _ else _) => destruct (Z.leb_spec a b)
  | |- yields _ (if ?a <? ?b then _ else _) => destruct (Z.ltb_spec a b)
  end.

(** ** Tables *)

(** The extents that the footer of a mapped file names. *)
Record footer_names (base : bytes) (fo fl io il : Z) : Prop := {
  fn_fo : DecodeFixed64 base (blen base - kFooterSize) = Ok fo;
  fn_fl : DecodeFixed64 base (blen base - kFooterSize + 8) = Ok fl;
  fn_io : DecodeFixed64 base (blen base - kFooterSize + 16) = Ok io;
  fn_il : DecodeFixed64 base (blen base - kFooterSize + 24) = Ok il }.

Definition records (b : bytes) : Prop := exists es, b = block_bytes es /\ Forall rec_fits es.

(** The bytes of a section whose checksum fits. *)
Definition section_reads (base : bytes) (o l : Z) (data : bytes) : Prop :=
  slice base o l = Some data /\ DecodeFixed32 base (o + l) = Ok (Crc32 data).

(** A block of an index entry does not reach over 2^64, and if its checksum fits it
    is a sequence of records. *)
Definition entry_sound (base : bytes) (e : IndexEntry) : Prop :=
  ie_offset e + ie_length e + 4 < 2 ^ 64 /\
  forall b, section_reads base (ie_offset e) (ie_length e) b -> records b.

(** What [Open] and [Get] rely on without a check: no extent wraps, blocks that pass
    their checksum, of an index that passes its own, are records, and the filter's count of bits is not within seven of
    2^32. Nothing is said of order, of overlaps or of what the file is otherwise. *)
Record sound_table (base : bytes) : Prop := {
  so_extents : forall fo fl io il, footer_names base fo fl io il -> io + il + 4 < 2 ^ 64 /\ fo + fl + 4 < 2 ^ 64;
  so_entries : forall fo fl io il data index, footer_names base fo fl io il -> section_reads base io il data ->
    parse_index (S (length data)) data 0 = Ok index -> Forall (entry_sound base) index;
  so_filter : forall fo fl io il data f, footer_names base fo fl io il -> section_reads base fo fl data ->
    BloomFilter_Reset data = Ok f -> num_bits_ f <= 2 ^ 32 - 8;
  so_size : blen base < 2 ^ 63 }.

Definition entry_range (e : IndexEntry) : Prop := is_u64 (ie_offset e) /\ is_u32 (ie_length e).

(** A reader over such a file. *)
Record reader_sound (r : SSTableReader) : Prop := {
  rd_entries : Forall (entry_sound (base_ r)) (r_index_ r);
  rd_ranges : Forall entry_range (r_index_ r);
  rd_filter : forall key, exists b, MayContain (filter_ r) key = Ok b;
  rd_size : blen (base_ r) < 2 ^ 63 }.

Lemma parse_index_yields fuel m p :
  0 <= p <= blen m -> blen m < p + Z.of_nat fuel -> yields (Forall entry_range) (parse_index fuel m p).
Proof.
  revert p. induction fuel as [|fuel IH]; intros p Hp Hf; [lia|]. cbn [parse_index]; cbv zeta.
  repeat yields_step; [|by apply Forall_nil_2].
  eapply yields_bind; [apply IH; lia|]. intros rest Hr _. constructor; [|done]. by split.
Qed.

(** Reading a block: its bounds are checked, and what passes the checksum is a
    sequence of records. *)
Lemma ReadBlock_yields r i e :
  reader_sound r -> r_index_ r !! i = Some e -> yields (fun b => records b /\ blen b < 2 ^ 32) (ReadBlock r i).
Proof.
  intros [He Hr _ Hs] Hi. rewrite Forall_forall in He, Hr. pose proof (list_elem_of_lookup_2 _ _ _ Hi) as Hin.
  destruct (He e Hin) as [Hw Hrec]. destruct (Hr e Hin) as [Ho Hl]. unfold is_u64, is_u32 in *.
  unfold ReadBlock. rewrite Hi. cbn [of_option rbind]. rewrite !u64_small by (rewrite ?u64_small; lia). unfold file_size_.
  repeat yields_step. destruct (Z.eqb_spec (Crc32 a0) a) as [<-|]; [|done]. cbn. split; [by apply Hrec|lia].
Qed.

Lemma filter_reset_yields data : yields (fun f => BloomFilter_Reset data = Ok f) (BloomFilter_Reset data).
Proof.
  assert (yields (fun _ => True) (BloomFilter_Reset data)) as H; [|by destruct (BloomFilter_Reset data)].
  unfold BloomFilter_Reset. repeat yields_step; [done|]. destruct (lookup_lt_is_Some_2 data 4) as [kb Hk]; [unfold blen in *; lia|].
  rewrite Hk. cbn [of_option rbind]. by destruct (_ || _).
Qed.

(** Opening a sound file succeeds with a sound reader or reports an error. *)
Lemma open_sound path base fn : sound_table base -> kFooterSize <= blen base -> yields reader_sound (open_mapped path base fn).
Proof.
  intros [Hx He Hf Hs] Hsz. unfold open_mapped. assert (kFooterSize = 44) as Hk by done. cbv zeta.
  eapply yields_bind; [apply yields_fixed64; lia|]. intros fo Hfo Efo. eapply yields_bind; [apply yields_fixed64; lia|]. intros fl Hfl Efl.
  eapply yields_bind; [apply yields_fixed64; lia|]. intros io Hio Eio. eapply yields_bind; [apply yields_fixed64; lia|]. intros il Hil Eil.
  assert (footer_names base fo fl io il) as Hn by (by split). destruct (Hx _ _ _ _ Hn) as [Hxi Hxf]. unfold is_u64 in *.
  do 2 yields_step. destruct (negb _); [done|]. rewrite !u64_small by (rewrite ?u64_small; lia).
  destruct (Z.ltb_spec (blen base) (io + il + 4)); [done|]. destruct (Z.ltb_spec (blen base) (fo + fl + 4)); [done|]. cbn [orb].
  eapply yields_bind; [apply yields_fixed32; lia|]. intros crc _ Ec. eapply yields_bind; [apply yields_slice; lia|]. intros data [Hd Hdl] _.
  destruct (Z.eqb_spec (Crc32 data) crc) as [<-|]; [|done]. cbn [negb].
  eapply yields_bind; [apply parse_index_yields; unfold blen; lia|]. intros index Hr Ei.
  pose proof (He _ _ _ _ _ _ Hn (conj Hd Ec) Ei) as Hent.
  eapply (yields_bind (fun f => forall key, exists b, MayContain f key = Ok b)).
  { yields_step; [|by intros key; exists true]. eapply yields_bind; [apply yields_fixed32; lia|]. intros fcrc _ Efc.
    eapply yields_bind; [apply yields_slice; lia|]. intros fd [Hfd _] _.
    destruct (Z.eqb_spec (Crc32 fd) fcrc) as [<-|]; [|done]. cbn [negb]. eapply yields_mono; [apply filter_reset_yields|]. intros f Ef key.
    apply (bloom_probe_memory_safe fd); [done|]. by eapply Hf. }
  intros f Hpr _. set (r := mkReader base index f fn _ [] [] true). assert (reader_sound r) as Hrs by (by split).
  destruct index as [|front index]; [done|].
  destruct (lookup_lt_is_Some_2 (front :: index) (length (front :: index) - 1)) as [e Hl]; [cbn; lia|].
  eapply yields_bind; [by apply (ReadBlock_yields r _ e)|]. intros b [(es & -> & Hfit) _] _.
  rewrite (largest_loop_spec es _ []); [|done|pose proof (block_len_ge es); lia]. cbn [rbind yields]. by destruct Hrs.
Qed.

(** The blocks of a written table, damaged or not, are sound. *)
Lemma blocks_sound bs ss tail :
  Forall block_ok bs -> Forall2 (fun b s => near (sealed (block_bytes b)) s) bs ss -> blen (concat ss ++ tail) < 2 ^ 63 ->
  Forall (entry_sound (concat ss ++ tail)) (index_from 0 bs).
Proof.
  intros Hok Hn Hs. apply Forall_lookup_2. intros i e Hi.
  destruct (lookup_lt_is_Some_2 bs i) as [b Hbi]; [rewrite <- (index_from_length 0 bs); by eapply lookup_lt_Some|].
  pose proof (proj1 (Forall_forall _ _) Hok b (list_elem_of_lookup_2 _ _ _ Hbi)) as (_ & Hfit & _).
  apply list_elem_of_split_length in Hbi as (a & z & -> & ->). apply Forall2_app_inv_l in Hn as (sa & st & Ha & Hst & ->).
  apply Forall2_cons_inv_l in Hst as (s & sc & Hs' & _ & ->). destruct (near_sealed _ _ Hs') as (d & c & -> & Hd & Hc & Hdb).
  rewrite index_from_lookup in Hi. injection Hi as <-. cbn [ie_offset ie_length]. rewrite <- (damaged_length _ _ Ha), <- Hd.
  rewrite concat_app in *. cbn [concat] in *. rewrite <- !app_assoc in *. pose proof (blen_nonneg (concat sc)). pose proof (blen_nonneg tail).
  pose proof (blen_nonneg d). pose proof (blen_nonneg (concat sa)).
  assert (blen (concat sa) + blen d + 4 < 2 ^ 63) as Hlt by (autorewrite with lsmlen in Hs; lia).
  rewrite Z.add_0_l, u64_small by lia. split; cbn [ie_offset ie_length]; [lia|]. intros b' [Hsl Hcrc].
  destruct (section_fields _ (concat sa) d c (concat sc ++ tail) (blen (concat sa)) eq_refl eq_refl Hc) as [F1 F2].
  rewrite F2 in Hsl. injection Hsl as <-. rewrite F1 in Hcrc. injection Hcrc as ->. rewrite Hdb by done. by exists b.
Qed.

(** A table that the writer produced is sound, and stays sound when a burst of four
    bytes before the footer is damaged. *)
Lemma near_table_sound bs bpk es body' :
  table_fits bs bpk es -> near (table_body (chunks bs es) (filter_of bpk es)) body' ->
  sound_table (body' ++ table_footer (chunks bs es) (filter_of bpk es)).
Proof.
  intros Hfit Hn. destruct (damaged_sections _ _ _ (tf_size _ _ _ Hfit) Hn) as (ss & fd & xd & fc & xc & Hse).
  destruct (sections_read _ _ _ _ _ _ _ _ Hse) as ((E1 & E2 & E3 & E4 & _) & (F1 & F2) & G1 & G2).
  set (base' := body' ++ _) in *. pose proof (chunks_ok bs es (tf_block _ _ _ Hfit) (tf_recs _ _ _ Hfit)) as Hok.
  assert (forall fo fl io il, footer_names base' fo fl io il ->
    fo = blen (concat ss) /\ fl = blen fd /\ io = blen (concat ss) + blen fd + 4 /\ il = blen xd) as Hnames
    by (intros ???? [N1 N2 N3 N4]; by split_and!; congruence).
  destruct Hse as [Hb Hss _ (_ & _ & Hffit) (_ & Hxfit) Hlen Hsz _]. pose proof (blen_nonneg xd). pose proof (blen_nonneg fd). pose proof (blen_nonneg (concat ss)).
  split; [| | |done].
  - intros fo fl io il (-> & -> & -> & ->)%Hnames. lia.
  - intros fo fl io il data index (-> & -> & -> & ->)%Hnames [Hd Hc] Hi. rewrite F2 in Hd. injection Hd as <-.
    rewrite F1 in Hc. injection Hc as Ec. rewrite (Hxfit (eq_sym Ec)) in Hi.
    pose proof (parse_index_spec (index_from 0 (chunks bs es)) (S (length (index_bytes (index_from 0 (chunks bs es))))) []
      (index_from_fits 0 _ Hok) ltac:(lia)) as Hp.
    cbn [app] in Hp. change (blen (@nil byte)) with 0 in Hp. rewrite Hp in Hi. injection Hi as <-. rewrite Hb. apply blocks_sound; [done..|].
    by rewrite <- Hb.
  - intros fo fl io il data f (-> & -> & -> & ->)%Hnames [Hd Hc] Hf. rewrite G2 in Hd. injection Hd as <-.
    rewrite G1 in Hc. injection Hc as Ec. rewrite (Hffit (eq_sym Ec)) in Hf. pose proof (tf_bloom _ _ _ Hfit) as Hbl.
    rewrite <- (blen_map e_key) in Hbl. unfold filter_of in Hf. rewrite Reset_Finish in Hf by done. injection Hf as <-. cbn [num_bits_].
    destruct (bloom_bytes_range bpk (length (map e_key es)) Hbl) as [? _]. lia.
Qed.

(** ** The manifest *)

(** The fields of a file entry end inside the buffer, 32 bytes on at least. *)
Lemma parse_file_yields buf pos :
  0 <= pos -> yields (fun x => is_u64 x.1.1.1.1.1 /\ pos + 32 <= x.2 <= blen buf) (parse_file buf pos).
Proof. intros Hp. unfold parse_file, need. cbv zeta. repeat yields_step. cbn. split; [done|lia]. Qed.

(** The same for computations that act on the world and leave the files as they
    are. *)
Definition yields_io {A} (Q : A -> Prop) (m : gmap bytes file) (x : result A * World) : Prop := yields Q x.1 /\ fs x.2 = m.

Lemma yields_io_bind {A B} (P : A -> Prop) (Q : B -> Prop) m (x : result A * World) (k : A -> World -> result B * World) :
  yields_io P m x -> (forall a σ, P a -> fs σ = m -> yields_io Q m (k a σ)) -> yields_io Q m (io_bind x k).
Proof. destruct x as [[a|s|] σ]; intros [Ha Hm]; cbn in *; [by auto|done|done]. Qed.

Definition file_sound (f : FileMeta) : Prop := reader_sound (fm_reader f).

(** A level fits the [int] arithmetic of its search. *)
Definition level_sound (l : list FileMeta) : Prop := Forall file_sound l /\ blen l < 2 ^ 29.

(** Every table that a manifest of the directory may name is sound, and the
    manifest is shorter than 16 GiB. *)
Record sound_disk (dir : bytes) (m : gmap bytes file) : Prop := {
  sd_tables : forall n f, is_u64 n -> m !! (dir ++ lit "/" ++ NumberToName n) = Some f -> sound_table (f_data f);
  sd_manifest : forall f, m !! (dir ++ lit "/MANIFEST") = Some f -> blen (f_data f) < 2 ^ 34 }.

Section Open.
Context `{Os} `{MemEnv}.

Lemma open_yields path fn σ :
  (forall f, fs σ !! path = Some f -> sound_table (f_data f)) -> yields_io reader_sound (fs σ) (SSTableReader_Open path fn σ).
Proof.
  intros Hs. unfold SSTableReader_Open, open_rdonly. destruct (next_io σ) as [o1 σ1] eqn:E1. pose proof (next_io_fs _ _ _ E1) as F1.
  rewrite F1. destruct o1 as [|n|e]; [| |done]; (destruct (fs σ !! path) as [f|] eqn:Ef; [|done]);
    destruct (next_io σ1) as [o2 σ2] eqn:E2; pose proof (next_io_fs _ _ _ E2) as F2;
    (destruct o2 as [|n2|e2]; [| |pose proof (close_errno_fs e2 σ2); destruct (close_errno e2 σ2); split; cbn in *; [done|congruence]]);
    (destruct (Z.ltb_spec (blen (f_data f)) kFooterSize); [split; [done|]; cbn; rewrite close_fs; congruence|]);
    destruct (next_io σ2) as [o3 σ3] eqn:E3; pose proof (next_io_fs _ _ _ E3) as F3;
    (destruct o3 as [|n3|e3]; [| |pose proof (close_errno_fs e3 σ3); destruct (close_errno e3 σ3); split; cbn in *; [done|congruence]]);
    (split; cbn [fst snd]; [apply open_sound; [by apply Hs|done]|rewrite close_fs; congruence]).
Qed.

Lemma load_files_yields d m n buf pos mx σ :
  (forall k f, is_u64 k -> m !! FilePath d k = Some f -> sound_table (f_data f)) -> 0 <= pos <= blen buf -> fs σ = m ->
  yields_io (fun x => Forall file_sound x.1.1 /\ pos + 32 * blen x.1.1 <= x.1.2 <= blen buf) m (load_files n d buf pos mx σ).
Proof.
  intros Hm. revert pos mx σ. induction n as [|n IH]; intros pos mx σ Hp Hσ; cbn [load_files].
  { split; [|done]. split; [apply Forall_nil_2|]. cbn [fst snd]. change (blen (@nil FileMeta)) with 0. lia. }
  eapply yields_io_bind; [split; [apply parse_file_yields; lia|done]|]. intros [[[[[number fsz] ne] sk] lk] pos1] σ1 [Hn Hp1] Hσ1. cbn in Hn, Hp1.
  eapply yields_io_bind; [rewrite <- Hσ1; apply open_yields; intros f Hf; rewrite Hσ1 in Hf; by eapply Hm|]. intros r σ2 Hr Hσ2.
  eapply yields_io_bind; [apply IH; [lia|congruence]|]. intros [[files pos2] mx2] σ3 [Hf Hp2] Hσ3. cbn in Hf, Hp2.
  split; [|done]. cbn. rewrite blen_cons. split; [by constructor|lia].
Qed.

Lemma load_levels_yields d m n buf pos mx σ :
  (forall k f, is_u64 k -> m !! FilePath d k = Some f -> sound_table (f_data f)) -> 0 <= pos <= blen buf -> blen buf < 2 ^ 34 -> fs σ = m ->
  yields_io (fun x => Forall level_sound x.1) m (load_levels n d buf pos mx σ).
Proof.
  intros Hm Hp Hb. revert pos mx σ Hp. induction n as [|n IH]; intros pos mx σ Hp Hσ; cbn [load_levels]; [split; [apply Forall_nil_2|done]|].
  unfold need. destruct (Z.leb_spec (pos + 4) (blen buf)); cbn [negb]; [|by split].
  eapply yields_io_bind; [split; [apply yields_fixed32; lia|done]|]. intros nf σ1 Hnf Hσ1.
  eapply yields_io_bind; [apply load_files_yields; [done|lia|done]|]. intros [[files pos1] mx1] σ2 [Hf Hp1] Hσ2. cbn in Hf, Hp1.
  pose proof (blen_nonneg files). eapply yields_io_bind; [apply IH; [lia|done]|]. intros [levels mx2] σ3 Hl Hσ3. split; [|done]. cbn. constructor; [|done]. split; [done|].
  lia.
Qed.

Lemma read_some_length os data acc : blen (read_some os data acc).1 <= blen acc + blen data.
Proof.
  revert data acc. induction os as [|o os IH]; intros data acc; destruct data as [|x data]; cbn [read_some fst].
  1-2: len.
  { len. }
  destruct o as [|[|k]|e]; cbn [fst]; try len. etransitivity; [apply IH|]. rewrite blen_app. rewrite <- (take_drop (S k) (x :: data)) at 3.
  rewrite blen_app. lia.
Qed.

Definition version_sound (v : Version) : Prop := Forall level_sound v.

Lemma LoadManifest_yields d σ :
  sound_disk (dir_ d) (fs σ) -> current_ d = None ->
  yields_io (fun d' => (exists nx, d' = set_next (set_current d (current_ d')) nx) /\
                       match current_ d' with Some v => version_sound v | None => True end) (fs σ) (LoadManifest d σ).
Proof.
  intros [Ht Hmf] Hc. unfold LoadManifest, open_rdonly. destruct (next_io σ) as [o1 σ1] eqn:E1. pose proof (next_io_fs _ _ _ E1) as F1. rewrite F1.
  assert (exists nx, d = set_next (set_current d (current_ d)) nx) as Hd by (exists (next_file_number_ d); by destruct d).
  assert (forall e σ', fs σ' = fs σ -> yields_io (fun d' => (exists nx, d' = set_next (set_current d (current_ d')) nx) /\
      match current_ d' with Some v => version_sound v | None => True end) (fs σ)
    (if e =? ENOENT then (Ok d, σ') else (Err (Status_IOError (lit "open manifest: " ++ strerror e)), σ'))) as Herr.
  { intros e σ' Hσ'. destruct (e =? ENOENT); split; try done. cbn. by rewrite Hc in *. }
  destruct o1 as [|n|e]; [| |by apply Herr]; (destruct (fs σ !! ManifestPath d) as [f|] eqn:Ef; [|by apply Herr]);
    destruct (next_io σ1) as [o2 σ2] eqn:E2; pose proof (next_io_fs _ _ _ E2) as F2;
    (destruct o2 as [|n2|e2]; [| |split; [done|]; cbn; rewrite close_fs; congruence]);
    pose proof (read_some_length (io σ2) (f_data f) []) as Hlen; destruct (read_some (io σ2) (f_data f) []) as [buf os]; cbn [fst] in Hlen;
    rewrite blen_nil in Hlen; specialize (Hmf f Ef).
  all: eapply (yields_io_bind (fun x => version_sound x.1)).
  all: try (intros [v nx] σ3 Hv Hσ3; split; [|done]; cbn; split; [by exists nx|done]).
  all: unfold parse_manifest, need; destruct (Z.leb_spec (0 + 12) (blen buf)); cbn [negb];
    [|split; [done|]; cbn; rewrite close_fs; cbn; congruence].
  all: eapply yields_io_bind; [split; [apply yields_fixed64; lia|cbn; rewrite close_fs; cbn; congruence]|]; intros nf σ3 Hnf Hσ3.
  all: eapply yields_io_bind; [split; [apply yields_fixed32; lia|done]|]; intros nl σ4 Hnl Hσ4.
  all: eapply yields_io_bind; [apply load_levels_yields; [exact Ht|lia|lia|done]|]; intros [levels mx] σ5 Hl Hσ5.
  all: split; [|done]; cbn in *; apply Forall_app; split; [done|]; apply Forall_forall; intros l [-> _]%elem_of_replicate; by split.
Qed.

Lemma WalReplay_yields path σ : yields_io (fun _ => True) (fs σ) (WalReplay path σ).
Proof.
  unfold WalReplay, open_rdonly. destruct (next_io σ) as [o1 σ1] eqn:E1. pose proof (next_io_fs _ _ _ E1) as F1. rewrite F1.
  assert (forall e, yields_io (fun _ : list entry => True) (fs σ)
    (if e =? ENOENT then (Ok [], σ1) else (Err (Status_IOError (lit "open " ++ path ++ lit ": " ++ strerror e)), σ1))) as Herr
    by (intros e; by destruct (e =? ENOENT)).
  destruct o1 as [|n|e]; [| |by apply Herr]; (destruct (fs σ !! path) as [f|]; [|by apply Herr]);
    destruct (next_io σ1) as [o2 σ2] eqn:E2; pose proof (next_io_fs _ _ _ E2) as F2;
    (destruct o2 as [|n2|e2]; [| |pose proof (close_errno_fs e2 σ2); destruct (close_errno e2 σ2); split; cbn in *; [done|congruence]]);
    destruct (read_loop (io σ2) (f_data f) []) as [[[e3|] buf] os].
  1, 3, 5, 7: pose proof (close_errno_fs e3 (mkWorld (fs σ2) os)); destruct (close_errno e3 _); split; cbn in *; [done|congruence].
  all: destruct (replay_buffer_total buf) as [es Hes]; rewrite Hes; split; [done|]; cbn; rewrite close_fs; cbn; congruence.
Qed.

(** ** What [DB::Open] leaves *)

(** The state from which lookups cannot fault: tables in any order and of any
    content, as long as each is sound. *)
Record db_sound (d : DB) : Prop := {
  ds_version : match current_ d with Some v => version_sound v | None => True end;
  ds_mem : exists mes, sl_contents (mem_ d) mes;
  ds_cache : cache_true (fun _ b => records b) (block_cache_ d) }.

Lemma open_yields_sound o dir σ :
  block_cache_bytes o < 2 ^ 63 -> sound_disk dir (fs σ) -> yields db_sound (DB_Open o dir σ).1.
Proof.
  intros Hc Hd. unfold DB_Open.
  assert (forall σ1, fs σ1 = fs σ -> yields db_sound (Recover (DB_new o dir) σ1).1) as Hrec.
  { intros σ1 H1. rewrite <- H1 in Hd. unfold Recover.
    pose proof (LoadManifest_yields (DB_new o dir) σ1 Hd eq_refl) as [Hl Hf]. 
    destruct (LoadManifest (DB_new o dir) σ1) as [[d|s|] σ2]; cbn in Hl, Hf; [|done..]. cbn [io_bind].
    destruct Hl as [[nx Ed] Hv]. set (v := match current_ d with Some v => v | None => [[]] end).
    assert (version_sound v) as Hvs. { unfold v. destruct (current_ d); [done|]. by repeat constructor. }
    change (dir_ (set_current d (Some v))) with (dir_ d). change (mem_ (set_current d (Some v))) with (mem_ d).
    pose proof (WalReplay_yields (wal_path_of (dir_ d)) σ2) as [Hw _].
    destruct (WalReplay (wal_path_of (dir_ d)) σ2) as [[records0|s|] σ3]; cbn in Hw; [|done..]. cbn [io_bind].
    assert (mem_ d = SkipList_new) as Hm by (by rewrite Ed).
    destruct (run_ops_contents records0 (mem_ d) []) as (mem & Er & Hmem); [rewrite Hm; apply new_contents|].
    rewrite Er. cbn [io_bind]. change (dir_ (set_mem (set_current d (Some v)) mem)) with (dir_ d).
    destruct (WalWriter_Open (wal_path_of (dir_ d)) σ3) as [[s w] σ4]. destruct (negb (ok s)); [done|]. cbn.
    split; cbn; [done|by eexists|]. rewrite Ed. cbn. destruct (Z.ltb_spec 0 (block_cache_bytes o)); [|done].
    apply cache_inv_new. lia. }
  unfold sys. destruct (next_io σ) as [out σ1] eqn:E1. pose proof (next_io_fs _ _ _ E1) as F1.
  destruct out as [|n|e]; [by apply Hrec..|]. destruct (negb (e =? EEXIST)); [done|by apply Hrec].
Qed.

End Open.

(** ** Lookups *)

(** The scan of a block of records in any order ends. *)
Lemma scan_ends es fuel pre key :
  Forall rec_fits es -> (length es < fuel)%nat -> exists x, get_scan fuel (pre ++ block_bytes es) (blen pre) key = Ok x.
Proof.
  intros He. revert fuel pre. induction He as [|e es He Hes IH]; intros [|fuel] pre Hf; try (simpl in Hf; lia); cbn [get_scan].
  { unfold block_bytes. simpl. rewrite app_nil_r. destruct (Z.ltb_spec (blen pre) (blen pre)); [lia|by eexists]. }
  rewrite block_bytes_cons. destruct (record_at_mid pre e (block_bytes es) _ He eq_refl) as [Ht Hk Hv Hks Hvs Hin].
  rewrite (proj2 (Z.ltb_lt _ _) Hin), Ht. cbn [of_option rbind]. rewrite Hk. cbn [rbind]. rewrite Hv. cbn [rbind].
  rewrite Hks. cbn [of_option rbind]. destruct (str_compare key (e_key e)); [|by eexists|].
  - destruct (is_tombstone_type (e_type e)); [by eexists|]. rewrite Hvs. cbn [of_option rbind]. by eexists.
  - rewrite app_assoc.
    replace (blen pre + 1 + 4 + 4 + blen (e_key e) + blen (e_value e)) with (blen (pre ++ record_bytes e)) by len.
    apply IH. simpl in Hf. lia.
Qed.

(** The binary searches end and stay inside their vectors, sorted or not. *)
Lemma upper_bound_ends fuel idx key first len :
  (len < fuel)%nat -> (first + len <= length idx)%nat -> exists it, upper_bound fuel idx key first len = Ok it /\ (it <= length idx)%nat.
Proof.
  revert first len. induction fuel as [|fuel IH]; intros first len Hf Hl; [lia|]. cbn [upper_bound].
  destruct (Nat.ltb_spec 0 len); [|exists first; split; [done|lia]].
  pose proof (Nat.div_lt len 2 ltac:(lia) ltac:(lia)) as Hh.
  destruct (lookup_lt_is_Some_2 idx (first + len / 2)) as [e ->]; [lia|]. cbn [of_option rbind]. destruct (str_ltb _ _); apply IH; lia.
Qed.

Lemma bin_search_ends fuel ks t lo hi :
  0 <= lo -> Z.max 0 (hi - lo) < Z.of_nat fuel -> hi <= blen ks -> blen ks < 2 ^ 30 ->
  exists i, bin_search fuel ks t lo hi = Ok i /\ lo <= i <= Z.max lo hi.
Proof.
  revert lo hi. induction fuel as [|fuel IH]; intros lo hi Hlo Hf Hhi Hk.
  - lia.
  - cbn [bin_search]. destruct (Z.ltb_spec lo hi); [|exists lo; split; [done|lia]]. rewrite int32_small by lia. cbn [rbind].
    rewrite Z.quot_div_nonneg by lia. pose proof (Z.div_mod (lo + hi) 2 ltac:(lia)). pose proof (Z.mod_pos_bound (lo + hi) 2 ltac:(lia)).
    destruct (at_index_lt ks ((lo + hi) / 2)) as (k & -> & _); [lia|]. cbn [rbind]. destruct (str_leb _ _).
    + destruct (IH ((lo + hi) / 2 + 1) hi) as (i & -> & Hi); [lia..|]. exists i. split; [done|lia].
    + destruct (IH lo ((lo + hi) / 2)) as (i & -> & Hi); [lia..|]. exists i. split; [done|lia].
Qed.

Abbreviation holds_records := (fun (_ : CacheKey) (b : bytes) => records b).

Lemma GetBlock_ends r i e cache n :
  reader_sound r -> r_index_ r !! i = Some e -> cache_true holds_records cache ->
  exists x rs, GetBlock r i (mkReadState cache n) = Ok (x, rs) /\ cache_true holds_records (rs_cache rs) /\
    match x with inr b => records b | inl _ => True end.
Proof.
  intros Hr Hi Hc. unfold GetBlock. rewrite Hi. cbn [of_option rbind rs_cache]. pose proof (ReadBlock_yields r i e Hr Hi) as Hb.
  destruct cache as [c|]; cbn [rbind].
  - destruct (cache_lookup_inv holds_records c (file_number_ r) (ie_offset e) Hc) as ([b|] & c' & -> & Hc' & Hx); cbn [rbind].
    { by eexists _, _. }
    destruct (ReadBlock r i) as [b|s|]; [|by eexists _, _|done]. destruct Hb as [Hrec Hlen]. cbn [count_block rs_cache].
    destruct (cache_insert_inv holds_records c' _ _ b Hc' Hlen Hrec Hx) as (c2 & -> & Hc2). cbn [rbind]. by eexists _, _.
  - destruct (ReadBlock r i) as [b|s|]; [|by eexists _, _|done]. destruct Hb as [Hrec _]. by eexists _, _.
Qed.

Lemma table_get_ends r key cache :
  reader_sound r -> cache_true holds_records cache ->
  exists x st rs, SSTableReader_Get r key (mkReadState cache 0) = Ok (x, st, rs) /\ cache_true holds_records (rs_cache rs).
Proof.
  intros Hr Hc. unfold SSTableReader_Get. destruct (r_index_ r) as [|e0 idx] eqn:Ei; [by eexists _, _, _|]. rewrite <- Ei.
  assert (exists may, (if filter_enabled_ r && valid (filter_ r) then MayContain (filter_ r) key else Ok true) = Ok may) as [may ->].
  { destruct (_ && _); [apply (rd_filter r Hr)|by eexists]. }
  cbn [rbind]. destruct (negb may); [by eexists _, _, _|].
  destruct (upper_bound_ends (S (length (r_index_ r))) (r_index_ r) key 0 (length (r_index_ r))) as (it & -> & Hit); [lia..|]. cbn [rbind].
  destruct (Nat.eqb_spec it 0); [by eexists _, _, _|]. destruct (lookup_lt_is_Some_2 (r_index_ r) (it - 1)) as [e He]; [lia|].
  destruct (GetBlock_ends r (it - 1) e cache 0 Hr He Hc) as (x & rs & -> & Hc' & Hx). cbn [rbind].
  destruct x as [s|b]; [by eexists _, _, _|]. destruct Hx as (es & -> & Hf).
  destruct (scan_ends es (S (length (block_bytes es))) [] key Hf) as [y Hy]; [pose proof (block_len_ge es); lia|].
  change ([] ++ block_bytes es) with (block_bytes es) in Hy. change (blen (@nil byte)) with 0 in Hy. rewrite Hy. cbn [rbind]. by eexists _, _, _.
Qed.

Lemma l0_ends files key cache :
  Forall file_sound files -> cache_true holds_records cache ->
  exists x c, get_l0 files key cache = Ok (x, c) /\ cache_true holds_records c.
Proof.
  intros Hf. revert cache. induction Hf as [|f files Hf _ IH]; intros cache Hc; cbn [get_l0]; [by eexists _, _|].
  destruct (_ || _); [by apply IH|]. destruct (table_get_ends _ key cache Hf Hc) as ([lr v] & st & rs & -> & Hc'). cbn [rbind fst].
  destruct lr; [by eexists _, _..|]. by apply IH.
Qed.

Lemma levels_end levels key cache :
  Forall level_sound levels -> cache_true holds_records cache ->
  exists x c, get_levels levels key cache = Ok (x, c) /\ cache_true holds_records c.
Proof.
  intros Hl. revert cache. induction Hl as [|l levels [Hf Hn] _ IH]; intros cache Hc; cbn [get_levels]; [by eexists _, _|].
  destruct l as [|f0 fs]; [by apply IH|]. set (l := f0 :: fs) in *. rewrite to_int_small by (pose proof (blen_nonneg l); lia).
  destruct (bin_search_ends (S (length l)) (map fm_smallest l) key 0 (blen l)) as (i & -> & Hi);
    [lia|unfold blen; lia|by rewrite blen_map|rewrite blen_map; lia|]. cbn [rbind]. pose proof (blen_nonneg l).
  assert (int32 (i - 1) = Ok (i - 1)) as -> by (unfold int32; zbool; done). cbn [rbind].
  destruct (Z.ltb_spec (i - 1) 0); [by apply IH|]. destruct (at_index_lt l (i - 1)) as (f & -> & Hin); [lia|]. cbn [rbind].
  destruct (str_ltb _ _); [by apply IH|]. rewrite Forall_forall in Hf.
  destruct (table_get_ends (fm_reader f) key cache) as ([lr v] & st & rs & -> & Hc');
    [by eapply Hf, list_elem_of_lookup_2|done|]. cbn [rbind fst]. destruct lr; [by eexists _, _..|]. by apply IH.
Qed.

Lemma get_ends `{MemEnv} d key : db_sound d -> exists a d', DB_Get d key = Ok (a, d') /\ db_sound d'.
Proof.
  intros [Hv [mes Hm] Hc]. unfold DB_Get. rewrite (sl_get_contents _ _ key Hm). cbn [rbind].
  destruct (lookup_of (assoc mes key)) as [lr v]. cbn [fst].
  assert (exists a c, GetFromVersion (current_ d) key (block_cache_ d) = Ok (a, c) /\ cache_true holds_records c) as (a & c & E & Hc').
  { unfold GetFromVersion. destruct (current_ d) as [[|l0 deeper]|]; [by eexists _, _| |by eexists _, _].
    apply Forall_cons in Hv as [[Hl0 _] Hdeep].
    destruct (l0_ends (rev l0) key (block_cache_ d)) as ([lr0 v0] & c0 & -> & Hc0); [by apply Forall_rev|done|]. cbn [rbind fst].
    destruct lr0; [by eexists _, _..|]. by apply levels_end. }
  destruct lr; [by eexists _, _; split; [|by split; [..|eexists|]]..|]. rewrite E. cbn [rbind]. eexists _, _. split; [done|].
  split; [done|by eexists|done].
Qed.

(** Lookups one after the other. *)
Fixpoint get_all `{MemEnv} (d : DB) (keys : list bytes) : result (list (LookupResult.t * option bytes)) :=
  match keys with
  | [] => Ok []
  | key :: keys' =>
      let* (a, d) := DB_Get d key in
      let* rest := get_all d keys' in
      Ok (a :: rest)
  end.

Lemma get_all_ends `{MemEnv} d keys : db_sound d -> exists answers, get_all d keys = Ok answers /\ length answers = length keys.
Proof.
  revert d. induction keys as [|k keys IH]; intros d Hd; cbn [get_all]; [by exists []|].
  destruct (get_ends d k Hd) as (a & d' & -> & Hd'). cbn [rbind]. destruct (IH d' Hd') as (l & -> & Hl). cbn [rbind].
  exists (a :: l). split; [done|]. cbn. by rewrite Hl.
Qed.

(** ** Properties *)

(** C17 (safety). A directory that the program did not write as it is cannot make it
    fault. Let the manifest (below 16 GiB) and the log hold arbitrary bytes, and let
    every table that a manifest could name be sound: for instance, one that a writer
    produced, with a burst of four bytes damaged anywhere before its footer. Then,
    whatever the system calls do, opening the database reports an error or
    succeeds, and if it succeeds every sequence of lookups returns an answer for
    each key: no read outside a buffer, no signed overflow and no endless loop, also
    where the manifest names tables twice, in the wrong level or out of order. *)
Theorem foreign_disk_never_faults `{Os} `{MemEnv} o dir σ keys :
  block_cache_bytes o < 2 ^ 63 -> sound_disk dir (fs σ) ->
  (exists s, (DB_Open o dir σ).1 = Err s) \/
  exists d answers, (DB_Open o dir σ).1 = Ok d /\ get_all d keys = Ok answers /\ length answers = length keys.
Proof.
  intros Hc Hd. pose proof (open_yields_sound o dir σ Hc Hd) as Hy. destruct (DB_Open o dir σ).1 as [d|s|]; cbn in Hy.
  - right. destruct (get_all_ends d keys Hy) as (l & ? & ?). by exists d, l.
  - left. by exists s.
  - done.
Qed.

(** A directory for which nobody vouches: a manifest that lists one table twice in
    level 0 and once more in level 1, under keys that are not its own, and ends in
    stray bytes; the table, with its first record overwritten; and text for a
    log. *)
Definition foreign_table : bytes :=
  let body := table_body (chunks 20 sample_records) (filter_of 10 sample_records) in
  (take 8 body ++ lit "cow" ++ drop 11 body) ++ table_footer (chunks 20 sample_records) (filter_of 10 sample_records).
Definition foreign_entry : bytes := fixed64 1 ++ fixed64 7 ++ fixed64 0 ++ prefixed (lit "a") ++ prefixed (lit "zoo").
Definition foreign_manifest : bytes :=
  fixed64 0 ++ fixed32 2 ++ fixed32 2 ++ foreign_entry ++ foreign_entry ++ fixed32 1 ++ foreign_entry ++ lit "stray".
Definition foreign_fs : gmap bytes file :=
  {[ lit "db/MANIFEST" := mkFile foreign_manifest 0; lit "db/000001.sst" := mkFile foreign_table 0;
     lit "db/wal.log" := mkFile (lit "this is not a log") 0 ]}.

Lemma foreign_fs_sound : sound_disk (lit "db") foreign_fs.
Proof.
  set (d := fresh Options_default (lit "db")). split.
  - intros n f Hn Hf. change (lit "db" ++ _) with (FilePath d n) in Hf. unfold foreign_fs in Hf.
    apply lookup_insert_Some in Hf as [[E _]|[_ Hf]]; [exfalso; by apply (file_ne_manifest d n)|].
    apply lookup_insert_Some in Hf as [[_ <-]|[_ Hf]].
    + cbn [f_data]. apply near_table_sound; [exact sample_fits|]. apply (near_cut _ (lit "cow") 8); vm_compute; lia.
    + apply lookup_singleton_Some in Hf as [E _]. exfalso. by apply (file_ne_wal d n).
  - intros f Hf. vm_compute in Hf. injection Hf as <-. vm_compute. reflexivity.
Qed.

Lemma foreign_disk_never_faults_witness :
  let opened := (@DB_Open plain_os alternating_env Options_default (lit "db") (mkWorld foreign_fs [IoOk; IoShort 3])).1 in
  let keys := [lit "ant"; lit "cat"; lit "zoo"] in
  ((exists s, opened = Err s) \/
   exists d answers, opened = Ok d /\ @get_all alternating_env d keys = Ok answers /\ length answers = 3%nat) /\
  (let* d := opened in @get_all alternating_env d keys)
  = Ok [(LookupResult.kNotFound, None); (LookupResult.kFound, Some (lit "22")); (LookupResult.kNotFound, None)].
Proof.
  intros opened keys. split; [|vm_compute; reflexivity].
  apply (@foreign_disk_never_faults plain_os alternating_env Options_default (lit "db") (mkWorld foreign_fs [IoOk; IoShort 3]) keys).
  - vm_compute. reflexivity.
  - exact foreign_fs_sound.
Defined.
