(* ===== verification/DriverKeys.v ===== *)
(** The keys and values of the measurement drivers (bench/): integers formatted
    with [snprintf] into a character array, and values padded to a fixed size. A
    zero-padded key of fixed width orders like its integer, which is what the
    drivers rely on when they lay out their keys. *)
From S2P Require Import Prelude Types TableFormat Version.

(** ** Formatting *)

(** The conversion [%0<width>d] of an [int]; ten digits hold every [int]. *)
Definition format_d (width : nat) (n : Z) : bytes :=
  let sign := if n <? 0 then lit "-" else [] in
  let digits := decimal 10 (Z.abs n) [] in
  sign ++ replicate (width - length sign - length digits) Byte.x30 ++ digits.

(** [snprintf(b, size, ...)] of a text without zero bytes, then [std::string(b)]:
    at most [size - 1] characters are stored before the terminator. *)
Definition snprintf (size : nat) (text : bytes) : bytes := take (size - 1) text.

(** [s.resize(n, c)]. *)
Definition resize (s : bytes) (n : nat) (c : byte) : bytes := take n s ++ replicate (n - length s) c.

(** [PresentKey] and [MissingKey] of bench_bloom.cpp: even and odd integers. *)
Definition PresentKey (n : Z) : result bytes :=
  let* m := int32 (2 * n) in Ok (snprintf 24 (lit "key-" ++ format_d 12 m)).

Definition MissingKey (n : Z) : result bytes :=
  let* m := int32 (2 * n) in
  let* m := int32 (m + 1) in
  Ok (snprintf 24 (lit "key-" ++ format_d 12 m)).

(** [KeyOf] and [ValueOf] of bench_compaction.cpp, [KeyOf] and [MakeValue] of
    bench_vs_rocksdb.cpp. [std::to_string] prints like [%d]. *)
Definition KeyOf (n : Z) : bytes := snprintf 24 (lit "key" ++ format_d 9 n).
Definition ValueOf (n : Z) : bytes := resize (format_d 0 n ++ lit "-") 200 Byte.x78.

Definition kValueSize : nat := 100.
Definition VsKeyOf (n : Z) : bytes := snprintf 16 (lit "key" ++ format_d 10 n).
Definition MakeValue (n : Z) : bytes := resize (format_d 0 n ++ lit "#") kValueSize Byte.x76.

(** ** Fixed-width digits *)

Definition digit (n : Z) : byte := byte_of (48 + n mod 10).

(** The [w] low decimal digits of an integer. *)
Fixpoint fixed (w : nat) (n : Z) : bytes :=
  match w with O => [] | S w' => fixed w' (n / 10) ++ [digit n] end.

Lemma fixed_length w n : length (fixed w n) = w.
Proof. revert n. induction w as [|w IH]; intros n; [done|]. cbn [fixed]. rewrite length_app, IH. simpl. lia. Qed.

Lemma fixed_zero w : fixed w 0 = replicate w Byte.x30.
Proof.
  induction w as [|w IH]; [done|]. cbn [fixed]. change (0 / 10) with 0. rewrite IH.
  change [digit 0] with (replicate 1 Byte.x30). rewrite <- replicate_add. f_equal. lia.
Qed.

Lemma decimal_app fuel n acc : decimal fuel n acc = decimal fuel n [] ++ acc.
Proof.
  revert n acc. induction fuel as [|fuel IH]; intros n acc; [done|]. cbn [decimal].
  destruct (n <? 10); [done|]. rewrite IH, (IH _ [_]), <- app_assoc. done.
Qed.

Lemma pow10_S w : 10 ^ Z.of_nat (S w) = 10 * 10 ^ Z.of_nat w.
Proof. rewrite Nat2Z.inj_succ, Z.pow_succ_r by lia. done. Qed.

(** Zero padding fills up to the fixed width. *)
Lemma decimal_fixed fuel w n :
  (0 < fuel)%nat -> 0 <= n < 10 ^ Z.of_nat fuel -> n < 10 ^ Z.of_nat w -> (0 < w)%nat ->
  (length (decimal fuel n []) <= w)%nat /\
  replicate (w - length (decimal fuel n [])) Byte.x30 ++ decimal fuel n [] = fixed w n.
Proof.
  revert w n. induction fuel as [|fuel IH]; intros w n Hf Hn Hw Hpos; [lia|]. destruct w as [|w]; [lia|].
  cbn [decimal fixed]. fold (digit n). rewrite pow10_S in *. destruct (Z.ltb_spec n 10).
  - cbn [length]. split; [lia|]. rewrite Z.div_small by lia. rewrite fixed_zero. repeat f_equal. lia.
  - rewrite decimal_app. assert (0 <= n / 10) by (apply Z.div_pos; lia).
    assert (n / 10 < 10 ^ Z.of_nat fuel) by (apply Z.div_lt_upper_bound; lia).
    assert (n / 10 < 10 ^ Z.of_nat w) by (apply Z.div_lt_upper_bound; lia).
    assert (1 <= n / 10) by (apply Z.div_le_lower_bound; lia).
    destruct fuel as [|fuel]; [simpl in *; lia|]. destruct w as [|w]; [simpl in *; lia|].
    destruct (IH (S w) (n / 10)) as [Hl E]; [lia..|].
    rewrite length_app. cbn [length]. split; [lia|]. rewrite <- E, <- app_assoc.
    do 2 f_equal. lia.
Qed.

Lemma format_fixed w n : (0 < w)%nat -> 0 <= n < 2 ^ 31 -> n < 10 ^ Z.of_nat w -> format_d w n = fixed w n.
Proof.
  intros Hw Hn Hlt. unfold format_d. zbool. rewrite Z.abs_eq by lia. cbn [app length]. rewrite Nat.sub_0_r.
  apply (decimal_fixed 10 w n); lia.
Qed.

Lemma str_compare_snoc a b x y :
  length a = length b ->
  str_compare (a ++ [x]) (b ++ [y]) = match str_compare a b with Eq => byte_val x ?= byte_val y | c => c end.
Proof.
  revert b. induction a as [|c a IH]; intros [|d b] Hl; try done; cbn [app str_compare].
  - by destruct (byte_val x ?= byte_val y).
  - injection Hl as Hl. destruct (byte_val c ?= byte_val d); [by apply IH|done..].
Qed.

(** Strings of digits of the same width compare like their integers. *)
Lemma fixed_compare w a b :
  0 <= a < 10 ^ Z.of_nat w -> 0 <= b < 10 ^ Z.of_nat w -> str_compare (fixed w a) (fixed w b) = (a ?= b).
Proof.
  revert a b. induction w as [|w IH]; intros a b Ha Hb.
  { simpl in *. assert (a = 0) as -> by lia. assert (b = 0) as -> by lia. done. }
  rewrite pow10_S in *. cbn [fixed]. rewrite str_compare_snoc by (by rewrite !fixed_length).
  rewrite IH by (split; [apply Z.div_pos|apply Z.div_lt_upper_bound]; lia).
  unfold digit. rewrite !digit_of_mod.
  pose proof (Z.div_mod a 10 ltac:(lia)). pose proof (Z.div_mod b 10 ltac:(lia)).
  pose proof (Z.mod_pos_bound a 10 eq_refl). pose proof (Z.mod_pos_bound b 10 eq_refl).
  destruct (Z.compare_spec (a / 10) (b / 10)); destruct (Z.compare_spec a b);
    try destruct (Z.compare_spec (48 + a mod 10) (48 + b mod 10)); try done; lia.
Qed.

Lemma str_compare_prefix p a b : str_compare (p ++ a) (p ++ b) = str_compare a b.
Proof. induction p as [|c p IH]; [done|]. cbn [app str_compare]. by rewrite Z.compare_refl. Qed.

(** ** The keys of the filter's driver *)

(** Both kinds of key: the text of an integer of twelve digits. *)
Definition bloom_key (m : Z) : bytes := lit "key-" ++ fixed 12 m.

Lemma bloom_key_compare a b : 0 <= a < 2 ^ 31 -> 0 <= b < 2 ^ 31 -> str_compare (bloom_key a) (bloom_key b) = (a ?= b).
Proof. intros Ha Hb. unfold bloom_key. rewrite str_compare_prefix. apply fixed_compare; lia. Qed.

Lemma blen_bloom_key m : blen (bloom_key m) = 16.
Proof. unfold bloom_key, blen. rewrite length_app, fixed_length. done. Qed.

Lemma snprintf_fits size text : (length text < size)%nat -> snprintf size text = text.
Proof. intros. unfold snprintf. apply take_ge. lia. Qed.

Lemma bloom_text m : 0 <= m < 2 ^ 31 -> snprintf 24 (lit "key-" ++ format_d 12 m) = bloom_key m.
Proof.
  intros Hm. rewrite format_fixed; [|lia|lia|change (10 ^ Z.of_nat 12) with 1000000000000; lia]. apply snprintf_fits.
  pose proof (blen_bloom_key m) as Hl. unfold blen in Hl. lia.
Qed.

Lemma PresentKey_ok n : 0 <= n < 2 ^ 30 -> PresentKey n = Ok (bloom_key (2 * n)).
Proof.
  intros. unfold PresentKey. rewrite int32_small by lia. cbn [rbind]. by rewrite bloom_text by lia.
Qed.

Lemma MissingKey_ok n : 0 <= n < 2 ^ 30 -> MissingKey n = Ok (bloom_key (2 * n + 1)).
Proof.
  intros. unfold MissingKey. rewrite (int32_small (2 * n)) by lia. cbn [rbind].
  rewrite int32_small by lia. cbn [rbind]. by rewrite bloom_text by lia.
Qed.

(** ** The keys of the load drivers *)

Lemma resize_length t n c : length (resize t n c) = n.
Proof. unfold resize. rewrite length_app, length_take, length_replicate. lia. Qed.

(** A key of a prefix and [w] digits that fits its array. *)
Lemma prefixed_key size prefix w n :
  (0 < w)%nat -> (length prefix + w < size)%nat -> 0 <= n < 2 ^ 31 -> n < 10 ^ Z.of_nat w ->
  snprintf size (prefix ++ format_d w n) = prefix ++ fixed w n.
Proof.
  intros Hw Hs Hn Hlt. rewrite format_fixed by done. apply snprintf_fits. rewrite length_app, fixed_length. lia.
Qed.

Lemma fixed_inj prefix w a b :
  0 <= a < 10 ^ Z.of_nat w -> 0 <= b < 10 ^ Z.of_nat w -> prefix ++ fixed w a = prefix ++ fixed w b -> a = b.
Proof.
  intros Ha Hb E%app_inv_head. pose proof (fixed_compare w a b Ha Hb) as Hc. rewrite E, str_compare_refl in Hc. symmetry in Hc.
  by apply Z.compare_eq_iff.
Qed.

Lemma KeyOf_inj a b : 0 <= a < 10 ^ 9 -> 0 <= b < 10 ^ 9 -> KeyOf a = KeyOf b -> a = b.
Proof.
  intros Ha Hb. unfold KeyOf. rewrite !prefixed_key by (cbn; lia). by apply (fixed_inj (lit "key") 9).
Qed.

Lemma VsKeyOf_inj a b : 0 <= a < 2 ^ 31 -> 0 <= b < 2 ^ 31 -> VsKeyOf a = VsKeyOf b -> a = b.
Proof.
  intros Ha Hb. assert (forall n, n < 2 ^ 31 -> n < 10 ^ Z.of_nat 10) as Hp by (cbn; lia).
  unfold VsKeyOf. rewrite !prefixed_key by (cbn; lia || by apply Hp). apply (fixed_inj (lit "key") 10); split; try apply Hp; lia.
Qed.
