(* ===== verification/DriverBloom.v ===== *)
(** The measurement driver of the bloom filter (bench/bench_bloom.cpp): it builds a
    table of even keys, looks up odd keys with the filter bypassed and with the
    filter on, and reports the data blocks that were read. The numbers that
    the program prints are computed from the counts modelled here; its clocks
    are not modelled. *)
From S2P Require Import Prelude Types Bloom Cache Posix TableFormat TableWriter TableReader.
From S2P Require Import DbInvariant Merging Faultless DriverKeys.

(** What the passes count. *)
Record BloomReport := mkBloomReport { found_a : Z; blocks_a : Z; found_b : Z; blocks_b : Z }.

(** The constants of [main]. *)
Record BloomSetup := mkBloomSetup {
  kNumKeys : nat; kNumLookups : nat; kBitsPerKey : Z; kBlockSize : Z; bb_path : bytes }.

Definition bloom_setup : BloomSetup :=
  mkBloomSetup (Z.to_nat 1000000) (Z.to_nat 1000000) 10 4096 (lit "/tmp/lsmdb_bench_bloom.sst").

Section Driver.
Context `{Os}.

(** [for (int i = ...; ...) s = w.Add(PresentKey(i), "v", kValue)] for [n] more
    keys from [i] on; stop at the first failure. *)
Fixpoint add_present (n : nat) (i : Z) (w : SSTableWriter) (σ : World)
  : result (Status * SSTableWriter * World) :=
  match n with
  | O => Ok (Status_OK, w, σ)
  | S n' =>
      let* k := PresentKey i in
      let '(s, w, σ) := SSTableWriter_Add w k (lit "v") kValue σ in
      if negb (ok s) then Ok (s, w, σ) else add_present n' (i + 1) w σ
  end.

(** The build block: a failed call prints its status and ends the program, the
    writer's destructor runs on the way out. *)
Definition build_table (p : BloomSetup) (σ : World) : result unit * World :=
  let w := SSTableWriter_new (bb_path p) (kBlockSize p) (kBitsPerKey p) in
  let '(s, w, σ) := SSTableWriter_Open w σ in
  if negb (ok s) then (Err s, SSTableWriter_destroy w σ)
  else
    match add_present (kNumKeys p) 0 w σ with
    | UB => (UB, σ)
    | Err s => (Err s, σ)
    | Ok (s, w, σ) =>
        if negb (ok s) then (Err s, SSTableWriter_destroy w σ)
        else
          let '(s, w, σ) := SSTableWriter_Finish w σ in
          if negb (ok s) then (Err s, SSTableWriter_destroy w σ)
          else (Ok tt, SSTableWriter_destroy w σ)
    end.

(** One pass: [n] lookups of missing keys from [i] on, with the count of keys
    found. *)
Fixpoint lookup_missing (r : SSTableReader) (n : nat) (i : Z) (found : Z) (rs : ReadState)
  : result (Z * ReadState) :=
  match n with
  | O => Ok (found, rs)
  | S n' =>
      let* k := MissingKey i in
      let* (a, _, rs) := SSTableReader_Get r k rs in
      let found := match a.1 with LookupResult.kFound => found + 1 | _ => found end in
      lookup_missing r n' (i + 1) found rs
  end.

(** The warm-up, the pass without the filter and the pass with it. *)
Definition measure (p : BloomSetup) (r : SSTableReader) (rs : ReadState) : result BloomReport :=
  let* (_, rs) := lookup_missing r (kNumLookups p) 0 0 rs in
  let r := SetFilterEnabled r false in
  let rs := Reader_ResetStats rs in
  let* (found_a, rs) := lookup_missing r (kNumLookups p) 0 0 rs in
  let blocks_a := blocks_read_ rs in
  let r := SetFilterEnabled r true in
  let rs := Reader_ResetStats rs in
  let* (found_b, rs) := lookup_missing r (kNumLookups p) 0 0 rs in
  Ok (mkBloomReport found_a blocks_a found_b (blocks_read_ rs)).

(** [main]: an early [return 1] is [Err] with the status that was printed;
    [std::remove] of a file unlinks it. *)
Definition bloom_main (p : BloomSetup) (σ : World) : result BloomReport * World :=
  let! (_, σ) := build_table p σ in
  let! (r, σ) := SSTableReader_Open (bb_path p) 0 σ in
  match measure p r (mkReadState None 0) with
  | Ok report => (Ok report, unlink (bb_path p) σ)
  | res => (res, σ)
  end.

End Driver.

(** ** Lemmas: the table *)

(** The records that are added from the [i]th on. *)
Definition present (i : Z) (n : nat) : list entry :=
  map (fun j => Entry (bloom_key (2 * j)) (lit "v") kValue) (seqZ i (Z.of_nat n)).

Lemma present_S i n : present i (S n) = Entry (bloom_key (2 * i)) (lit "v") kValue :: present (i + 1) n.
Proof.
  unfold present. rewrite seqZ_cons by lia. replace (Z.pred (Z.of_nat (S n))) with (Z.of_nat n) by lia. done.
Qed.

Lemma blen_present i n : blen (present i n) = Z.of_nat n.
Proof. unfold present. rewrite blen_map. unfold blen. rewrite length_seqZ. lia. Qed.

Lemma present_elem e i n : e ∈ present i n <-> exists j, i <= j < i + Z.of_nat n /\ e = Entry (bloom_key (2 * j)) (lit "v") kValue.
Proof.
  unfold present. split.
  - intros (j & -> & Hj%elem_of_seqZ)%list_elem_of_fmap. by exists j.
  - intros (j & Hj & ->). apply list_elem_of_fmap. exists j. split; [done|]. by apply elem_of_seqZ.
Qed.

Lemma add_present_all `{Os} n i w σ :
  0 <= i -> i + Z.of_nat n <= 2 ^ 30 -> add_present n i w σ = Ok (add_all w (present i n) σ).
Proof.
  revert i w σ. induction n as [|n IH]; intros i w σ Hi Hn; [done|].
  rewrite present_S. cbn [add_present add_all e_key e_value e_type]. rewrite PresentKey_ok by lia. cbn [rbind].
  destruct (SSTableWriter_Add _ _ _ _ _) as [[s w'] σ']. destruct (ok s); cbn [negb]; [|done]. apply IH; lia.
Qed.

Lemma present_sorted i n : 0 <= i -> i + Z.of_nat n <= 2 ^ 30 -> sorted_keys (present i n).
Proof.
  revert i. induction n as [|n IH]; intros i Hi Hn; [done|]. rewrite present_S. split; [|apply IH; lia].
  apply Forall_forall. intros e (j & Hj & ->)%present_elem. cbn [e_key]. unfold str_lt.
  rewrite bloom_key_compare by lia. apply Z.compare_lt_iff. lia.
Qed.

(** No odd key is among them. *)
Lemma missing_absent i n m :
  0 <= i -> i + Z.of_nat n <= 2 ^ 30 -> 0 <= m < 2 ^ 30 -> assoc (present i n) (bloom_key (2 * m + 1)) = None.
Proof.
  intros Hi Hn Hm. apply assoc_None, Forall_forall. intros e (j & Hj & ->)%present_elem. cbn [e_key]. intros E.
  pose proof (bloom_key_compare (2 * j) (2 * m + 1) ltac:(lia) ltac:(lia)) as Hc.
  rewrite E, str_compare_refl in Hc. symmetry in Hc. apply Z.compare_eq_iff in Hc. lia.
Qed.

Record setup_fits (p : BloomSetup) : Prop := {
  sf_keys : (0 < kNumKeys p)%nat /\ Z.of_nat (kNumKeys p) <= 2 ^ 25;
  sf_lookups : Z.of_nat (kNumLookups p) <= 2 ^ 30;
  sf_bits : 0 <= kBitsPerKey p <= 100;
  sf_block : 0 <= kBlockSize p <= 2 ^ 30 }.

Definition bench_records (p : BloomSetup) : list entry := present 0 (kNumKeys p).

Lemma bench_fits p : setup_fits p -> table_fits (kBlockSize p) (kBitsPerKey p) (bench_records p).
Proof.
  intros [[Hk0 Hk] _ Hb Hbs]. unfold bench_records. apply table_fits_intro; [done| | | |].
  - apply Forall_forall. intros e (j & Hj & ->)%present_elem. unfold rec_fits. cbn [e_key e_value].
    rewrite blen_bloom_key. change (blen (lit "v")) with 1. lia.
  - apply present_sorted; lia.
  - rewrite blen_present. lia.
  - rewrite blen_present. nia.
Qed.

(** ** Lemmas: the passes *)

(** The keys [MissingKey(i)] with [i] below [n] for which [test] answers "maybe". *)
Definition maybes (test : bytes -> result bool) (i : Z) (n : nat) : list Z :=
  filter (fun j => match test (bloom_key (2 * j + 1)) with Ok b => b | _ => false end = true) (seqZ i (Z.of_nat n)).

Lemma maybes_S test i n b :
  test (bloom_key (2 * i + 1)) = Ok b -> blen (maybes test i (S n)) = (if b then 1 else 0) + blen (maybes test (i + 1) n).
Proof.
  intros E. unfold maybes. rewrite seqZ_cons by lia. replace (Z.pred (Z.of_nat (S n))) with (Z.of_nat n) by lia.
  rewrite filter_cons, E. destruct b; [|done]. rewrite decide_True, blen_cons by done. done.
Qed.

Lemma maybes_le test i n : 0 <= blen (maybes test i n) <= Z.of_nat n.
Proof.
  unfold blen, maybes. pose proof (length_filter (fun j => match test (bloom_key (2 * j + 1)) with Ok b => b | _ => false end = true)
    (seqZ i (Z.of_nat n))) as Hl. rewrite length_seqZ in Hl. lia.
Qed.

Lemma maybes_all i n : blen (maybes (fun _ => Ok true) i n) = Z.of_nat n.
Proof. revert i. induction n as [|n IH]; intros i; [done|]. rewrite (maybes_S _ _ _ true), IH by done. lia. Qed.

(** A pass finds nothing and reads a block for each key that the filter lets
    through. *)
Lemma pass_counts p r bs n i found cnt :
  setup_fits p -> table_ok r bs -> concat bs = bench_records p -> 0 <= i -> i + Z.of_nat n <= 2 ^ 30 ->
  0 <= cnt -> cnt + Z.of_nat n < 2 ^ 64 ->
  lookup_missing r n i found (mkReadState None cnt)
  = Ok (found, mkReadState None (cnt + blen (maybes (filter_passes r) i n))).
Proof.
  intros Hp Ht Hr. revert i found cnt. destruct (sf_keys p Hp) as [Hk0 Hk].
  assert (block_first (bench_records p) = bloom_key 0) as Hf.
  { unfold bench_records. destruct (kNumKeys p) as [|k]; [lia|]. by rewrite present_S. }
  assert (bs <> []) as Hne.
  { intros ->. unfold bench_records in Hr. destruct (kNumKeys p) as [|k]; [lia|]. by rewrite present_S in Hr. }
  induction n as [|n IH]; intros i found cnt Hi Hn Hc Hcn.
  { cbn [lookup_missing]. change (blen (maybes _ i 0)) with 0. by rewrite Z.add_0_r. }
  cbn [lookup_missing]. rewrite MissingKey_ok by lia. cbn [rbind].
  destruct (filter_passes_ok r bs (bloom_key (2 * i + 1)) Ht) as (b & Hb & _).
  rewrite (Get_uncached r bs _ cnt b Ht Hne).
  - rewrite Hr. unfold bench_records. rewrite missing_absent by lia. cbn [rbind lookup_of fst].
    rewrite (maybes_S _ _ _ b Hb). destruct b.
    + rewrite u64_small by lia. rewrite IH by lia. do 3 f_equal. lia.
    + rewrite IH by lia. do 3 f_equal.
  - rewrite Hr, Hf. unfold str_le. rewrite bloom_key_compare by lia. by rewrite Z.compare_gt_iff; lia.
  - done.
Qed.

Lemma toggled_ok r bs on : table_ok r bs -> table_ok (SetFilterEnabled r on) bs.
Proof. intros []. by split. Qed.

(** What the driver counts over a reader that serves its records. *)
Lemma measure_counts p r bs :
  setup_fits p -> table_ok r bs -> concat bs = bench_records p -> has_filter r = true ->
  measure p r (mkReadState None 0)
  = Ok (mkBloomReport 0 (Z.of_nat (kNumLookups p)) 0 (blen (maybes (MayContain (filter_ r)) 0 (kNumLookups p)))).
Proof.
  intros Hp Ht Hr Hv. pose proof (sf_lookups p Hp). unfold measure, Reader_ResetStats.
  rewrite (pass_counts p r bs) by (done || lia). cbn [rbind rs_cache].
  rewrite (pass_counts p _ bs) by (done || lia || by apply toggled_ok). cbn [rbind rs_cache blocks_read_].
  rewrite (pass_counts p _ bs) by (done || lia || by apply toggled_ok, toggled_ok). cbn [rbind blocks_read_].
  unfold filter_passes. cbn [SetFilterEnabled filter_enabled_ filter_ andb]. unfold has_filter in Hv. rewrite Hv.
  by rewrite maybes_all.
Qed.

(** ** Lemmas: the program *)

(** A table of the driver's records opens with their filter. *)
Lemma bench_open p :
  setup_fits p ->
  exists r f, open_mapped (bb_path p) (table_bytes (chunks (kBlockSize p) (bench_records p))
                                       (filter_of (kBitsPerKey p) (bench_records p))) 0 = Ok r /\
    BloomFilter_Reset (filter_of (kBitsPerKey p) (bench_records p)) = Ok f /\
    measure p r (mkReadState None 0)
    = Ok (mkBloomReport 0 (Z.of_nat (kNumLookups p)) 0 (blen (maybes (MayContain f) 0 (kNumLookups p)))).
Proof.
  intros Hp. destruct (bench_fits p Hp) as [Hbs Hr Hs Hn Hb Hsz].
  pose proof (open_table (bb_path p) (chunks (kBlockSize p) (bench_records p)) (kBitsPerKey p) 0) as Ho.
  rewrite chunks_concat in Ho. pose proof (chunks_ok _ _ Hbs Hr) as Hck.
  destruct Ho as (r & Ho & Ht & _ & _ & _ & _ & Hf); try done.
  { etransitivity; [apply concat_len_ge, (blocks_nonempty _ Hck)|by rewrite chunks_concat]. }
  destruct (filter_of_sound (kBitsPerKey p) (bench_records p) Hb) as (f & Hf' & Hv & _). rewrite Hf in Hf'. injection Hf' as <-.
  exists r, (filter_ r). split_and!; [done..|]. by apply (measure_counts p r _ Hp Ht (chunks_concat _ _)).
Qed.

Lemma bench_data_big bs flt : kFooterSize <= blen (table_bytes bs flt).
Proof. unfold table_bytes. rewrite !blen_app, blen_footer. len. Qed.

Section Program.
Context `{Os}.
Variable p : BloomSetup.
Hypothesis Hp : setup_fits p.

Let data : bytes :=
  table_bytes (chunks (kBlockSize p) (bench_records p)) (filter_of (kBitsPerKey p) (bench_records p)).

(** Building under faults: the table, or a failed status. *)
Lemma build_cases σ res σ' :
  build_table p σ = (res, σ') ->
  others_kept (bb_path p) σ σ' /\
  ((res = Ok tt /\ fs σ' !! bb_path p = Some (mkFile data (blen data))) \/ exists s, res = Err s /\ ok s = false).
Proof.
  destruct (bench_fits p Hp) as [Hbs Hr _ _ _ _]. destruct (sf_keys p Hp) as [_ Hk]. unfold build_table.
  destruct (SSTableWriter_Open _ σ) as [[s1 w1] σ1] eqn:E1. destruct (open_writer_has _ _ _ _ _ _ _ E1) as [Ho1 Hw1].
  assert (forall s w σ1, others_kept (bb_path p) σ σ1 -> ok s = false ->
    (Err s, SSTableWriter_destroy w σ1) = (res, σ') ->
    others_kept (bb_path p) σ σ' /\
    ((res = Ok tt /\ fs σ' !! bb_path p = Some (mkFile data (blen data))) \/ exists s, res = Err s /\ ok s = false)) as Hfail.
  { intros s w σ0 Ho Hs [= <- <-]. split; [intros q Hq; by rewrite destroy_fs, Ho|]. right. by exists s. }
  destruct (ok s1) eqn:Ok1; cbn [negb]; [|by apply Hfail].
  rewrite add_present_all by lia. fold (bench_records p).
  destruct (add_all w1 (bench_records p) σ1) as [[s2 w2] σ2] eqn:E2.
  destruct (add_all_writer_has _ _ _ _ _ _ _ _ _ _ Hbs Hr (Hw1 eq_refl) E2) as [Ho2 _].
  destruct (ok s2) eqn:Ok2; cbn [negb]; [|apply Hfail; [by etransitivity|done]].
  destruct (SSTableWriter_Finish w2 σ2) as [[s3 w3] σ3] eqn:E3.
  destruct (write_session _ _ _ _ _ _ _ _ _ _ _ _ _ _ Hbs Hr E1 Ok1 E2 Ok2 E3) as [Ho3 Hok3].
  destruct (ok s3) eqn:Ok3; cbn [negb]; [|by apply Hfail].
  intros [= <- <-]. split; [intros q Hq; by rewrite destroy_fs, Ho3|]. left. rewrite destroy_fs. split; [done|].
  by apply Hok3.
Qed.

(** Building when no call fails. *)
Lemma build_calm σ : io σ = [] -> exists σ', build_table p σ = (Ok tt, σ') /\ io σ' = [].
Proof.
  intros Hio. destruct (sf_keys p Hp) as [_ Hk]. unfold build_table.
  destruct (Open_calm (bb_path p) (kBlockSize p) (kBitsPerKey p) σ Hio) as (w1 & σ1 & -> & Hfd1 & Hio1).
  cbn [ok Status_OK code_ negb]. rewrite add_present_all by lia.
  destruct (add_all_calm (present 0 (kNumKeys p)) w1 _ σ1 Hfd1 Hio1) as (w2 & σ2 & -> & Hfd2 & Hio2).
  cbn [ok Status_OK code_ negb].
  destruct (Finish_calm w2 _ σ2 Hfd2 Hio2) as (w3 & σ3 & -> & Hio3). cbn [ok Status_OK code_ negb].
  eexists. split; [done|]. by apply destroy_calm.
Qed.

End Program.

(** ** Properties *)

(** C28 (functional). The filter's driver measures what it says it measures.
    Whatever the system calls do, the program either ends with a failed status or
    reports no spurious hit in either pass, exactly one data block per lookup with
    the filter bypassed, and with the filter on exactly one block for each of the
    filter's false positives; it leaves every other file alone. When no call
    fails it reports, and the file of the table is gone. *)
Theorem bloom_driver_counts `{Os} p σ res σ' :
  setup_fits p -> bloom_main p σ = (res, σ') ->
  others_kept (bb_path p) σ σ' /\
  ((exists f, BloomFilter_Reset (filter_of (kBitsPerKey p) (bench_records p)) = Ok f /\
      res = Ok (mkBloomReport 0 (Z.of_nat (kNumLookups p)) 0 (blen (maybes (MayContain f) 0 (kNumLookups p))))) \/
   exists s, res = Err s /\ ok s = false) /\
  (io σ = [] -> (exists report, res = Ok report) /\ fs σ' !! bb_path p = None).
Proof.
  intros Hp. unfold bloom_main. destruct (bench_open p Hp) as (r & f & Hopen & Hf & Hm).
  destruct (build_table p σ) as [b σ1] eqn:E1. destruct (build_cases p Hp _ _ _ E1) as [Ho1 Hb].
  assert (io σ = [] -> b = Ok tt /\ io σ1 = []) as Hcalm1.
  { intros Hio. destruct (build_calm p Hp σ Hio) as (σ1' & E & ?). rewrite E1 in E. injection E as -> ->. done. }
  destruct Hb as [(-> & Hfile)|(s & -> & Hs)]; cbn [io_bind].
  2: { intros [= <- <-]. split; [done|]. split; [right; by exists s|]. intros [? _]%Hcalm1. done. }
  destruct (SSTableReader_Open (bb_path p) 0 σ1) as [o σ2] eqn:E2.
  destruct (open_cases _ _ _ _ _ _ _ Hfile (bench_data_big _ _) Hopen E2) as [Hfs Ho].
  assert (io σ = [] -> o = Ok r /\ io σ2 = []) as Hcalm2.
  { intros [_ Hio]%Hcalm1. rewrite (open_file _ _ _ _ Hfile Hio (bench_data_big _ _)) in E2.
    cbn [f_data] in E2. rewrite Hopen in E2. by injection E2 as <- <-. }
  destruct Ho as [->|(s & -> & Hs)]; cbn [io_bind].
  2: { intros [= <- <-]. split; [intros q Hq; by rewrite Hfs, Ho1|]. split; [right; by exists s|]. intros [? _]%Hcalm2. done. }
  rewrite Hm. intros [= <- <-]. split_and!.
  - intros q Hq. rewrite <- (Ho1 q Hq), <- Hfs. by destruct (unlink_fs (bb_path p) σ2) as [->| ->]; rewrite ?lookup_delete_ne.
  - left. by exists f.
  - intros Hio. split; [by eexists|]. destruct (Hcalm2 Hio) as [_ Hio2]. unfold unlink. rewrite sys_calm by done.
    cbn [snd fs]. apply lookup_delete_eq.
Qed.

(** The constants of the program, on an empty disk. *)
Lemma bloom_driver_counts_witness :
  let run := @bloom_main plain_os bloom_setup (mkWorld ∅ []) in
  exists fp, run.1 = Ok (mkBloomReport 0 1000000 0 fp).
Proof.
  intros run.
  assert (setup_fits bloom_setup) as Hp.
  { split; cbn [bloom_setup kNumKeys kNumLookups kBitsPerKey kBlockSize]; lia. }
  destruct (@bloom_driver_counts plain_os bloom_setup (mkWorld ∅ []) run.1 run.2 Hp
    (surjective_pairing _)) as (_ & Hr & Hc).
  destruct Hr as [(f & _ & ->)|(s & E & _)].
  - eexists. cbn [bloom_setup kNumLookups]. rewrite Z2Nat.id by lia. reflexivity.
  - destruct (Hc eq_refl) as [[rep E'] _]. congruence.
Defined.

(** A run over twenty keys of four bits each: three false positives. *)
Example bloom_small_run :
  (@bloom_main plain_os (mkBloomSetup 20 20 4 64 (lit "t.sst")) (mkWorld ∅ [])).1 = Ok (mkBloomReport 0 20 0 3).
Proof. vm_compute. reflexivity. Qed.
