(* ===== verification/DriverLoad.v ===== *)
(** The load drivers: the calls that bench/bench_compaction.cpp and the lsmdb half of
    bench/bench_vs_rocksdb.cpp make, as sequences of client calls of the system.
    Clocks and percentiles are measured around the calls and do not appear; the
    shuffled order and the coin flips of the random number generator are
    arguments. *)
From S2P Require Import Prelude Types SkipList Posix TableFormat Version Db DbInvariant Leveling.
From S2P Require Import Recovery Background Refinement.
From S2P Require Import DriverKeys.

(** ** Calls *)

(** The indices of [for (int i = 0; i < N; i += step)]. *)
Definition stepped (N step : Z) : list Z := map (fun j => step * j) (seqZ 0 ((N + step - 1) / step)).

(** The options and the three rounds of bench_compaction.cpp, and its flush. *)
Definition compaction_options : Options :=
  mkOptions false (1 * 1024 * 1024) 4 (4 * 1024 * 1024) 10 (2 * 1024 * 1024) 7
    (bloom_bits_per_key Options_default) (block_cache_bytes Options_default).

Definition load_put (i : Z) : client_op := CPut (KeyOf i) (ValueOf i).

Definition load_calls (N : Z) : list client_op :=
  map load_put (stepped N 1) ++ map load_put (stepped N 2) ++ map (fun i => CDelete (KeyOf i)) (stepped N 10) ++ [CFlush].

(** The options of the lsmdb half of bench_vs_rocksdb.cpp, and its [Runner]. *)
Definition vs_options : Options :=
  mkOptions false (4 * 1024 * 1024) (l0_compaction_trigger Options_default) (8 * 1024 * 1024)
    (level_size_multiplier Options_default) (2 * 1024 * 1024) (max_levels Options_default)
    (bloom_bits_per_key Options_default) (block_cache_bytes Options_default).

Definition vs_put (idx : Z) : client_op := CPut (VsKeyOf idx) (MakeValue idx).
Definition vs_get (idx : Z) : client_op := CGet (VsKeyOf idx).

Definition RandomWrite (order : list Z) : list client_op := map vs_put order.
Definition Reads (order : list Z) : list client_op := map vs_get order.
Definition Mixed (order : list Z) (coins : list bool) : list client_op :=
  zip_with (fun idx (coin : bool) => if coin then vs_put idx else vs_get idx) order coins.

(** The calls that [main] makes to database "a": the load with the flush after it,
    and the workloads over the loaded database. *)
Definition vs_load (rnd : list Z) : list client_op := RandomWrite rnd ++ [CFlush].
Definition vs_timed (kN : Z) (rnd : list Z) (coins : list bool) : list client_op :=
  Reads rnd ++ Reads (seqZ 0 kN) ++ Mixed rnd coins.

(** ** Lemmas: the history of a sequence of calls *)

Definition client_calls (tr : trace) : list client_op :=
  omap (fun x => match x.1 with EvClient op => Some op | _ => None end) tr.

Lemma client_calls_app a b : client_calls (a ++ b) = client_calls a ++ client_calls b.
Proof. apply omap_app. Qed.

Lemma history_calls hist tr : history hist tr = rev (omap op_record (client_calls tr)) ++ hist.
Proof.
  induction tr as [|[ev r] tr IH] using rev_ind; [done|]. rewrite history_snoc, client_calls_app, omap_app, rev_app_distr, IH.
  destruct ev as [[key value|key|key|]| | | | | |]; done.
Qed.

Lemma stepped_elem N step i : 0 < step -> 0 <= N -> i ∈ stepped N step <-> 0 <= i < N /\ i mod step = 0.
Proof.
  intros Hs HN. unfold stepped. rewrite list_elem_of_fmap. setoid_rewrite elem_of_seqZ. rewrite Z.add_0_l.
  pose proof (Z.div_mod (N + step - 1) step ltac:(lia)). pose proof (Z.mod_pos_bound (N + step - 1) step Hs). split.
  - intros (j & -> & Hj). rewrite Z.mul_comm, Z.mod_mul by lia. split; [nia|done].
  - intros [Hi Hm]. pose proof (Z.div_mod i step ltac:(lia)). exists (i / step). split; [lia|]. split; [apply Z.div_pos; lia|nia].
Qed.

Section Keyed.
Variables (key : Z -> bytes) (bound : Z).
Hypothesis Hinj : forall a b, 0 <= a < bound -> 0 <= b < bound -> key a = key b -> a = b.

(** What the records of distinct integers say about one of them. *)
Lemma assoc_keyed (f : Z -> entry) l i :
  (forall j, e_key (f j) = key j) -> Forall (fun j => 0 <= j < bound) l -> 0 <= i < bound ->
  assoc (rev (map f l)) (key i) = if decide (i ∈ l) then Some (f i) else None.
Proof.
  intros Hf Hl Hi. destruct (decide (i ∈ l)) as [Hin|Hnot].
  - destruct (assoc (rev (map f l)) (key i)) as [e|] eqn:E.
    + apply assoc_Some in E as [He Hk]. apply list_elem_of_In in He. rewrite <- in_rev in He. apply in_map_iff in He as (j & <- & Hj%list_elem_of_In).
      rewrite Hf in Hk. rewrite Forall_forall in Hl. by rewrite (Hinj j i (Hl j Hj) Hi Hk).
    + apply assoc_None in E. rewrite Forall_forall in E. edestruct (E (f i)); [|apply Hf].
      apply list_elem_of_In. rewrite <- in_rev. apply in_map. by apply list_elem_of_In.
  - apply assoc_None, Forall_forall. intros e He Hk. apply Hnot. apply list_elem_of_In in He. rewrite <- in_rev in He.
    apply in_map_iff in He as (j & <- & Hj%list_elem_of_In). rewrite Hf in Hk. rewrite Forall_forall in Hl.
    by rewrite <- (Hinj j i (Hl j Hj) Hi Hk).
Qed.

End Keyed.

(** ** Lemmas: the three rounds *)

Definition load_record (i : Z) : entry := Entry (KeyOf i) (ValueOf i) kValue.
Definition load_tombstone (i : Z) : entry := Entry (KeyOf i) [] kTombstone.

Lemma omap_map {A B C} (f : B -> option C) (g : A -> B) (h : A -> C) l : (forall x, f (g x) = Some (h x)) -> omap f (map g l) = map h l.
Proof. intros E. induction l as [|x l IH]; [done|]. cbn. rewrite E. by f_equal. Qed.

Lemma load_records N :
  omap op_record (load_calls N)
  = map load_record (stepped N 1) ++ map load_record (stepped N 2) ++ map load_tombstone (stepped N 10).
Proof.
  unfold load_calls. rewrite !omap_app. cbn [omap list_omap op_record]. rewrite app_nil_r.
  by rewrite !(omap_map op_record load_put load_record), (omap_map op_record _ load_tombstone).
Qed.

Lemma load_assoc N i :
  0 <= i < N -> N <= 10 ^ 9 ->
  assoc (rev (omap op_record (load_calls N))) (KeyOf i)
  = Some (if i mod 10 =? 0 then load_tombstone i else load_record i).
Proof.
  intros Hi HN. rewrite load_records, !rev_app_distr, !assoc_app.
  assert (forall step, 0 < step -> Forall (fun j => 0 <= j < 10 ^ 9) (stepped N step)) as Hb.
  { intros step Hs. apply Forall_forall. intros j [? _]%stepped_elem; lia. }
  rewrite (assoc_keyed KeyOf (10 ^ 9) KeyOf_inj load_tombstone), (assoc_keyed KeyOf (10 ^ 9) KeyOf_inj load_record),
    (assoc_keyed KeyOf (10 ^ 9) KeyOf_inj load_record (stepped N 1)) by (done || lia || by apply Hb).
  destruct (Z.eqb_spec (i mod 10) 0) as [E|E].
  - rewrite decide_True; [done|]. apply stepped_elem; lia.
  - rewrite decide_False by (rewrite stepped_elem; lia). destruct (decide (i ∈ stepped N 2)); [done|].
    rewrite decide_True; [done|]. apply stepped_elem; [lia|lia|]. by rewrite Z.mod_1_r.
Qed.

(** ** Lemmas: lookups after a load *)

Section Loaded.
Variables (key value : Z -> bytes) (kN : Z).
Hypothesis Hinj : forall a b, 0 <= a < kN -> 0 <= b < kN -> key a = key b -> a = b.

Definition key_record (idx : Z) : entry := Entry (key idx) (value idx) kValue.
Definition key_put (idx : Z) : client_op := CPut (key idx) (value idx).
Definition key_get (idx : Z) : client_op := CGet (key idx).

(** A call on one of the keys, or a flush. *)
Definition key_call (op : client_op) : Prop := op = CFlush \/ exists idx, 0 <= idx < kN /\ (op = key_put idx \/ op = key_get idx).

Lemma puts_are_calls order : Forall (fun idx => 0 <= idx < kN) order -> Forall key_call (map key_put order).
Proof. intros Ho. apply Forall_map. eapply Forall_impl; [exact Ho|]. intros i Hi. right. exists i. auto. Qed.

Lemma gets_are_calls order : Forall (fun idx => 0 <= idx < kN) order -> Forall key_call (map key_get order).
Proof. intros Ho. apply Forall_map. eapply Forall_impl; [exact Ho|]. intros i Hi. right. exists i. auto. Qed.

(** The records of calls on the keys. *)
Lemma calls_record ops :
  Forall key_call ops -> exists js, omap op_record ops = map key_record js /\ Forall (fun j => 0 <= j < kN) js.
Proof.
  induction 1 as [|op rest Hop _ (js & E & Hjs)]; [by exists []|]. cbn.
  destruct Hop as [->|(j & Hj & [->| ->])]; cbn; [by exists js| |by exists js]. exists (j :: js). split; [by rewrite E|by constructor].
Qed.

(** Before a lookup that follows the load, every key was put. *)
Lemma loaded_before order rest pre k post :
  map key_put order ++ rest = pre ++ CGet k :: post -> exists pre', pre = map key_put order ++ pre'.
Proof.
  intros E. apply app_eq_inv in E as [(l & E1 & E2)|(l & -> & _)]; [|by exists l].
  destruct l as [|op l]; [exists []; by rewrite E1, !app_nil_r|]. injection E2 as <- _. exfalso.
  assert (CGet k ∈ map key_put order) as (i & ? & _)%list_elem_of_fmap by (rewrite E1; set_solver). done.
Qed.

Lemma loaded_assoc order rest pre k post :
  order ≡ₚ seqZ 0 kN -> Forall key_call rest -> map key_put order ++ rest = pre ++ CGet k :: post ->
  exists idx, 0 <= idx < kN /\ k = key idx /\ assoc (rev (omap op_record pre)) k = Some (key_record idx).
Proof.
  intros Hp Hrest E. assert (Forall (fun idx => 0 <= idx < kN) order) as Ho.
  { rewrite Hp. apply Forall_forall. intros i ?%elem_of_seqZ. lia. }
  assert (Forall key_call (pre ++ CGet k :: post)) as Hall by (rewrite <- E; apply Forall_app; split; [by apply puts_are_calls|done]).
  apply Forall_app in Hall as [Hpre [Hk _]%Forall_cons]. destruct Hk as [?|(idx & Hidx & [?|[= ->]])]; [done..|].
  exists idx. split; [done|]. split; [done|]. destruct (loaded_before _ _ _ _ _ E) as [pre' ->]. apply Forall_app in Hpre as [_ Hpre'].
  destruct (calls_record pre' Hpre') as (js & Ej & Hjs). rewrite omap_app, (omap_map op_record key_put key_record), Ej, <- map_app by done.
  rewrite (assoc_keyed key kN Hinj); [|done|by apply Forall_app|done]. rewrite decide_True; [done|].
  apply elem_of_app. left. rewrite Hp. apply elem_of_seqZ. lia.
Qed.

(** In a run without a failed put every lookup after the load hits. *)
Lemma loaded_lookups_hit `{Os} `{MemEnv} o dir s0 tr s order rest j k r :
  usable o -> starts o dir [] s0 -> sys_run s0 tr s -> Forall (fun x => lost x = false) tr ->
  client_calls tr = map key_put order ++ rest -> order ≡ₚ seqZ 0 kN -> Forall key_call rest ->
  tr !! j = Some (EvClient (CGet k), Some r) ->
  exists idx, 0 <= idx < kN /\ k = key idx /\ r = (Status_OK, Some (LookupResult.kFound, Some (value idx))).
Proof.
  intros [Hb Ht Hc] Hst Hrun Hl Hcalls Hp Hrest Hj.
  destruct (sys_run_inv o Hb Ht dir [] s0 tr s Hc Hst Hrun) as (left & busy & recs & Htr & _).
  destruct (trace_reads _ _ _ _ _ _ _ Htr Hl Hj) as (recs' & Hf & ->). apply forgets_lookup in Hf.
  rewrite <- (take_drop_middle tr j _ Hj), client_calls_app in Hcalls. symmetry in Hcalls.
  destruct (loaded_assoc order rest _ k _ Hp Hrest Hcalls) as (idx & Hidx & -> & Ha). exists idx. split; [done|]. split; [done|].
  rewrite history_calls, app_nil_r, Ha in Hf. change (is_tombstone_type (e_type (key_record idx))) with false in Hf. by rewrite Hf.
Qed.

End Loaded.

(** The calls of the comparison after its load. *)
Lemma vs_rest_calls kN rnd coins :
  Forall (fun idx => 0 <= idx < kN) rnd ->
  Forall (key_call VsKeyOf MakeValue kN) ([CFlush] ++ Reads rnd ++ Reads (seqZ 0 kN) ++ Mixed rnd coins).
Proof.
  intros Hr. repeat apply Forall_app_2.
  - repeat constructor.
  - by apply gets_are_calls.
  - apply gets_are_calls. apply Forall_forall. intros i ?%elem_of_seqZ. lia.
  - apply Forall_forall. intros op Hm. apply list_elem_of_lookup in Hm as [n Hn]. apply lookup_zip_with_Some in Hn as (i & b & -> & Hi & _).
    rewrite Forall_forall in Hr. right. exists i. split; [eapply Hr, list_elem_of_lookup_2, Hi|]. destruct b; auto.
Qed.

(** ** Properties *)

(** The load of the compaction driver ends in the state that its
    rounds describe, wherever the background thread is: for every number of keys,
    after a run in which no put or delete reported failure and whose calls are the
    initial load, the overwrite of every second key, the delete of every tenth and
    the flush, a deleted key is gone and every other key has its value. *)
Theorem compaction_load_answers `{Os} `{MemEnv} o dir s0 tr s N i :
  usable o -> starts o dir [] s0 -> sys_run s0 tr s -> Forall (fun x => lost x = false) tr ->
  client_calls tr = load_calls N -> 0 <= i < N -> N <= 10 ^ 9 ->
  exists a d', DB_Get (s_db s) (KeyOf i) = Ok (a, d') /\
    if i mod 10 =? 0 then a = (LookupResult.kDeleted, None) \/ a = (LookupResult.kNotFound, None)
    else a = (LookupResult.kFound, Some (ValueOf i)).
Proof.
  intros [Hb Ht Hc] Hst Hrun Hl Hcalls Hi HN.
  destruct (sys_run_inv o Hb Ht dir [] s0 tr s Hc Hst Hrun) as (left & busy & recs & Htr & v & R & mes & ess & [Hd _ _ _ _ _ _] & Hview).
  destruct (db_get _ _ _ _ _ (KeyOf i) Hd) as (c & E & _). eexists _, _. split; [exact E|]. rewrite Hview.
  pose proof (forgets_lookup _ _ (trace_history _ _ _ _ Htr Hl (KeyOf i))) as Hf.
  rewrite history_calls, Hcalls, app_nil_r, load_assoc in Hf by lia. destruct (i mod 10 =? 0); exact Hf.
Qed.

(** Every lookup that the comparison with RocksDB times over lsmdb is a hit:
    for every shuffle of the keys and every sequence of coin flips, in a run in
    which no put reported failure, each lookup of the random, the sequential and
    the mixed workload finds its key with the value that was written for it. *)
Lemma vs_lookups_hit `{Os} `{MemEnv} o dir s0 tr s kN rnd coins j k r :
  usable o -> starts o dir [] s0 -> sys_run s0 tr s -> Forall (fun x => lost x = false) tr ->
  client_calls tr = vs_load rnd ++ vs_timed kN rnd coins -> rnd ≡ₚ seqZ 0 kN -> kN <= 2 ^ 31 ->
  tr !! j = Some (EvClient (CGet k), Some r) ->
  exists idx, 0 <= idx < kN /\ k = VsKeyOf idx /\ r = (Status_OK, Some (LookupResult.kFound, Some (MakeValue idx))).
Proof.
  intros Hu Hst Hrun Hl Hcalls Hp HkN Hj. assert (forall a b, 0 <= a < kN -> 0 <= b < kN -> VsKeyOf a = VsKeyOf b -> a = b) as Hinj
    by (intros a b Ha Hb; apply VsKeyOf_inj; lia).
  apply (loaded_lookups_hit VsKeyOf MakeValue kN Hinj o dir s0 tr s rnd ([CFlush] ++ Reads rnd ++ Reads (seqZ 0 kN) ++ Mixed rnd coins) j); try done.
  { rewrite Hcalls. unfold vs_load. by rewrite <- app_assoc. }
  apply vs_rest_calls. rewrite Hp. apply Forall_forall. intros i ?%elem_of_seqZ. lia.
Qed.

(** A run of calls on an empty directory, each flush published at once, and the
    steps of the background thread after them. *)
Definition call_events (op : client_op) : list event :=
  match op with CFlush => [EvClient op; EvPublish] | _ => [EvClient op] end.

Definition calls_run (o : Options) (ops : list client_op) : option (Sys * trace * Sys) :=
  match @DB_Open plain_os alternating_env o (lit "db") (mkWorld ∅ []) with
  | (Ok d, σ1) =>
      match @sys_exec_all plain_os alternating_env (opened d σ1 []) (concat (map call_events ops) ++ [EvLoop]) with
      | Some (tr, s) => if capacity d && forallb (fun x => negb (lost x)) tr then Some (opened d σ1 [], tr, s) else None
      | None => None
      end
  | _ => None
  end.

Lemma calls_run_spec o ops s0 tr s :
  Forall op_fits ops -> calls_run o ops = Some (s0, tr, s) ->
  @starts plain_os alternating_env o (lit "db") [] s0 /\ @sys_run plain_os alternating_env s0 tr s /\ Forall (fun x => lost x = false) tr.
Proof.
  intros Hf. unfold calls_run. destruct (DB_Open o (lit "db") (mkWorld ∅ [])) as [[d| |] σ1] eqn:Eo; [|done..].
  destruct (sys_exec_all (opened d σ1 []) _) as [[tr' s']|] eqn:E; [|done]. destruct (capacity d) eqn:Ec; [|done]. cbn [andb].
  destruct (forallb _ tr') eqn:El; [|done]. intros [= <- <- <-]. split_and!.
  - eapply starts_open; [apply empty_shows|exact Eo|exact Ec].
  - apply (@sys_exec_all_run plain_os alternating_env (opened d σ1 []) [] (opened d σ1 [])) in E; [exact E|constructor|].
    apply Forall_app. split; [|by repeat constructor]. apply Forall_concat, Forall_map. eapply Forall_impl; [exact Hf|].
    intros op Hop. destruct op; by repeat constructor.
  - apply Forall_forall. intros x Hx%list_elem_of_In. rewrite forallb_forall in El. by apply negb_true_iff, El.
Qed.

Lemma compaction_load_answers_witness :
  match calls_run compaction_options (load_calls 12) with
  | Some (_, _, s) => (exists a d', DB_Get (s_db s) (KeyOf 10) = Ok (a, d') /\
        (a = (LookupResult.kDeleted, None) \/ a = (LookupResult.kNotFound, None))) /\
      exists a d', DB_Get (s_db s) (KeyOf 11) = Ok (a, d') /\ a = (LookupResult.kFound, Some (ValueOf 11))
  | None => False
  end.
Proof.
  assert (match calls_run compaction_options (load_calls 12) with Some (_, tr, _) => client_calls tr = load_calls 12 | None => False end) as Hs
    by (vm_compute; reflexivity).
  assert (Forall op_fits (load_calls 12)) as Hf.
  { repeat apply Forall_cons_2; try apply Forall_nil_2; vm_compute; try exact I; discriminate. }
  destruct (calls_run compaction_options (load_calls 12)) as [[[s0 tr] s]|] eqn:E; [|destruct Hs].
  destruct (calls_run_spec _ _ _ _ _ Hf E) as (Hst & Hrun & Hl).
  assert (usable compaction_options) as Ho by (split; cbn; lia).
  split.
  - apply (@compaction_load_answers plain_os alternating_env compaction_options (lit "db") s0 tr s 12 10 Ho Hst Hrun Hl Hs); lia.
  - apply (@compaction_load_answers plain_os alternating_env compaction_options (lit "db") s0 tr s 12 11 Ho Hst Hrun Hl Hs); lia.
Defined.
