(* ===== verification/DriverCache.v ===== *)
(** The measurement driver of the block cache (bench/bench_cache.cpp): one session
    builds the dataset, two more replay lookups on it, with the cache off and with
    the cache on. The numbers drawn from the random number generator are arguments;
    the clocks are not modelled, the percentiles are in DriverPercentiles. *)
From Stdlib Require Import SpecFloat.
From S2P Require Import Prelude Types Bloom SkipList Cache Posix Wal TableFormat TableWriter.
From S2P Require Import TableReader Merge Version Db DbInvariant Compaction Leveling Merging.
From S2P Require Import Manifest Recovery Background Refinement Stats Durability DriverKeys DriverLoad.

(** ** Calls *)

(** The options of the build block and of [RunWorkload]. *)
Definition build_options : Options :=
  mkOptions false (1 * 1024 * 1024) (l0_compaction_trigger Options_default) (l1_target_bytes Options_default)
    (level_size_multiplier Options_default) (target_file_size Options_default) (max_levels Options_default)
    (bloom_bits_per_key Options_default) (block_cache_bytes Options_default).

Definition workload_options (cache_bytes : Z) : Options :=
  mkOptions false (memtable_flush_threshold Options_default) (l0_compaction_trigger Options_default)
    (l1_target_bytes Options_default) (level_size_multiplier Options_default) (target_file_size Options_default)
    (max_levels Options_default) (bloom_bits_per_key Options_default) cache_bytes.

Definition CacheValueOf (n : Z) : bytes := resize (format_d 0 n ++ lit "-") 96 Byte.x78.

(** The build block; the waiting for compactions is left to the background
    thread. *)
Definition build_put (i : Z) : client_op := CPut (KeyOf i) (CacheValueOf i).
Definition build_calls (N : Z) : list client_op := map build_put (seqZ 0 N) ++ [CFlush].

(** One draw of [pick]: how the coin fell, and the number from the distribution
    that it chose. *)
Definition hot (N : Z) : Z := Z.max 1 (N / 100).
Definition drawn (N : Z) (draw : bool * Z) : Prop := 0 <= draw.2 < if draw.1 then hot N else N.

(** The lookups of [RunWorkload], the warm-up among them. *)
Definition workload_get (draw : bool * Z) : client_op := CGet (KeyOf draw.2).
Definition warmup_calls (reads : nat) (draws : list (bool * Z)) : list client_op := map workload_get (take (reads / 2) draws).
Definition measured_calls (reads : nat) (draws : list (bool * Z)) : list client_op :=
  map workload_get (take reads (drop (reads / 2) draws)).

(** The hit rate of the lookups between two readings of the statistics. *)
Definition workload_rate (before after : Stats) : spec_float :=
  let h := cache_hits after -u64 cache_hits before in
  let m := cache_misses after -u64 cache_misses before in
  if h +u64 m =? 0 then S754_zero false
  else SFdiv 53 1024 (int_to_double h) (int_to_double (h +u64 m)).

Section Sessions.
Context `{Os} `{MemEnv}.

(** One session over the disk [σ]: the directory is opened and the calls run in any
    interleaving with the background thread, the destructor's steps included; no put
    reports failure; the next session finds what was written on the disk [σ']. *)
Record program_session (o : Options) (dir : bytes) (σ : World) (s0 : Sys) (tr : trace) (s : Sys) (σ' : World) : Prop := {
  ps_open : exists d σ1 os, DB_Open o dir σ = (Ok d, σ1) /\ capacity d = true /\ s0 = opened d σ1 os;
  ps_run : sys_run s0 tr s;
  ps_kept : Forall (fun x => lost x = false) tr;
  ps_end : loses (sync o) (s_world s) σ';
  ps_log : short_log dir σ' }.

(** [RunWorkload]: the warm-up, a reading of the statistics, the measured lookups
    and another reading. *)
Record RunWorkload (dir : bytes) (cache_bytes N : Z) (reads : nat) (draws : list (bool * Z)) (σ : World)
    (tr : trace) (rate : spec_float) (σ' : World) : Prop := {
  rw_session : exists s0 s, program_session (workload_options cache_bytes) dir σ s0 tr s σ' /\
    exists warm rest s1 before after, tr = warm ++ rest /\ sys_run s0 warm s1 /\ sys_run s1 rest s /\
      client_calls warm = warmup_calls reads draws /\ client_calls rest = measured_calls reads draws /\
      GetStats (s_db s1) = Ok before /\ GetStats (s_db s) = Ok after /\ rate = workload_rate before after;
  rw_draws : Forall (drawn N) draws }.

(** Every lookup of a trace found its key with the value that was built for it. *)
Definition all_hit (N : Z) (tr : trace) : Prop :=
  forall j k r, tr !! j = Some (EvClient (CGet k), Some r) ->
    exists i, 0 <= i < N /\ k = KeyOf i /\ r = (Status_OK, Some (LookupResult.kFound, Some (CacheValueOf i))).

(** ** Lemmas: without a cache *)

Lemma block_uncached r i n b rs : GetBlock r i (mkReadState None n) = Ok (b, rs) -> rs_cache rs = None.
Proof. unfold GetBlock, rbind, of_option. cbn [rs_cache count_block]. intros E. ok_cases E; by injection E as <- <-. Qed.

Lemma table_uncached r key n x st rs :
  SSTableReader_Get r key (mkReadState None n) = Ok (x, st, rs) -> rs_cache rs = None.
Proof.
  unfold SSTableReader_Get. destruct (r_index_ r); [by intros [= _ _ <-]|].
  intros (may & _ & E)%rbind_Ok. destruct (negb may); [by injection E as _ _ <-|]. revert E.
  intros (it & _ & E)%rbind_Ok. destruct (it =? 0)%nat; [by injection E as _ _ <-|]. revert E.
  intros ([b rs'] & Hb & E)%rbind_Ok. apply block_uncached in Hb. destruct b; [by injection E as _ _ <-|]. revert E.
  by intros (found & _ & [= _ _ <-])%rbind_Ok.
Qed.

Lemma l0_uncached files key x c : get_l0 files key None = Ok (x, c) -> c = None.
Proof.
  induction files as [|f files IH]; cbn [get_l0]; [by intros [= _ <-]|].
  destruct (_ || _); [done|]. intros ([[found st] rs] & Hg & E)%rbind_Ok. apply table_uncached in Hg.
  destruct found as [[] v]; cbn [fst] in E; rewrite Hg in E; by injection E as _ <- || apply IH.
Qed.

Lemma levels_uncached levels key x c : get_levels levels key None = Ok (x, c) -> c = None.
Proof.
  induction levels as [|[|f files] levels IH]; cbn [get_levels]; [by intros [= _ <-]|done|].
  intros (lo & _ & E)%rbind_Ok. revert E. intros (idx & _ & E)%rbind_Ok. destruct (idx <? 0); [by apply IH|]. revert E.
  intros (g & _ & E)%rbind_Ok. destruct (str_ltb _ _); [by apply IH|]. revert E.
  intros ([[found st] rs] & Hg & E)%rbind_Ok. apply table_uncached in Hg.
  destruct found as [[] v]; cbn [fst] in E; rewrite Hg in E; by injection E as _ <- || apply IH.
Qed.

Lemma get_uncached d key x d' : block_cache_ d = None -> DB_Get d key = Ok (x, d') -> block_cache_ d' = None.
Proof.
  intros Hc. unfold DB_Get. intros (r & _ & E)%rbind_Ok. destruct r.1; [by injection E as _ <-|by injection E as _ <-|].
  revert E. intros ([found c] & Hg & [= _ <-])%rbind_Ok. cbn. rewrite Hc in Hg. unfold GetFromVersion in Hg.
  destruct (current_ d) as [[|l0 deeper]|]; [by injection Hg as _ <-| |by injection Hg as _ <-]. revert Hg.
  intros ([f0 c0] & Hl0 & E)%rbind_Ok. apply l0_uncached in Hl0. subst c0.
  destruct f0 as [[] v0]; cbn [fst] in E; (by injection E as _ <-) || by eapply levels_uncached.
Qed.

Lemma event_uncached s ev r s' :
  enabled s ev = true -> sys_exec s ev = Ok (r, s') -> block_cache_ (s_db s) = None -> block_cache_ (s_db s') = None.
Proof.
  intros Hen E Hc. destruct ev as [[k v|k|k|]| | | | | |]; try (by rewrite (proj1 (event_counts s _ r s' Hen E) ltac:(done))).
  unfold sys_exec in E. destruct (s_client s); [|by injection E as _ <-]. revert E. cbn [client_begin].
  intros ([[[r1 ph] d1] σ1] & Hb & [= _ <-])%rbind_Ok. revert Hb.
  intros ([a d2] & Hg & [= _ _ <- _])%rbind_Ok. by eapply get_uncached.
Qed.

Lemma run_uncached s0 tr s : sys_run s0 tr s -> block_cache_ (s_db s0) = None -> block_cache_ (s_db s) = None.
Proof. induction 1; [done|]. intros Hc. eapply event_uncached; eauto. Qed.

Lemma run_app s0 a s1 b s : sys_run s0 a s1 -> sys_run s1 b s -> sys_run s0 (a ++ b) s.
Proof. intros Ha. induction 1; [by rewrite app_nil_r|]. rewrite app_assoc. by econstructor. Qed.

(** ** Lemmas: sessions *)

Lemma open_uncached o dir σ hist d σ1 :
  block_cache_bytes o = 0 -> clean_disk o dir σ hist -> DB_Open o dir σ = (Ok d, σ1) -> block_cache_ d = None.
Proof.
  intros Hc (Hio & nx & v & ess & log & Hst & Hfit & _ & Hwal & _) E.
  destruct (open_rebuilds o dir σ nx v ess log) as (mem & Eo & _); try done; [lia| |].
  { unfold log_replays. destruct (fs σ !! wal_of (DB_new o dir)); [subst; by apply replay_log|done]. }
  rewrite E in Eo. injection Eo as -> _. cbn. by rewrite Hc.
Qed.

(** What a session leaves is what the next one starts from. *)
Lemma session_clean o dir σ hist s0 tr s σ' :
  usable o -> 1 <= max_levels o < 2 ^ 31 -> clean_disk o dir σ hist -> program_session o dir σ s0 tr s σ' ->
  clean_disk o dir σ' (history hist tr).
Proof.
  intros [Hb Ht Hc] Hl Hcl [(d & σ1 & os & Eo & Hcap & ->) Hrun Hk He Hs].
  destruct (run_durable o Hb Ht Hl dir _ hist tr s (open_durable o dir σ hist d σ1 os Hc Hcl Eo Hcap) Hrun Hk) as (since & Hdu).
  by eapply durable_clean.
Qed.

(** A session without mutations sees the history. *)
Lemma session_reads o dir σ hist s0 tr s σ' j k r :
  usable o -> clean_disk o dir σ hist -> program_session o dir σ s0 tr s σ' -> omap op_record (client_calls tr) = [] ->
  tr !! j = Some (EvClient (CGet k), Some r) ->
  exists recs, forgets (assoc hist k) (assoc recs k) /\ r = (Status_OK, Some (lookup_of (assoc recs k))).
Proof.
  intros [Hb Ht Hc] Hcl [(d & σ1 & os & Eo & Hcap & ->) Hrun Hk _ _] Hm Hj.
  destruct (clean_starts o dir σ hist d σ1 os Hcl Eo Hcap) as (recs0 & Hf0 & Hst).
  destruct (sys_run_inv o Hb Ht dir recs0 _ tr s Hc Hst Hrun) as (left & busy & recs & Htr & _).
  destruct (trace_reads _ _ _ _ _ _ _ Htr Hk Hj) as (recs' & Hf & ->). exists recs'. split; [|done].
  rewrite history_calls in Hf. rewrite <- (take_drop j tr), client_calls_app, omap_app in Hm. apply app_nil in Hm as [Hm _].
  rewrite Hm in Hf. eapply forgets_trans; [apply Hf0|exact Hf].
Qed.

(** ** Lemmas: the dataset *)

Definition build_record (i : Z) : entry := Entry (KeyOf i) (CacheValueOf i) kValue.

(** The disk shows the dataset. *)
Definition holds_dataset (o : Options) (dir : bytes) (N : Z) (σ : World) : Prop :=
  exists hist, clean_disk o dir σ hist /\ forall i, 0 <= i < N -> assoc hist (KeyOf i) = Some (build_record i).

Lemma built N hist tr i :
  0 <= i < N -> N <= 10 ^ 9 -> client_calls tr = build_calls N -> assoc (history hist tr) (KeyOf i) = Some (build_record i).
Proof.
  intros Hi HN E. rewrite history_calls, E. unfold build_calls. rewrite omap_app. cbn [omap list_omap op_record]. rewrite app_nil_r.
  rewrite (omap_map op_record build_put build_record) by done. rewrite assoc_app, (assoc_keyed KeyOf (10 ^ 9) KeyOf_inj) by
    (done || lia || (apply Forall_forall; intros j ?%elem_of_seqZ; lia)).
  rewrite decide_True; [done|]. apply elem_of_seqZ. lia.
Qed.

Lemma drawn_key N draw : 1 <= N -> drawn N draw -> 0 <= draw.2 < N.
Proof.
  unfold drawn, hot. intros HN. destruct draw.1; [|done]. intros Hd. pose proof (Z.div_le_upper_bound N 100 N). lia.
Qed.

Lemma workload_key N reads draws k :
  1 <= N -> Forall (drawn N) draws -> CGet k ∈ warmup_calls reads draws ++ measured_calls reads draws ->
  exists i, 0 <= i < N /\ k = KeyOf i.
Proof.
  intros HN Hd. unfold warmup_calls, measured_calls. rewrite <- map_app.
  intros (draw & [= ->] & Hin)%list_elem_of_fmap. exists draw.2. split; [|done]. apply drawn_key; [done|]. revert draw Hin.
  apply Forall_forall, Forall_app. split; [by apply Forall_take|by apply Forall_take, Forall_drop].
Qed.

Lemma gets_record_nothing draws : omap op_record (map workload_get draws) = [].
Proof. by induction draws. Qed.

Lemma workload_usable cache_bytes : cache_bytes < 2 ^ 63 -> usable (workload_options cache_bytes).
Proof. intros Hc. split; cbn; lia. Qed.

(** Over the dataset every lookup of a workload hits, and the dataset stays. *)
Lemma workload_hits dir cache_bytes N reads draws σ tr rate σ' o :
  1 <= N -> cache_bytes < 2 ^ 63 -> holds_dataset o dir N σ -> RunWorkload dir cache_bytes N reads draws σ tr rate σ' ->
  all_hit N tr /\ holds_dataset o dir N σ'.
Proof.
  intros HN Hc (hist & Hcl & Hset) [(s0 & s & Hs & warm & rest & s1 & before & after & -> & _ & _ & Hw & Hr & _) Hd].
  apply (clean_options _ (workload_options cache_bytes)) in Hcl. pose proof (workload_usable _ Hc) as Hu.
  assert (omap op_record (client_calls (warm ++ rest)) = []) as Hno.
  { rewrite client_calls_app, Hw, Hr, omap_app. unfold warmup_calls, measured_calls. by rewrite !gets_record_nothing. }
  split.
  - intros j k r Hj. destruct (workload_key N reads draws k HN Hd) as (i & Hi & ->).
    { rewrite <- Hw, <- Hr, <- client_calls_app. apply list_elem_of_omap. eexists. split; [by eapply list_elem_of_lookup_2|done]. }
    exists i. split; [done|]. split; [done|].
    destruct (session_reads _ _ _ _ _ _ _ _ _ _ _ Hu Hcl Hs Hno Hj) as (recs & Hf%forgets_lookup & ->).
    rewrite Hset in Hf by done. change (is_tombstone_type (e_type (build_record i))) with false in Hf. by rewrite Hf.
  - apply session_clean with (hist := hist) in Hs; [|done|cbn; lia|done]. rewrite history_calls, Hno in Hs.
    exists hist. split; [|done]. by eapply clean_options.
Qed.

(** With no cache the statistics count nothing. *)
Lemma rate_uncached dir N reads draws σ tr rate σ' o :
  holds_dataset o dir N σ -> RunWorkload dir 0 N reads draws σ tr rate σ' -> rate = S754_zero false.
Proof.
  intros (hist & Hcl & _) [(s0 & s & [(d & σ1 & os & Eo & _ & ->) Hrun _ _ _] & warm & rest & s1 & before & after & _ & Hw & _ & _ & _ & Eb & Ea & ->) _].
  apply (clean_options _ (workload_options 0)) in Hcl. pose proof (open_uncached (workload_options 0) _ _ _ _ _ eq_refl Hcl Eo) as Hd.
  assert (forall t, block_cache_ (s_db t) = None -> forall st, GetStats (s_db t) = Ok st -> cache_hits st = 0 /\ cache_misses st = 0) as Hz.
  { intros t Ht st. unfold GetStats. rewrite Ht. by intros (v & _ & [= <-])%rbind_Ok. }
  destruct (Hz s1 (run_uncached _ _ _ Hw Hd) _ Eb) as [B1 B2]. destruct (Hz s (run_uncached _ _ _ Hrun Hd) _ Ea) as [A1 A2].
  unfold workload_rate. by rewrite A1, A2, B1, B2.
Qed.

(** ** Properties *)

(** C29 (functional). The cache driver compares equals: over any disk, left empty or
    not by the removal of the directory, once the build session has put its dataset
    without a failed put, every lookup of both workloads, warm-up included, finds its
    key with the value that was built, for every sequence of draws, whatever the
    size of the second run's cache, the faults of the system calls and the
    interleaving with the background thread in the three sessions; and the run with
    the cache disabled reports a hit rate of zero. *)
Theorem cache_driver_reads_hit dir N reads σ0 hist0 s0 trb s σ1 draws1 tr1 rate1 σ2 cache_bytes draws2 tr2 rate2 σ3 :
  1 <= N <= 10 ^ 9 -> cache_bytes < 2 ^ 63 -> clean_disk build_options dir σ0 hist0 ->
  program_session build_options dir σ0 s0 trb s σ1 -> client_calls trb = build_calls N ->
  RunWorkload dir 0 N reads draws1 σ1 tr1 rate1 σ2 -> RunWorkload dir cache_bytes N reads draws2 σ2 tr2 rate2 σ3 ->
  all_hit N tr1 /\ rate1 = S754_zero false /\ all_hit N tr2.
Proof.
  intros HN Hc Hcl Hb Hcalls H1 H2. apply session_clean with (hist := hist0) in Hb; [|split; cbn; lia|cbn; lia|done].
  assert (holds_dataset build_options dir N σ1) as Hset by (eexists; split; [exact Hb|]; intros i Hi; by apply built with N; [|lia|]).
  destruct (workload_hits dir 0 N reads draws1 _ _ _ _ _ (proj1 HN) ltac:(lia) Hset H1) as [Hh1 Hset2].
  destruct (workload_hits dir cache_bytes N reads draws2 _ _ _ _ _ (proj1 HN) Hc Hset2 H2) as [Hh2 _].
  split; [done|]. split; [exact (rate_uncached _ _ _ _ _ _ _ _ _ Hset H1)|done].
Qed.

End Sessions.

(** A session of calls in two parts, each flush published at once, with a turn of
    the background thread at the end. *)
Definition two_parts (o : Options) (σ : World) (first second : list client_op) : option (Sys * trace * Sys * trace * Sys) :=
  match @DB_Open plain_os alternating_env o (lit "db") σ with
  | (Ok d, σ1) =>
      match @sys_exec_all plain_os alternating_env (opened d σ1 []) (concat (map call_events first)) with
      | Some (tr1, s1) =>
          match @sys_exec_all plain_os alternating_env s1 (concat (map call_events second) ++ [EvLoop]) with
          | Some (tr2, s2) =>
              if capacity d && forallb (fun x => negb (lost x)) (tr1 ++ tr2) &&
                 match fs (s_world s2) !! wal_path_of (lit "db") with Some f => blen (f_data f) <=? 2 ^ 25 | None => true end
              then Some (opened d σ1 [], tr1, s1, tr2, s2) else None
          | None => None
          end
      | None => None
      end
  | _ => None
  end.

Lemma calls_fit ops : Forall op_fits ops -> Forall event_fits (concat (map call_events ops)).
Proof.
  intros Hf. apply Forall_concat, Forall_map. eapply Forall_impl; [exact Hf|]. intros op Hop. destruct op; by repeat constructor.
Qed.

Lemma two_parts_spec o σ first second s0 tr1 s1 tr2 s2 :
  sync o = false -> Forall op_fits first -> Forall op_fits second -> two_parts o σ first second = Some (s0, tr1, s1, tr2, s2) ->
  @program_session plain_os alternating_env o (lit "db") σ s0 (tr1 ++ tr2) s2 (soft_crash (s_world s2)) /\
  @sys_run plain_os alternating_env s0 tr1 s1 /\ @sys_run plain_os alternating_env s1 tr2 s2.
Proof.
  intros Hsy Hf1 Hf2. unfold two_parts. destruct (DB_Open o (lit "db") σ) as [[d| |] σ1] eqn:Eo; [|done..].
  destruct (sys_exec_all (opened d σ1 []) _) as [[tr1' s1']|] eqn:E1; [|done].
  destruct (sys_exec_all s1' _) as [[tr2' s2']|] eqn:E2; [|done].
  destruct (capacity d && _ && _) eqn:Eb; [|done]. intros [= <- <- <- <- <-]. apply andb_prop in Eb as [[Hc Hl]%andb_prop Hw].
  apply (@sys_exec_all_run plain_os alternating_env (opened d σ1 []) [] (opened d σ1 [])) in E1; [|constructor|by apply calls_fit].
  apply (@sys_exec_all_run plain_os alternating_env s1' [] s1') in E2; [|constructor|apply Forall_app; split; [by apply calls_fit|by repeat constructor]].
  split; [|by split]. split.
  - by exists d, σ1, [].
  - by eapply run_app.
  - apply Forall_forall. intros x Hx%list_elem_of_In. rewrite forallb_forall in Hl. by apply negb_true_iff, Hl.
  - split; [apply soft_crash_ok|]. intros _ p. cbn [soft_crash fs]. rewrite lookup_fmap. by destruct (fs (s_world s2') !! p).
  - intros f. cbn [soft_crash fs]. rewrite lookup_fmap. destruct (fs (s_world s2') !! _) as [g|]; [|done]. cbn. intros [= <-]. cbn. lia.
Qed.

(** A program of three keys, whose workloads warm up with one lookup and measure
    two. *)
Definition sample_draws : list (bool * Z) := [(true, 0); (false, 2); (false, 1)].
Definition sample_workload (cache_bytes : Z) (σ : World) :=
  two_parts (workload_options cache_bytes) σ (warmup_calls 2 sample_draws) (measured_calls 2 sample_draws).

Lemma sample_workload_spec cache_bytes σ s0 tr1 s1 tr2 s2 before after :
  sample_workload cache_bytes σ = Some (s0, tr1, s1, tr2, s2) ->
  client_calls tr1 = warmup_calls 2 sample_draws -> client_calls tr2 = measured_calls 2 sample_draws ->
  GetStats (s_db s1) = Ok before -> GetStats (s_db s2) = Ok after ->
  @RunWorkload plain_os alternating_env (lit "db") cache_bytes 3 2 sample_draws σ (tr1 ++ tr2) (workload_rate before after)
    (soft_crash (s_world s2)).
Proof.
  intros E C1 C2 G1 G2. apply two_parts_spec in E as (Hs & R1 & R2); [|done|by repeat constructor..]. split.
  - exists s0, s2. split; [done|]. by exists tr1, tr2, s1, before, after.
  - repeat constructor; cbn; try lia; done.
Qed.

Definition sample_program : option (list trace * list spec_float) :=
  match two_parts build_options (mkWorld ∅ []) (build_calls 3) [] with
  | Some (_, b1, _, b2, sb) =>
      match sample_workload 0 (soft_crash (s_world sb)) with
      | Some (_, t1, s1, t2, s2) =>
          match sample_workload (16 * 1024 * 1024) (soft_crash (s_world s2)) with
          | Some (_, u1, s3, u2, s4) =>
              match GetStats (s_db s1), GetStats (s_db s2), GetStats (s_db s3), GetStats (s_db s4) with
              | Ok g1, Ok g2, Ok g3, Ok g4 => Some ([b1 ++ b2; t1 ++ t2; u1 ++ u2], [workload_rate g1 g2; workload_rate g3 g4])
              | _, _, _, _ => None
              end
          | None => None
          end
      | None => None
      end
  | None => None
  end.

Lemma cache_driver_reads_hit_witness :
  match sample_program with
  | Some ([_; t; u], [rate; _]) => all_hit 3 t /\ rate = S754_zero false /\ all_hit 3 u
  | _ => False
  end.
Proof.
  unfold sample_program.
  assert (match two_parts build_options (mkWorld ∅ []) (build_calls 3) [] with
          | Some (_, b1, _, b2, sb) => client_calls (b1 ++ b2) = build_calls 3 /\
              match sample_workload 0 (soft_crash (s_world sb)) with
              | Some (_, t1, s1, t2, s2) =>
                  client_calls t1 = warmup_calls 2 sample_draws /\ client_calls t2 = measured_calls 2 sample_draws /\
                  (exists g, GetStats (s_db s1) = Ok g) /\ (exists g, GetStats (s_db s2) = Ok g) /\
                  match sample_workload (16 * 1024 * 1024) (soft_crash (s_world s2)) with
                  | Some (_, u1, s3, u2, s4) =>
                      client_calls u1 = warmup_calls 2 sample_draws /\ client_calls u2 = measured_calls 2 sample_draws /\
                      (exists g, GetStats (s_db s3) = Ok g) /\ exists g, GetStats (s_db s4) = Ok g
                  | None => False
                  end
              | None => False
              end
          | None => False
          end) as Hs.
  { vm_compute. repeat first [split | eexists]. }
  destruct (two_parts build_options _ _ _) as [[[[[b0 b1] sm] b2] sb]|] eqn:Eb; [|destruct Hs]. destruct Hs as [Hcb Hs].
  destruct (sample_workload 0 _) as [[[[[t0 t1] s1] t2] s2]|] eqn:E1; [|destruct Hs]. destruct Hs as (C1 & C2 & [g1 G1] & [g2 G2] & Hs).
  destruct (sample_workload (16 * 1024 * 1024) _) as [[[[[u0 u1] s3] u2] s4]|] eqn:E2; [|destruct Hs].
  destruct Hs as (C3 & C4 & [g3 G3] & [g4 G4]). rewrite G1, G2, G3, G4.
  apply two_parts_spec in Eb as (Hb & _ & _); [|reflexivity| |constructor].
  2: { repeat apply Forall_cons_2; try apply Forall_nil_2; vm_compute; try exact I; discriminate. }
  apply (@cache_driver_reads_hit plain_os alternating_env (lit "db") 3 2 (mkWorld ∅ []) [] b0 (b1 ++ b2) sb (soft_crash (s_world sb))
    sample_draws (t1 ++ t2) (workload_rate g1 g2) (soft_crash (s_world s2)) (16 * 1024 * 1024)
    sample_draws (u1 ++ u2) (workload_rate g3 g4) (soft_crash (s_world s4)));
    [lia|lia|apply empty_clean|exact Hb|exact Hcb|by eapply sample_workload_spec|by eapply sample_workload_spec].
Defined.

(** In this program every measured lookup hits the cache. *)
Example sample_rates : option_map snd sample_program = Some [S754_zero false; int_to_double 1].
Proof. vm_compute. reflexivity. Qed.
