(* ===== verification/DoubleRank.v ===== *)
(** Ranks computed in double arithmetic: [q * n] for a literal [q] below one and a
    size [n], converted to an integer. The product is rounded once; the rounded
    value is within a unit in the last place of the product. *)
From Stdlib Require Import SpecFloat.
From S2P Require Import Prelude Types Bloom.

(** [static_cast<size_t>] of a double: towards zero; out of range is undefined. *)
Definition to_size (x : spec_float) : result Z :=
  match x with
  | S754_zero _ => Ok 0
  | S754_finite s m e =>
      let a := if 0 <=? e then Z.shiftl (Zpos m) e else Z.shiftr (Zpos m) (- e) in
      if s then (if a =? 0 then Ok 0 else UB) else if a <? 2 ^ 64 then Ok a else UB
  | _ => UB
  end.

(** ** Digits and shifts *)

Lemma Zdigits2_log2 m : 0 < m -> Zdigits2 m = Z.log2 m + 1.
Proof.
  destruct m as [|p|]; try done. intros _. cbn [Zdigits2]. assert (forall r, digits2_pos r = Pos.size r) as E.
  { induction r as [r IH|r IH|]; cbn; congruence. }
  rewrite E. destruct p as [p|p|]; cbn; lia.
Qed.

(** A number of [D] digits. *)
Lemma digits_range m D : 0 < m -> Z.log2 m + 1 = D -> 2 ^ (D - 1) <= m < 2 ^ D.
Proof. intros Hm <-. pose proof (Z.log2_spec m Hm). replace (Z.log2 m + 1 - 1) with (Z.log2 m) by lia. by rewrite <- Z.add_1_r in *. Qed.

Lemma shr_1_half r : 0 <= shr_m r -> shr_m (shr_1 r) = shr_m r / 2.
Proof.
  destruct r as [m b s]. cbn [shr_m]. intros Hm. unfold shr_1. destruct m as [|[p|p|]|p]; cbn [shr_m]; try lia; try done.
  - rewrite Pos2Z.inj_xI. rewrite Z.add_comm, Z.mul_comm, Z.div_add by lia. done.
  - rewrite Pos2Z.inj_xO. rewrite Z.mul_comm, Z.div_mul by lia. done.
Qed.

Lemma iter_shr p r : 0 <= shr_m r -> shr_m (SpecFloat.iter_pos shr_1 p r) = shr_m r / 2 ^ Zpos p.
Proof.
  revert r. assert (forall a b m, 0 < a -> 0 < b -> m / 2 ^ a / 2 ^ b = m / 2 ^ (a + b)) as Hd.
  { intros a b m Ha Hb. rewrite Z.div_div, <- Z.pow_add_r by lia. done. }
  assert (forall m a b, a = b -> m / 2 ^ a = m / 2 ^ b) as Hx by (by intros m a b ->).
  induction p as [p IH|p IH|]; intros r Hr; cbn [SpecFloat.iter_pos].
  - assert (0 <= shr_m (shr_1 r)) as H1 by (rewrite shr_1_half by done; apply Z.div_pos; lia).
    rewrite IH; rewrite IH, ?shr_1_half by done; [|repeat apply Z.div_pos; lia].
    change (shr_m r / 2) with (shr_m r / 2 ^ 1). rewrite !Hd by lia. apply Hx. lia.
  - rewrite IH; rewrite IH by done; [|apply Z.div_pos; lia]. rewrite Hd by lia. apply Hx. lia.
  - by rewrite shr_1_half.
Qed.

(** A shift to 53 digits. *)
Lemma shr_fexp_floor m e :
  0 < m -> 53 <= Z.log2 m + 1 -> -1000 <= e -> exists r,
    shr_fexp 53 1024 m e loc_Exact = (r, e + (Z.log2 m - 52)) /\ shr_m r = m / 2 ^ (Z.log2 m - 52) /\
    (Z.log2 m = 52 -> loc_of_shr_record r = loc_Exact).
Proof.
  intros Hm HD He. unfold shr_fexp. rewrite Zdigits2_log2 by done. unfold fexp. change (emin 53 1024) with (-1074).
  rewrite Z.max_l by lia. replace (Z.log2 m + 1 + e - 53 - e) with (Z.log2 m - 52) by lia. cbn [shr_record_of_loc].
  destruct (Z.log2 m - 52) as [|p|p] eqn:Ep; [| |lia]; cbn [shr].
  - eexists. rewrite Z.add_0_r. split; [done|]. cbn [shr_m]. by rewrite Z.div_1_r.
  - eexists. split; [done|]. split; [by rewrite iter_shr by (cbn; lia)|]. intros E. lia.
Qed.

(** ** Rounding *)

(** The rounded value of a mantissa of at least 53 digits is less than a unit in
    the last place away. *)
Lemma round_bounds m e :
  0 < m -> 52 <= Z.log2 m <= 200 -> -1000 <= e <= 500 -> exists m' j,
    binary_round_aux 53 1024 false m e loc_Exact = S754_finite false m' (e + j) /\ 0 <= j /\
    m - 2 ^ (Z.log2 m - 52) < Zpos m' * 2 ^ j <= m + 2 ^ (Z.log2 m - 52) /\
    (Z.log2 m = 52 -> Zpos m' = m /\ j = 0).
Proof.
  intros Hm HD He. unfold binary_round_aux. set (k := Z.log2 m - 52).
  destruct (shr_fexp_floor m e) as (r & -> & Hr & Hx); [lia..|]. fold k in Hr |- *.
  assert (0 < 2 ^ k) as Hk by (apply Z.pow_pos_nonneg; lia).
  pose proof (digits_range m _ Hm eq_refl) as Hdig. replace (Z.log2 m + 1 - 1) with (52 + k) in Hdig by lia.
  replace (Z.log2 m + 1) with (53 + k) in Hdig by lia. rewrite !Z.pow_add_r in Hdig by lia.
  pose proof (Z.div_mod m (2 ^ k) ltac:(lia)) as Hdm. pose proof (Z.mod_pos_bound m (2 ^ k) Hk) as Hmod.
  rewrite <- Hr in Hdm. assert (2 ^ 52 <= shr_m r < 2 ^ 53) as Hq by nia.
  set (m1 := round_nearest_even (shr_m r) (loc_of_shr_record r)).
  assert (shr_m r <= m1 <= shr_m r + 1 /\ (k = 0 -> m1 = shr_m r)) as [Hm1 Hm1'].
  { unfold m1. split; [|intros Hk0; by rewrite Hx by lia]. unfold round_nearest_even. destruct (loc_of_shr_record r) as [|[]]; try lia.
    destruct (Z.even _); lia. }
  assert (m - 2 ^ k < m1 * 2 ^ k <= m + 2 ^ k) as Hv by nia. clearbody m1.
  assert (52 <= Z.log2 m1) as Hl1 by (apply Z.log2_le_pow2; lia).
  destruct (shr_fexp_floor m1 (e + k)) as (r2 & -> & Hr2 & _); [lia..|].
  destruct (decide (m1 = 2 ^ 53)) as [->|Hne].
  - change (Z.log2 (2 ^ 53)) with 53 in *. change (2 ^ 53 / 2 ^ (53 - 52)) with (2 ^ 52) in Hr2. rewrite Hr2.
    change (2 ^ 52) with (Zpos 4503599627370496). zbool. exists 4503599627370496%positive, (k + 1).
    split; [f_equal; lia|]. split; [lia|]. rewrite Z.pow_add_r by lia. change (Zpos 4503599627370496) with (2 ^ 52).
    split; [lia|]. intros E. unfold k in Hm1'. specialize (Hm1' ltac:(lia)). lia.
  - assert (Z.log2 m1 = 52) as Hl by (apply Z.log2_unique; lia). rewrite Hl in *. change (52 - 52) with 0 in *.
    rewrite Z.div_1_r in Hr2. rewrite Hr2. destruct m1 as [|p|p]; [lia| |lia]. zbool. exists p, k. rewrite Z.add_0_r.
    split; [done|]. split; [lia|]. split; [done|]. intros E. assert (k = 0) as E0 by lia. split; [|done].
    rewrite E0, Z.div_1_r in Hr. rewrite Hm1', Hr by done. done.
Qed.

Lemma iter_double p d : Zpos (Pos.iter xO p d) = Zpos p * 2 ^ Zpos d.
Proof.
  revert p. induction d as [|d IH] using Pos.peano_ind; intros p; [cbn; lia|]. rewrite Pos.iter_succ, Pos2Z.inj_succ, Z.pow_succ_r by lia.
  rewrite Pos2Z.inj_xO, IH. lia.
Qed.

(** An integer below 2^53 is converted exactly. *)
Lemma int_to_double_exact n :
  0 < n < 2 ^ 53 -> exists m, int_to_double n = S754_finite false m (Z.log2 n - 52) /\ Zpos m = n * 2 ^ (52 - Z.log2 n).
Proof.
  intros Hn. destruct n as [|p|p]; [lia| |lia]. unfold int_to_double, binary_normalize, binary_round.
  pose proof (Zdigits2_log2 (Zpos p) ltac:(lia)) as Hd. cbn [Zdigits2] in Hd. rewrite Hd, Z.add_0_r.
  assert (0 <= Z.log2 (Zpos p) < 53) as Hl by (split; [apply Z.log2_nonneg|apply Z.log2_lt_pow2; lia]).
  unfold fexp. change (emin 53 1024) with (-1074). rewrite Z.max_l by lia.
  replace (Z.log2 (Zpos p) + 1 - 53) with (Z.log2 (Zpos p) - 52) by lia. set (l := Z.log2 (Zpos p)) in *.
  assert (exists q, shl_align p 0 (l - 52) = (q, l - 52) /\ Zpos q = Zpos p * 2 ^ (52 - l)) as (q & -> & Hq).
  { unfold shl_align. rewrite Z.sub_0_r. destruct (l - 52) as [|d|d] eqn:E; [|lia|].
    - exists p. split; [done|]. replace (52 - l) with 0 by lia. lia.
    - eexists. split; [done|]. rewrite iter_double. do 2 f_equal. lia. }
  assert (Z.log2 (Zpos q) = 52) as Hlq.
  { rewrite Hq. rewrite Z.log2_mul_pow2 by lia. fold l. lia. }
  destruct (round_bounds (Zpos q) (l - 52)) as (m & j & -> & _ & _ & Hx); [lia..|]. destruct (Hx Hlq) as [Hm ->].
  exists m. rewrite Z.add_0_r, Hm. done.
Qed.

(** ** Ranks *)

(** The integer part of [m * 2^(e + j)] for a negative [e]. *)
Lemma to_size_floor m e j :
  e <= 0 -> 0 <= j -> Zpos m * 2 ^ j < 2 ^ 64 * 2 ^ (- e) ->
  to_size (S754_finite false m (e + j)) = Ok (Zpos m * 2 ^ j / 2 ^ (- e)).
Proof.
  intros He Hj Hb. assert (0 < 2 ^ (- e)) as Hp by (apply Z.pow_pos_nonneg; lia). unfold to_size.
  assert ((if 0 <=? e + j then Z.shiftl (Zpos m) (e + j) else Z.shiftr (Zpos m) (- (e + j))) = Zpos m * 2 ^ j / 2 ^ (- e)) as ->.
  { destruct (Z.leb_spec 0 (e + j)).
    - assert (2 ^ j = 2 ^ (e + j) * 2 ^ (- e)) as -> by (rewrite <- Z.pow_add_r by lia; f_equal; lia).
      by rewrite Z.shiftl_mul_pow2, Z.mul_assoc, Z.div_mul by lia.
    - assert (2 ^ (- e) = 2 ^ j * 2 ^ (- (e + j))) as -> by (rewrite <- Z.pow_add_r by lia; f_equal; lia).
      rewrite Z.shiftr_div_pow2, (Z.mul_comm (Zpos m)) by lia. rewrite Z.div_mul_cancel_l; [done| |]; apply Z.pow_nonzero; lia. }
  destruct (Z.ltb_spec (Zpos m * 2 ^ j / 2 ^ (- e)) (2 ^ 64)) as [|Hge]; [done|].
  pose proof (Z.mul_div_le (Zpos m * 2 ^ j) (2 ^ (- e)) Hp). nia.
Qed.

(** The rank [q * n] for [q = mq / 2^53] between a half and one. *)
Lemma rank_bounds mq n :
  2 ^ 52 <= Zpos mq < 2 ^ 53 -> 0 < n < 2 ^ 53 -> exists i,
    to_size (SFmul 53 1024 (S754_finite false mq (-53)) (int_to_double n)) = Ok i /\ 0 <= i /\
    i * 2 ^ 53 <= (Zpos mq + 2) * n /\ (Zpos mq - 2) * n < (i + 1) * 2 ^ 53.
Proof.
  intros Hq Hn. destruct (int_to_double_exact n Hn) as (mn & -> & Hmn). cbn [SFmul xorb].
  assert (0 <= Z.log2 n < 53) as Hl by (split; [apply Z.log2_nonneg|apply Z.log2_lt_pow2; lia]).
  pose proof (digits_range n _ ltac:(lia) eq_refl) as Hdn. replace (Z.log2 n + 1 - 1) with (Z.log2 n) in Hdn by lia. set (l := Z.log2 n) in *.
  replace (Zpos (mq * mn)) with (Zpos mq * Zpos mn) by lia. rewrite Hmn.
  set (c := 2 ^ (52 - l)) in *. assert (2 ^ 52 = c * 2 ^ l) as Hc by (unfold c; rewrite <- Z.pow_add_r by lia; f_equal; lia).
  assert (0 < c) as Hc0 by (apply Z.pow_pos_nonneg; lia). assert (0 < 2 ^ l) as Hl0 by (apply Z.pow_pos_nonneg; lia).
  rewrite Z.pow_add_r in Hdn by lia. set (P := Zpos mq * (n * c)).
  assert (2 ^ 52 <= n * c < 2 ^ 53) as Hnc by (change (2 ^ 53) with (2 ^ 52 * 2); rewrite Hc; nia).
  assert (2 ^ 104 <= P < 2 ^ 106) as HP by (unfold P; change (2 ^ 104) with (2 ^ 52 * 2 ^ 52); change (2 ^ 106) with (2 ^ 53 * 2 ^ 53); nia).
  assert (104 <= Z.log2 P < 106) as HlP by (split; [apply Z.log2_le_pow2; lia|apply Z.log2_lt_pow2; lia]).
  destruct (round_bounds P (-53 + (l - 52))) as (m' & j & -> & Hj & Hb & _); [lia..|].
  assert (2 ^ (Z.log2 P - 52) <= 2 ^ 53) as Hu by (apply Z.pow_le_mono_r; lia).
  assert (2 ^ (- (-53 + (l - 52))) = c * 2 ^ 53) as He by (unfold c; rewrite <- Z.pow_add_r by lia; f_equal; lia).
  set (v := Zpos m' * 2 ^ j) in *. assert (v <= P + 2 ^ 53 /\ P - 2 ^ 53 < v) as [Hv1 Hv2] by lia. fold v.
  eexists. split; [apply to_size_floor; [lia|lia|]|].
  { fold v. rewrite He. assert (1 <= c) by lia. nia. }
  fold v. rewrite He. set (i := v / (c * 2 ^ 53)).
  pose proof (Z.mul_div_le v (c * 2 ^ 53) ltac:(lia)) as Hi1. pose proof (Z.mul_succ_div_gt v (c * 2 ^ 53) ltac:(lia)) as Hi2. fold i in Hi1, Hi2.
  assert (2 ^ 53 <= 2 * n * c) as Hcn by lia.
  split; [apply Z.div_pos; [unfold v; nia|lia]|]. split.
  - apply Z.mul_le_mono_pos_r with c; [done|]. unfold P in Hv1. nia.
  - apply Z.mul_lt_mono_pos_r with c; [done|]. unfold P in Hv2. nia.
Qed.

(** For a literal close to [a / b], the rank is that share of the size, rounded
    down, or one less. *)
Definition share (a b n i : Z) : Prop := 0 <= i < n /\ b * i <= a * n <= b * (i + 1).

Lemma rank_share mq a b n :
  2 ^ 52 <= Zpos mq < 2 ^ 53 -> 0 < a < b -> b <= 1000 -> - b <= b * Zpos mq - a * 2 ^ 53 <= b -> 0 < n < 2 ^ 40 -> exists i,
    to_size (SFmul 53 1024 (S754_finite false mq (-53)) (int_to_double n)) = Ok i /\ share a b n i.
Proof.
  intros Hq Hab Hb Hm Hn. destruct (rank_bounds mq n Hq ltac:(lia)) as (i & -> & Hi & H1 & H2). exists i. split; [done|].
  assert (b * n <= 1000 * n) as Hbn by nia. assert (b * i <= a * n) as Hle by nia.
  split; [split; [done|nia]|]. split; [done|]. nia.
Qed.
