(* ===== verification/DriverPercentiles.v ===== *)
(** The latency summaries of the drivers: [Summarize] of bench/bench_vs_rocksdb.cpp
    and [ReportPercentiles] of bench/bench_gbench.cpp, whose ranks are computed in
    double arithmetic, and the percentiles of [RunWorkload] of bench/bench_cache.cpp,
    whose ranks are integers.

    A latency is a difference of two readings of a clock that counts nanoseconds,
    converted to [double]; the conversion is exact below 2^53 nanoseconds (a
    hundred days), so a latency is an integer here and compares like one. *)
From Stdlib Require Import SpecFloat.
From S2P Require Import Prelude Types Bloom Version Leveling DoubleRank.

(** ** Ranks *)

(** The doubles nearest to the literals 0.50, 0.99 and 0.999. *)
Definition q50 : spec_float := S754_finite false 4503599627370496 (-53).
Definition q99 : spec_float := S754_finite false 8917127262193582 (-53).
Definition q999 : spec_float := S754_finite false 8998192055486251 (-53).

(** The lambda [pct] of [Summarize]; [lat_ns.size() - 1] wraps for an empty
    vector. *)
Definition pct (lat_ns : list Z) (q : spec_float) : result Z :=
  let* i := to_size (SFmul 53 1024 q (int_to_double (blen lat_ns))) in
  let i := if blen lat_ns <=? i then blen lat_ns -u64 1 else i in
  at_index lat_ns i.

Record Metrics := mkMetrics { ops_per_sec : spec_float; p50 : Z; p99 : Z; p999 : Z }.

(** [Summarize]. *)
Definition Summarize (lat_ns : list Z) (elapsed_s : spec_float) : result Metrics :=
  let lat_ns := std_sort Z.ltb lat_ns in
  let* a := pct lat_ns q50 in
  let* b := pct lat_ns q99 in
  let* c := pct lat_ns q999 in
  Ok (mkMetrics (SFdiv 53 1024 (int_to_double (blen lat_ns)) elapsed_s) a b c).

(** [ReportPercentiles]: the three counters, or none for no latencies. *)
Definition report_pct (lat : list Z) (q : spec_float) : result Z :=
  let* i := to_size (SFmul 53 1024 q (int_to_double (blen lat))) in
  at_index lat (Z.min i (blen lat -u64 1)).

Definition ReportPercentiles (lat : list Z) : result (option (Z * Z * Z)) :=
  if bool_decide (lat = []) then Ok None
  else
    let lat := std_sort Z.ltb lat in
    let* a := report_pct lat q50 in
    let* b := report_pct lat q99 in
    let* c := report_pct lat q999 in
    Ok (Some (a, b, c)).

(** The percentiles of [RunWorkload]: [lat[lat.size() * 50 / 100]] and the same
    with 99. *)
Definition cache_percentiles (lat : list Z) : result (Z * Z) :=
  let lat := std_sort Z.ltb lat in
  let* a := at_index lat ((blen lat *u64 50) / 100) in
  let* b := at_index lat ((blen lat *u64 99) / 100) in
  Ok (a, b).

(** ** Lemmas *)

Lemma sort_insert_sorted x l : StronglySorted Z.le l -> StronglySorted Z.le (sort_insert Z.ltb x l).
Proof.
  induction 1 as [|y l Hl IH Hy]; cbn [sort_insert]; [by repeat constructor|]. destruct (Z.ltb_spec y x).
  - constructor; [done|]. rewrite (sort_insert_perm Z.ltb). constructor; [lia|done].
  - constructor; [by constructor|]. constructor; [lia|]. eapply Forall_impl; [exact Hy|]. simpl. lia.
Qed.

Lemma std_sort_sorted l : StronglySorted Z.le (std_sort Z.ltb l).
Proof. induction l as [|x l IH]; [constructor|]. by apply sort_insert_sorted. Qed.

Lemma std_sort_blen l : blen (std_sort Z.ltb l) = blen l.
Proof. unfold blen. by rewrite (Permutation_length (std_sort_perm Z.ltb l)). Qed.

(** Ranks in range, in order. *)
Lemma sorted_ranks l i : StronglySorted Z.le l -> 0 <= i < blen l -> exists x, at_index l i = Ok x /\ x ∈ l /\
  forall j y, i <= j -> at_index l j = Ok y -> x <= y.
Proof.
  intros Hs Hi. unfold at_index. zbool. destruct (lookup_lt_is_Some_2 l (Z.to_nat i)) as [x Hx]; [unfold blen in Hi; lia|].
  exists x. rewrite Hx. split; [done|]. split; [by eapply list_elem_of_lookup_2|]. intros j y Hj. zbool.
  destruct (l !! Z.to_nat j) as [z|] eqn:Ez; [|done]. intros [= <-]. destruct (decide (Z.to_nat i = Z.to_nat j)) as [E|E]; [rewrite E in Hx; simplify_eq; lia|].
  clear -Hs Hx Ez Hj E. assert (Z.to_nat i < Z.to_nat j)%nat as Hlt by lia. revert Hlt Hx Ez. generalize (Z.to_nat i) (Z.to_nat j). clear -Hs.
  induction Hs as [|h t _ IH Hh]; intros [|i] [|j] Hlt Hi Hj; try done; try lia; cbn in *.
  - injection Hi as ->. rewrite Forall_forall in Hh. eapply Hh, list_elem_of_lookup_2, Hj.
  - eapply IH; [|done..]. lia.
Qed.

(** Each percentile is the entry at its share of the sorted latencies. *)
Lemma pct_share l mq a b :
  2 ^ 52 <= Zpos mq < 2 ^ 53 -> 0 < a < b -> b <= 1000 -> - b <= b * Zpos mq - a * 2 ^ 53 <= b -> 0 < blen l < 2 ^ 40 -> exists i,
    share a b (blen l) i /\ pct l (S754_finite false mq (-53)) = at_index l i /\ report_pct l (S754_finite false mq (-53)) = at_index l i.
Proof.
  intros Hq Hab Hb Hm Hl. destruct (rank_share mq a b (blen l) Hq Hab Hb Hm Hl) as (i & E & Hi & Hs). exists i. split; [done|].
  unfold pct, report_pct. rewrite E. cbn [rbind]. zbool. split; [done|]. by rewrite u64_small, Z.min_l by lia.
Qed.

Lemma summary_spec lat elapsed :
  0 < blen lat < 2 ^ 40 ->
  let sorted := std_sort Z.ltb lat in
  exists m i j k, Summarize lat elapsed = Ok m /\ ReportPercentiles lat = Ok (Some (p50 m, p99 m, p999 m)) /\
    share 1 2 (blen lat) i /\ share 99 100 (blen lat) j /\ share 999 1000 (blen lat) k /\
    at_index sorted i = Ok (p50 m) /\ at_index sorted j = Ok (p99 m) /\ at_index sorted k = Ok (p999 m) /\
    p50 m ∈ lat /\ p99 m ∈ lat /\ p999 m ∈ lat /\ p50 m <= p99 m <= p999 m.
Proof.
  intros Hl sorted. pose proof (std_sort_sorted lat) as Hs. pose proof (std_sort_blen lat) as Hn. fold sorted in Hs, Hn.
  assert (forall x, x ∈ sorted -> x ∈ lat) as Hin by (intros x; unfold sorted; by rewrite (std_sort_perm Z.ltb lat)).
  rewrite <- Hn in Hl |- *.
  destruct (pct_share sorted 4503599627370496 1 2) as (i & Hi & P1 & R1); [lia..|].
  destruct (pct_share sorted 8917127262193582 99 100) as (j & Hj & P2 & R2); [lia..|].
  destruct (pct_share sorted 8998192055486251 999 1000) as (k & Hk & P3 & R3); [lia..|].
  fold q50 in P1, R1. fold q99 in P2, R2. fold q999 in P3, R3. pose proof Hi as [Hi0 Hi1]. pose proof Hj as [Hj0 Hj1]. pose proof Hk as [Hk0 Hk1].
  destruct (sorted_ranks _ i Hs Hi0) as (a & Ea & Ha & Hab). destruct (sorted_ranks _ j Hs Hj0) as (b & Eb & Hb & Hbc).
  destruct (sorted_ranks _ k Hs Hk0) as (c & Ec & Hc & _).
  exists (mkMetrics (SFdiv 53 1024 (int_to_double (blen sorted)) elapsed) a b c), i, j, k. cbn [p50 p99 p999].
  assert (lat <> []) as Hne by (intros E; rewrite E, blen_nil in Hn; lia).
  unfold Summarize, ReportPercentiles. fold sorted. rewrite bool_decide_eq_false_2 by done.
  rewrite P1, P2, P3, R1, R2, R3, Ea, Eb, Ec. cbn [rbind].
  split_and!; auto; [eapply Hab; [|exact Eb]; lia|eapply Hbc; [|exact Ec]; lia].
Qed.

Lemma cache_percentiles_spec lat :
  0 < blen lat < 2 ^ 40 -> exists a b, cache_percentiles lat = Ok (a, b) /\ a ∈ lat /\ b ∈ lat /\ a <= b.
Proof.
  intros Hl. pose proof (std_sort_sorted lat) as Hs. pose proof (std_sort_blen lat) as Hn. set (sorted := std_sort Z.ltb lat) in *.
  assert (forall x, x ∈ sorted -> x ∈ lat) as Hin by (intros x; unfold sorted; by rewrite (std_sort_perm Z.ltb lat)).
  unfold cache_percentiles. fold sorted. rewrite Hn, !u64_small by lia. rewrite <- Hn in *. set (n := blen sorted) in *.
  assert (0 <= n * 50 / 100 /\ n * 50 / 100 <= n * 99 / 100 /\ n * 99 / 100 < n) as (R1 & R2 & R3).
  { split_and!; [apply Z.div_pos; lia|apply Z.div_le_mono; lia|apply Z.div_lt_upper_bound; lia]. }
  destruct (sorted_ranks _ (n * 50 / 100) Hs) as (a & Ea & Ha & Hab); [unfold n in *; lia|].
  destruct (sorted_ranks _ (n * 99 / 100) Hs) as (b & Eb & Hb & _); [unfold n in *; lia|].
  rewrite Ea, Eb. cbn [rbind]. exists a, b. split_and!; auto. eapply Hab; [|exact Eb]. done.
Qed.

(** ** Properties *)

(** C33 (bounds). The summaries read inside their vectors, for every number of
    latencies from one to 2^40. The double arithmetic of [Summarize] and
    [ReportPercentiles] lands on ranks below the size, each the exact share of the
    size rounded down or, where rounding strikes, one less; their percentiles are
    measured latencies in ascending order, and both functions report the same. The
    integer ranks of the cache driver are in range and in order too. *)
Theorem percentiles_in_range lat elapsed :
  0 < blen lat < 2 ^ 40 ->
  let sorted := std_sort Z.ltb lat in
  (exists m i j k, Summarize lat elapsed = Ok m /\ ReportPercentiles lat = Ok (Some (p50 m, p99 m, p999 m)) /\
     share 1 2 (blen lat) i /\ share 99 100 (blen lat) j /\ share 999 1000 (blen lat) k /\
     at_index sorted i = Ok (p50 m) /\ at_index sorted j = Ok (p99 m) /\ at_index sorted k = Ok (p999 m) /\
     p50 m ∈ lat /\ p99 m ∈ lat /\ p999 m ∈ lat /\ p50 m <= p99 m <= p999 m) /\
  exists a b, cache_percentiles lat = Ok (a, b) /\ a ∈ lat /\ b ∈ lat /\ a <= b.
Proof. intros Hl sorted. split; [by apply summary_spec|by apply cache_percentiles_spec]. Qed.

Lemma percentiles_in_range_witness :
  exists m i j k, Summarize [30; 10; 20; 40] (int_to_double 1) = Ok m /\
    ReportPercentiles [30; 10; 20; 40] = Ok (Some (p50 m, p99 m, p999 m)) /\
    share 1 2 4 i /\ share 99 100 4 j /\ share 999 1000 4 k.
Proof.
  destruct (percentiles_in_range [30; 10; 20; 40] (int_to_double 1)) as [(m & i & j & k & Hs & Hr & Hi & Hj & Hk & _) _].
  - vm_compute. split; reflexivity.
  - exists m, i, j, k. split_and!; [exact Hs|exact Hr|exact Hi|exact Hj|exact Hk].
Defined.

(** The number of latencies that each workload of the comparison measures: the
    ranks are exact. *)
Example ranks_of_kN :
  to_size (SFmul 53 1024 q50 (int_to_double 200000)) = Ok 100000 /\
  to_size (SFmul 53 1024 q99 (int_to_double 200000)) = Ok 198000 /\
  to_size (SFmul 53 1024 q999 (int_to_double 200000)) = Ok 199800.
Proof. vm_compute. repeat split. Qed.

(** The summary of no latencies reads outside the vector. *)
Example summary_of_nothing elapsed : Summarize [] elapsed = UB.
Proof.
  assert (pct [] q50 = UB) as E; [|unfold Summarize; cbn [std_sort foldr]; by rewrite E].
  unfold pct. change (to_size (SFmul 53 1024 q50 (int_to_double (blen (@nil Z))))) with (Ok 0). cbn [rbind].
  unfold at_index. rewrite lookup_nil. by destruct (0 <=? _).
Qed.
