(* ===== verification/DriverReports.v ===== *)
(** What the drivers measure and report: the timed workloads ([Runner]) and the two
    halves of bench/bench_vs_rocksdb.cpp, the benchmarks of bench/bench_gbench.cpp,
    the report of bench/bench_compaction.cpp and the summary of [RunWorkload] of
    bench/bench_cache.cpp. A database is driven only through its calls, which are
    collected here; RocksDB is known by the calls that it gets and by its two
    counters of written bytes. The clock is a sequence of readings. *)
From Stdlib Require Import SpecFloat.
From S2P Require Import Prelude Types Bloom SkipList Posix TableFormat Version Db DbInvariant Leveling.
From S2P Require Import Recovery Background Refinement Stats.
From S2P Require Import DriverKeys DriverLoad DriverCache DoubleRank DriverPercentiles.

(** ** The clock *)

(** [Clock::now()]: the readings of [std::chrono::steady_clock] in nanoseconds, by
    their number. *)
Class Clock := { now : nat -> Z }.

(** A steady clock does not run backwards. *)
Definition steady (C : Clock) : Prop := forall i j, (i <= j)%nat -> now i <= now j.

(** [std::chrono::duration<double>] of a difference of readings. *)
Definition seconds (ns : Z) : spec_float := SFdiv 53 1024 (int_to_double ns) (int_to_double (10 ^ 9)).

Section Reports.
Context `{Clock}.

(** A loop of calls with a reading before and one after each: the latencies and the
    number of the next reading. *)
Fixpoint timed (calls : list client_op) (n : nat) : list Z * nat :=
  match calls with
  | [] => ([], n)
  | _ :: calls' =>
      let a := now n in
      let ns := now (S n) - a in
      let '(lat, n') := timed calls' (S (S n)) in
      (ns :: lat, n')
  end.

(** ** The comparison with RocksDB *)

(** The frame of the four workloads: the calls made and the summary. *)
Definition workload (calls : list client_op) (n : nat) : result (list client_op * Metrics * nat) :=
  let t0 := now n in
  let '(lat, n) := timed calls (S n) in
  let el := seconds (now n - t0) in
  let* m := Summarize lat el in
  Ok (calls, m, S n).

Definition Runner_SeqWrite (kN : Z) (n : nat) := workload (map vs_put (seqZ 0 kN)) n.
Definition Runner_RandomWrite (order : list Z) (n : nat) := workload (RandomWrite order) n.
Definition Runner_Reads (order : list Z) (n : nat) := workload (Reads order) n.
Definition Runner_Mixed (order : list Z) (coins : list bool) (n : nat) := workload (Mixed order coins) n.

(** The two databases of a half of [main], and the steps of [main] on them: opening
    one, a call (for RocksDB that of the same name), [TEST_WaitForCompactions],
    reading the counters for the write amplification, and deleting the database. *)
Inductive vs_db := VsA | VsB.
Inductive vs_step :=
| VsOpen (db : vs_db) | VsCall (db : vs_db) (op : client_op) | VsWait (db : vs_db) | VsCounters (db : vs_db) | VsDelete (db : vs_db).

(** What a half of [main] does, and the rows that it prints. The generator of [Mixed]
    is seeded anew for each half. *)
Record VsHalf := mkVsHalf { steps : list vs_step; rows : list (bytes * Metrics) }.

(** The half of lsmdb; its databases are deleted at the end of the block, the second
    one first. *)
Definition lsmdb_half (kN : Z) (rnd : list Z) (coins : list bool) (n : nat) : result (VsHalf * nat) :=
  let open := [VsOpen VsA] in
  let* (c1, rw, n) := Runner_RandomWrite rnd n in
  let flush := [VsCall VsA CFlush; VsWait VsA] in
  let* (c2, rr, n) := Runner_Reads rnd n in
  let seq := seqZ 0 kN in
  let* (c3, sr, n) := Runner_Reads seq n in
  let* (c4, mx, n) := Runner_Mixed rnd coins n in
  let counters := [VsCounters VsA] in
  let open2 := [VsOpen VsB] in
  let* (c5, sw, n) := Runner_SeqWrite kN n in
  let on db := map (VsCall db) in
  Ok (mkVsHalf (open ++ on VsA c1 ++ flush ++ on VsA c2 ++ on VsA c3 ++ on VsA c4 ++ counters ++ open2 ++ on VsB c5
                ++ [VsDelete VsB; VsDelete VsA])
        [(lit "seq-write", sw); (lit "random-write", rw); (lit "seq-read", sr); (lit "random-read", rr);
         (lit "mixed-50/50", mx)], n).

(** The half of RocksDB; [db->Flush(fo)] is its flush. *)
Definition rocks_half (kN : Z) (rnd : list Z) (coins : list bool) (n : nat) : result (VsHalf * nat) :=
  let open := [VsOpen VsA] in
  let* (c1, rw, n) := Runner_RandomWrite rnd n in
  let flush := [VsCall VsA CFlush] in
  let* (c2, rr, n) := Runner_Reads rnd n in
  let seq := seqZ 0 kN in
  let* (c3, sr, n) := Runner_Reads seq n in
  let* (c4, mx, n) := Runner_Mixed rnd coins n in
  let counters := [VsCounters VsA; VsDelete VsA] in
  let open2 := [VsOpen VsB] in
  let* (c5, sw, n) := Runner_SeqWrite kN n in
  let on db := map (VsCall db) in
  Ok (mkVsHalf (open ++ on VsA c1 ++ flush ++ on VsA c2 ++ on VsA c3 ++ on VsA c4 ++ counters ++ open2 ++ on VsB c5
                ++ [VsDelete VsB])
        [(lit "seq-write", sw); (lit "random-write", rw); (lit "seq-read", sr); (lit "random-read", rr);
         (lit "mixed-50/50", mx)], n).

(** The write amplification that the RocksDB half computes from the counters
    [FLUSH_WRITE_BYTES] and [COMPACT_WRITE_BYTES]. *)
Definition rocks_user_b (kN : Z) : Z := u64 kN *u64 (13 + Z.of_nat kValueSize).
Definition rocks_wamp (kN flush_b compact_b : Z) : spec_float :=
  let user_b := rocks_user_b kN in
  if user_b =? 0 then S754_zero false
  else SFdiv 53 1024 (int_to_double (flush_b +u64 compact_b)) (int_to_double user_b).

(** [main]: the half of lsmdb, whose write amplification is that of [GetStats], and
    the half of RocksDB. *)
Definition vs_main (kN : Z) (rnd : list Z) (coins : list bool) (flush_b compact_b : Z) (n : nat)
  : result (VsHalf * VsHalf * spec_float) :=
  let* (lsmdb, n) := lsmdb_half kN rnd coins n in
  let* (rocks, n) := rocks_half kN rnd coins n in
  Ok (lsmdb, rocks, rocks_wamp kN flush_b compact_b).

(** ** Google Benchmark *)

(** [KeyOf] and [ValueOf] of bench_gbench.cpp, its options and its prepared
    database. *)
Definition GbKeyOf (n : Z) : bytes := snprintf 16 (lit "key" ++ format_d 10 n).
Definition GbValueOf (n : Z) : bytes := resize (format_d 0 n ++ lit "#") 100 Byte.x76.

Definition gb_options : Options :=
  mkOptions false (memtable_flush_threshold Options_default) (l0_compaction_trigger Options_default)
    (l1_target_bytes Options_default) (level_size_multiplier Options_default) (target_file_size Options_default)
    (max_levels Options_default) (bloom_bits_per_key Options_default) (block_cache_bytes Options_default).

Definition SharedDB (kN : Z) : list client_op := map (fun i => CPut (GbKeyOf i) (GbValueOf i)) (seqZ 0 kN) ++ [CFlush].

(** The benchmarks, over as many iterations as the library asks for: the calls, the
    items processed and the counters. *)
Definition BM_RandomRead (picks : list Z) (n : nat) : result (list client_op * Z * option (Z * Z * Z)) :=
  let calls := map (fun i => CGet (GbKeyOf i)) picks in
  let* counters := ReportPercentiles (timed calls n).1 in
  Ok (calls, blen picks, counters).

Definition BM_SeqWrite (iterations : Z) (n : nat) : result (list client_op * Z * option (Z * Z * Z)) :=
  let calls := map (fun i => CPut (GbKeyOf i) (GbValueOf i)) (seqZ 0 iterations) in
  let* counters := ReportPercentiles (timed calls n).1 in
  Ok (calls, iterations, counters).

End Reports.

(** ** The other reports *)

(** The count of populated levels that bench_compaction.cpp prints. *)
Definition populated (st : Stats) : result Z :=
  fold_left (fun (n : result Z) files => let* n := n in if 0 <? files then int32 (n + 1) else Ok n) (files_per_level st) (Ok 0).

(** [struct Result] of bench_cache.cpp and the end of [RunWorkload]. *)
Record Result := mkResult { mean_ns : spec_float; p50_ns : Z; p99_ns : Z; hit_rate : spec_float }.

Definition workload_result (lat : list Z) (before after : Stats) : result Result :=
  let sorted := std_sort Z.ltb lat in
  let sum := fold_left (fun s x => SFadd 53 1024 s (int_to_double x)) sorted (S754_zero false) in
  let* (a, b) := cache_percentiles lat in
  Ok (mkResult (SFdiv 53 1024 sum (int_to_double (blen sorted))) a b (workload_rate before after)).

(** ** Lemmas: timing *)

Section Timing.
Context `{C : Clock}.
Hypothesis Hsteady : steady C.

Lemma timed_spec calls n :
  (timed calls n).2 = (n + 2 * length calls)%nat /\ length (timed calls n).1 = length calls /\
  forall i j x, (i <= n)%nat -> (n + 2 * length calls <= j)%nat -> x ∈ (timed calls n).1 -> 0 <= x <= now j - now i.
Proof.
  revert n. induction calls as [|op calls IH]; intros n; cbn [timed length].
  { split_and!; [cbn; lia|done|]. intros i j x _ _ []%not_elem_of_nil. }
  destruct (IH (S (S n))) as (E1 & E2 & E3). destruct (timed calls (S (S n))) as [lat n']. cbn [fst snd length] in *. split_and!; [lia|lia|].
  intros i j x Hi Hj [->|Hx]%elem_of_cons; [|apply E3; [lia|lia|done]].
  pose proof (Hsteady n (S n)). pose proof (Hsteady i n Hi). pose proof (Hsteady (S n) j). lia.
Qed.

Lemma Summarize_ops lat el m : Summarize lat el = Ok m -> ops_per_sec m = SFdiv 53 1024 (int_to_double (blen lat)) el.
Proof.
  unfold Summarize. intros (a & _ & E)%rbind_Ok. revert E. intros (b & _ & E)%rbind_Ok. revert E. intros (c & _ & [= <-])%rbind_Ok.
  cbn [ops_per_sec]. by rewrite std_sort_blen.
Qed.

(** A row of the table for a workload of [k] calls that starts with reading [n] of
    the clock and ends with reading [n + 2 k + 1], one on each side of every call in
    between: the percentiles are in order and within the time that the workload
    took, from which the throughput is computed. *)
Definition row_ok (k : Z) (n : nat) (m : Metrics) : Prop :=
  let elapsed := now (n + 2 * Z.to_nat k + 1) - now n in
  0 <= p50 m <= p99 m /\ p99 m <= p999 m <= elapsed /\
  ops_per_sec m = SFdiv 53 1024 (int_to_double k) (seconds elapsed).

(** The reading at which the [i]-th of a sequence of workloads of [k] calls starts. *)
Definition reading (k : Z) (n i : nat) : nat := (n + i * (2 * Z.to_nat k + 2))%nat.

Lemma workload_spec calls k n :
  blen calls = k -> 0 < k < 2 ^ 40 -> exists m, workload calls n = Ok (calls, m, reading k n 1) /\ row_ok k n m.
Proof.
  intros Hk Hl. unfold workload. destruct (timed_spec calls (S n)) as (En & El & Hx). destruct (timed calls (S n)) as [lat n1]. cbn [fst snd] in *.
  assert (blen lat = k) as Hb by (unfold blen in *; lia).
  destruct (summary_spec lat (seconds (now n1 - now n))) as (m & i & j & l & E & _ & _ & _ & _ & _ & _ & _ & H50 & H99 & H999 & Hle); [lia|].
  rewrite E. cbn [rbind]. exists m. assert (n1 = (n + 2 * Z.to_nat k + 1)%nat) as -> by (unfold blen in *; lia).
  split; [do 2 f_equal; unfold reading; lia|]. unfold row_ok.
  pose proof (Hx n (n + 2 * Z.to_nat k + 1)%nat _ ltac:(lia) ltac:(lia) H50).
  pose proof (Hx n (n + 2 * Z.to_nat k + 1)%nat _ ltac:(lia) ltac:(lia) H999).
  split; [lia|]. split; [lia|]. by rewrite (Summarize_ops _ _ _ E), Hb.
Qed.

(** The rows of a half that starts at reading [n]; the workloads run in another order
    than that of the table. *)
Definition rows_ok (kN : Z) (n : nat) (rows : list (bytes * Metrics)) : Prop :=
  map fst rows = [lit "seq-write"; lit "random-write"; lit "seq-read"; lit "random-read"; lit "mixed-50/50"] /\
  Forall2 (fun i row => row_ok kN (reading kN n i) row.2) [4; 0; 2; 1; 3]%nat rows.

Definition step_call (db : vs_db) (st : vs_step) : option client_op :=
  match st, db with VsCall VsA op, VsA | VsCall VsB op, VsB => Some op | _, _ => None end.

(** The calls of a half to one of its databases. *)
Definition calls_on (db : vs_db) (h : VsHalf) : list client_op := omap (step_call db) (steps h).

(** The steps before and after the first wait. *)
Fixpoint until_wait (l : list vs_step) : option (list vs_step * list vs_step) :=
  match l with
  | [] => None
  | VsWait _ :: l => Some ([], l)
  | st :: l => match until_wait l with Some (a, b) => Some (st :: a, b) | None => None end
  end.

(** Whether database "a" is still open when "b" is opened. *)
Fixpoint a_open_at_b (l : list vs_step) : bool :=
  match l with
  | [] | VsDelete VsA :: _ => false
  | VsOpen VsB :: _ => true
  | _ :: l => a_open_at_b l
  end.

Lemma calls_of_other db db' ops : omap (step_call db) (map (VsCall db') ops) = match db, db' with VsA, VsA | VsB, VsB => ops | _, _ => [] end.
Proof. destruct db, db'; induction ops as [|op ops IH]; cbn in *; try done; by rewrite IH. Qed.

Lemma until_wait_calls db ops l : until_wait (map (VsCall db) ops ++ l) = match until_wait l with Some (a, b) => Some (map (VsCall db) ops ++ a, b) | None => None end.
Proof. induction ops as [|op ops IH]; cbn [map app until_wait]; [by destruct (until_wait l) as [[]|]|]. rewrite IH. by destruct (until_wait l) as [[]|]. Qed.

Lemma a_open_calls ops l : a_open_at_b (map (VsCall VsA) ops ++ l) = a_open_at_b l.
Proof. by induction ops as [|op ops IH]. Qed.

Ltac calls_simpl :=
  repeat first [rewrite omap_app | rewrite calls_of_other | rewrite app_nil_r | rewrite <- app_assoc
               | progress (cbn [omap list_omap step_call app])].

(** The calls and the rows of a half. *)
Definition half_ok (kN : Z) (rnd : list Z) (coins : list bool) (n : nat) (h : VsHalf) : Prop :=
  calls_on VsA h = vs_load rnd ++ vs_timed kN rnd coins /\ calls_on VsB h = map vs_put (seqZ 0 kN) /\ rows_ok kN n (rows h).

Lemma halves_spec kN rnd coins n :
  length rnd = Z.to_nat kN -> length coins = length rnd -> 1 <= kN < 2 ^ 40 ->
  (exists h, lsmdb_half kN rnd coins n = Ok (h, reading kN n 5) /\ half_ok kN rnd coins n h /\ a_open_at_b (steps h) = true /\
     exists before after, until_wait (steps h) = Some (before, after) /\ omap (step_call VsA) before = vs_load rnd /\
       omap (step_call VsA) after = vs_timed kN rnd coins) /\
  (exists h, rocks_half kN rnd coins n = Ok (h, reading kN n 5) /\ half_ok kN rnd coins n h /\ a_open_at_b (steps h) = false /\
     until_wait (steps h) = None).
Proof.
  intros Hr Hc HkN. assert (forall {A} (f : A -> client_op) l, length l = Z.to_nat kN -> blen (map f l) = kN) as Hm
    by (intros A f l Hl; unfold blen; rewrite length_map; lia).
  assert (length (seqZ 0 kN) = Z.to_nat kN) as Hs by apply length_seqZ.
  assert (blen (Mixed rnd coins) = kN) as Hx by (unfold Mixed, blen; rewrite length_zip_with; lia).
  assert (forall calls i, blen calls = kN ->
    exists m, workload calls (reading kN n i) = Ok (calls, m, reading kN n (S i)) /\ row_ok kN (reading kN n i) m) as Hw.
  { intros calls i Hl. replace (reading kN n (S i)) with (reading kN (reading kN n i) 1) by (unfold reading; lia). apply workload_spec; lia. }
  destruct (Hw (RandomWrite rnd) O) as (rw & E1 & H1); [by apply Hm|].
  destruct (Hw (Reads rnd) 1%nat) as (rr & E2 & H2); [by apply Hm|].
  destruct (Hw (Reads (seqZ 0 kN)) 2%nat) as (sr & E3 & H3); [by apply Hm|].
  destruct (Hw (Mixed rnd coins) 3%nat) as (mx & E4 & H4); [done|].
  destruct (Hw (map vs_put (seqZ 0 kN)) 4%nat) as (sw & E5 & H5); [by apply Hm|].
  assert (reading kN n 0 = n) as E0 by (unfold reading; lia). rewrite E0 in E1.
  unfold lsmdb_half, rocks_half, Runner_RandomWrite, Runner_Reads, Runner_Mixed, Runner_SeqWrite.
  rewrite E1. cbn [rbind]. rewrite E2. cbn [rbind]. rewrite E3. cbn [rbind]. rewrite E4. cbn [rbind]. rewrite E5. cbn [rbind].
  split; (eexists; split; [done|]); unfold half_ok, rows_ok, calls_on, vs_load, vs_timed; cbn [steps rows app].
  - split_and!; [| |done| | |].
    + by calls_simpl.
    + by calls_simpl.
    + repeat (apply Forall2_cons_2; [assumption|]). apply Forall2_nil_2.
    + cbn [a_open_at_b]. rewrite a_open_calls. cbn [a_open_at_b]. by rewrite !a_open_calls.
    + cbn [until_wait]. rewrite until_wait_calls. cbn [until_wait]. eexists _, _. split; [done|]. split; by calls_simpl.
  - split_and!; [| |done| | |].
    + by calls_simpl.
    + by calls_simpl.
    + repeat (apply Forall2_cons_2; [assumption|]). apply Forall2_nil_2.
    + cbn [a_open_at_b]. rewrite a_open_calls. cbn [a_open_at_b]. by rewrite !a_open_calls.
    + cbn [until_wait]. rewrite until_wait_calls. cbn [until_wait]. rewrite !until_wait_calls. cbn [until_wait]. by rewrite !until_wait_calls.
Qed.

End Timing.

(** ** Lemmas: the user's bytes *)

Lemma history_bytes_app a b : history_bytes (a ++ b) = history_bytes a + history_bytes b.
Proof. unfold history_bytes. induction a as [|e a IH]; cbn [app map foldr]; [done|]. rewrite IH. lia. Qed.

Lemma history_bytes_rev l : history_bytes (rev l) = history_bytes l.
Proof.
  induction l as [|e l IH]; [done|]. cbn [rev]. rewrite history_bytes_app, IH. unfold history_bytes. cbn [map foldr]. lia.
Qed.

Lemma vs_record_bytes idx : 0 <= idx < 2 ^ 31 -> record_bytes (key_record VsKeyOf MakeValue idx) = 113.
Proof.
  intros Hi. unfold record_bytes, key_record, VsKeyOf, MakeValue. cbn [e_key e_value].
  assert (idx < 10 ^ Z.of_nat 10) by (cbn; lia). rewrite prefixed_key by (cbn; lia).
  unfold blen. rewrite length_app, fixed_length, resize_length. done.
Qed.

Lemma vs_records_bytes js : Forall (fun j => 0 <= j < 2 ^ 31) js -> history_bytes (map (key_record VsKeyOf MakeValue) js) = 113 * blen js.
Proof.
  induction 1 as [|j js Hj _ IH]; [done|]. cbn [map]. unfold history_bytes in *. cbn [map foldr]. rewrite IH, vs_record_bytes, blen_cons by done. lia.
Qed.

(** The puts among the coins. *)
Definition heads (coins : list bool) : Z := blen (List.filter id coins).

Lemma mixed_records rnd coins :
  length coins = length rnd -> exists js, omap op_record (Mixed rnd coins) = map (key_record VsKeyOf MakeValue) js /\
    blen js = heads coins /\ forall j, j ∈ js -> j ∈ rnd.
Proof.
  revert coins. induction rnd as [|i rnd IH]; intros [|c coins] Hl; try done.
  { exists []. split; [done|]. split; [done|]. done. }
  injection Hl as Hl. destruct (IH coins Hl) as (js & E & Hn & Hin). unfold Mixed in *. cbn [zip_with omap list_omap].
  destruct c; cbn [op_record vs_put vs_get].
  - exists (i :: js). cbn [map]. rewrite E. split; [done|]. unfold heads in *. cbn [List.filter id]. rewrite !blen_cons, Hn. split; [done|]. set_solver.
  - exists js. split; [done|]. split; [done|]. set_solver.
Qed.

Lemma vs_calls_bytes kN rnd coins :
  rnd ≡ₚ seqZ 0 kN -> length coins = length rnd -> 0 <= kN <= 2 ^ 31 ->
  history_bytes (omap op_record (vs_load rnd ++ vs_timed kN rnd coins)) = 113 * (kN + heads coins).
Proof.
  intros Hp Hc HkN. assert (Forall (fun idx => 0 <= idx < 2 ^ 31) rnd) as Hr.
  { rewrite Hp. apply Forall_forall. intros i ?%elem_of_seqZ. lia. }
  assert (forall order, omap op_record (Reads order) = []) as Hg by (intros l; unfold Reads; by induction l).
  destruct (mixed_records rnd coins Hc) as (js & E & Hn & Hin).
  unfold vs_load, vs_timed. rewrite !omap_app, !Hg, E. cbn [omap list_omap op_record app]. rewrite app_nil_r. unfold RandomWrite.
  rewrite (omap_map op_record vs_put (key_record VsKeyOf MakeValue)) by done. rewrite history_bytes_app, !vs_records_bytes, Hn.
  - unfold blen at 1. rewrite (Permutation_length Hp), length_seqZ. lia.
  - apply Forall_forall. intros j Hj%Hin. rewrite Forall_forall in Hr. by apply Hr.
  - done.
Qed.

(** ** Lemmas: the other reports *)

(** The populated levels of the report are those with data. *)
Lemma populated_levels d st : GetStats d = Ok st -> (forall v, current_ d = Some v -> Forall (fun l => blen l < 2 ^ 31) v) ->
  populated st = TEST_NumLevelsWithData d.
Proof.
  unfold GetStats. destruct (match block_cache_ d with Some c => _ | None => _ end) as [[hits misses] rate].
  intros (v & Hv & [= <-])%rbind_Ok Hn. unfold TEST_NumLevelsWithData, populated. rewrite Hv. cbn [rbind files_per_level].
  destruct (current_ d) as [v'|]; [|done]. injection Hv as ->. specialize (Hn v eq_refl). generalize (Ok 0 : result Z).
  induction Hn as [|l v Hl _ IH]; intros acc; [done|]. cbn [map fold_left]. rewrite IH. f_equal.
  destruct acc as [n|s|]; [|done..]. cbn [rbind]. pose proof (blen_nonneg l). rewrite to_int_small by lia.
  destruct l as [|f l]; [done|]. pose proof (blen_nonneg l). rewrite blen_cons, bool_decide_eq_false_2 by done. by destruct (Z.ltb_spec 0 (1 + blen l)); [|lia].
Qed.

(** The numbers of operations that the report names are those that were made, for
    the driver's number of keys. *)
Lemma stepped_length N step : 0 < step -> 0 <= N -> N mod step = 0 -> blen (stepped N step) = N / step.
Proof.
  intros Hs HN Hm. unfold stepped, blen. rewrite length_map, length_seqZ. pose proof (Z.div_mod N step ltac:(lia)).
  replace (N + step - 1) with ((step - 1) + N / step * step) by lia. rewrite Z.div_add, (Z.div_small (step - 1)) by lia.
  assert (0 <= N / step) by (apply Z.div_pos; lia). lia.
Qed.

Example compaction_operations :
  blen (stepped 300000 1) = 300000 /\ blen (stepped 300000 2) = 300000 / 2 /\ blen (stepped 300000 10) = 300000 / 10.
Proof. split_and!; by rewrite stepped_length. Qed.

(** The summary of the cache driver's workload for any number of reads from one. *)
Lemma workload_result_spec lat before after :
  0 < blen lat < 2 ^ 40 -> exists r, workload_result lat before after = Ok r /\ p50_ns r ∈ lat /\ p99_ns r ∈ lat /\ p50_ns r <= p99_ns r /\
    hit_rate r = workload_rate before after.
Proof.
  intros Hl. unfold workload_result. destruct (cache_percentiles_spec lat Hl) as (a & b & -> & Ha & Hb & Hab). cbn [rbind].
  eexists. split; [done|]. done.
Qed.

(** In the benchmark of random reads every lookup hits, and its counters are
    reported for any number of iterations. *)
Lemma gbench_reads_hit `{Os} `{MemEnv} `{C : Clock} o dir s0 tr s kN picks n :
  usable o -> starts o dir [] s0 -> sys_run s0 tr s -> Forall (fun x => lost x = false) tr -> 0 <= kN <= 2 ^ 31 ->
  Forall (fun i => 0 <= i < kN) picks -> client_calls tr = SharedDB kN ++ map (fun i => CGet (GbKeyOf i)) picks -> blen picks < 2 ^ 40 ->
  (forall j k r, tr !! j = Some (EvClient (CGet k), Some r) ->
    exists i, 0 <= i < kN /\ k = GbKeyOf i /\ r = (Status_OK, Some (LookupResult.kFound, Some (GbValueOf i)))) /\
  exists counters, BM_RandomRead picks n = Ok (map (fun i => CGet (GbKeyOf i)) picks, blen picks, counters) /\
    (counters = None <-> picks = []).
Proof.
  intros Hu Hst Hrun Hl HkN Hp Hcalls Hb. split.
  - intros j k r Hj. assert (forall a b, 0 <= a < kN -> 0 <= b < kN -> VsKeyOf a = VsKeyOf b -> a = b) as Hinj
      by (intros a b Ha Hb'; apply VsKeyOf_inj; lia).
    apply (loaded_lookups_hit VsKeyOf MakeValue kN Hinj o dir s0 tr s (seqZ 0 kN) ([CFlush] ++ map (key_get VsKeyOf) picks) j); try done.
    + rewrite Hcalls. unfold SharedDB. by rewrite <- app_assoc.
    + apply Forall_app_2; [by repeat constructor|by apply gets_are_calls].
  - unfold BM_RandomRead. assert (length (timed (map (fun i => CGet (GbKeyOf i)) picks) n).1 = length picks) as Hlen.
    { rewrite <- (length_map (fun i => CGet (GbKeyOf i)) picks). generalize (map (fun i => CGet (GbKeyOf i)) picks). clear.
      intros l. revert n. induction l as [|op l IH]; intros n; [done|]. cbn [timed]. specialize (IH (S (S n))).
      destruct (timed l _). cbn in *. lia. }
    set (lat := (timed _ n).1) in *. destruct picks as [|i picks].
    + destruct lat; [|done]. exists None. done.
    + destruct (summary_spec lat (seconds 0)) as (m & _ & _ & _ & _ & -> & _); [unfold blen in *; rewrite Hlen; cbn [length] in *; lia|].
      cbn [rbind]. by eexists.
Qed.

(** ** Properties *)

(** C30 (functional). The comparison with RocksDB measures the same workloads, but
    not under the same conditions. For every shuffle of the keys, every sequence of
    coin flips and every steady clock, the two halves of the driver make the same
    calls in the same order to their databases "a" and "b" and print five rows each,
    in which the percentiles are in order and within the time from the first to the
    last reading of the clock by that workload. Over lsmdb, in every interleaving in
    which no put reports failure, every timed lookup finds the value that was written
    for its key. Three things differ: only the half of lsmdb waits, after the load and
    before the timed workloads, until no compaction runs or is needed; only the half
    of RocksDB deletes "a" before it opens "b"; and the write amplification of lsmdb
    is taken over the bytes of all puts, those of the mixed workload included, that of
    RocksDB over the bytes of the first load: 113 for each put against 113 for each
    key. *)
Theorem comparison_measures `{Os} `{MemEnv} `{C : Clock} o dir s0 tr1 s1 tr2 s kN rnd coins flush_b compact_b n :
  usable o -> starts o dir [] s0 -> Forall (fun x => lost x = false) (tr1 ++ tr2) -> steady C ->
  sys_run s0 tr1 s1 -> client_calls tr1 = vs_load rnd -> wait_done s1 = true ->
  sys_run s1 tr2 s -> client_calls tr2 = vs_timed kN rnd coins ->
  rnd ≡ₚ seqZ 0 kN -> length coins = length rnd -> 1 <= kN <= 2 ^ 31 ->
  (exists lsmdb rocks, vs_main kN rnd coins flush_b compact_b n = Ok (lsmdb, rocks, rocks_wamp kN flush_b compact_b) /\
     (calls_on VsA rocks = calls_on VsA lsmdb /\ calls_on VsB rocks = calls_on VsB lsmdb) /\
     (rows_ok kN n (rows lsmdb) /\ rows_ok kN (reading kN n 5) (rows rocks)) /\
     (exists before after, until_wait (steps lsmdb) = Some (before, after) /\
        omap (step_call VsA) before = client_calls tr1 /\ omap (step_call VsA) after = client_calls tr2) /\
     until_wait (steps rocks) = None /\ a_open_at_b (steps lsmdb) = true /\ a_open_at_b (steps rocks) = false) /\
  ((forall c mv, s_bg s1 <> BgMerging c mv) /\ (forall c outputs, s_bg s1 <> BgMerged c outputs) /\
   NeedsCompaction o (current_ (s_db s1)) = false) /\
  (forall j k r, tr2 !! j = Some (EvClient (CGet k), Some r) ->
     exists idx, 0 <= idx < kN /\ k = VsKeyOf idx /\ r = (Status_OK, Some (LookupResult.kFound, Some (MakeValue idx)))) /\
  user_bytes_ (s_db s) = 113 * (kN + heads coins) /\ rocks_user_b kN = 113 * kN.
Proof.
  intros Hu Hst Hl Hs Hrun1 Hcalls1 Hwait Hrun2 Hcalls2 Hp Hc HkN.
  assert (length rnd = Z.to_nat kN) as Hr by (by rewrite (Permutation_length Hp), length_seqZ).
  pose proof (run_app _ _ _ _ _ Hrun1 Hrun2) as Hrun.
  assert (client_calls (tr1 ++ tr2) = vs_load rnd ++ vs_timed kN rnd coins) as Hcalls by (by rewrite client_calls_app, Hcalls1, Hcalls2).
  split; [|split; [|split; [|split]]].
  - unfold vs_main. destruct (halves_spec Hs kN rnd coins n Hr Hc ltac:(lia)) as [(h & -> & (Ha & Hb & Hrow) & Ho & before & after & Hw & H1 & H2) _].
    cbn [rbind]. destruct (halves_spec Hs kN rnd coins (reading kN n 5) Hr Hc ltac:(lia)) as [_ (h' & -> & (Ha' & Hb' & Hrow') & Ho' & Hw')].
    cbn [rbind]. exists h, h'. rewrite Ha, Ha', Hb, Hb', Hcalls1, Hcalls2. split_and!; try done. by exists before, after.
  - exact (wait_returns_idle o dir [] s0 tr1 s1 Hu Hst Hrun1 Hwait).
  - intros j k r Hj. apply (vs_lookups_hit o dir s0 (tr1 ++ tr2) s kN rnd coins (length tr1 + j) k r); try done; [lia|].
    rewrite lookup_app_r by lia. by replace (length tr1 + j - length tr1)%nat with j by lia.
  - destruct Hu as [_ _ Hcache]. rewrite (run_user_bytes s0 (tr1 ++ tr2) s Hrun (open_user_bytes _ _ _ _ Hcache Hst) Hl).
    rewrite history_calls, app_nil_r, history_bytes_rev, Hcalls, vs_calls_bytes by (done || lia).
    assert (0 <= heads coins <= kN). { unfold heads, blen. pose proof (List.filter_length_le id coins). lia. }
    apply u64_small. lia.
  - unfold rocks_user_b. change (13 + Z.of_nat kValueSize) with 113. rewrite (u64_small kN), u64_small by lia. lia.
Qed.

(** Three keys, of which one is put once more by the mixed workload; a clock that
    ticks every other reading. *)
Definition sample_clock : Clock := {| now := fun n => 10 * Z.of_nat (n / 2) |}.

Lemma comparison_measures_witness :
  let rnd := [2; 0; 1] in let coins := [true; false; false] in
  match calls_run vs_options (vs_load rnd) with
  | Some (_, tr1, s1) =>
      match @sys_exec_all plain_os alternating_env s1 (map EvClient (vs_timed 3 rnd coins)) with
      | Some (tr2, s) =>
          (exists lsmdb rocks, @vs_main sample_clock 3 rnd coins 500 300 7 = Ok (lsmdb, rocks, rocks_wamp 3 500 300) /\
             (calls_on VsA rocks = calls_on VsA lsmdb /\ calls_on VsB rocks = calls_on VsB lsmdb) /\
             (@rows_ok sample_clock 3 7 (rows lsmdb) /\ @rows_ok sample_clock 3 47 (rows rocks)) /\
             (exists before after, until_wait (steps lsmdb) = Some (before, after) /\
                omap (step_call VsA) before = client_calls tr1 /\ omap (step_call VsA) after = client_calls tr2) /\
             until_wait (steps rocks) = None /\ a_open_at_b (steps lsmdb) = true /\ a_open_at_b (steps rocks) = false) /\
          ((forall c mv, s_bg s1 <> BgMerging c mv) /\ (forall c outputs, s_bg s1 <> BgMerged c outputs) /\
           NeedsCompaction vs_options (current_ (s_db s1)) = false) /\
          (forall j k r, tr2 !! j = Some (EvClient (CGet k), Some r) ->
             exists idx, 0 <= idx < 3 /\ k = VsKeyOf idx /\ r = (Status_OK, Some (LookupResult.kFound, Some (MakeValue idx)))) /\
          user_bytes_ (s_db s) = 113 * 4 /\ rocks_user_b 3 = 113 * 3
      | None => False
      end
  | None => False
  end.
Proof.
  intros rnd coins. set (load := vs_load rnd). set (timed := vs_timed 3 rnd coins).
  assert (match calls_run vs_options load with
          | Some (_, tr1, s1) => (client_calls tr1 = load /\ wait_done s1 = true) /\
              match @sys_exec_all plain_os alternating_env s1 (map EvClient timed) with
              | Some (tr2, _) => client_calls tr2 = timed /\ forallb (fun x => negb (lost x)) tr2 = true
              | None => False
              end
          | None => False end) as Hs by (vm_compute; repeat split).
  assert (Forall op_fits load) as Hf1 by (repeat apply Forall_cons_2; try apply Forall_nil_2; vm_compute; try exact I; discriminate).
  assert (Forall event_fits (map EvClient timed)) as Hf2 by (repeat apply Forall_cons_2; try apply Forall_nil_2; vm_compute; try exact I; discriminate).
  destruct (calls_run vs_options load) as [[[s0 tr1] s1]|] eqn:E1; [|destruct Hs]. destruct Hs as [[Hc1 Hw] Hs].
  destruct (calls_run_spec _ _ _ _ _ Hf1 E1) as (Hst & Hrun1 & Hl1).
  destruct (@sys_exec_all plain_os alternating_env s1 (map EvClient timed)) as [[tr2 s]|] eqn:E2; [|destruct Hs]. destruct Hs as [Hc2 Hl2].
  apply (@sys_exec_all_run plain_os alternating_env s1 [] s1 _ tr2 s (@run_start _ _ s1) Hf2) in E2.
  apply (@comparison_measures plain_os alternating_env sample_clock vs_options (lit "db") s0 tr1 s1 tr2 s 3 rnd coins 500 300 7);
    [split; cbn; lia|exact Hst| | |exact Hrun1|exact Hc1|exact Hw|exact E2|exact Hc2| |reflexivity|lia].
  - apply Forall_app_2; [exact Hl1|]. apply Forall_forall. intros x Hx%list_elem_of_In. rewrite forallb_forall in Hl2. by apply negb_true_iff, Hl2.
  - intros i j Hij. cbn [now sample_clock]. pose proof (Nat.div_le_mono i j 2 ltac:(lia) Hij). lia.
  - change (seqZ 0 3) with [0; 1; 2]. unfold rnd. by rewrite (Permutation_cons_append [0; 1] 2).
Defined.
